(* ===== verification/_CoqProject ===== *)
-Q . S2P
Prelude.v
Uapi.v
LeaseSM.v
LeaseInv.v
LeasePolicy.v
Bits.v
Mbox.v
SgDesc.v
SgWalk.v
SgEmit.v
LeaseTypes.v
Lease.v
LeaseAnchor.v
BarMap.v
LeaseWorld.v
LeaseDomain.v
LeaseSafety.v
Ioctl.v
MboxFifo.v
Transfer.v
Split.v
QueueV1.v
QueueV2.v
Threads.v
AdminV2.v
Command.v
PciConfig.v
QueueOps.v
Lifecycle.v
Fops.v
Liveness.v
Submit.v
Registry.v
Handlers.v
Pipeline.v
