(* ===== verification/Prelude.v ===== *)
(** * mxdriver: a verification development

    A Rocq model of the XCENA MX-DMA kernel driver (src/) and the theorems that make it
    correct.  Definitions keep the names of the C code, and their guards its order; a C
    integer is a [Z] with its wrap-around written out, an early return is
    [RETURN e WHEN c ;; k], state is a record that is passed along.

    ** The program and its parts

    A PCI function appears on the bus ([mxdma_pci_notify], src/init.c); the driver attaches
    to it: BARs, DMA parameters and MSI (src/init.c), a pair of queues in one of two versions
    (src/core_v1.c: mailboxes in device memory; src/core_v2.c: rings in host memory with
    doorbells and an admin queue), two kernel threads over them (src/core_common.c), a work
    queue and a cleaner of abandoned transfers (src/transfer.c), and three character devices
    (src/fops.c).  A process opens a node, takes a lease on the device (src/lease.c over the
    pure state machine of src/lease_sm.h), and then submits transfers and mailbox words
    through ioctls (src/ioctl.c) or maps the BAR.  A transfer becomes a command with PRP
    descriptors (src/core_common.c), is pushed by the submit thread, completed by the device,
    claimed by the complete thread under its id (src/helper.c), and waited for, or given up
    and left to the cleaner.  Teardown closes the device to new calls, drains the protocol,
    and frees memory only when the device cannot reach it.

    ** The library

    Lease of the device.
    - Uapi, LeaseTypes: constants, ioctl numbers and records of
      src/include/uapi/mx_dma_lease.h, the lease of a device and of a file, the file system
      calls as the parameter [vfs].
    - LeaseSM, LeaseInv, LeasePolicy: src/lease_sm.h; its invariant; the abstract policy the
      admission test implements and the exclusion it gives.
    - Lease, LeaseAnchor, LeaseWorld, LeaseSafety: src/lease.c, every ioctl split where the
      code drops its lock; all files of a device as a step relation, with direct calls,
      transfers and mappings; what the lease protects.
    - LeaseDomain: the slot-domain anchor of src/lease.c, step by step: who sets it, who
      drops it, and the path references behind it and the state anchor.
    - BarMap: BAR mapping (src/core_common.c) against mailbox registration (src/ioctl.c),
      whose two locked sections interleave with everything else; a registration in flight
      carries the request its first section accepted.

    Mailboxes and ioctls.
    - Bits, Mbox: bit fields, index and phase arithmetic (src/mbox.c, src/mx_dma.h).
    - Ioctl, MboxFifo: the handlers of src/ioctl.c as programs over device accesses, run
      against a device that moves between any two of them.  A write with [nowait] is only
      queued when it returns; it takes effect later, or, where a theorem allows it, out of
      order, torn or not at all.

    Transfers and queues.
    - SgDesc, SgWalk, SgEmit: counting and emitting PRP descriptors, and the walk of the
      device as the reference.
    - Command: commands of both versions.
    - Split: mapping bounds and the splitting of a buffer (src/transfer.c).
    - Transfer: the life of a transfer across waiter, threads, device and cleaner, one
      section under a lock per step.
    - Submit: the submission functions of src/transfer.c with every resource they take.
    - QueueV1, QueueV2, AdminV2: the queues and the admin protocol.
    - Handlers, Pipeline: the two handler threads over [mx_queue_ops], and their run over
      the version 2 rings against a device, as a refinement of Transfer.
    - Liveness: the watchdog against a complete thread that writes between any two of its
      accesses, and the timed wait.

    Device and module.
    - PciConfig: what attaching changes of the PCI function, and puts back.
    - Threads, QueueOps: [struct mx_operations] as a class with laws, discharged by both
      versions.
    - Lifecycle: [create_mx_pdev] and [destroy_mx_pdev], proved against the class.
    - Fops: file operations and the [io_ref] fence of the teardown.
    - Registry: attach, detach, notifier, loading and unloading, proved against a class of
      device operations that Lifecycle implements.

    ** What is shown

    - Exclusion: at most one lease family has live hardware access, a quiescent publisher is
      alone, a mapped BAR and a registered mailbox never coexist; the counters behind this
      are exact, and the one way it is lost (a faulting re-acquisition) is a theorem too.
    - Memory safety of DMA: a transfer outlives its command; a version 1 or version 2 command
      makes the device touch exactly its slice; submissions leak nothing on any path;
      teardown frees only what a quiet or disowned device held.
    - Queues: mailboxes and rings are FIFO queues; the rings and the threads implement the
      transfer model; nothing pushed is hidden from the device, no completion is missed or
      claims the wrong transfer; a queue the teardown finds idle leaves nothing but pings;
      a full pass of the complete thread leaves at most pongs that landed after the last
      completion.  The send mailboxes are queues as long as queued writes land in order.
    - Errors: outcomes of admin commands and of queue creation, undoing of a failed attach,
      late completions, and the places where the code falls short.
    - Termination: descriptor lists, passes of the threads, waits of a transfer (the ceiling
      rounded up to whole chunks), the freeing of a claimed transfer by the waiter and the
      cleaner alone, teardown.
    - The module: one object per PCI device, exact references, nothing left at unload.

    ** Bounds and fuel

    - An admin command polls at most [ADMIN_TIMEOUT] = 500 times for room and for its
      completion, as in src/core_v2.c.
    - [emit_loop] has one unit more than the descriptor count, each round stores at most one;
      [submit_loop] has the length of the list, [complete_loop] the number of posted entries:
      the theorems show that this is enough.
    - The wait loops of the teardown are unbounded in the code.  [None] is a loop that is
      still waiting after its fuel; what the device does is a function of the tick, and
      [Lifecycle.unbind_returns] gives the fuel after which it ends.
    - [wait_loop]: [Liveness.transfer_wait_bounded] gives a fuel from the parameters.
    - [wait_room] has the context reads as fuel; [MboxFifo.send_one_returns] shows that one
      is enough once the device has made room, and nothing bounds it when it does not.

    ** What is assumed of the rest

    The kernel's answers (allocations, copies, PCI and DMA calls, clocks, timeouts) are
    arguments, unconstrained unless a theorem says so.  Devices are parameters or steps: a
    mailbox device consumes or produces words in order, and takes a tail or a head from a
    context word only if it is one of its window; the writes queued to it take effect in
    order, and in [MboxFifo.sq_mailbox_fifo] none of them is lost except publications (the
    waiter never recovers one, the device fails none, and user memory is unchanged until it
    is read; [MboxFifo.nowait_lost_write_sends_stale] is what happens otherwise); a version 2 device reads its ring up
    to the doorbell, leaves one completion slot free as NVMe does, reports its head, and
    completes a command at most once with its id.  Interleaving is sequentially consistent
    and one locked section is one step.

    ** Not modelled

    - src/trace.h, src/trace.c: tracepoints, observation only.
    - Formatting in sysfs attributes, log messages, the device tables, class and node naming,
      binding of threads to NUMA nodes and their priorities: calls into the kernel without
      logic of the driver.
    - [mx_prewake_handlers]: it wakes a thread earlier and changes no state.
    - The version 1 mailboxes under both threads at once: QueueV1 has each direction, and
      Handlers the threads over them, but Pipeline is about version 2.
    - The payload of SEND_CMD_WITH_DATA, a queued write to device memory, in the sessions of
      MboxFifo: they have the command word only.
    - The standalone build (CONFIG_WO_CXL) in Registry beyond the parameter [cxl]; it is
      modelled in PciConfig and Lifecycle.
    - tests/, scripts/, install and packaging files.
*)

From Stdlib Require Export ZArith Lia Bool.
From stdpp Require Export base tactics option list gmap numbers.

Global Open Scope Z_scope.

(** ** Notation for C control flow

    The handlers of the driver are sequences of guards with early returns.
    [RETURN e WHEN c ;; k] is [if (c) return e; k]. *)

Declare Scope c_scope.
Delimit Scope c_scope with C.
Global Open Scope c_scope.

Notation "'RETURN' e 'WHEN' c ';;' k" := (if c then e else k)
  (at level 10, e at level 99, c at level 99, k at level 200,
   only parsing) : c_scope.

(** C truth value of an integer, as in [if (x)]. *)
Definition nz (x : Z) : bool := negb (x =? 0).

(** ** Functional record update

    [r <| f := v |>] is the record [r] with field [f] set to [v].  A record type
    gives its eta-expansion once ([Eta]); the setter of a field is computed from
    it by abstracting the projection. *)

Class Eta (R : Type) := eta : R → R.
Class Upd {R T : Type} (p : R → T) := upd : T → R → R.

Ltac derive_upd p :=
  lazymatch type of p with
  | ?R → ?T =>
    let i := constr:(_ : Eta R) in
    let e := eval red in i in
    let e' := eval pattern p in e in
    lazymatch e' with
    | ?g p => let s := eval cbv beta in (fun (v : T) (r : R) => g (fun _ => v) r) in exact s
    end
  end.

#[export] Hint Extern 1 (Upd ?p) => derive_upd p : typeclass_instances.

Notation "r <| f := v |>" := (upd (p := f) v r)
  (at level 1, f at level 9, v at level 200, left associativity) : c_scope.

(** ** Machine-width integers

    A w-bit unsigned integer is a [Z]; the wrap-around of an operation is the
    explicit reduction [uN]. *)

Definition u8 (x : Z) : Z := x mod 2 ^ 8.
Definition u16 (x : Z) : Z := x mod 2 ^ 16.
Definition u32 (x : Z) : Z := x mod 2 ^ 32.
Definition u64 (x : Z) : Z := x mod 2 ^ 64.

Definition U32_MAX : Z := 4294967295.
Definition ULLONG_MAX : Z := 18446744073709551615.
Definition INT_MAX : Z := 2147483647.

Lemma u8_id x : 0 ≤ x < 256 → u8 x = x.
Proof. intros. apply Z.mod_small. lia. Qed.

Lemma u16_id x : 0 ≤ x < 65536 → u16 x = x.
Proof. intros. apply Z.mod_small. lia. Qed.

Lemma u32_id x : 0 ≤ x ≤ U32_MAX → u32 x = x.
Proof. unfold U32_MAX. intros. apply Z.mod_small. lia. Qed.

Lemma u64_id x : 0 ≤ x ≤ ULLONG_MAX → u64 x = x.
Proof. unfold ULLONG_MAX. intros. apply Z.mod_small. lia. Qed.

Lemma u8_range x : 0 ≤ u8 x < 256.
Proof. apply (Z.mod_pos_bound x (2 ^ 8)). lia. Qed.

Lemma u32_range x : 0 ≤ u32 x ≤ U32_MAX.
Proof. unfold U32_MAX. pose proof (Z.mod_pos_bound x (2 ^ 32)). unfold u32. lia. Qed.

Lemma u64_range x : 0 ≤ u64 x ≤ ULLONG_MAX.
Proof. unfold ULLONG_MAX. pose proof (Z.mod_pos_bound x (2 ^ 64)). unfold u64. lia. Qed.

Create HintDb cint.
Create Rewrite HintDb cint.
#[export] Hint Resolve u8_range u32_range u64_range : cint.
#[export] Hint Rewrite u8_id u16_id u32_id u64_id using (unfold U32_MAX, ULLONG_MAX in *; lia) : cint.

(** ** errno values (asm-generic) *)

Definition EPERM : Z := 1.
Definition EINTR : Z := 4.
Definition EIO : Z := 5.
Definition ENXIO : Z := 6.
Definition EAGAIN : Z := 11.
Definition ENOMEM : Z := 12.
Definition EACCES : Z := 13.
Definition EFAULT : Z := 14.
Definition EBUSY : Z := 16.
Definition EXDEV : Z := 18.
Definition ENODEV : Z := 19.
Definition EINVAL : Z := 22.
Definition ENOTTY : Z := 25.
Definition EOVERFLOW : Z := 75.
Definition EOPNOTSUPP : Z := 95.
Definition ESHUTDOWN : Z := 108.
Definition ETIMEDOUT : Z := 110.
Definition EALREADY : Z := 114.
Definition ESTALE : Z := 116.
Definition EUCLEAN : Z := 117.

(** ** Tactics *)

(** Unfold the errno constants so that arithmetic can compare them. *)
Ltac errno :=
  unfold EPERM, EINTR, EIO, ENXIO, EAGAIN, ENOMEM, EACCES, EFAULT, EBUSY, EXDEV, ENODEV,
    EINVAL, ENOTTY, EOVERFLOW, EOPNOTSUPP, ESHUTDOWN, ETIMEDOUT, EALREADY, ESTALE,
    EUCLEAN in *.

(** Split on the guards of a handler, innermost condition first. *)
Ltac split_if :=
  match goal with
  | |- context [if ?c then _ else _] =>
    lazymatch c with context [if _ then _ else _] => fail | _ => destruct c eqn:? end
  | H : context [if ?c then _ else _] |- _ =>
    lazymatch c with context [if _ then _ else _] => fail | _ => destruct c eqn:? end
  end.

Ltac split_ifs := repeat (split_if; simplify_eq/=).

(** Boolean guards to propositions. *)
Ltac breflect :=
  unfold nz in *;
  repeat match goal with
  | H : andb _ _ = true |- _ => apply andb_true_iff in H as [? ?]
  | H : orb _ _ = false |- _ => apply orb_false_iff in H as [? ?]
  | H : negb _ = true |- _ => apply negb_true_iff in H
  | H : negb _ = false |- _ => apply negb_false_iff in H
  | H : (_ =? _) = true |- _ => apply Z.eqb_eq in H
  | H : (_ =? _) = false |- _ => apply Z.eqb_neq in H
  | H : (_ <? _) = true |- _ => apply Z.ltb_lt in H
  | H : (_ <? _) = false |- _ => apply Z.ltb_ge in H
  | H : (_ <=? _) = true |- _ => apply Z.leb_le in H
  | H : (_ <=? _) = false |- _ => apply Z.leb_gt in H
  | H : bool_decide _ = true |- _ => apply bool_decide_eq_true in H
  | H : bool_decide _ = false |- _ => apply bool_decide_eq_false in H
  end.

(** ** Sums over finite maps

    The driver keeps counters of the contexts in a given state.  [msum f m] is
    the ghost value such a counter should have: the sum of [f] over the map. *)

Section msum.
Context {K A : Type} `{Countable K}.
Implicit Types (m : gmap K A) (f g : A → Z).

Definition msum f m : Z := map_fold (fun _ x acc => f x + acc) 0 m.

Lemma msum_empty f : msum f (∅ : gmap K A) = 0.
Proof. apply map_fold_empty. Qed.

Lemma msum_insert f m i x : m !! i = None → msum f (<[i:=x]> m) = f x + msum f m.
Proof. intros ?. unfold msum. rewrite map_fold_insert_L; [done | intros; lia | done]. Qed.

Lemma msum_delete f m i x : m !! i = Some x → msum f m = f x + msum f (delete i m).
Proof. intros ?. unfold msum. rewrite (map_fold_delete_L _ _ i x m); [done | intros; lia | done]. Qed.

(** Overwriting an entry moves the sum by the difference of the two values. *)
Lemma msum_update f m i x y :
  m !! i = Some x → msum f (<[i:=y]> m) = msum f m - f x + f y.
Proof.
  intros Hi. rewrite (msum_delete f m i x Hi).
  rewrite <- insert_delete_eq, msum_insert by apply lookup_delete_eq. lia.
Qed.

Lemma msum_le f g m :
  (∀ i x, m !! i = Some x → f x ≤ g x) → msum f m ≤ msum g m.
Proof.
  induction m as [|i x m Hi IH] using map_ind; intros Hle.
  - rewrite !msum_empty. lia.
  - rewrite !msum_insert by done.
    assert (f x ≤ g x) by (apply (Hle i); apply lookup_insert_eq).
    enough (msum f m ≤ msum g m) by lia.
    apply IH. intros j y Hj. apply (Hle j). rewrite lookup_insert_ne; naive_solver.
Qed.

Lemma msum_ext f g m :
  (∀ i x, m !! i = Some x → f x = g x) → msum f m = msum g m.
Proof.
  intros Heq. apply Z.le_antisymm; apply msum_le; intros i x Hi;
    rewrite (Heq i x Hi); lia.
Qed.

Lemma msum_plus f g m : msum (fun x => f x + g x) m = msum f m + msum g m.
Proof.
  induction m as [|i x m Hi IH] using map_ind; [by rewrite !msum_empty|].
  rewrite !msum_insert by done. lia.
Qed.

Lemma msum_zero m : msum (fun _ => 0) m = 0.
Proof.
  induction m as [|i x m Hi IH] using map_ind; [apply msum_empty|].
  rewrite msum_insert by done. lia.
Qed.

Lemma msum_nonneg f m : (∀ i x, m !! i = Some x → 0 ≤ f x) → 0 ≤ msum f m.
Proof. intros Hf. rewrite <- (msum_zero m) at 1. by apply msum_le. Qed.

(** A single entry is below the sum of a nonnegative measure ... *)
Lemma msum_lookup f m i x :
  (∀ j y, m !! j = Some y → 0 ≤ f y) → m !! i = Some x → f x ≤ msum f m.
Proof.
  intros Hf Hi. rewrite (msum_delete f m i x Hi).
  enough (0 ≤ msum f (delete i m)) by lia.
  apply msum_nonneg. intros j y Hj. apply (Hf j).
  by apply lookup_delete_Some in Hj as [_ ?].
Qed.

(** ... and so are two different entries together. *)
Lemma msum_lookup2 f m i j x y :
  (∀ k z, m !! k = Some z → 0 ≤ f z) →
  m !! i = Some x → m !! j = Some y → i ≠ j → f x + f y ≤ msum f m.
Proof.
  intros Hf Hi Hj Hne. rewrite (msum_delete f m i x Hi).
  enough (f y ≤ msum f (delete i m)) by lia.
  apply (msum_lookup f _ j).
  - intros k z Hk. apply (Hf k). by apply lookup_delete_Some in Hk as [_ ?].
  - by rewrite lookup_delete_ne.
Qed.

(** A positive sum has a positive entry. *)
Lemma msum_pos_witness f m : 0 < msum f m → ∃ i x, m !! i = Some x ∧ 0 < f x.
Proof.
  induction m as [|i x m Hi IH] using map_ind; [rewrite msum_empty; lia|].
  rewrite msum_insert by done. intros Hpos.
  destruct (decide (0 < f x)) as [?|?].
  - exists i, x. split; [apply lookup_insert_eq | done].
  - destruct IH as (j & y & Hj & ?); [lia|]. exists j, y. split; [|done].
    rewrite lookup_insert_ne; naive_solver.
Qed.
End msum.

(** [msum] through a projection of the entries. *)
Lemma msum_fmap {K A B} `{Countable K} (f : B → Z) (p : A → B) (m : gmap K A) :
  msum f (p <$> m) = msum (fun x => f (p x)) m.
Proof.
  induction m as [|i x m Hi IH] using map_ind.
  - by rewrite fmap_empty, !msum_empty.
  - rewrite fmap_insert, !msum_insert; [lia | done |]. by rewrite lookup_fmap, Hi.
Qed.
