(* ===== verification/Uapi.v ===== *)
(** * The lease ABI (src/include/uapi/mx_dma_lease.h)

    The constants of the enumerations and grant bits and the request structures
    that cross the user/kernel boundary.  The fields are u32/u64 words the caller
    chooses, so they stay integers: validity is checked by the code. *)

From S2P Require Import Prelude.

(** ** Constants *)

Definition MX_LEASE_ABI_MAGIC : Z := 0x4d584c4541534531.
Definition MX_LEASE_ABI_VERSION : Z := 1.

Definition MX_LEASE_CAP_OFD_LIFETIME : Z := Z.shiftl 1 0.
Definition MX_LEASE_CAP_STATE_INODE_ANCHOR : Z := Z.shiftl 1 1.
Definition MX_LEASE_CAP_FAMILY_EXCLUSION : Z := Z.shiftl 1 2.
Definition MX_LEASE_CAP_ATOMIC_TRANSITION : Z := Z.shiftl 1 3.
Definition MX_LEASE_CAP_HUB_REPLACEMENT : Z := Z.shiftl 1 4.
Definition MX_LEASE_CAP_LEGACY_EXCLUSION : Z := Z.shiftl 1 5.
Definition MX_LEASE_CAP_HOT_REMOVE_SAFE : Z := Z.shiftl 1 6.
Definition MX_LEASE_CAP_PRIVILEGED_REPLACEMENT : Z := Z.shiftl 1 7.
Definition MX_LEASE_CAP_RESERVED_HIO_QID : Z := Z.shiftl 1 8.
Definition MX_LEASE_CAP_PERSISTENT_STATE_ANCHOR : Z := Z.shiftl 1 9.
Definition MX_LEASE_CAP_PRIVILEGED_FRESH_ANCHOR : Z := Z.shiftl 1 10.
Definition MX_LEASE_CAP_PRIVILEGED_PUBLISHER : Z := Z.shiftl 1 11.
Definition MX_LEASE_CAP_WORKLOAD_PROOF_BINDING : Z := Z.shiftl 1 12.
Definition MX_LEASE_CAP_CANONICAL_SLOT_OFD_PROOF : Z := Z.shiftl 1 13.
Definition MX_LEASE_CAP_COORDINATED_PARTICIPANTS : Z := Z.shiftl 1 14.
Definition MX_LEASE_CAP_WORKLOAD_OFD_LIFETIME : Z := Z.shiftl 1 15.
Definition MX_LEASE_CAP_SCOPED_MEMORY_COMMANDS : Z := Z.shiftl 1 16.

Definition MX_LEASE_MAX_WORKLOAD_SLOT : Z := 4095.
Definition MX_LEASE_WORKLOAD_MARKER_BASE : Z := 0x50590000.
Definition MX_LEASE_WORKLOAD_LIVENESS_OFFSET (slot : Z) : Z := u64 (8192 + slot * 2 + 1).
Definition MX_LEASE_LIFETIME_OFD_FLAG : Z := Z.shiftl 1 32.
Definition MX_LEASE_LIFETIME_OFD_TAG (slot : Z) : Z := Z.lor MX_LEASE_LIFETIME_OFD_FLAG slot.

(** enum mx_lease_profile *)
Definition MX_LEASE_PROFILE_NONE : Z := 0.
Definition MX_LEASE_PROFILE_HUB_PUBLISHER : Z := 1.
Definition MX_LEASE_PROFILE_HUB_WORKLOAD : Z := 2.
Definition MX_LEASE_PROFILE_STANDALONE_PUBLISHER : Z := 3.
Definition MX_LEASE_PROFILE_STANDALONE_WORKLOAD : Z := 4.
Definition MX_LEASE_PROFILE_COORDINATOR_INITIALIZER : Z := 5.
Definition MX_LEASE_PROFILE_COORDINATOR_CONTROL : Z := 6.
Definition MX_LEASE_PROFILE_COORDINATOR_WORKLOAD : Z := 7.
Definition MX_LEASE_PROFILE_MAX : Z := MX_LEASE_PROFILE_COORDINATOR_WORKLOAD.

(** enum mx_lease_family *)
Definition MX_LEASE_FAMILY_NONE : Z := 0.
Definition MX_LEASE_FAMILY_HUB : Z := 1.
Definition MX_LEASE_FAMILY_STANDALONE : Z := 2.
Definition MX_LEASE_FAMILY_COORDINATOR : Z := 3.

(** enum mx_lease_phase *)
Definition MX_LEASE_PHASE_NONE : Z := 0.
Definition MX_LEASE_PHASE_QUIESCENT : Z := 1.
Definition MX_LEASE_PHASE_REPLACEMENT_CANDIDATE : Z := 2.
Definition MX_LEASE_PHASE_WORKLOAD : Z := 3.
Definition MX_LEASE_PHASE_COORDINATOR_PREPARED : Z := 4.

(** enum mx_lease_transition_op *)
Definition MX_LEASE_TRANSITION_NONE : Z := 0.
Definition MX_LEASE_TRANSITION_TRY_QUIESCENT : Z := 1.
Definition MX_LEASE_TRANSITION_ACTIVATE_WORKLOAD : Z := 2.
Definition MX_LEASE_TRANSITION_ACTIVATE_REPLACEMENT : Z := 3.
Definition MX_LEASE_TRANSITION_ACTIVATE_COORDINATOR : Z := 4.
Definition MX_LEASE_TRANSITION_MAX : Z := MX_LEASE_TRANSITION_ACTIVATE_COORDINATOR.

Definition MX_LEASE_GRANT_PUBLISHER : Z := Z.shiftl 1 0.
Definition MX_LEASE_GRANT_FAMILY_HUB : Z := Z.shiftl 1 1.
Definition MX_LEASE_GRANT_FAMILY_STANDALONE : Z := Z.shiftl 1 2.
Definition MX_LEASE_GRANT_QUIESCENT : Z := Z.shiftl 1 3.
Definition MX_LEASE_GRANT_WORKLOAD : Z := Z.shiftl 1 4.
Definition MX_LEASE_GRANT_REPLACEMENT_CANDIDATE : Z := Z.shiftl 1 5.
Definition MX_LEASE_GRANT_STATE_ANCHORED : Z := Z.shiftl 1 6.
Definition MX_LEASE_GRANT_LEGACY : Z := Z.shiftl 1 7.
Definition MX_LEASE_GRANT_SLOT_PROOF_BOUND : Z := Z.shiftl 1 8.
Definition MX_LEASE_GRANT_LIFETIME_PROOF_BOUND : Z := Z.shiftl 1 9.
Definition MX_LEASE_GRANT_SLOT_DOMAIN_ANCHORED : Z := Z.shiftl 1 10.
Definition MX_LEASE_GRANT_FAMILY_COORDINATOR : Z := Z.shiftl 1 11.
Definition MX_LEASE_GRANT_COORDINATOR_PREPARED : Z := Z.shiftl 1 12.
Definition MX_LEASE_GRANT_COORDINATOR_CONTROL : Z := Z.shiftl 1 13.

Definition MX_LEASE_SLOT_MARKER_BASE : Z := 0x50584c00.
Definition MX_LEASE_MAX_SLOT : Z := 63.
Definition MX_LEASE_SLOT_IDENTITY_OFFSET (slot : Z) : Z := u64 (slot * 2).
Definition MX_LEASE_SLOT_LIVENESS_OFFSET (slot : Z) : Z := u64 (slot * 2 + 1).

(** enum mx_lease_proof_op *)
Definition MX_LEASE_PROOF_NONE : Z := 0.
Definition MX_LEASE_PROOF_BIND : Z := 1.
Definition MX_LEASE_PROOF_UNBIND : Z := 2.
Definition MX_LEASE_PROOF_MAX : Z := MX_LEASE_PROOF_UNBIND.

(** enum mx_lease_device_state *)
Definition MX_LEASE_DEVICE_LIVE : Z := 1.
Definition MX_LEASE_DEVICE_REMOVED : Z := 2.

(** Unfold the enumeration constants, so that [lia] sees the numbers. *)
Ltac uapi :=
  unfold MX_LEASE_PROFILE_MAX, MX_LEASE_PROFILE_NONE, MX_LEASE_PROFILE_HUB_PUBLISHER,
    MX_LEASE_PROFILE_HUB_WORKLOAD, MX_LEASE_PROFILE_STANDALONE_PUBLISHER,
    MX_LEASE_PROFILE_STANDALONE_WORKLOAD, MX_LEASE_PROFILE_COORDINATOR_INITIALIZER,
    MX_LEASE_PROFILE_COORDINATOR_CONTROL, MX_LEASE_PROFILE_COORDINATOR_WORKLOAD,
    MX_LEASE_FAMILY_NONE, MX_LEASE_FAMILY_HUB, MX_LEASE_FAMILY_STANDALONE,
    MX_LEASE_FAMILY_COORDINATOR, MX_LEASE_PHASE_NONE, MX_LEASE_PHASE_QUIESCENT,
    MX_LEASE_PHASE_REPLACEMENT_CANDIDATE, MX_LEASE_PHASE_WORKLOAD,
    MX_LEASE_PHASE_COORDINATOR_PREPARED, MX_LEASE_TRANSITION_MAX,
    MX_LEASE_TRANSITION_NONE, MX_LEASE_TRANSITION_TRY_QUIESCENT,
    MX_LEASE_TRANSITION_ACTIVATE_WORKLOAD, MX_LEASE_TRANSITION_ACTIVATE_REPLACEMENT,
    MX_LEASE_TRANSITION_ACTIVATE_COORDINATOR in *.
