(* ===== verification/LeaseSM.v ===== *)
(** * The lease state machine (src/lease_sm.h)

    The counters and flags a device keeps about the open files that hold a lease
    on it ([mx_lease_sm]), the claim of one open file ([mx_lease_sm_holder]), and
    every operation of the header, with the code's guards in the code's order.
    An operation returns the C return value with the state it leaves behind. *)

From S2P Require Import Prelude Uapi.

(** ** State *)

Record mx_lease_sm := MkSm {
  sm_family : Z;
  sm_family_holders : Z;
  sm_publishers : Z;
  sm_workloads : Z;
  sm_legacy_holders : Z;
  sm_quiescent : bool;
  sm_coordinator_ready : bool;
}.

#[export] Instance eta_sm : Eta mx_lease_sm := fun r =>
  MkSm (sm_family r) (sm_family_holders r) (sm_publishers r) (sm_workloads r)
    (sm_legacy_holders r) (sm_quiescent r) (sm_coordinator_ready r).

Record mx_lease_sm_holder := MkHolder {
  h_profile : Z;
  h_phase : Z;
  h_legacy : bool;
}.

#[export] Instance eta_holder : Eta mx_lease_sm_holder := fun r =>
  MkHolder (h_profile r) (h_phase r) (h_legacy r).

#[export] Instance sm_eq_dec : EqDecision mx_lease_sm.
Proof. solve_decision. Defined.

#[export] Instance holder_eq_dec : EqDecision mx_lease_sm_holder.
Proof. solve_decision. Defined.

(** kzalloc'ed device and file context. *)
Definition sm_zero : mx_lease_sm := MkSm 0 0 0 0 0 false false.
Definition holder_zero : mx_lease_sm_holder := MkHolder 0 0 false.

(** ** Operations *)

Definition mx_lease_sm_valid_lifetime_tag (profile tag : Z) : bool :=
  RETURN true WHEN (tag =? 0) ;;
  (profile =? MX_LEASE_PROFILE_COORDINATOR_WORKLOAD) &&
  nz (Z.land tag MX_LEASE_LIFETIME_OFD_FLAG) &&
  negb (nz (Z.land tag (u64 (Z.lnot (Z.lor MX_LEASE_LIFETIME_OFD_FLAG
                                           MX_LEASE_MAX_WORKLOAD_SLOT))))).

Definition mx_lease_profile_is_publisher (profile : Z) : bool :=
  (profile =? MX_LEASE_PROFILE_HUB_PUBLISHER) ||
  (profile =? MX_LEASE_PROFILE_STANDALONE_PUBLISHER) ||
  (profile =? MX_LEASE_PROFILE_COORDINATOR_INITIALIZER).

Definition mx_lease_profile_family (profile : Z) : Z :=
  if (profile =? MX_LEASE_PROFILE_HUB_PUBLISHER) ||
     (profile =? MX_LEASE_PROFILE_HUB_WORKLOAD)
  then MX_LEASE_FAMILY_HUB
  else if (profile =? MX_LEASE_PROFILE_STANDALONE_PUBLISHER) ||
          (profile =? MX_LEASE_PROFILE_STANDALONE_WORKLOAD)
  then MX_LEASE_FAMILY_STANDALONE
  else if (profile =? MX_LEASE_PROFILE_COORDINATOR_INITIALIZER) ||
          (profile =? MX_LEASE_PROFILE_COORDINATOR_CONTROL) ||
          (profile =? MX_LEASE_PROFILE_COORDINATOR_WORKLOAD)
  then MX_LEASE_FAMILY_COORDINATOR
  else MX_LEASE_FAMILY_NONE.

Definition mx_lease_sm_idle (sm : mx_lease_sm) : bool :=
  (sm_family_holders sm =? 0) && (sm_publishers sm =? 0) &&
  (sm_workloads sm =? 0) && negb (sm_quiescent sm).

Definition mx_lease_sm_authorize_memory_cmd (profile subopcode : Z) : Z :=
  RETURN (- EINVAL) WHEN (MX_LEASE_PROFILE_MAX <? profile) ;;
  RETURN (- EPERM) WHEN
    (((subopcode =? 3) || (subopcode =? 6)) &&
     (mx_lease_profile_family profile =? MX_LEASE_FAMILY_COORDINATOR)) ;;
  0.

Definition mx_lease_sm_validate_anchored_acquire (sm : mx_lease_sm)
    (state_family profile : Z) : Z :=
  let requested_family := mx_lease_profile_family profile in
  RETURN (- EBUSY) WHEN
    ((state_family =? 0) || negb (state_family =? requested_family)) ;;
  RETURN (- ENXIO) WHEN
    (mx_lease_sm_idle sm && negb (mx_lease_profile_is_publisher profile) &&
     negb ((state_family =? MX_LEASE_FAMILY_COORDINATOR) && sm_coordinator_ready sm)) ;;
  0.

(** The [switch] of [mx_lease_sm_acquire]: the phase a new claim starts in, or
    the errno of the refusal. *)
Definition acquire_phase (sm : mx_lease_sm) (profile : Z) : Z + Z :=
  if profile =? MX_LEASE_PROFILE_COORDINATOR_INITIALIZER then
    RETURN (inr (- EBUSY)) WHEN
      (nz (sm_publishers sm) || sm_quiescent sm || nz (sm_workloads sm)) ;;
    inl MX_LEASE_PHASE_QUIESCENT
  else if (profile =? MX_LEASE_PROFILE_COORDINATOR_CONTROL) ||
          (profile =? MX_LEASE_PROFILE_COORDINATOR_WORKLOAD) then
    RETURN (inr (- ENXIO)) WHEN (negb (sm_coordinator_ready sm)) ;;
    RETURN (inr (if sm_quiescent sm then - EBUSY else - EOVERFLOW)) WHEN
      (sm_quiescent sm || (sm_workloads sm =? U32_MAX)) ;;
    inl MX_LEASE_PHASE_WORKLOAD
  else if profile =? MX_LEASE_PROFILE_HUB_PUBLISHER then
    RETURN (inr (- EBUSY)) WHEN (nz (sm_publishers sm) || sm_quiescent sm) ;;
    inl (if nz (sm_workloads sm) then MX_LEASE_PHASE_REPLACEMENT_CANDIDATE
         else MX_LEASE_PHASE_QUIESCENT)
  else if profile =? MX_LEASE_PROFILE_STANDALONE_PUBLISHER then
    RETURN (inr (- EBUSY)) WHEN
      (nz (sm_publishers sm) || sm_quiescent sm || nz (sm_workloads sm)) ;;
    inl MX_LEASE_PHASE_QUIESCENT
  else if (profile =? MX_LEASE_PROFILE_HUB_WORKLOAD) ||
          (profile =? MX_LEASE_PROFILE_STANDALONE_WORKLOAD) then
    RETURN (inr (if sm_quiescent sm then - EBUSY else - EOVERFLOW)) WHEN
      (sm_quiescent sm || (sm_workloads sm =? U32_MAX)) ;;
    inl MX_LEASE_PHASE_WORKLOAD
  else inr (- EINVAL).

(** The bookkeeping after the switch. *)
Definition acquire_commit (sm : mx_lease_sm) (profile family phase : Z) : mx_lease_sm :=
  let sm := if mx_lease_profile_is_publisher profile
            then sm <| sm_publishers := u32 (sm_publishers sm + 1) |> else sm in
  let sm := if profile =? MX_LEASE_PROFILE_COORDINATOR_INITIALIZER
            then sm <| sm_coordinator_ready := false |> else sm in
  let sm := if phase =? MX_LEASE_PHASE_QUIESCENT
            then sm <| sm_quiescent := true |>
            else if phase =? MX_LEASE_PHASE_WORKLOAD
            then sm <| sm_workloads := u32 (sm_workloads sm + 1) |> else sm in
  let sm := if negb (nz (sm_family_holders sm))
            then sm <| sm_family := family |> else sm in
  sm <| sm_family_holders := u32 (sm_family_holders sm + 1) |>.

Definition mx_lease_sm_acquire (sm : mx_lease_sm) (holder : mx_lease_sm_holder)
    (profile : Z) : Z * mx_lease_sm * mx_lease_sm_holder :=
  let family := mx_lease_profile_family profile in
  RETURN (- EINVAL, sm, holder) WHEN (negb (nz family)) ;;
  RETURN (- EBUSY, sm, holder) WHEN (h_legacy holder || nz (sm_legacy_holders sm)) ;;
  RETURN (if h_profile holder =? profile then 0 else - EALREADY, sm, holder) WHEN
    (nz (h_profile holder)) ;;
  RETURN (- EBUSY, sm, holder) WHEN
    (negb (sm_family sm =? MX_LEASE_FAMILY_NONE) && negb (sm_family sm =? family)) ;;
  RETURN (- EOVERFLOW, sm, holder) WHEN (sm_family_holders sm =? U32_MAX) ;;
  match acquire_phase sm profile with
  | inr e => (e, sm, holder)
  | inl phase =>
      (0, acquire_commit sm profile family phase,
       holder <| h_profile := profile |> <| h_phase := phase |>)
  end.

(** The initializer's half of [mx_lease_sm_transition]. *)
Definition transition_initializer (sm : mx_lease_sm) (holder : mx_lease_sm_holder)
    (operation active_direct active_transfers bar_mappings : Z)
    (slot_domain_anchored : bool) : Z * mx_lease_sm * mx_lease_sm_holder :=
  RETURN (- EINVAL, sm, holder) WHEN
    (negb (operation =? MX_LEASE_TRANSITION_ACTIVATE_COORDINATOR)) ;;
  RETURN (if sm_coordinator_ready sm then 0 else - EUCLEAN, sm, holder) WHEN
    (h_phase holder =? MX_LEASE_PHASE_COORDINATOR_PREPARED) ;;
  RETURN (- EINVAL, sm, holder) WHEN (negb (h_phase holder =? MX_LEASE_PHASE_QUIESCENT)) ;;
  RETURN (- ENXIO, sm, holder) WHEN (negb slot_domain_anchored) ;;
  RETURN (- EBUSY, sm, holder) WHEN
    (nz active_direct || nz active_transfers || nz bar_mappings) ;;
  RETURN (- EUCLEAN, sm, holder) WHEN (negb (sm_quiescent sm)) ;;
  (0, sm <| sm_quiescent := false |> <| sm_coordinator_ready := true |>,
   holder <| h_phase := MX_LEASE_PHASE_COORDINATOR_PREPARED |>).

(** The [switch] of [mx_lease_sm_transition]. *)
Definition transition_switch (sm : mx_lease_sm) (holder : mx_lease_sm_holder)
    (operation : Z) : Z * mx_lease_sm * mx_lease_sm_holder :=
  if operation =? MX_LEASE_TRANSITION_TRY_QUIESCENT then
    RETURN (0, sm, holder) WHEN (h_phase holder =? MX_LEASE_PHASE_QUIESCENT) ;;
    RETURN (- EINVAL, sm, holder) WHEN
      (negb (h_phase holder =? MX_LEASE_PHASE_REPLACEMENT_CANDIDATE)) ;;
    RETURN (- EBUSY, sm, holder) WHEN (nz (sm_workloads sm) || sm_quiescent sm) ;;
    (0, sm <| sm_quiescent := true |>, holder <| h_phase := MX_LEASE_PHASE_QUIESCENT |>)
  else if operation =? MX_LEASE_TRANSITION_ACTIVATE_WORKLOAD then
    RETURN (0, sm, holder) WHEN (h_phase holder =? MX_LEASE_PHASE_WORKLOAD) ;;
    RETURN (- EINVAL, sm, holder) WHEN
      (negb (h_phase holder =? MX_LEASE_PHASE_QUIESCENT)) ;;
    RETURN (- EOVERFLOW, sm, holder) WHEN (sm_workloads sm =? U32_MAX) ;;
    RETURN (- EUCLEAN, sm, holder) WHEN (negb (sm_quiescent sm)) ;;
    (0, sm <| sm_quiescent := false |> <| sm_workloads := u32 (sm_workloads sm + 1) |>,
     holder <| h_phase := MX_LEASE_PHASE_WORKLOAD |>)
  else if operation =? MX_LEASE_TRANSITION_ACTIVATE_REPLACEMENT then
    RETURN (- EINVAL, sm, holder) WHEN
      (negb (h_profile holder =? MX_LEASE_PROFILE_HUB_PUBLISHER) ||
       negb (h_phase holder =? MX_LEASE_PHASE_REPLACEMENT_CANDIDATE)) ;;
    RETURN (- EOVERFLOW, sm, holder) WHEN (sm_workloads sm =? U32_MAX) ;;
    (0, sm <| sm_workloads := u32 (sm_workloads sm + 1) |>,
     holder <| h_phase := MX_LEASE_PHASE_WORKLOAD |>)
  else (- EINVAL, sm, holder).

Definition mx_lease_sm_transition (sm : mx_lease_sm) (holder : mx_lease_sm_holder)
    (operation active_direct active_transfers bar_mappings : Z)
    (slot_domain_anchored : bool) : Z * mx_lease_sm * mx_lease_sm_holder :=
  RETURN (- EPERM, sm, holder) WHEN
    (negb (mx_lease_profile_is_publisher (h_profile holder)) || h_legacy holder) ;;
  RETURN (transition_initializer sm holder operation active_direct active_transfers
            bar_mappings slot_domain_anchored) WHEN
    (h_profile holder =? MX_LEASE_PROFILE_COORDINATOR_INITIALIZER) ;;
  RETURN (- ENXIO, sm, holder) WHEN
    ((h_profile holder =? MX_LEASE_PROFILE_HUB_PUBLISHER) &&
     ((operation =? MX_LEASE_TRANSITION_ACTIVATE_WORKLOAD) ||
      (operation =? MX_LEASE_TRANSITION_ACTIVATE_REPLACEMENT)) &&
     negb slot_domain_anchored) ;;
  RETURN (- EBUSY, sm, holder) WHEN
    ((operation =? MX_LEASE_TRANSITION_ACTIVATE_WORKLOAD) &&
     (h_phase holder =? MX_LEASE_PHASE_QUIESCENT) &&
     (nz active_direct || nz active_transfers || nz bar_mappings)) ;;
  transition_switch sm holder operation.

Definition mx_lease_sm_release (sm : mx_lease_sm) (holder : mx_lease_sm_holder)
    : mx_lease_sm * mx_lease_sm_holder :=
  RETURN (if nz (sm_legacy_holders sm)
          then sm <| sm_legacy_holders := u32 (sm_legacy_holders sm - 1) |> else sm,
          holder <| h_legacy := false |>) WHEN (h_legacy holder) ;;
  RETURN (sm, holder) WHEN (negb (nz (h_profile holder))) ;;
  let sm := if (h_phase holder =? MX_LEASE_PHASE_WORKLOAD) && nz (sm_workloads sm)
            then sm <| sm_workloads := u32 (sm_workloads sm - 1) |>
            else if h_phase holder =? MX_LEASE_PHASE_QUIESCENT
            then sm <| sm_quiescent := false |> else sm in
  let sm := if mx_lease_profile_is_publisher (h_profile holder) && nz (sm_publishers sm)
            then sm <| sm_publishers := u32 (sm_publishers sm - 1) |> else sm in
  let sm := if nz (sm_family_holders sm)
            then sm <| sm_family_holders := u32 (sm_family_holders sm - 1) |> else sm in
  let sm := if negb (nz (sm_family_holders sm))
            then sm <| sm_family := MX_LEASE_FAMILY_NONE |> else sm in
  (sm, holder <| h_profile := MX_LEASE_PROFILE_NONE |> <| h_phase := MX_LEASE_PHASE_NONE |>).

Definition mx_lease_sm_authorize_direct (sm : mx_lease_sm) (holder : mx_lease_sm_holder)
    : Z * mx_lease_sm * mx_lease_sm_holder :=
  RETURN (if h_phase holder =? MX_LEASE_PHASE_REPLACEMENT_CANDIDATE then - EACCES
          else if (h_phase holder =? MX_LEASE_PHASE_QUIESCENT) ||
                  (h_phase holder =? MX_LEASE_PHASE_WORKLOAD) then 0 else - EACCES,
          sm, holder) WHEN (nz (h_profile holder)) ;;
  RETURN (0, sm, holder) WHEN (h_legacy holder) ;;
  RETURN (- EBUSY, sm, holder) WHEN (negb (mx_lease_sm_idle sm)) ;;
  RETURN (- EOVERFLOW, sm, holder) WHEN (sm_legacy_holders sm =? U32_MAX) ;;
  (0, sm <| sm_legacy_holders := u32 (sm_legacy_holders sm + 1) |>,
   holder <| h_legacy := true |>).

Definition mx_lease_sm_authorize_direct_anchored (sm : mx_lease_sm)
    (holder : mx_lease_sm_holder) (anchored : bool)
    : Z * mx_lease_sm * mx_lease_sm_holder :=
  RETURN (- EBUSY, sm, holder) WHEN
    (anchored && negb (nz (h_profile holder)) && negb (h_legacy holder)) ;;
  mx_lease_sm_authorize_direct sm holder.

(** Also returns the new value of [*active_direct]. *)
Definition mx_lease_sm_admit_direct (sm : mx_lease_sm) (holder : mx_lease_sm_holder)
    (anchored : bool) (active_direct : Z)
    : Z * mx_lease_sm * mx_lease_sm_holder * Z :=
  RETURN (- EOVERFLOW, sm, holder, active_direct) WHEN (active_direct =? U32_MAX) ;;
  let '(ret, sm, holder) := mx_lease_sm_authorize_direct_anchored sm holder anchored in
  RETURN (ret, sm, holder, active_direct) WHEN (nz ret) ;;
  (0, sm, holder, u32 (active_direct + 1)).

Definition mx_lease_sm_release_direct (active_direct : Z) : Z :=
  if nz active_direct then u32 (active_direct - 1) else active_direct.

Definition mx_lease_sm_validate_slot_domain_anchor (holder : mx_lease_sm_holder)
    (state_family : Z) (state_anchored : bool)
    (active_direct active_transfers bar_mappings : Z)
    (domain_anchored same_inode : bool) : Z :=
  if h_profile holder =? MX_LEASE_PROFILE_COORDINATOR_INITIALIZER then
    RETURN (- EACCES) WHEN
      (negb (h_phase holder =? MX_LEASE_PHASE_QUIESCENT) ||
       negb (state_family =? MX_LEASE_FAMILY_COORDINATOR) || negb state_anchored) ;;
    RETURN (- EBUSY) WHEN (nz active_direct || nz active_transfers || nz bar_mappings) ;;
    (if domain_anchored && negb same_inode then - EXDEV else 0)
  else
    RETURN (- EACCES) WHEN
      (negb (h_profile holder =? MX_LEASE_PROFILE_HUB_PUBLISHER) ||
       (negb (h_phase holder =? MX_LEASE_PHASE_QUIESCENT) &&
        negb (h_phase holder =? MX_LEASE_PHASE_REPLACEMENT_CANDIDATE)) ||
       negb (state_family =? MX_LEASE_FAMILY_HUB) || negb state_anchored) ;;
    RETURN (- EBUSY) WHEN (nz active_direct || nz active_transfers || nz bar_mappings) ;;
    RETURN (- EXDEV) WHEN (domain_anchored && negb same_inode) ;;
    0.

Definition mx_lease_sm_validate_proofs (profile : Z)
    (ever_bound slot_bound lifetime_bound : bool) : Z :=
  RETURN (- EACCES) WHEN
    (((profile =? MX_LEASE_PROFILE_COORDINATOR_CONTROL) ||
      (ever_bound && (profile =? MX_LEASE_PROFILE_HUB_WORKLOAD))) && negb slot_bound) ;;
  RETURN (- EACCES) WHEN
    (((profile =? MX_LEASE_PROFILE_COORDINATOR_WORKLOAD) ||
      (ever_bound && (profile =? MX_LEASE_PROFILE_STANDALONE_WORKLOAD))) &&
     negb lifetime_bound) ;;
  0.
