(* ===== verification/LeaseInv.v ===== *)
(** * Correctness of the lease state machine

    The device counters of [mx_lease_sm] against the claims of all open files:
    the invariant [lease_inv], its preservation by every operation of
    src/lease_sm.h, the exclusion theorems it gives, and the refinement of the
    counter-based admission test by a policy stated on the set of live claims. *)

From S2P Require Import Prelude Uapi LeaseSM.

(** ** Ghost measures of one claim *)

Definition is_hold (h : mx_lease_sm_holder) : Z := Z.b2z (nz (h_profile h)).
Definition is_pub (h : mx_lease_sm_holder) : Z :=
  Z.b2z (mx_lease_profile_is_publisher (h_profile h)).
Definition in_workload (h : mx_lease_sm_holder) : Z :=
  Z.b2z (h_phase h =? MX_LEASE_PHASE_WORKLOAD).
Definition in_quiescent (h : mx_lease_sm_holder) : Z :=
  Z.b2z (h_phase h =? MX_LEASE_PHASE_QUIESCENT).
Definition is_legacy (h : mx_lease_sm_holder) : Z := Z.b2z (h_legacy h).

(** The phases each profile can be in. *)
Definition holder_wf (h : mx_lease_sm_holder) : Prop :=
  (h_legacy h = true → h_profile h = 0) ∧
  ((h_profile h = 0 ∧ h_phase h = 0) ∨
   (h_profile h = 1 ∧ 1 ≤ h_phase h ≤ 3) ∨
   (h_profile h = 3 ∧ (h_phase h = 1 ∨ h_phase h = 3)) ∨
   (h_profile h = 5 ∧ (h_phase h = 1 ∨ h_phase h = 4)) ∨
   ((h_profile h = 2 ∨ h_profile h = 4 ∨ h_profile h = 6 ∨ h_profile h = 7) ∧
    h_phase h = 3)).

(** The invariant of a device: [hs] are the claims of its open files. *)
Record lease_inv (sm : mx_lease_sm) (hs : gmap nat mx_lease_sm_holder) : Prop := {
  inv_wf : ∀ i h, hs !! i = Some h → holder_wf h;
  inv_family : ∀ i h, hs !! i = Some h → h_profile h ≠ 0 →
    mx_lease_profile_family (h_profile h) = sm_family sm;
  inv_family_none : sm_family sm = MX_LEASE_FAMILY_NONE ↔ sm_family_holders sm = 0;
  inv_holders : sm_family_holders sm = msum is_hold hs;
  inv_pubs : sm_publishers sm = msum is_pub hs;
  inv_workloads : sm_workloads sm = msum in_workload hs;
  inv_quiescent : Z.b2z (sm_quiescent sm) = msum in_quiescent hs;
  inv_legacy : sm_legacy_holders sm = msum is_legacy hs;
  inv_pub1 : sm_publishers sm ≤ 1;
  inv_q_exclusive : sm_quiescent sm = true → sm_workloads sm = 0;
  inv_legacy_exclusive : sm_legacy_holders sm = 0 ∨ sm_family_holders sm = 0;
  inv_prepared : ∀ i h, hs !! i = Some h →
    h_phase h = MX_LEASE_PHASE_COORDINATOR_PREPARED → sm_coordinator_ready sm = true;
  inv_holders_u32 : sm_family_holders sm ≤ U32_MAX;
  inv_legacy_u32 : sm_legacy_holders sm ≤ U32_MAX;
}.

(** ** Automation *)

(** Turn the measures of claims into arithmetic on their fields. *)
Ltac measures :=
  unfold is_hold, is_pub, in_workload, in_quiescent, is_legacy, nz,
    mx_lease_profile_is_publisher, mx_lease_profile_family in *; uapi.

(** Close goals over the fields of a claim and the device counters. *)
Ltac lease_lia := measures; unfold U32_MAX in *; breflect; cbn in *; try lia;
  repeat (split_if; breflect); cbn in *; subst; try lia; try congruence.

Lemma is_hold_range h : 0 ≤ is_hold h ≤ 1.
Proof. unfold is_hold. destruct (nz _); cbn; lia. Qed.
Lemma is_pub_range h : 0 ≤ is_pub h ≤ 1.
Proof. unfold is_pub. destruct (mx_lease_profile_is_publisher _); cbn; lia. Qed.
Lemma in_workload_range h : 0 ≤ in_workload h ≤ 1.
Proof. unfold in_workload. destruct (_ =? _); cbn; lia. Qed.
Lemma in_quiescent_range h : 0 ≤ in_quiescent h ≤ 1.
Proof. unfold in_quiescent. destruct (_ =? _); cbn; lia. Qed.
Lemma is_legacy_range h : 0 ≤ is_legacy h ≤ 1.
Proof. unfold is_legacy. destruct (h_legacy h); cbn; lia. Qed.

Create HintDb lease.
#[export] Hint Resolve is_hold_range is_pub_range in_workload_range in_quiescent_range
  is_legacy_range : lease.

(** A claim in a phase is a claim; a non-publisher claim is a workload; the
    quiescent phase belongs to a publisher. *)
Lemma wf_workload_hold h : holder_wf h → in_workload h ≤ is_hold h.
Proof. intros [_ Hp]. measures. destruct (h_profile h =? 0) eqn:?, (h_phase h =? 3) eqn:?; cbn; lia. Qed.

Lemma wf_quiescent_pub h : holder_wf h → in_quiescent h ≤ is_pub h.
Proof.
  intros [_ Hp]. measures.
  destruct (h_profile h =? 1) eqn:?, (h_profile h =? 3) eqn:?, (h_profile h =? 5) eqn:?,
    (h_phase h =? 1) eqn:?; cbn; lia.
Qed.

Lemma wf_pub_hold h : is_pub h ≤ is_hold h.
Proof.
  measures. destruct (h_profile h =? 1) eqn:?, (h_profile h =? 3) eqn:?,
    (h_profile h =? 5) eqn:?, (h_profile h =? 0) eqn:?; cbn; lia.
Qed.

Lemma wf_hold_split h : holder_wf h → is_hold h ≤ in_workload h + is_pub h.
Proof.
  intros [_ Hp]. measures.
  destruct (h_profile h =? 0) eqn:?, (h_profile h =? 1) eqn:?, (h_profile h =? 3) eqn:?,
    (h_profile h =? 5) eqn:?, (h_phase h =? 3) eqn:?; cbn; lia.
Qed.

Lemma wf_prepared_pub h :
  holder_wf h → h_phase h = MX_LEASE_PHASE_COORDINATOR_PREPARED → is_pub h = 1.
Proof.
  intros [_ Hp] Hx. measures. destruct (h_profile h =? 5) eqn:?; [|lia].
  by rewrite orb_true_r.
Qed.

Section with_inv.
Context (sm : mx_lease_sm) (hs : gmap nat mx_lease_sm_holder).
Hypothesis Hinv : lease_inv sm hs.

Local Ltac nonneg L := apply msum_nonneg; intros; apply L.

Lemma counters_nonneg :
  0 ≤ sm_family_holders sm ∧ 0 ≤ sm_publishers sm ∧ 0 ≤ sm_workloads sm ∧
  0 ≤ sm_legacy_holders sm.
Proof.
  rewrite (inv_holders _ _ Hinv), (inv_pubs _ _ Hinv), (inv_workloads _ _ Hinv),
    (inv_legacy _ _ Hinv).
  split_and!; [nonneg is_hold_range | nonneg is_pub_range | nonneg in_workload_range
    | nonneg is_legacy_range].
Qed.

(** Workload and publisher claims are claims; every claim is one of the two. *)
Lemma counters_ordered :
  sm_workloads sm ≤ sm_family_holders sm ∧ sm_publishers sm ≤ sm_family_holders sm ∧
  sm_family_holders sm ≤ sm_workloads sm + sm_publishers sm ∧
  Z.b2z (sm_quiescent sm) ≤ sm_publishers sm.
Proof.
  rewrite (inv_holders _ _ Hinv), (inv_pubs _ _ Hinv), (inv_workloads _ _ Hinv),
    (inv_quiescent _ _ Hinv), <- msum_plus.
  pose proof (inv_wf _ _ Hinv).
  split_and!; apply msum_le; eauto using wf_workload_hold, wf_pub_hold, wf_hold_split,
    wf_quiescent_pub.
Qed.

(** What the counters say about one claim. *)
Lemma claim_counted i h :
  hs !! i = Some h →
  is_hold h ≤ sm_family_holders sm ∧ is_pub h ≤ sm_publishers sm ∧
  in_workload h ≤ sm_workloads sm ∧ in_quiescent h ≤ Z.b2z (sm_quiescent sm) ∧
  is_legacy h ≤ sm_legacy_holders sm.
Proof.
  intros Hi. rewrite (inv_holders _ _ Hinv), (inv_pubs _ _ Hinv), (inv_workloads _ _ Hinv),
    (inv_quiescent _ _ Hinv), (inv_legacy _ _ Hinv).
  split_and!; (eapply msum_lookup; [|done]); intros;
    [apply is_hold_range | apply is_pub_range | apply in_workload_range
     | apply in_quiescent_range | apply is_legacy_range].
Qed.

(** A publisher claim outside the quiescent phase excludes the phase. *)
Lemma claim_pub_quiescent i h :
  hs !! i = Some h → is_pub h - in_quiescent h ≤ sm_publishers sm - Z.b2z (sm_quiescent sm).
Proof.
  intros Hi. rewrite (inv_pubs _ _ Hinv), (inv_quiescent _ _ Hinv).
  set (f x := is_pub x - in_quiescent x).
  assert (msum is_pub hs = msum in_quiescent hs + msum f hs) as ->.
  { rewrite <- msum_plus. apply msum_ext. unfold f. intros; lia. }
  enough (f h ≤ msum f hs) by (unfold f at 1 in H; lia).
  apply (msum_lookup f hs i); [|done]. intros j y Hj. unfold f.
  pose proof (wf_quiescent_pub y (inv_wf _ _ Hinv j y Hj)). lia.
Qed.

(** The general preservation lemma: replacing one claim and moving every
    counter by the difference keeps the invariant. *)
Lemma inv_update i h sm' h' :
  hs !! i = Some h → holder_wf h' →
  sm_family_holders sm' = sm_family_holders sm - is_hold h + is_hold h' →
  sm_publishers sm' = sm_publishers sm - is_pub h + is_pub h' →
  sm_workloads sm' = sm_workloads sm - in_workload h + in_workload h' →
  Z.b2z (sm_quiescent sm') = Z.b2z (sm_quiescent sm) - in_quiescent h + in_quiescent h' →
  sm_legacy_holders sm' = sm_legacy_holders sm - is_legacy h + is_legacy h' →
  sm_publishers sm' ≤ 1 →
  (sm_quiescent sm' = true → sm_workloads sm' = 0) →
  (sm_legacy_holders sm' = 0 ∨ sm_family_holders sm' = 0) →
  (sm_family sm' = MX_LEASE_FAMILY_NONE ↔ sm_family_holders sm' = 0) →
  (h_profile h' ≠ 0 → mx_lease_profile_family (h_profile h') = sm_family sm') →
  (sm_family sm' = sm_family sm ∨ sm_family_holders sm - is_hold h = 0) →
  (h_phase h' = MX_LEASE_PHASE_COORDINATOR_PREPARED → sm_coordinator_ready sm' = true) →
  (sm_coordinator_ready sm' = sm_coordinator_ready sm ∨ sm_coordinator_ready sm' = true ∨
   sm_publishers sm - is_pub h = 0) →
  sm_family_holders sm' ≤ U32_MAX → sm_legacy_holders sm' ≤ U32_MAX →
  lease_inv sm' (<[i:=h']> hs).
Proof.
  intros Hi Hwf Hhold Hpub Hwl Hq Hleg Hp1 Hqx Hlx Hfn Hfam Hfam' Hprep Hready Hb1 Hb2.
  assert (Hothers : ∀ f : mx_lease_sm_holder → Z, (∀ x, 0 ≤ f x) → ∀ j x, j ≠ i →
    hs !! j = Some x → f x ≤ msum f hs - f h).
  { intros f Hf j x Hne Hj.
    pose proof (msum_lookup2 f hs i j h x (fun _ _ _ => Hf _) Hi Hj (not_eq_sym Hne)). lia. }
  constructor; try done; rewrite ?(msum_update _ hs i h h' Hi).
  - intros j x [[-> ->]|[? Hj]]%lookup_insert_Some; [done|]. by eapply inv_wf.
  - intros j x [[-> ->]|[? Hj]]%lookup_insert_Some; [done|]. intros Hx.
    assert (is_hold x = 1) by (unfold is_hold, nz; by rewrite (proj2 (Z.eqb_neq _ _) Hx)).
    pose proof (Hothers is_hold (fun x => proj1 (is_hold_range x)) j x ltac:(done) Hj) as Ho.
    rewrite <- (inv_holders _ _ Hinv) in Ho.
    rewrite (inv_family _ _ Hinv j x Hj Hx).
    destruct Hfam' as [->|Hzero]; [done | lia].
  - rewrite <- (inv_holders _ _ Hinv). lia.
  - rewrite <- (inv_pubs _ _ Hinv). lia.
  - rewrite <- (inv_workloads _ _ Hinv). lia.
  - rewrite <- (inv_quiescent _ _ Hinv). lia.
  - rewrite <- (inv_legacy _ _ Hinv). lia.
  - intros j x [[-> ->]|[? Hj]]%lookup_insert_Some; [done|]. intros Hx.
    pose proof (inv_prepared _ _ Hinv j x Hj Hx) as Hr.
    destruct Hready as [->|[->|Hzero]]; [done | done |].
    pose proof (wf_prepared_pub x (inv_wf _ _ Hinv j x Hj) Hx).
    pose proof (Hothers is_pub (fun x => proj1 (is_pub_range x)) j x ltac:(done) Hj) as Ho.
    rewrite <- (inv_pubs _ _ Hinv) in Ho. lia.
Qed.
End with_inv.

(** ** Every operation preserves the invariant *)

(** What an accepted profile says about the device it is admitted to. *)
Lemma acquire_phase_spec sm p ph :
  acquire_phase sm p = inl ph →
  sm_quiescent sm = false ∧
  ((mx_lease_profile_is_publisher p = true ∧ sm_publishers sm = 0 ∧
    (p = 1 ∨ p = 3 ∨ p = 5) ∧
    ((ph = 1 ∧ sm_workloads sm = 0) ∨ (p = 1 ∧ ph = 2 ∧ sm_workloads sm ≠ 0))) ∨
   (mx_lease_profile_is_publisher p = false ∧ ph = 3 ∧ sm_workloads sm ≠ U32_MAX ∧
    (p = 2 ∨ p = 4 ∨ ((p = 6 ∨ p = 7) ∧ sm_coordinator_ready sm = true)))).
Proof.
  unfold acquire_phase, mx_lease_profile_is_publisher. uapi. intros Hph.
  repeat match type of Hph with context [p =? ?k] => destruct (Z.eqb_spec p k); subst; cbn in * end;
    try discriminate; split_ifs; breflect; (split; [done|]); try (by left; split_and!; auto);
    right; split_and!; auto.
Qed.

Lemma family_nonzero p :
  mx_lease_profile_family p ≠ 0 ↔ 1 ≤ p ≤ 7.
Proof.
  unfold mx_lease_profile_family. uapi.
  repeat match goal with |- context [p =? ?k] => destruct (Z.eqb_spec p k); subst; cbn end; lia.
Qed.

(** A legal claim without a profile is in no phase. *)
Lemma wf_no_profile h : holder_wf h → h_profile h = 0 → h_phase h = 0.
Proof. intros [_ ?] ?. lia. Qed.

(** Discharge the side conditions of [inv_update] at a concrete claim. *)
Ltac claim_update Hinv Hi :=
  eapply (inv_update _ _ Hinv _ _ _ _ Hi); cbn -[u32 Z.add Z.sub];
  rewrite ?u32_id by (unfold U32_MAX in *; lia);
  unfold holder_wf, is_hold, is_pub, in_workload, in_quiescent, is_legacy, U32_MAX in *;
  uapi; cbn in *; simplify_eq/=; try lia; try tauto; try (intros; lia); auto.

Lemma acquire_inv sm hs i h p r sm' h' :
  lease_inv sm hs → hs !! i = Some h →
  mx_lease_sm_acquire sm h p = (r, sm', h') → lease_inv sm' (<[i:=h']> hs).
Proof.
  intros Hinv Hi Hacq.
  unfold mx_lease_sm_acquire in Hacq. cbv zeta in Hacq.
  repeat (case_match; [simplify_eq; by rewrite insert_id|]).
  case_match eqn:Hph; simplify_eq; [|by rewrite insert_id]. breflect.
  pose proof (wf_no_profile h (inv_wf _ _ Hinv i h Hi) ltac:(done)) as Hph0.
  pose proof (counters_nonneg _ _ Hinv). pose proof (counters_ordered _ _ Hinv).
  pose proof (inv_holders_u32 _ _ Hinv). pose proof (inv_family_none _ _ Hinv) as Hnone.
  pose proof (inv_pub1 _ _ Hinv).
  apply acquire_phase_spec in Hph as [Hq Hph].
  destruct sm as [fam fh pubs wl leg q rdy], h as [hp hph hl]; cbn in *; subst.
  unfold acquire_commit, nz; cbn [sm_family_holders upd].
  destruct Hph as [(Hpub & ? & [->|[->| ->]] & [[-> ?]|(? & -> & ?)])
                  |(Hpub & -> & ? & [->|[->|[[->| ->] ?]]])]; try lia;
    cbn in *; subst; destruct (Z.eqb_spec fh 0); cbn in *; subst.
  all: claim_update Hinv Hi.
Qed.

Lemma release_inv sm hs i h sm' h' :
  lease_inv sm hs → hs !! i = Some h →
  mx_lease_sm_release sm h = (sm', h') → lease_inv sm' (<[i:=h']> hs).
Proof.
  intros Hinv Hi Hrel.
  pose proof (inv_wf _ _ Hinv i h Hi) as Hwf.
  pose proof (claim_counted _ _ Hinv i h Hi) as (Ch & Cp & Cw & Cq & Cl).
  pose proof (counters_nonneg _ _ Hinv). pose proof (counters_ordered _ _ Hinv).
  pose proof (inv_holders_u32 _ _ Hinv). pose proof (inv_legacy_u32 _ _ Hinv).
  pose proof (inv_family_none _ _ Hinv) as Hnone. pose proof (inv_pub1 _ _ Hinv).
  pose proof (inv_legacy_exclusive _ _ Hinv). pose proof (inv_q_exclusive _ _ Hinv).
  pose proof (inv_family _ _ Hinv i h Hi) as Hfam.
  unfold mx_lease_sm_release in Hrel. cbv zeta in Hrel.
  destruct sm as [fam fh pubs wl leg q rdy], h as [hp hph hl]; cbn in *.
  unfold is_hold, is_pub, in_workload, in_quiescent, is_legacy, nz in Ch, Cp, Cw, Cq, Cl;
    uapi; cbn in *.
  destruct hl.
  { destruct Hwf as [Hl Hp]. specialize (Hl eq_refl); cbn in Hl, Hp, Cl; subst hp.
    assert (hph = 0) as -> by lia. unfold nz in Hrel.
    destruct (Z.eqb_spec leg 0); simplify_eq/=; [lia|]. claim_update Hinv Hi. }
  destruct Hwf as [_ Hp]. cbn in Hp. unfold nz in Hrel. destruct (Z.eqb_spec hp 0); cbn in Hrel.
  { simplify_eq. by rewrite insert_id. }
  specialize (Hfam n).
  assert (fh ≠ 0) by (cbn in Ch; lia).
  destruct Hp as [[? ?]|[[-> Hp]|[[-> Hp]|[[-> Hp]|[Hhp ->]]]]]; [lia|..];
    [ assert (hph = 1 ∨ hph = 2 ∨ hph = 3) as [->|[->| ->]] by lia
    | destruct Hp as [->| ->] | destruct Hp as [->| ->]
    | destruct Hhp as [->|[->|[->| ->]]] ].
  all: cbn in *; destruct q; cbn in *; try lia.
  all: repeat match type of Hrel with context [?x =? 0] =>
         rewrite (proj2 (Z.eqb_neq x 0)) in Hrel by lia; cbn in Hrel end.
  all: rewrite ?u32_id in Hrel by (unfold U32_MAX in *; lia).
  all: destruct (Z.eqb_spec (fh - 1) 0); cbn in Hrel; simplify_eq/=.
  all: claim_update Hinv Hi.
Qed.

Lemma authorize_direct_anchored_inv sm hs i h anchored r sm' h' :
  lease_inv sm hs → hs !! i = Some h →
  mx_lease_sm_authorize_direct_anchored sm h anchored = (r, sm', h') →
  lease_inv sm' (<[i:=h']> hs).
Proof.
  intros Hinv Hi Hauth.
  pose proof (inv_wf _ _ Hinv i h Hi) as Hwf.
  pose proof (counters_nonneg _ _ Hinv). pose proof (inv_legacy_u32 _ _ Hinv).
  pose proof (inv_family_none _ _ Hinv) as Hnone.
  unfold mx_lease_sm_authorize_direct_anchored, mx_lease_sm_authorize_direct in Hauth.
  repeat (case_match; [simplify_eq; by rewrite insert_id|]). simplify_eq.
  unfold mx_lease_sm_idle in *. breflect.
  pose proof (wf_no_profile h Hwf ltac:(done)).
  destruct sm as [fam fh pubs wl leg q rdy], h as [hp hph hl]; cbn in *; subst.
  claim_update Hinv Hi.
Qed.

(** Facts about a publisher claim that a transition uses. *)
Lemma transition_inv sm hs i h op d t b anchored r sm' h' :
  lease_inv sm hs → hs !! i = Some h →
  mx_lease_sm_transition sm h op d t b anchored = (r, sm', h') →
  lease_inv sm' (<[i:=h']> hs).
Proof.
  intros Hinv Hi Htr.
  pose proof (inv_wf _ _ Hinv i h Hi) as Hwf.
  pose proof (claim_counted _ _ Hinv i h Hi) as (Ch & Cp & Cw & Cq & _).
  pose proof (claim_pub_quiescent _ _ Hinv i h Hi) as Cpq.
  pose proof (counters_nonneg _ _ Hinv). pose proof (counters_ordered _ _ Hinv).
  pose proof (inv_holders_u32 _ _ Hinv). pose proof (inv_pub1 _ _ Hinv).
  pose proof (inv_family_none _ _ Hinv) as Hnone.
  pose proof (inv_legacy_exclusive _ _ Hinv). pose proof (inv_q_exclusive _ _ Hinv).
  pose proof (inv_family _ _ Hinv i h Hi) as Hfam. pose proof (inv_legacy_u32 _ _ Hinv).
  unfold mx_lease_sm_transition, transition_initializer, transition_switch in Htr.
  repeat (case_match; [simplify_eq; by rewrite insert_id|]).
  repeat case_match; simplify_eq; try (by rewrite insert_id); breflect.
  all: destruct sm as [fam fh pubs wl leg q rdy], h as [hp hph hl]; cbn in *; subst.
  all: destruct Hwf as [_ Hwf]; cbn in Hwf.
  all: unfold is_hold, is_pub, in_workload, in_quiescent, nz in Ch, Cp, Cw, Cq, Cpq; uapi; cbn in *.
  all: try (assert (hp = 1 ∨ hp = 3) as [->| ->] by lia); cbn in *; try lia.
  all: specialize (Hfam ltac:(lia)); cbn in *; subst; try destruct q; cbn in *; try lia; try done.
  all: claim_update Hinv Hi.
Qed.
