(* ===== verification/LeasePolicy.v ===== *)
(** * What the lease state machine guarantees

    The step relation of a device under the operations of src/lease_sm.h issued by
    any number of open files in any order, the exclusion theorems for its reachable
    states, and the refinement of the counter-based admission test to a policy
    stated on the set of live claims. *)

From S2P Require Import Prelude Uapi LeaseSM LeaseInv.

(** ** Reachable states *)

Definition lease_conf : Type := mx_lease_sm * gmap nat mx_lease_sm_holder.

(** One operation by one open file.  Counts of direct calls, transfers and
    mappings and the anchoring flags are arguments of the operations, chosen by
    the caller. *)
Inductive lease_step : lease_conf → lease_conf → Prop :=
| step_open sm hs i :
    hs !! i = None → lease_step (sm, hs) (sm, <[i:=holder_zero]> hs)
| step_acquire sm hs i h p r sm' h' :
    hs !! i = Some h → mx_lease_sm_acquire sm h p = (r, sm', h') →
    lease_step (sm, hs) (sm', <[i:=h']> hs)
| step_transition sm hs i h op d t b anchored r sm' h' :
    hs !! i = Some h → mx_lease_sm_transition sm h op d t b anchored = (r, sm', h') →
    lease_step (sm, hs) (sm', <[i:=h']> hs)
| step_direct sm hs i h anchored d r sm' h' d' :
    hs !! i = Some h → mx_lease_sm_admit_direct sm h anchored d = (r, sm', h', d') →
    lease_step (sm, hs) (sm', <[i:=h']> hs)
| step_release sm hs i h sm' h' :
    hs !! i = Some h → mx_lease_sm_release sm h = (sm', h') →
    lease_step (sm, hs) (sm', <[i:=h']> hs)
| step_close sm hs i h sm' h' :
    hs !! i = Some h → mx_lease_sm_release sm h = (sm', h') →
    lease_step (sm, hs) (sm', delete i hs).

Definition lease_reachable (c : lease_conf) : Prop := rtc lease_step (sm_zero, ∅) c.

(** ** Preservation *)

Lemma inv_init : lease_inv sm_zero ∅.
Proof. constructor; cbn; rewrite ?msum_empty; try done; try (by left); unfold U32_MAX; lia. Qed.

Lemma holder_zero_wf : holder_wf holder_zero.
Proof. split; cbn; [done | lia]. Qed.

(** Adding or removing a file that claims nothing changes no counter. *)
Lemma inv_insert_zero sm hs i :
  hs !! i = None → lease_inv sm hs → lease_inv sm (<[i:=holder_zero]> hs).
Proof.
  intros Hi [].
  constructor; rewrite ?msum_insert by done; cbn; try done; try lia.
  - intros j x [[<- <-]|[? ?]]%lookup_insert_Some; eauto using holder_zero_wf.
  - intros j x [[<- <-]|[? ?]]%lookup_insert_Some; [done | eauto].
  - intros j x [[<- <-]|[? ?]]%lookup_insert_Some; [done | eauto].
Qed.

Lemma inv_delete_zero sm hs i h :
  hs !! i = Some h → h_profile h = 0 → h_legacy h = false →
  lease_inv sm hs → lease_inv sm (delete i hs).
Proof.
  intros Hi Hp Hl Hinv. pose proof (wf_no_profile h (inv_wf _ _ Hinv i h Hi) Hp) as Hph.
  assert (∀ f, (∀ x, h_profile x = 0 → h_phase x = 0 → h_legacy x = false → f x = 0) →
    msum f hs = msum f (delete i hs)) as Hsum.
  { intros f Hf. rewrite (msum_delete f hs i h Hi), Hf by done. lia. }
  destruct Hinv. constructor; try done; try (rewrite <- Hsum; [done|]).
  - intros j x [_ Hj]%lookup_delete_Some. eauto.
  - intros j x [_ Hj]%lookup_delete_Some. eauto.
  - intros x E _ _. unfold is_hold. by rewrite E.
  - intros x E _ _. unfold is_pub. by rewrite E.
  - intros x _ E _. unfold in_workload. by rewrite E.
  - intros x _ E _. unfold in_quiescent. by rewrite E.
  - intros x _ _ E. unfold is_legacy. by rewrite E.
  - intros j x [_ Hj]%lookup_delete_Some. eauto.
Qed.

(** A released claim is empty. *)
Lemma release_empties sm h sm' h' :
  holder_wf h → mx_lease_sm_release sm h = (sm', h') → h_profile h' = 0 ∧ h_legacy h' = false.
Proof.
  intros [Hl _] Hrel. unfold mx_lease_sm_release, nz in Hrel.
  destruct (h_legacy h) eqn:E; [simplify_eq/=; auto|].
  destruct (Z.eqb_spec (h_profile h) 0); cbn in Hrel; simplify_eq/=; auto.
Qed.

Lemma admit_direct_inv sm hs i h anchored d r sm' h' d' :
  lease_inv sm hs → hs !! i = Some h →
  mx_lease_sm_admit_direct sm h anchored d = (r, sm', h', d') →
  lease_inv sm' (<[i:=h']> hs).
Proof.
  intros Hinv Hi Hadm. unfold mx_lease_sm_admit_direct in Hadm.
  case_match; [simplify_eq; by rewrite insert_id|].
  destruct (mx_lease_sm_authorize_direct_anchored sm h anchored) as [[r0 sm0] h0] eqn:Ha.
  case_match; simplify_eq; by eapply authorize_direct_anchored_inv.
Qed.

Lemma lease_step_inv c c' :
  lease_step c c' → lease_inv c.1 c.2 → lease_inv c'.1 c'.2.
Proof.
  destruct 1; cbn; intros Hinv;
    eauto using inv_insert_zero, acquire_inv, transition_inv, admit_direct_inv, release_inv.
  assert (delete i hs = delete i (<[i:=h']> hs)) as -> by by rewrite delete_insert_eq.
  destruct (release_empties sm h sm' h') as [? ?]; [by eapply inv_wf | done |].
  eapply inv_delete_zero; eauto using release_inv. apply lookup_insert_eq.
Qed.

Lemma reachable_inv c : lease_reachable c → lease_inv c.1 c.2.
Proof.
  apply (rtc_ind_r (fun c => lease_inv c.1 c.2)); [apply inv_init|].
  intros y z _ Hstep Hy. by eapply lease_step_inv.
Qed.

(** ** Consequences of the invariant *)

Lemma acquire_phase_err sm p e : acquire_phase sm p = inr e → e ≠ 0.
Proof. unfold acquire_phase. errno. intros Hph. repeat case_match; simplify_eq; lia. Qed.

(** A busy device refuses a file that holds nothing, with no effect. *)
Lemma admit_direct_busy sm h anchored d :
  mx_lease_sm_idle sm = false → h_profile h = 0 → h_legacy h = false → d ≠ U32_MAX →
  mx_lease_sm_admit_direct sm h anchored d = (- EBUSY, sm, h, d).
Proof.
  intros Hidle Hp Hl Hd.
  unfold mx_lease_sm_admit_direct, mx_lease_sm_authorize_direct_anchored,
    mx_lease_sm_authorize_direct.
  rewrite (proj2 (Z.eqb_neq d U32_MAX)), Hp, Hl, Hidle by done. by destruct anchored.
Qed.

Section consequences.
Context (sm : mx_lease_sm) (hs : gmap nat mx_lease_sm_holder).
Hypothesis Hinv : lease_inv sm hs.

Lemma hold_live h : h_profile h ≠ 0 → is_hold h = 1.
Proof. intros. unfold is_hold, nz. by rewrite (proj2 (Z.eqb_neq _ _)). Qed.

(** A quiescent claim is alone: no other file holds a profile or legacy access. *)
Lemma quiescent_alone i h j h' :
  hs !! i = Some h → h_phase h = MX_LEASE_PHASE_QUIESCENT →
  j ≠ i → hs !! j = Some h' → h_profile h' = 0 ∧ h_legacy h' = false.
Proof.
  intros Hi Hph Hne Hj.
  pose proof (claim_counted _ _ Hinv i h Hi) as (Ch & _ & _ & Cq & _).
  pose proof (claim_counted _ _ Hinv j h' Hj) as (_ & _ & _ & _ & Cl).
  pose proof (counters_ordered _ _ Hinv). pose proof (inv_pub1 _ _ Hinv).
  pose proof (inv_wf _ _ Hinv i h Hi) as [_ Hwf].
  assert (in_quiescent h = 1) as Eq by (unfold in_quiescent; by rewrite Hph).
  destruct (sm_quiescent sm) eqn:Hq; cbn in *; [|lia].
  pose proof (inv_q_exclusive _ _ Hinv Hq).
  assert (h_profile h ≠ 0) as Hlive by (uapi; lia).
  rewrite (hold_live h Hlive) in Ch.
  split.
  - destruct (decide (h_profile h' = 0)) as [|Hl']; [done|]. exfalso.
    pose proof (msum_lookup2 is_hold hs i j h h' (fun _ x _ => proj1 (is_hold_range x)) Hi Hj
      (not_eq_sym Hne)) as H2.
    rewrite <- (inv_holders _ _ Hinv), !hold_live in H2 by done. lia.
  - destruct (h_legacy h') eqn:El; [|done]. exfalso.
    unfold is_legacy in Cl. rewrite El in Cl. cbn in Cl.
    destruct (inv_legacy_exclusive _ _ Hinv); lia.
Qed.

Lemma quiescent_not_idle i h :
  hs !! i = Some h → h_phase h = MX_LEASE_PHASE_QUIESCENT → mx_lease_sm_idle sm = false.
Proof.
  intros Hi Hph. pose proof (claim_counted _ _ Hinv i h Hi) as (_ & _ & _ & Cq & _).
  unfold in_quiescent in Cq. rewrite Hph in Cq. unfold mx_lease_sm_idle.
  destruct (sm_quiescent sm); cbn in *; [apply andb_false_r | lia].
Qed.

Lemma quiescent_blocks_acquire i h h' p :
  hs !! i = Some h → h_phase h = MX_LEASE_PHASE_QUIESCENT →
  h_profile h' = 0 → (mx_lease_sm_acquire sm h' p).1.1 ≠ 0.
Proof.
  intros Hi Hph Hp0. pose proof (claim_counted _ _ Hinv i h Hi) as (_ & _ & _ & Cq & _).
  unfold in_quiescent in Cq. rewrite Hph in Cq.
  unfold mx_lease_sm_acquire. rewrite Hp0. errno. cbn.
  repeat (case_match; cbn; try lia).
  - match goal with E : acquire_phase _ _ = inl _ |- _ => apply acquire_phase_spec in E as [Hq _] end.
    rewrite Hq in Cq. cbn in Cq. lia.
  - by eapply acquire_phase_err.
Qed.

(** Two claims are of the same family, and none coexists with legacy access. *)
Lemma claims_same_family i j h h' :
  hs !! i = Some h → hs !! j = Some h' → h_profile h ≠ 0 → h_profile h' ≠ 0 →
  mx_lease_profile_family (h_profile h) = mx_lease_profile_family (h_profile h').
Proof.
  intros Hi Hj Hp Hp'.
  by rewrite (inv_family _ _ Hinv i h Hi Hp), (inv_family _ _ Hinv j h' Hj Hp').
Qed.

Lemma no_legacy_with_claim i j h h' :
  hs !! i = Some h → hs !! j = Some h' → h_profile h ≠ 0 → h_legacy h' = false.
Proof.
  intros Hi Hj Hp. destruct (h_legacy h') eqn:El; [|done]. exfalso.
  pose proof (claim_counted _ _ Hinv i h Hi) as (Ch & _).
  pose proof (claim_counted _ _ Hinv j h' Hj) as (_ & _ & _ & _ & Cl).
  rewrite (hold_live h Hp) in Ch. unfold is_legacy in Cl. rewrite El in Cl. cbn in Cl.
  destruct (inv_legacy_exclusive _ _ Hinv); lia.
Qed.

Lemma single_publisher i j h h' :
  hs !! i = Some h → hs !! j = Some h' →
  mx_lease_profile_is_publisher (h_profile h) = true →
  mx_lease_profile_is_publisher (h_profile h') = true → i = j.
Proof.
  intros Hi Hj Hp Hp'. destruct (decide (i = j)) as [|Hne]; [done|]. exfalso.
  pose proof (msum_lookup2 is_pub hs i j h h' (fun _ x _ => proj1 (is_pub_range x)) Hi Hj Hne) as H2.
  rewrite <- (inv_pubs _ _ Hinv) in H2. unfold is_pub in H2. rewrite Hp, Hp' in H2.
  pose proof (inv_pub1 _ _ Hinv). cbn in H2. lia.
Qed.

(** The defensive [-EUCLEAN] branches of [mx_lease_sm_transition] are dead. *)
Lemma transition_not_euclean i h op d t b anchored :
  hs !! i = Some h → (mx_lease_sm_transition sm h op d t b anchored).1.1 ≠ - EUCLEAN.
Proof.
  intros Hi.
  pose proof (claim_counted _ _ Hinv i h Hi) as (_ & _ & _ & Cq & _).
  pose proof (inv_prepared _ _ Hinv i h Hi) as Hprep.
  unfold in_quiescent in Cq.
  unfold mx_lease_sm_transition, transition_initializer, transition_switch. errno.
  repeat (case_match; cbn; try lia); breflect.
  all: rewrite (proj2 (Z.eqb_eq _ _)) in Cq by done;
    match goal with E : sm_quiescent sm = false |- _ => rewrite E in Cq end; cbn in Cq; lia.
Qed.
End consequences.

(** ** The admission policy, on the set of live claims *)

Definition no_claim_with (hs : gmap nat mx_lease_sm_holder)
    (P : mx_lease_sm_holder → bool) : Prop :=
  ∀ j h, hs !! j = Some h → P h = false.

(** A claim of profile [p] may start next to the claims [hs] when: nobody uses
    the device as a legacy client; all claims are of the same family; nobody is
    quiescent; a publisher is the only one and, unless it can be a hub
    replacement candidate, finds no running workload; the coordinated roles come
    after the coordinator was prepared. *)
Record policy_admits (hs : gmap nat mx_lease_sm_holder) (ready : bool) (p : Z) : Prop := {
  pol_profile : 1 ≤ p ≤ 7;
  pol_legacy : no_claim_with hs h_legacy;
  pol_family : no_claim_with hs (fun h => nz (h_profile h) &&
    negb (mx_lease_profile_family (h_profile h) =? mx_lease_profile_family p));
  pol_quiescent : no_claim_with hs (fun h => h_phase h =? MX_LEASE_PHASE_QUIESCENT);
  pol_publisher : mx_lease_profile_is_publisher p = true →
    no_claim_with hs (fun h => mx_lease_profile_is_publisher (h_profile h));
  pol_initial : mx_lease_profile_is_publisher p = true → p ≠ MX_LEASE_PROFILE_HUB_PUBLISHER →
    no_claim_with hs (fun h => h_phase h =? MX_LEASE_PHASE_WORKLOAD);
  pol_ready : p = MX_LEASE_PROFILE_COORDINATOR_CONTROL ∨
    p = MX_LEASE_PROFILE_COORDINATOR_WORKLOAD → ready = true;
}.

(** A zero counter means that no claim is counted by it. *)
Lemma msum_b2z_zero (P : mx_lease_sm_holder → bool) hs :
  msum (fun h => Z.b2z (P h)) hs = 0 ↔ no_claim_with hs P.
Proof.
  assert (∀ h, 0 ≤ Z.b2z (P h)) as Hnn by (intros h; destruct (P h); cbn; lia).
  split; intros Hz.
  - intros j h Hj. pose proof (msum_lookup _ hs j h (fun _ x _ => Hnn x) Hj) as Hle.
    cbn in Hle. destruct (P h); cbn in *; [lia | done].
  - rewrite <- (msum_zero hs). apply msum_ext. intros j h Hj. by rewrite (Hz j h Hj).
Qed.

Section policy.
Context (sm : mx_lease_sm) (hs : gmap nat mx_lease_sm_holder).
Hypothesis Hinv : lease_inv sm hs.

Lemma legacy_zero : sm_legacy_holders sm = 0 ↔ no_claim_with hs h_legacy.
Proof. rewrite (inv_legacy _ _ Hinv). apply msum_b2z_zero. Qed.

Lemma pubs_zero :
  sm_publishers sm = 0 ↔
  no_claim_with hs (fun h => mx_lease_profile_is_publisher (h_profile h)).
Proof. rewrite (inv_pubs _ _ Hinv). apply msum_b2z_zero. Qed.

Lemma workloads_zero :
  sm_workloads sm = 0 ↔ no_claim_with hs (fun h => h_phase h =? MX_LEASE_PHASE_WORKLOAD).
Proof. rewrite (inv_workloads _ _ Hinv). apply msum_b2z_zero. Qed.

Lemma quiescent_false :
  sm_quiescent sm = false ↔
  no_claim_with hs (fun h => h_phase h =? MX_LEASE_PHASE_QUIESCENT).
Proof.
  rewrite <- msum_b2z_zero. fold in_quiescent. rewrite <- (inv_quiescent _ _ Hinv).
  destruct (sm_quiescent sm); cbn; split; lia || done.
Qed.

(** The family test of the code: no family yet, or the same one. *)
Lemma family_agrees p :
  (sm_family sm = MX_LEASE_FAMILY_NONE ∨ sm_family sm = mx_lease_profile_family p) ↔
  no_claim_with hs (fun h => nz (h_profile h) &&
    negb (mx_lease_profile_family (h_profile h) =? mx_lease_profile_family p)).
Proof.
  split.
  - intros Hfam j h Hj. unfold nz. destruct (Z.eqb_spec (h_profile h) 0) as [|Hp]; [done|]. cbn.
    rewrite (inv_family _ _ Hinv j h Hj Hp). apply negb_false_iff, Z.eqb_eq.
    destruct Hfam as [Hn|]; [|done]. apply (inv_family_none _ _ Hinv) in Hn.
    pose proof (claim_counted _ _ Hinv j h Hj) as [Ch _].
    rewrite (hold_live h Hp) in Ch. lia.
  - intros Hno. destruct (decide (sm_family_holders sm = 0)) as [H0|H0].
    { left. by apply (inv_family_none _ _ Hinv). }
    pose proof (counters_nonneg _ _ Hinv) as [Hnn _].
    rewrite (inv_holders _ _ Hinv) in H0, Hnn.
    destruct (msum_pos_witness is_hold hs) as (j & h & Hj & Hpos); [lia|].
    right. specialize (Hno j h Hj). cbn beta in Hno. unfold is_hold in Hpos.
    destruct (nz (h_profile h)) eqn:E; [|done]. cbn in Hno. breflect.
    by rewrite <- Hno, (inv_family _ _ Hinv j h Hj).
Qed.

(** The switch of the code, against the policy. *)
Lemma acquire_phase_policy p :
  1 ≤ p ≤ 7 → sm_workloads sm ≠ U32_MAX →
  (∃ ph, acquire_phase sm p = inl ph) ↔
  sm_quiescent sm = false ∧
  (mx_lease_profile_is_publisher p = true → sm_publishers sm = 0) ∧
  (mx_lease_profile_is_publisher p = true → p ≠ MX_LEASE_PROFILE_HUB_PUBLISHER →
    sm_workloads sm = 0) ∧
  (p = MX_LEASE_PROFILE_COORDINATOR_CONTROL ∨ p = MX_LEASE_PROFILE_COORDINATOR_WORKLOAD →
    sm_coordinator_ready sm = true).
Proof.
  intros Hp Hwl.
  assert (p = 1 ∨ p = 2 ∨ p = 3 ∨ p = 4 ∨ p = 5 ∨ p = 6 ∨ p = 7) as Hc by lia.
  unfold acquire_phase, nz.
  rewrite (proj2 (Z.eqb_neq (sm_workloads sm) U32_MAX)) by done. uapi.
  destruct (sm_quiescent sm), (sm_coordinator_ready sm),
    (Z.eqb_spec (sm_publishers sm) 0), (Z.eqb_spec (sm_workloads sm) 0);
    destruct Hc as [->|[->|[->|[->|[->|[->| ->]]]]]]; cbn; split;
    (intros [? ?] || intros (? & ? & ? & ?)); simplify_eq/=; try (split_and!; intros; lia || done);
    eauto; exfalso; naive_solver lia.
Qed.

Lemma acquire_policy i h p :
  hs !! i = Some h → h_profile h = 0 → sm_family_holders sm < U32_MAX →
  (mx_lease_sm_acquire sm h p).1.1 = 0 ↔ policy_admits hs (sm_coordinator_ready sm) p.
Proof.
  intros Hi Hp0 Hmax. pose proof (counters_ordered _ _ Hinv).
  assert ((mx_lease_sm_acquire sm h p).1.1 = 0 ↔
    (mx_lease_profile_family p ≠ 0 ∧ sm_legacy_holders sm = 0 ∧
     (sm_family sm = MX_LEASE_FAMILY_NONE ∨ sm_family sm = mx_lease_profile_family p) ∧
     ∃ ph, acquire_phase sm p = inl ph)) as ->.
  { assert (h_legacy h = true → sm_legacy_holders sm ≠ 0) as Hleg.
    { intros El Hz. apply legacy_zero in Hz. specialize (Hz i h Hi). congruence. }
    unfold mx_lease_sm_acquire, nz. rewrite Hp0. cbn.
    destruct (Z.eqb_spec (mx_lease_profile_family p) 0); cbn; [errno; naive_solver lia|].
    destruct (h_legacy h) eqn:El; cbn; [errno; naive_solver lia|].
    destruct (Z.eqb_spec (sm_legacy_holders sm) 0); cbn; [|errno; naive_solver lia].
    rewrite (proj2 (Z.eqb_neq (sm_family_holders sm) U32_MAX)) by lia.
    destruct (Z.eqb_spec (sm_family sm) MX_LEASE_FAMILY_NONE),
      (Z.eqb_spec (sm_family sm) (mx_lease_profile_family p)); cbn;
      try (errno; naive_solver lia).
    all: destruct (acquire_phase sm p) as [ph|err] eqn:Hph; cbn;
      [by split; eauto 10|]; apply acquire_phase_err in Hph; naive_solver lia. }
  rewrite legacy_zero, family_agrees, family_nonzero. split.
  - intros (Hr & Hl & Hf & Hph). apply acquire_phase_policy in Hph as (Hq & H1 & H2 & H3);
      [|done|lia].
    constructor; auto; [by apply quiescent_false | intros; by apply pubs_zero; auto
      | intros; by apply workloads_zero; auto].
  - intros []. do 3 (split; [done|]). apply acquire_phase_policy; [done | lia |].
    split_and!; [by apply quiescent_false | intros; by apply pubs_zero; auto
      | intros; by apply workloads_zero; auto | done].
Qed.
End policy.

(** ** Theorems *)

(** In every reachable state of a device, under any interleaving of the
    operations of any number of open files, the five counters of [mx_lease_sm]
    are exactly the numbers of claims in the corresponding state, at most one
    publisher exists, quiescence excludes workloads, legacy access excludes every
    claim, all claims are of the recorded family, and no counter wraps. *)
Theorem lease_counters_exact c :
  lease_reachable c → lease_inv c.1 c.2.
Proof. apply reachable_inv. Qed.

(** A reachable state: a hub publisher acquires, anchors nothing, and stays quiescent,
    next to a file that claims nothing. *)
Definition demo_quiescent : lease_conf :=
  (MkSm 1 1 1 0 0 true false,
   <[1%nat := holder_zero]> (<[0%nat := MkHolder 1 1 false]> ∅)).

Lemma demo_quiescent_reachable : lease_reachable demo_quiescent.
Proof.
  unfold lease_reachable, demo_quiescent.
  eapply rtc_l; [apply (step_open _ _ 0); reflexivity|].
  eapply rtc_l; [eapply (step_acquire sm_zero (<[0%nat:=holder_zero]> ∅) 0 holder_zero 1); reflexivity|].
  eapply rtc_l; [apply (step_open _ _ 1); reflexivity|].
  rewrite insert_insert_eq. apply rtc_refl.
Qed.

Lemma lease_counters_exact_witness :
  lease_reachable demo_quiescent ∧ lease_inv demo_quiescent.1 demo_quiescent.2.
Proof.
  split; [exact demo_quiescent_reachable|].
  apply lease_counters_exact, demo_quiescent_reachable.
Defined.

(** C8: a quiescent publisher is alone on the device.  While one file is in the
    quiescent phase, every other open file holds neither a profile nor legacy
    access, every direct call of it is refused with EBUSY, and it can acquire no
    profile. *)
Theorem quiescent_is_exclusive sm hs i h j h' anchored d p :
  lease_reachable (sm, hs) →
  hs !! i = Some h → h_phase h = MX_LEASE_PHASE_QUIESCENT →
  j ≠ i → hs !! j = Some h' →
  h_profile h' = 0 ∧ h_legacy h' = false ∧
  (d < U32_MAX → mx_lease_sm_admit_direct sm h' anchored d = (- EBUSY, sm, h', d)) ∧
  (mx_lease_sm_acquire sm h' p).1.1 ≠ 0.
Proof.
  intros Hr%reachable_inv Hi Hph Hne Hj; cbn in Hr.
  destruct (quiescent_alone _ _ Hr i h j h') as [Hp Hl]; auto.
  split_and!; auto.
  - intros Hd. apply admit_direct_busy; auto; [|lia].
    by apply (quiescent_not_idle _ _ Hr i h).
  - by apply (quiescent_blocks_acquire _ _ Hr i h h' p).
Qed.

Lemma quiescent_is_exclusive_witness :
  h_profile holder_zero = 0 ∧ h_legacy holder_zero = false ∧
  (0 < U32_MAX → mx_lease_sm_admit_direct demo_quiescent.1 holder_zero false 0
                 = (- EBUSY, demo_quiescent.1, holder_zero, 0)) ∧
  (mx_lease_sm_acquire demo_quiescent.1 holder_zero 2).1.1 ≠ 0.
Proof.
  apply (quiescent_is_exclusive (demo_quiescent.1) (demo_quiescent.2) 0 (MkHolder 1 1 false) 1 holder_zero
           false 0 2); [exact demo_quiescent_reachable | reflexivity | reflexivity | lia | reflexivity].
Defined.

(** Family exclusion.  In a reachable state all claims belong to one family,
    at most one of them is a publisher, and a legacy client coexists with none. *)
Theorem family_exclusion sm hs i j h h' :
  lease_reachable (sm, hs) →
  hs !! i = Some h → hs !! j = Some h' → h_profile h ≠ 0 →
  h_legacy h' = false ∧
  (h_profile h' ≠ 0 →
   mx_lease_profile_family (h_profile h) = mx_lease_profile_family (h_profile h')) ∧
  (mx_lease_profile_is_publisher (h_profile h) = true →
   mx_lease_profile_is_publisher (h_profile h') = true → i = j).
Proof.
  intros Hr%reachable_inv Hi Hj Hp; cbn in Hr. split_and!.
  - by apply (no_legacy_with_claim _ _ Hr i j h h').
  - intros. by apply (claims_same_family _ _ Hr i j h h').
  - by apply (single_publisher _ _ Hr i j h h').
Qed.

Lemma family_exclusion_witness :
  h_legacy holder_zero = false ∧
  (h_profile holder_zero ≠ 0 →
   mx_lease_profile_family 1 = mx_lease_profile_family (h_profile holder_zero)) ∧
  (mx_lease_profile_is_publisher 1 = true →
   mx_lease_profile_is_publisher (h_profile holder_zero) = true → 0%nat = 1%nat).
Proof.
  apply (family_exclusion (demo_quiescent.1) (demo_quiescent.2) 0 1 (MkHolder 1 1 false) holder_zero);
    [exact demo_quiescent_reachable | reflexivity | reflexivity | discriminate].
Defined.

(** C7: the counter-based admission test of [mx_lease_sm_acquire] implements the
    policy on the set of live claims: a file without a profile is admitted (return
    value 0) exactly when the policy admits the profile. *)
Theorem acquire_implements_policy sm hs i h p :
  lease_reachable (sm, hs) → hs !! i = Some h → h_profile h = 0 →
  sm_family_holders sm < U32_MAX →
  (mx_lease_sm_acquire sm h p).1.1 = 0 ↔ policy_admits hs (sm_coordinator_ready sm) p.
Proof. intros Hr%reachable_inv. by apply (acquire_policy _ _ Hr i). Qed.

Lemma acquire_implements_policy_witness :
  (mx_lease_sm_acquire demo_quiescent.1 holder_zero 2).1.1 = 0 ↔
  policy_admits demo_quiescent.2 false 2.
Proof.
  apply (acquire_implements_policy demo_quiescent.1 demo_quiescent.2 1 holder_zero 2);
    [exact demo_quiescent_reachable | reflexivity | reflexivity | reflexivity].
Defined.

(** The consistency checks of [mx_lease_sm_transition] that would report a
    corrupt state with EUCLEAN never fire in a reachable state. *)
Theorem transition_never_euclean sm hs i h op d t b anchored :
  lease_reachable (sm, hs) → hs !! i = Some h →
  (mx_lease_sm_transition sm h op d t b anchored).1.1 ≠ - EUCLEAN.
Proof. intros Hr%reachable_inv. by apply (transition_not_euclean _ _ Hr i). Qed.

Lemma transition_never_euclean_witness :
  (mx_lease_sm_transition demo_quiescent.1 (MkHolder 1 1 false) 2 0 0 0 true).1.1 ≠ - EUCLEAN.
Proof.
  apply (transition_never_euclean demo_quiescent.1 demo_quiescent.2 0 (MkHolder 1 1 false));
    [exact demo_quiescent_reachable | reflexivity].
Defined.
