(* ===== verification/Bits.v ===== *)
(** * Bit fields of machine words

    The C bit-fields of [mbox_index_t], [mbox_context_t] and the v1 command header
    as reads and writes of a slice of an integer. *)

From S2P Require Import Prelude.

(** [bf_get off w x] reads the [w]-bit field at bit [off]; [bf_set] stores the low
    [w] bits of a value there and leaves the other bits alone. *)
Definition bf_get (off w x : Z) : Z := Z.land (Z.shiftr x off) (Z.ones w).
Definition bf_set (off w v x : Z) : Z :=
  Z.lor (Z.ldiff x (Z.shiftl (Z.ones w) off)) (Z.shiftl (Z.land v (Z.ones w)) off).

Section fields.
Context (off w : Z).
Hypothesis Hoff : 0 ≤ off.
Hypothesis Hw : 0 ≤ w.

Lemma bf_get_bit x n : 0 ≤ n → Z.testbit (bf_get off w x) n = (n <? w) && Z.testbit x (n + off).
Proof.
  intros Hn. unfold bf_get. rewrite Z.land_spec, Z.shiftr_spec by lia.
  rewrite Z.testbit_ones_nonneg by lia. apply andb_comm.
Qed.

Lemma bf_set_bit v x n :
  0 ≤ n →
  Z.testbit (bf_set off w v x) n =
  if (off <=? n) && (n <? off + w) then Z.testbit v (n - off) else Z.testbit x n.
Proof.
  intros Hn. unfold bf_set.
  rewrite Z.lor_spec, Z.ldiff_spec, !Z.shiftl_spec, Z.land_spec by lia.
  destruct (Z.leb_spec off n); cbn.
  - rewrite !Z.testbit_ones_nonneg by lia.
    destruct (Z.ltb_spec (n - off) w), (Z.ltb_spec n (off + w)); try lia; cbn.
    + by rewrite andb_false_r, andb_true_r.
    + by rewrite andb_false_r, andb_true_r, orb_false_r.
  - rewrite !(Z.testbit_neg_r _ (n - off)) by lia. by rewrite andb_true_r, orb_false_r.
Qed.

(** A field reads back the low bits of what was stored in it. *)
Lemma bf_get_set_same v x : bf_get off w (bf_set off w v x) = v mod 2 ^ w.
Proof.
  apply Z.bits_inj'. intros n Hn.
  rewrite bf_get_bit, bf_set_bit, <- Z.land_ones, Z.land_spec, Z.testbit_ones_nonneg by lia.
  destruct (Z.ltb_spec n w); cbn; [|by rewrite andb_false_r].
  rewrite (proj2 (Z.leb_le off (n + off))), (proj2 (Z.ltb_lt (n + off) (off + w))) by lia.
  cbn. rewrite andb_true_r. f_equal. lia.
Qed.

Lemma bf_get_range x : 0 ≤ bf_get off w x < 2 ^ w.
Proof. unfold bf_get. rewrite Z.land_ones by lia. apply Z.mod_pos_bound. lia. Qed.
End fields.

(** Writing one field leaves a disjoint field alone. *)
Lemma bf_get_set_other off w off' w' v x :
  0 ≤ off → 0 ≤ w → 0 ≤ off' → 0 ≤ w' → off + w ≤ off' ∨ off' + w' ≤ off →
  bf_get off' w' (bf_set off w v x) = bf_get off' w' x.
Proof.
  intros Ho Hw Ho' Hw' Hd. apply Z.bits_inj'. intros n Hn.
  rewrite !bf_get_bit, bf_set_bit by lia.
  destruct (Z.ltb_spec n w'); cbn; [|done].
  destruct (Z.leb_spec off (n + off')), (Z.ltb_spec (n + off') (off + w)); cbn; try done. lia.
Qed.

Lemma bf_set_range off w v x k :
  0 ≤ off → 0 ≤ w → off + w ≤ k → 0 ≤ x < 2 ^ k → 0 ≤ bf_set off w v x < 2 ^ k.
Proof.
  intros Ho Hw Hk Hx.
  assert (bf_set off w v x = bf_set off w v x mod 2 ^ k) as ->; [|apply Z.mod_pos_bound; lia].
  rewrite <- Z.land_ones by lia. symmetry. apply Z.bits_inj'. intros n Hn.
  rewrite Z.land_spec, bf_set_bit, Z.testbit_ones_nonneg by lia.
  destruct (Z.ltb_spec n k); [apply andb_true_r|].
  rewrite (proj2 (Z.ltb_ge n (off + w))), andb_false_r by lia. cbn.
  rewrite andb_false_r. symmetry. rewrite <- (Z.mod_small x (2 ^ k)) by done.
  apply Z.mod_pow2_bits_high. lia.
Qed.
