(* ===== verification/Mbox.v ===== *)
(** * Hardware mailboxes (src/mbox.c, the mailbox types of src/mx_dma.h, and the
      contiguous-run helpers of src/ioctl.c)

    A mailbox is a ring of [depth] 64-bit words shared with the device.  Its head
    and tail are 8-bit values, a 7-bit slot index and a phase bit that flips on
    every lap.  The abstract ring is a pair of free-running counters. *)

From S2P Require Import Prelude Bits.

(** ** Types *)

Definition HMBOX_UPDATE_BITMASK : Z := Z.shiftl 1 18.
Definition MAX_NUM_OF_MBOX : Z := 80.

(** [mbox_index_t]: [index : 7] and [phase : 1] over [full]. *)
Definition idx_index (full : Z) : Z := bf_get 0 7 full.
Definition idx_phase (full : Z) : Z := bf_get 7 1 full.
Definition idx_set_index (v full : Z) : Z := bf_set 0 7 v full.
Definition idx_set_phase (v full : Z) : Z := bf_set 7 1 v full.

(** [mbox_context_t]: the fields of the 64-bit context word. *)
Definition ctx_data_base (u64 : Z) : Z := bf_get 24 16 u64.
Definition ctx_q_size (u64 : Z) : Z := bf_get 40 4 u64.
Definition ctx_tail (u64 : Z) : Z := bf_get 48 8 u64.
Definition ctx_head (u64 : Z) : Z := bf_get 56 8 u64.
Definition ctx_set_tail (v u64 : Z) : Z := bf_set 48 8 v u64.
Definition ctx_set_head (v u64 : Z) : Z := bf_set 56 8 v u64.

Record mx_mbox := MkMbox {
  r_ctx_addr : Z;
  w_ctx_addr : Z;
  mb_data_addr : Z;
  mb_ctx : Z;
  mb_depth : Z;
}.

#[export] Instance eta_mbox : Eta mx_mbox := fun r =>
  MkMbox (r_ctx_addr r) (w_ctx_addr r) (mb_data_addr r) (mb_ctx r) (mb_depth r).

#[export] Instance mbox_eq_dec : EqDecision mx_mbox.
Proof. solve_decision. Defined.

Definition mb_head (mbox : mx_mbox) : Z := ctx_head (mb_ctx mbox).
Definition mb_tail (mbox : mx_mbox) : Z := ctx_tail (mb_ctx mbox).
Definition set_tail (v : Z) (mbox : mx_mbox) : mx_mbox :=
  mbox <| mb_ctx := ctx_set_tail v (mb_ctx mbox) |>.
Definition set_head (v : Z) (mbox : mx_mbox) : mx_mbox :=
  mbox <| mb_ctx := ctx_set_head v (mb_ctx mbox) |>.

(** ** Operations *)

Definition is_empty (mbox : mx_mbox) : bool := mb_head mbox =? mb_tail mbox.

Definition is_full (mbox : mx_mbox) : bool :=
  let head := mb_head mbox in
  let tail := mb_tail mbox in
  (idx_index head =? idx_index tail) && negb (idx_phase head =? idx_phase tail).

Definition get_free_space (mbox : mx_mbox) : Z :=
  let head := mb_head mbox in
  let tail := mb_tail mbox in
  u32 (idx_index head - idx_index tail +
       mb_depth mbox * (1 - Z.lxor (idx_phase head) (idx_phase tail))).

Definition get_pending_count (mbox : mx_mbox) : Z :=
  let head := mb_head mbox in
  let tail := mb_tail mbox in
  u32 (idx_index tail - idx_index head +
       mb_depth mbox * Z.lxor (idx_phase head) (idx_phase tail)).

Definition get_next_index (_index count depth : Z) : Z :=
  let last := _index in
  let next := _index in
  let next := idx_set_index (Z.land (u32 (idx_index next + count)) (u32 (depth - 1))) next in
  if nz count && (idx_index next <=? idx_index last)
  then idx_set_phase (Z.lxor (idx_phase next) 1) next
  else next.

Definition get_data_offset (_db : Z) : Z := 8 * idx_index _db.

Definition mx_mbox_init (ctx_addr data_addr ctx : Z) : mx_mbox :=
  MkMbox ctx_addr (Z.lor ctx_addr HMBOX_UPDATE_BITMASK)
    (u64 (data_addr + 8 * ctx_data_base ctx)) ctx (u32 (Z.shiftl 1 (ctx_q_size ctx))).

(** ioctl.c: the run of words that can be written or read without wrapping. *)
Definition get_pushable_count (mbox : mx_mbox) : Z :=
  let head := mb_head mbox in
  let tail := mb_tail mbox in
  if idx_phase head =? idx_phase tail then u32 (mb_depth mbox - idx_index tail)
  else u32 (idx_index head - idx_index tail).

Definition get_popable_count (mbox : mx_mbox) : Z :=
  let head := mb_head mbox in
  let tail := mb_tail mbox in
  if idx_phase head =? idx_phase tail then u32 (idx_index tail - idx_index head)
  else u32 (mb_depth mbox - idx_index head).

(** ** The abstract ring *)

(** The 8-bit encoding of a free-running counter in a ring of [d] slots. *)
Definition ring_enc (d n : Z) : Z := n mod d + 128 * ((n / d) mod 2).

(** A mailbox with [h] words consumed and [t] words produced since reset.  The
    7-bit index bounds the depth by 128. *)
Record ring (mbox : mx_mbox) (h t : Z) : Prop := {
  ring_depth : ∃ k, 0 ≤ k ≤ 7 ∧ mb_depth mbox = 2 ^ k;
  ring_head : mb_head mbox = ring_enc (mb_depth mbox) h;
  ring_tail : mb_tail mbox = ring_enc (mb_depth mbox) t;
  ring_order : 0 ≤ h ≤ t;
  ring_bound : t - h ≤ mb_depth mbox;
}.

(** ** Arithmetic of the encoding *)

Definition pow2_depth (d : Z) : Prop := ∃ k, 0 ≤ k ≤ 7 ∧ d = 2 ^ k.

Lemma pow2_depth_range d : pow2_depth d → 1 ≤ d ≤ 128.
Proof.
  intros (k & Hk & ->). split; [|change 128 with (2 ^ 7); apply Z.pow_le_mono_r; lia].
  change 1 with (2 ^ 0). apply Z.pow_le_mono_r; lia.
Qed.

Lemma idx_index_split a b : 0 ≤ a < 128 → idx_index (a + 128 * b) = a.
Proof.
  intros Ha. unfold idx_index, bf_get. rewrite Z.shiftr_0_r, Z.land_ones by lia.
  change (2 ^ 7) with 128. rewrite Z.mul_comm, Z.mod_add by lia. apply Z.mod_small. lia.
Qed.

Lemma idx_phase_split a b : 0 ≤ a < 128 → idx_phase (a + 128 * b) = b mod 2.
Proof.
  intros Ha. unfold idx_phase, bf_get. rewrite Z.shiftr_div_pow2, Z.land_ones by lia.
  change (2 ^ 7) with 128. change (2 ^ 1) with 2.
  rewrite Z.mul_comm, Z.div_add, Z.div_small by lia. f_equal.
Qed.

Section enc.
Context (d : Z).
Hypothesis Hd : pow2_depth d.

Lemma enc_index n : idx_index (ring_enc d n) = n mod d.
Proof.
  pose proof (pow2_depth_range d Hd). pose proof (Z.mod_pos_bound n d).
  apply idx_index_split. lia.
Qed.

Lemma enc_phase n : idx_phase (ring_enc d n) = (n / d) mod 2.
Proof.
  pose proof (pow2_depth_range d Hd). pose proof (Z.mod_pos_bound n d).
  unfold ring_enc. rewrite idx_phase_split by lia. apply Z.mod_mod. lia.
Qed.

Lemma enc_range n : 0 ≤ ring_enc d n < 256.
Proof.
  pose proof (pow2_depth_range d Hd). pose proof (Z.mod_pos_bound n d).
  pose proof (Z.mod_pos_bound (n / d) 2). unfold ring_enc. lia.
Qed.

(** Two counters at most a lap apart: the laps differ by at most one. *)
Lemma laps h t : 0 ≤ h ≤ t → t - h ≤ d →
  (t / d = h / d ∧ t mod d - h mod d = t - h) ∨
  (t / d = h / d + 1 ∧ t mod d - h mod d = t - h - d).
Proof.
  intros Ho Hb. pose proof (pow2_depth_range d Hd).
  pose proof (Z.div_mod h d). pose proof (Z.div_mod t d).
  pose proof (Z.mod_pos_bound h d). pose proof (Z.mod_pos_bound t d).
  assert (h / d ≤ t / d) by (apply Z.div_le_mono; lia).
  assert (t / d ≤ h / d + 1).
  { apply Z.lt_succ_r. apply Z.div_lt_upper_bound; [lia|]. nia. }
  assert (t / d = h / d ∨ t / d = h / d + 1) as [E|E] by lia; [left|right]; nia.
Qed.

Lemma phase_xor h t :
  Z.lxor ((h / d) mod 2) ((t / d) mod 2) = if (h / d) mod 2 =? (t / d) mod 2 then 0 else 1.
Proof.
  pose proof (Z.mod_pos_bound (h / d) 2). pose proof (Z.mod_pos_bound (t / d) 2).
  assert ((h / d) mod 2 = 0 ∨ (h / d) mod 2 = 1) as [->| ->] by lia;
  assert ((t / d) mod 2 = 0 ∨ (t / d) mod 2 = 1) as [->| ->] by lia; reflexivity.
Qed.

(** The phases agree exactly when both counters are in the same lap. *)
Lemma phase_eq h t : 0 ≤ h ≤ t → t - h ≤ d →
  ((h / d) mod 2 =? (t / d) mod 2) = (t / d =? h / d).
Proof.
  intros Ho Hb. destruct (laps h t Ho Hb) as [[-> _]|[-> _]].
  - by rewrite !Z.eqb_refl.
  - rewrite (proj2 (Z.eqb_neq (h / d + 1) (h / d))) by lia.
    apply Z.eqb_neq. rewrite (Z.add_mod (h / d) 1 2) by lia. change (1 mod 2) with 1.
    pose proof (Z.mod_pos_bound (h / d) 2).
    assert ((h / d) mod 2 = 0 ∨ (h / d) mod 2 = 1) as [->| ->] by lia; done.
Qed.
End enc.

(** ** The 8-bit index is determined by its two fields *)

Lemma idx_decompose x : 0 ≤ x < 256 → x = idx_index x + 128 * idx_phase x.
Proof.
  intros Hx.
  assert (∃ a b, x = a + 128 * b ∧ 0 ≤ a < 128 ∧ 0 ≤ b < 2) as (a & b & -> & Ha & Hb).
  { exists (x mod 128), (x / 128). pose proof (Z.div_mod x 128). pose proof (Z.mod_pos_bound x 128).
    split_and!; lia. }
  rewrite idx_index_split, idx_phase_split, Z.mod_small by lia. lia.
Qed.

Lemma idx_set_index_eq v x :
  0 ≤ x < 256 → 0 ≤ v < 128 → idx_set_index v x = v + 128 * idx_phase x.
Proof.
  intros Hx Hv. rewrite (idx_decompose (idx_set_index v x)).
  - unfold idx_index, idx_phase, idx_set_index.
    rewrite bf_get_set_same, bf_get_set_other by lia. by rewrite Z.mod_small.
  - apply (bf_set_range 0 7 v x 8); lia.
Qed.

Lemma idx_set_phase_eq v x :
  0 ≤ x < 256 → 0 ≤ v < 2 → idx_set_phase v x = idx_index x + 128 * v.
Proof.
  intros Hx Hv. rewrite (idx_decompose (idx_set_phase v x)).
  - unfold idx_index, idx_phase, idx_set_phase.
    rewrite bf_get_set_same, bf_get_set_other by lia. by rewrite Z.mod_small.
  - apply (bf_set_range 7 1 v x 8); lia.
Qed.

Lemma land_depth x d : pow2_depth d → 0 ≤ x → Z.land x (u32 (d - 1)) = x mod d.
Proof.
  intros Hd Hx. pose proof (pow2_depth_range d Hd). rewrite u32_id by (unfold U32_MAX; lia).
  destruct Hd as (k & Hk & ->). rewrite <- Z.land_ones by lia. f_equal.
  rewrite Z.ones_equiv. lia.
Qed.

(** Advancing an index is adding to the free-running counter. *)
Lemma next_index_enc d n c :
  pow2_depth d → 0 ≤ n → 0 ≤ c ≤ d → get_next_index (ring_enc d n) c d = ring_enc d (n + c).
Proof.
  intros Hd Hn Hc. pose proof (pow2_depth_range d Hd) as Hdr.
  pose proof (enc_range d Hd n). pose proof (Z.mod_pos_bound n d).
  pose proof (Z.mod_pos_bound (n + c) d). pose proof (Z.mod_pos_bound (n / d) 2).
  unfold get_next_index. cbv zeta.
  rewrite enc_index, u32_id, land_depth, Z.add_mod_idemp_l by (done || unfold U32_MAX; lia).
  rewrite idx_set_index_eq, enc_phase by (done || lia).
  rewrite idx_index_split, idx_phase_split by lia.
  unfold ring_enc, nz.
  destruct (laps d Hd n (n + c)) as [[El Em]|[El Em]]; [lia | lia | |]; rewrite El.
  - destruct (Z.eqb_spec c 0); cbn; [f_equal; lia|].
    rewrite (proj2 (Z.leb_gt _ _)) by lia. lia.
  - assert (c ≠ 0) by (intros ->; rewrite Z.add_0_r in El; lia).
    rewrite (proj2 (Z.eqb_neq c 0)), (proj2 (Z.leb_le _ _)) by lia. cbn.
    rewrite Z.mod_mod by lia.
    assert ((n / d + 1) mod 2 = Z.lxor ((n / d) mod 2) 1) as E.
    { rewrite (Z.add_mod (n / d) 1 2) by lia.
      assert ((n / d) mod 2 = 0 ∨ (n / d) mod 2 = 1) as [->| ->] by lia; reflexivity. }
    rewrite E. assert (0 ≤ Z.lxor ((n / d) mod 2) 1 < 2).
    { rewrite <- E. apply Z.mod_pos_bound. lia. }
    rewrite idx_set_phase_eq, idx_index_split by lia. lia.
Qed.

(** ** The counters of a mailbox *)

Section ring_facts.
Context (mbox : mx_mbox) (h t : Z).
Hypothesis Hring : ring mbox h t.

Local Notation d := (mb_depth mbox).

Lemma ring_pow2 : pow2_depth d.
Proof. apply (ring_depth _ _ _ Hring). Qed.

Local Ltac ring_unfold :=
  rewrite ?(ring_head _ _ _ Hring), ?(ring_tail _ _ _ Hring),
    ?enc_index, ?enc_phase by exact ring_pow2.

Lemma ring_pending : get_pending_count mbox = t - h.
Proof.
  pose proof (pow2_depth_range d ring_pow2).
  destruct Hring as [_ _ _ Ho Hb].
  unfold get_pending_count. cbv zeta. ring_unfold.
  rewrite phase_xor, phase_eq by (done || exact ring_pow2).
  destruct (laps d ring_pow2 h t Ho Hb) as [[E ?]|[E ?]].
  - rewrite E, Z.eqb_refl, u32_id by (unfold U32_MAX; lia). lia.
  - rewrite (proj2 (Z.eqb_neq _ _)), u32_id by (unfold U32_MAX; lia). lia.
Qed.

Lemma ring_free : get_free_space mbox = d - (t - h).
Proof.
  pose proof (pow2_depth_range d ring_pow2).
  destruct Hring as [_ _ _ Ho Hb].
  unfold get_free_space. cbv zeta. ring_unfold.
  rewrite phase_xor, phase_eq by (done || exact ring_pow2).
  destruct (laps d ring_pow2 h t Ho Hb) as [[E ?]|[E ?]].
  - rewrite E, Z.eqb_refl, u32_id by (unfold U32_MAX; lia). lia.
  - rewrite (proj2 (Z.eqb_neq _ _)), u32_id by (unfold U32_MAX; lia). lia.
Qed.

Lemma ring_full : is_full mbox = (t - h =? d).
Proof.
  pose proof (pow2_depth_range d ring_pow2).
  destruct Hring as [_ _ _ Ho Hb].
  unfold is_full. cbv zeta. ring_unfold. rewrite phase_eq by (done || exact ring_pow2).
  destruct (laps d ring_pow2 h t Ho Hb) as [[E Em]|[E Em]]; rewrite E.
  - rewrite Z.eqb_refl, andb_false_r. symmetry. apply Z.eqb_neq.
    pose proof (Z.mod_pos_bound t d). pose proof (Z.mod_pos_bound h d). lia.
  - rewrite (proj2 (Z.eqb_neq (h / d + 1) (h / d))) by lia. cbn. rewrite andb_true_r.
    destruct (Z.eqb_spec (t - h) d); [apply Z.eqb_eq | apply Z.eqb_neq]; lia.
Qed.

Lemma ring_empty : is_empty mbox = (t =? h).
Proof.
  pose proof (pow2_depth_range d ring_pow2).
  pose proof (Z.mod_pos_bound t d). pose proof (Z.mod_pos_bound h d).
  pose proof (ring_pending) as Hp. pose proof (ring_full) as Hf.
  destruct Hring as [_ Eh Et Ho Hb].
  unfold is_empty. rewrite Eh, Et.
  destruct (Z.eqb_spec t h) as [->|Hne]; [apply Z.eqb_refl|].
  apply Z.eqb_neq. intros E.
  assert (h mod d = t mod d) as Em by (rewrite <- !(enc_index d ring_pow2); congruence).
  assert ((h / d) mod 2 = (t / d) mod 2) as Ed by (rewrite <- !(enc_phase d ring_pow2); congruence).
  apply Z.eqb_eq in Ed. rewrite phase_eq in Ed by (done || exact ring_pow2). apply Z.eqb_eq in Ed.
  destruct (laps d ring_pow2 h t Ho Hb) as [[E' ?]|[E' ?]]; lia.
Qed.

(** The contiguous runs: what is free (pending) up to the end of the buffer. *)
Lemma ring_pushable : get_pushable_count mbox = Z.min (d - (t - h)) (d - t mod d).
Proof.
  pose proof (pow2_depth_range d ring_pow2).
  pose proof (Z.mod_pos_bound t d). pose proof (Z.mod_pos_bound h d).
  destruct Hring as [_ _ _ Ho Hb].
  unfold get_pushable_count. cbv zeta. ring_unfold. rewrite phase_eq by (done || exact ring_pow2).
  destruct (laps d ring_pow2 h t Ho Hb) as [[E Em]|[E Em]]; rewrite E.
  - rewrite Z.eqb_refl, u32_id by (unfold U32_MAX; lia). lia.
  - rewrite (proj2 (Z.eqb_neq (h / d + 1) (h / d))), u32_id by (unfold U32_MAX; lia). lia.
Qed.

Lemma ring_popable : get_popable_count mbox = Z.min (t - h) (d - h mod d).
Proof.
  pose proof (pow2_depth_range d ring_pow2).
  pose proof (Z.mod_pos_bound t d). pose proof (Z.mod_pos_bound h d).
  destruct Hring as [_ _ _ Ho Hb].
  unfold get_popable_count. cbv zeta. ring_unfold. rewrite phase_eq by (done || exact ring_pow2).
  destruct (laps d ring_pow2 h t Ho Hb) as [[E Em]|[E Em]]; rewrite E.
  - rewrite Z.eqb_refl, u32_id by (unfold U32_MAX; lia). lia.
  - rewrite (proj2 (Z.eqb_neq (h / d + 1) (h / d))), u32_id by (unfold U32_MAX; lia). lia.
Qed.

Lemma head_set_tail v : mb_head (set_tail v mbox) = mb_head mbox.
Proof. unfold mb_head, set_tail, ctx_head, ctx_set_tail; cbn. apply bf_get_set_other; lia. Qed.

Lemma tail_set_tail v : 0 ≤ v < 256 → mb_tail (set_tail v mbox) = v.
Proof.
  intros. unfold mb_tail, set_tail, ctx_tail, ctx_set_tail; cbn.
  rewrite bf_get_set_same by lia. by apply Z.mod_small.
Qed.

Lemma tail_set_head v : mb_tail (set_head v mbox) = mb_tail mbox.
Proof. unfold mb_tail, set_head, ctx_tail, ctx_set_head; cbn. apply bf_get_set_other; lia. Qed.

Lemma head_set_head v : 0 ≤ v < 256 → mb_head (set_head v mbox) = v.
Proof.
  intros. unfold mb_head, set_head, ctx_head, ctx_set_head; cbn.
  rewrite bf_get_set_same by lia. by apply Z.mod_small.
Qed.

(** Producing [c] words that fit, consuming [c] words that are pending. *)
Lemma ring_push c : 0 ≤ c ≤ d - (t - h) →
  ring (set_tail (get_next_index (mb_tail mbox) c d) mbox) h (t + c).
Proof.
  intros Hc. pose proof (enc_range d ring_pow2 (t + c)).
  pose proof (ring_order _ _ _ Hring). pose proof (ring_bound _ _ _ Hring).
  rewrite (ring_tail _ _ _ Hring), next_index_enc by (exact ring_pow2 || lia).
  constructor; cbn; try lia; [exact ring_pow2 | | by apply tail_set_tail].
  by rewrite head_set_tail, (ring_head _ _ _ Hring).
Qed.

Lemma ring_pop c : 0 ≤ c ≤ t - h →
  ring (set_head (get_next_index (mb_head mbox) c d) mbox) (h + c) t.
Proof.
  intros Hc. pose proof (enc_range d ring_pow2 (h + c)).
  pose proof (ring_order _ _ _ Hring). pose proof (ring_bound _ _ _ Hring).
  rewrite (ring_head _ _ _ Hring), next_index_enc by (exact ring_pow2 || lia).
  constructor; cbn; try lia; [exact ring_pow2 | by apply head_set_head |].
  by rewrite tail_set_head, (ring_tail _ _ _ Hring).
Qed.
End ring_facts.

(** ** Theorems *)

(** A mailbox of eight slots after nine words were produced and three consumed. *)
Definition demo_mbox : mx_mbox :=
  mx_mbox_init 4096 8192 (Z.lor (Z.shiftl 3 40) (Z.lor (Z.shiftl 129 48) (Z.shiftl 3 56))).

Lemma demo_mbox_ring : ring demo_mbox 3 9.
Proof. constructor; try reflexivity; [|lia | vm_compute; discriminate]. exists 3. split; [lia | reflexivity]. Qed.

(** The 8-bit head and tail of a mailbox represent the free-running counters.
    The phase arithmetic of mbox.c computes exactly the number of pending words and
    of free slots, full and empty are told apart, and advancing the tail by the
    words that fit (the head by the words that are pending) is adding to the counter. *)
Theorem mbox_implements_ring mbox h t :
  ring mbox h t →
  get_pending_count mbox = t - h ∧
  get_free_space mbox = mb_depth mbox - (t - h) ∧
  is_empty mbox = (t =? h) ∧
  is_full mbox = (t - h =? mb_depth mbox) ∧
  (∀ c, 0 ≤ c ≤ get_free_space mbox →
     ring (set_tail (get_next_index (mb_tail mbox) c (mb_depth mbox)) mbox) h (t + c)) ∧
  (∀ c, 0 ≤ c ≤ get_pending_count mbox →
     ring (set_head (get_next_index (mb_head mbox) c (mb_depth mbox)) mbox) (h + c) t).
Proof.
  intros Hr. pose proof (ring_pending _ _ _ Hr) as Hp. pose proof (ring_free _ _ _ Hr) as Hf.
  split_and!; eauto using ring_empty, ring_full.
  - intros c. rewrite Hf. by apply ring_push.
  - intros c. rewrite Hp. by apply ring_pop.
Qed.

Lemma mbox_implements_ring_witness :
  get_pending_count demo_mbox = 6 ∧ get_free_space demo_mbox = 2 ∧
  is_empty demo_mbox = false ∧ is_full demo_mbox = false.
Proof.
  destruct (mbox_implements_ring demo_mbox 3 9 demo_mbox_ring) as (H1 & H2 & H3 & H4 & _).
  split; [exact H1|]. split; [exact H2|]. split; [exact H3 | exact H4].
Defined.

(** The runs send and receive work on are contiguous.  The words
    [get_pushable_count] ([get_popable_count]) reports are free (pending) and lie
    between the tail (head) slot and the end of the buffer, the run is empty only
    when the mailbox is full (empty), and the byte offset of the run stays inside
    the buffer. *)
Theorem mbox_run_contiguous mbox h t :
  ring mbox h t →
  0 ≤ get_pushable_count mbox ≤ get_free_space mbox ∧
  get_data_offset (mb_tail mbox) + 8 * get_pushable_count mbox ≤ 8 * mb_depth mbox ∧
  (get_pushable_count mbox = 0 ↔ is_full mbox = true) ∧
  0 ≤ get_popable_count mbox ≤ get_pending_count mbox ∧
  get_data_offset (mb_head mbox) + 8 * get_popable_count mbox ≤ 8 * mb_depth mbox ∧
  (get_popable_count mbox = 0 ↔ is_empty mbox = true).
Proof.
  intros Hr. pose proof (pow2_depth_range _ (ring_pow2 _ _ _ Hr)).
  pose proof (Z.mod_pos_bound t (mb_depth mbox)). pose proof (Z.mod_pos_bound h (mb_depth mbox)).
  rewrite (ring_pushable _ _ _ Hr), (ring_popable _ _ _ Hr), (ring_free _ _ _ Hr),
    (ring_pending _ _ _ Hr), (ring_full _ _ _ Hr), (ring_empty _ _ _ Hr), Z.eqb_eq, Z.eqb_eq.
  unfold get_data_offset.
  rewrite (ring_tail _ _ _ Hr), (ring_head _ _ _ Hr), !enc_index by exact (ring_pow2 _ _ _ Hr).
  pose proof (ring_order _ _ _ Hr). pose proof (ring_bound _ _ _ Hr). lia.
Qed.

Lemma mbox_run_contiguous_witness :
  0 ≤ get_pushable_count demo_mbox ≤ get_free_space demo_mbox ∧
  get_data_offset (mb_tail demo_mbox) + 8 * get_pushable_count demo_mbox ≤ 8 * mb_depth demo_mbox.
Proof.
  destruct (mbox_run_contiguous demo_mbox 3 9 demo_mbox_ring) as (H1 & H2 & _).
  split; [exact H1 | exact H2].
Defined.
