(* ===== verification/SgDesc.v ===== *)
(** * Scatter lists and PRP descriptor lists (src/core_common.c, descriptor list
      utilities; [desc_list_alloc]/[desc_list_free] of src/transfer.c)

    A transfer is a slice of a DMA-mapped scatter list.  The device is given bare
    addresses: it takes the first chunk up to the next [dma_size] boundary and every
    later one as a full [dma_size].  This file models the code that counts and emits
    the descriptors of a slice, states what the device reads through them, and proves
    the two walks of the driver and the walk of the device agree. *)

From S2P Require Import Prelude.

(** ** Data *)

(** One mapped entry: [sg_dma_address], [sg_dma_len].  A [struct scatterlist *] is
    the list from the entry on, [sg_next] its tail, [NULL] the empty list. *)
Record sg_entry := MkSg {
  sg_dma_address : Z;
  sg_dma_len : Z;
}.

Definition scatterlist := list sg_entry.

(** [struct sg_table]: the chain, and how many entries carry a DMA mapping. *)
Record sg_table := MkSgt {
  sgl : scatterlist;
  nents : nat;
}.

(** ** Operations *)

(** The loop of [mx_get_list_count]; every pass takes [descs_per_list - 1] off. *)
Fixpoint list_count_loop (fuel : nat) (total_desc_cnt descs_per_list list_cnt : Z) : option Z :=
  match fuel with
  | O => None
  | S f =>
    if descs_per_list <? total_desc_cnt
    then list_count_loop f (total_desc_cnt - (descs_per_list - 1)) descs_per_list (list_cnt + 1)
    else Some list_cnt
  end.

Definition mx_get_list_count (total_desc_cnt descs_per_list : Z) : option Z :=
  list_count_loop (S (Z.to_nat total_desc_cnt)) total_desc_cnt descs_per_list 1.

(** [for_each_sgtable_dma_sg]: the first [n] entries of the chain. *)
Fixpoint sg_locate_loop (sg : scatterlist) (n : nat) (acc byte_offset : Z)
    : option (scatterlist * Z) :=
  match n, sg with
  | S n', e :: rest =>
    let dlen := sg_dma_len e in
    if byte_offset <? u64 (acc + dlen) then Some (sg, u64 (byte_offset - acc))
    else sg_locate_loop rest n' (u64 (acc + dlen)) byte_offset
  | _, _ => None
  end.

(** [None] is the return value [-EINVAL] with the outputs cleared. *)
Definition mx_sg_locate (sgt : sg_table) (byte_offset : Z) : option (scatterlist * Z) :=
  sg_locate_loop (sgl sgt) (nents sgt) 0 byte_offset.

Definition prp_chunk_len_at (dma_addr dma_size : Z) : Z :=
  let rem := Z.land dma_addr (dma_size - 1) in
  if nz rem then dma_size - rem else dma_size.

Definition mx_prp_first_chunk_len (e : sg_entry) (intra_off dma_size : Z) : Z :=
  let len := prp_chunk_len_at (u64 (sg_dma_address e + intra_off)) dma_size in
  Z.min len (u64 (sg_dma_len e - intra_off)).

Definition DIV_ROUND_UP (n d : Z) : Z := (n + d - 1) / d.

Definition misaligned (a dma_size : Z) : bool := nz (Z.land a (dma_size - 1)).

(** The loop of [mx_get_total_desc_count], one entry per pass. *)
Fixpoint desc_count_loop (sg : scatterlist) (intra_off remaining total dma_size : Z) : Z + Z :=
  match sg with
  | [] => if nz remaining then inl (- EINVAL) else inr total
  | e :: rest =>
    if remaining =? 0 then inr total
    else
      let avail := u64 (sg_dma_len e - intra_off) in
      let consumed := Z.min avail remaining in
      let first_len := Z.min (mx_prp_first_chunk_len e intra_off dma_size) consumed in
      let total := u64 (total + 1) in
      let total :=
        if first_len <? consumed
        then u64 (total + DIV_ROUND_UP (consumed - first_len) dma_size) else total in
      let remaining := u64 (remaining - consumed) in
      if remaining =? 0 then inr total
      else
        let end_ := u64 (sg_dma_address e + intra_off + consumed) in
        RETURN inl (- EINVAL) WHEN misaligned end_ dma_size ;;
        RETURN inl (- EINVAL) WHEN
          (match rest with e' :: _ => misaligned (sg_dma_address e') dma_size | [] => false end) ;;
        desc_count_loop rest 0 remaining total dma_size
  end.

(** [inl] is an errno, [inr] the count stored through [out_cnt]. *)
Definition mx_get_total_desc_count (sg : scatterlist) (intra_off byte_size dma_size : Z) : Z + Z :=
  if byte_size =? 0 then inl (- EINVAL)
  else desc_count_loop sg intra_off byte_size 0 dma_size.

(** *** Descriptor pages

    [pool_out] is the set of pool pages handed out and not yet freed; a page is named
    by its bus address.  [desc_list] is the pair of arrays of the transfer, [None]
    when they are [NULL].  The allocator is an argument: whether each [kcalloc]
    succeeds, and the answer of each [dma_pool_alloc]. *)
Record desc_pages := MkPages {
  pool_out : gset Z;
  desc_list : option (list Z);
}.

Record pool_env := MkPool {
  kcalloc_va : bool;
  kcalloc_ba : bool;
  dma_pool_alloc : nat → option Z;
}.

Definition desc_list_free (st : desc_pages) : desc_pages :=
  match desc_list st with
  | None => st
  | Some bas => MkPages (pool_out st ∖ list_to_set bas) None
  end.

(** The allocation loop, at index [i] with [n] pages to go. *)
Fixpoint desc_list_fill (pool : nat → option Z) (i n : nat) (st : desc_pages) (bas : list Z)
    : desc_pages * Z :=
  match n with
  | O => (MkPages (pool_out st) (Some bas), 0)
  | S n' =>
    match pool i with
    | None => (desc_list_free (MkPages (pool_out st) (Some bas)), - ENOMEM)
    | Some ba => desc_list_fill pool (S i) n' (MkPages ({[ba]} ∪ pool_out st) None) (bas ++ [ba])
    end
  end.

Definition desc_list_alloc (env : pool_env) (list_cnt : Z) (st : desc_pages) : desc_pages * Z :=
  if negb (kcalloc_va env) then (MkPages (pool_out st) None, - ENOMEM)
  else if negb (kcalloc_ba env) then (MkPages (pool_out st) None, - ENOMEM)
  else desc_list_fill (dma_pool_alloc env) 0 (Z.to_nat list_cnt) st [].

(** *** Emission *)

(** Contents of the descriptor pages: (page bus address, slot) to 64-bit entry. *)
Notation desc_mem := (gmap (Z * Z) Z).

(** The locals of the emission loop. *)
Record emit_state := MkEmit {
  em_sg : scatterlist;
  em_dma_addr : Z;
  em_entry_avail : Z;
  em_len : Z;
  em_remaining : Z;
  em_total : Z;
  em_list_idx : nat;
  em_desc_idx : Z;
  em_mem : desc_mem;
}.

#[export] Instance eta_emit : Eta emit_state := fun r =>
  MkEmit (em_sg r) (em_dma_addr r) (em_entry_avail r) (em_len r) (em_remaining r) (em_total r)
    (em_list_idx r) (em_desc_idx r) (em_mem r).

Definition min3 (a b c : Z) : Z := Z.min (Z.min a b) c.

(** Moving past an exhausted entry, then the boundary check and the next length
    (the tail of the loop, and the [skip_first_entry] block). [None] is [-EINVAL]. *)
Definition emit_advance (dma_size : Z) (st : emit_state) : option emit_state :=
  let check st :=
    if misaligned (em_dma_addr st) dma_size then None
    else Some (st <| em_len := min3 dma_size (em_entry_avail st) (em_remaining st) |>) in
  if em_entry_avail st =? 0 then
    match tail (em_sg st) with
    | [] => None
    | (e :: _) as sg =>
      check (st <| em_sg := sg |> <| em_dma_addr := sg_dma_address e |>
                <| em_entry_avail := sg_dma_len e |>)
    end
  else check st.

Definition emit_consume (st : emit_state) : emit_state :=
  st <| em_dma_addr := u64 (em_dma_addr st + em_len st) |>
     <| em_entry_avail := u64 (em_entry_avail st - em_len st) |>
     <| em_remaining := u64 (em_remaining st - em_len st) |>.

(** The jump to the next page: a full page, one slot left, more than one descriptor to go. *)
Definition emit_link (descs_per_list : Z) (bas : list Z) (st : emit_state) : option emit_state :=
  if (em_desc_idx st =? descs_per_list - 1) && (1 <? em_total st) then
    match bas !! S (em_list_idx st), bas !! em_list_idx st with
    | Some next, Some desc =>
      Some (st <| em_mem := <[(desc, em_desc_idx st) := next]> (em_mem st) |>
               <| em_list_idx := S (em_list_idx st) |>
               <| em_desc_idx := 0 |>)
    | _, _ => None
    end
  else Some st.

(** [desc[desc_idx++] = dma_addr]. *)
Definition emit_store (descs_per_list : Z) (bas : list Z) (st : emit_state) : option emit_state :=
  if (descs_per_list <=? em_desc_idx st) || (em_total st =? 0) then None
  else
    match bas !! em_list_idx st with
    | None => None
    | Some desc =>
      Some (emit_consume
        (st <| em_mem := <[(desc, em_desc_idx st) := em_dma_addr st]> (em_mem st) |>
            <| em_desc_idx := em_desc_idx st + 1 |>) <| em_total := em_total st - 1 |>)
    end.

Inductive emit_result :=
  | EmitDone (mem : desc_mem)
  | EmitError
  | EmitFuel.

Fixpoint emit_loop (fuel : nat) (dma_size descs_per_list : Z) (bas : list Z) (st : emit_state)
    : emit_result :=
  if em_remaining st =? 0 then EmitDone (em_mem st)
  else
    match fuel with
    | O => EmitFuel
    | S f =>
      match emit_link descs_per_list bas st with
      | None => EmitError
      | Some st =>
        match emit_store descs_per_list bas st with
        | None => EmitError
        | Some st =>
          if em_remaining st =? 0 then EmitDone (em_mem st)
          else
            match emit_advance dma_size st with
            | None => EmitError
            | Some st => emit_loop f dma_size descs_per_list bas st
            end
        end
      end
    end.

(** The locals before the loop, at the located entry. *)
Definition emit_start (sg : scatterlist) (e : sg_entry) (intra_off size dma_size desc_cnt : Z)
    (mem : desc_mem) : emit_state :=
  let entry_avail := u64 (sg_dma_len e - intra_off) in
  MkEmit sg (u64 (sg_dma_address e + intra_off)) entry_avail
    (min3 (mx_prp_first_chunk_len e intra_off dma_size) entry_avail size)
    size desc_cnt 0 0 mem.

(** [skip_first_entry]: the first chunk is in the command, advance past it. *)
Definition emit_skip (dma_size : Z) (st : emit_state) : option emit_state :=
  let st := emit_consume st in
  if (em_entry_avail st =? 0) && (em_remaining st =? 0) then
    if misaligned (em_dma_addr st) dma_size then None
    else Some (st <| em_len := min3 dma_size (em_entry_avail st) (em_remaining st) |>)
  else emit_advance dma_size st.

(** The result of [mx_desc_list_init]: the return value, the base address stored
    through [out_ba], the descriptor pages and their contents.  [None]: a loop ran
    out of fuel. *)
Record desc_init_result := MkInit {
  di_ret : Z;
  di_ba : Z;
  di_pages : desc_pages;
  di_mem : desc_mem;
}.

Definition mx_desc_list_init (env : pool_env) (sgt : sg_table)
    (sg_byte_offset size dma_size descs_per_list : Z) (skip_first_entry : bool) (desc_cnt : Z)
    (pages : desc_pages) (mem : desc_mem) : option desc_init_result :=
  match mx_sg_locate sgt sg_byte_offset with
  | None | Some ([], _) => Some (MkInit (- EINVAL) 0 pages mem)
  | Some ((e :: _) as sg, intra_off) =>
    if desc_cnt =? 0 then Some (MkInit (- EINVAL) 0 pages mem)
    else
      match mx_get_list_count desc_cnt descs_per_list with
      | None => None
      | Some list_cnt =>
        let '(pages, ret) := desc_list_alloc env list_cnt pages in
        if nz ret then Some (MkInit ret 0 pages mem)
        else
          let bas := default [] (desc_list pages) in
          let st := emit_start sg e intra_off size dma_size desc_cnt mem in
          match (if skip_first_entry then emit_skip dma_size st else Some st) with
          | None => Some (MkInit (- EINVAL) 0 (desc_list_free pages) mem)
          | Some st =>
            match emit_loop (S (Z.to_nat desc_cnt)) dma_size descs_per_list bas st with
            | EmitFuel => None
            | EmitError => Some (MkInit (- EINVAL) 0 (desc_list_free pages) mem)
            | EmitDone mem => Some (MkInit 0 (default 0 (head bas)) pages mem)
            end
          end
      end
  end.
