(* ===== verification/SgWalk.v ===== *)
(** * The PRP walk of a slice

    Reference semantics for SgDesc: the bytes of a scatter list, the bytes the device
    touches through a list of descriptors, and the relation [prp_walk] that both the
    counting and the emitting loop of the driver follow. *)

From Stdlib Require Import Zwf.
From S2P Require Import Prelude SgDesc.

(** ** Bytes *)

(** The bus addresses [a, a + n). *)
Definition addr_range (a n : Z) : list Z := seqZ a n.

Definition sg_bytes (sg : scatterlist) : list Z :=
  sg ≫= fun e => addr_range (sg_dma_address e) (sg_dma_len e).

Lemma sg_bytes_app sg1 sg2 : sg_bytes (sg1 ++ sg2) = sg_bytes sg1 ++ sg_bytes sg2.
Proof. apply bind_app. Qed.

Definition sg_total (sg : scatterlist) : Z := Z.of_nat (length (sg_bytes sg)).

(** The bytes of a slice of the mapping, in order. *)
Definition slice (sgt : sg_table) (off size : Z) : list Z :=
  take (Z.to_nat size) (drop (Z.to_nat off) (sg_bytes (take (nents sgt) (sgl sgt)))).

(** The device: a full chunk per descriptor, the last cut to the size. *)
Fixpoint dev_chunks (dma_size : Z) (descs : list Z) (rem : Z) : list Z :=
  match descs with
  | [] => []
  | d :: ds =>
    addr_range d (Z.min dma_size rem) ++ dev_chunks dma_size ds (rem - Z.min dma_size rem)
  end.

(** ... and the first descriptor only up to the next [dma_size] boundary. *)
Definition dev_bytes (dma_size : Z) (descs : list Z) (size : Z) : list Z :=
  match descs with
  | [] => []
  | d :: ds =>
    let first := Z.min (dma_size - d mod dma_size) size in
    addr_range d first ++ dev_chunks dma_size ds (size - first)
  end.

(** The device's walk of a descriptor list of [n] entries at page [ba]: a page holds
    [dpl] slots; when more entries remain than fit, the last slot links to the next. *)
Fixpoint dev_read_page (mem : desc_mem) (ba : Z) (slot : Z) (cnt : nat) : option (list Z) :=
  match cnt with
  | O => Some []
  | S c =>
    match mem !! (ba, slot), dev_read_page mem ba (slot + 1) c with
    | Some d, Some ds => Some (d :: ds)
    | _, _ => None
    end
  end.

Fixpoint dev_read_list (fuel : nat) (dpl : Z) (mem : desc_mem) (ba n : Z) : option (list Z) :=
  match fuel with
  | O => None
  | S f =>
    if n <=? dpl then dev_read_page mem ba 0 (Z.to_nat n)
    else
      match dev_read_page mem ba 0 (Z.to_nat (dpl - 1)), mem !! (ba, dpl - 1) with
      | Some ds, Some next =>
        match dev_read_list f dpl mem next (n - (dpl - 1)) with
        | Some ds' => Some (ds ++ ds')
        | None => None
        end
      | _, _ => None
      end
  end.

(** ** The walk *)

(** What a mapped entry looks like: a positive length and no wrap of the bus address
    space. *)
Record sg_ok (e : sg_entry) : Prop := {
  sgo_addr : 0 ≤ sg_dma_address e;
  sgo_len : 0 < sg_dma_len e;
  sgo_end : sg_dma_address e + sg_dma_len e ≤ ULLONG_MAX;
}.

(** [prp_walk D a avail rest rem l]: from address [a], with [avail] bytes left in the
    current entry and [rest] after it, [rem] bytes are covered by the chunks that start
    at the addresses [l], every chunk but the last ending on a [D] boundary and every
    one but the first starting on one. *)
Inductive prp_walk (D : Z) : Z → Z → scatterlist → Z → list Z → Prop :=
  | walk_last a avail rest rem :
      0 < rem → rem ≤ D - a mod D → rem ≤ avail →
      prp_walk D a avail rest rem [a]
  | walk_in a avail rest rem l :
      D - a mod D < avail → D - a mod D < rem →
      prp_walk D (a + (D - a mod D)) (avail - (D - a mod D)) rest (rem - (D - a mod D)) l →
      prp_walk D a avail rest rem (a :: l)
  | walk_next a avail e rest rem l :
      avail = D - a mod D → avail < rem → sg_ok e → sg_dma_address e mod D = 0 →
      prp_walk D (sg_dma_address e) (sg_dma_len e) rest (rem - avail) l →
      prp_walk D a avail (e :: rest) rem (a :: l).

(** The layouts the counting loop accepts: every entry the slice leaves ends on a
    boundary and every entry it enters starts on one. *)
Fixpoint prp_layout (D : Z) (e : sg_entry) (intra : Z) (rest : scatterlist) (rem : Z) : Prop :=
  rem ≤ sg_dma_len e - intra ∨
  match rest with
  | [] => False
  | e' :: rest' =>
    (sg_dma_address e + sg_dma_len e) mod D = 0 ∧ sg_dma_address e' mod D = 0 ∧
    prp_layout D e' 0 rest' (rem - (sg_dma_len e - intra))
  end.

(** ** Arithmetic of chunk boundaries *)

Section pow2.
Context (k : Z).
Hypothesis Hk : 0 ≤ k ≤ 32.
Local Notation D := (2 ^ k).

Lemma D_pos : 0 < D ≤ 2 ^ 32.
Proof. split; [lia | apply Z.pow_le_mono_r; lia]. Qed.

Lemma land_mask a : Z.land a (D - 1) = a mod D.
Proof. rewrite <- Z.land_ones by lia. f_equal. rewrite Z.ones_equiv. lia. Qed.

Lemma mod_D_range a : 0 ≤ a mod D < D.
Proof. apply Z.mod_pos_bound. pose proof D_pos. lia. Qed.

Lemma chunk_len_at a : prp_chunk_len_at a D = D - a mod D.
Proof.
  unfold prp_chunk_len_at. rewrite land_mask. unfold nz.
  destruct (Z.eqb_spec (a mod D) 0); cbn; lia.
Qed.

Lemma misaligned_spec a : misaligned a D = negb (a mod D =? 0).
Proof. unfold misaligned. by rewrite land_mask. Qed.

Lemma next_boundary a : (a + (D - a mod D)) mod D = 0.
Proof.
  pose proof D_pos. replace (a + (D - a mod D)) with ((a / D + 1) * D).
  - apply Z.mod_mul. lia.
  - pose proof (Z.div_mod a D). lia.
Qed.

Lemma DIV_ROUND_UP_step n : D < n → DIV_ROUND_UP n D = 1 + DIV_ROUND_UP (n - D) D.
Proof.
  intros. pose proof D_pos. unfold DIV_ROUND_UP.
  replace (n + D - 1) with (n - D + D - 1 + 1 * D) by lia. rewrite Z.div_add by lia. lia.
Qed.

Lemma DIV_ROUND_UP_small n : 0 < n ≤ D → DIV_ROUND_UP n D = 1.
Proof.
  intros. pose proof D_pos. unfold DIV_ROUND_UP.
  replace (n + D - 1) with (n - 1 + 1 * D) by lia. rewrite Z.div_add, Z.div_small by lia. lia.
Qed.

(** The number of chunks the counting loop charges to [n] bytes from [a] on. *)
Definition chunks_of (a n : Z) : Z :=
  let first := Z.min (D - a mod D) n in
  1 + if first <? n then DIV_ROUND_UP (n - first) D else 0.

Lemma chunks_of_small a n : n ≤ D - a mod D → chunks_of a n = 1.
Proof. intros. unfold chunks_of. rewrite Z.min_r, Z.ltb_irrefl by lia. lia. Qed.

Lemma chunks_of_step a n :
  D - a mod D < n → chunks_of a n = 1 + chunks_of (a + (D - a mod D)) (n - (D - a mod D)).
Proof.
  intros H. pose proof D_pos. pose proof (mod_D_range a). unfold chunks_of.
  rewrite next_boundary, Z.min_l, (proj2 (Z.ltb_lt _ _)) by lia.
  set (m := n - (D - a mod D)). assert (0 < m) by (subst m; lia). f_equal.
  destruct (Z.leb_spec m D).
  - rewrite Z.min_r, Z.ltb_irrefl, DIV_ROUND_UP_small by lia. lia.
  - rewrite Z.min_l, (proj2 (Z.ltb_lt _ _)), DIV_ROUND_UP_step by lia.
    by rewrite Z.sub_0_r.
Qed.

Lemma chunks_of_bound a n : 0 < n → 1 ≤ chunks_of a n ≤ n.
Proof.
  intros Hn. pose proof D_pos. pose proof (mod_D_range a). unfold chunks_of.
  destruct (Z.ltb_spec (Z.min (D - a mod D) n) n); [|lia].
  rewrite Z.min_l by lia. set (m := n - (D - a mod D)). unfold DIV_ROUND_UP.
  pose proof (Z.div_le_mono 0 (m + D - 1) D). rewrite Z.div_0_l in * by lia.
  assert ((m + D - 1) / D ≤ m); [|subst m; lia].
  apply Z.lt_succ_r, Z.div_lt_upper_bound; subst m; nia.
Qed.

(** Walking the bytes of one entry: the chunks are charged as counted. *)
Lemma walk_entry_last a avail rest rem :
  0 < rem → rem ≤ avail → ∃ l, prp_walk D a avail rest rem l ∧ Z.of_nat (length l) = chunks_of a rem.
Proof.
  intros Hr. revert a avail. induction rem as [rem IH] using (well_founded_induction (Zwf_well_founded 0)).
  intros a avail Ha. pose proof D_pos. pose proof (mod_D_range a).
  destruct (Z.leb_spec rem (D - a mod D)).
  - exists [a]. split; [by constructor|]. by rewrite chunks_of_small.
  - destruct (IH (rem - (D - a mod D)) ltac:(unfold Zwf; lia) ltac:(lia)
      (a + (D - a mod D)) (avail - (D - a mod D)) ltac:(lia)) as (l & Hl & Hn).
    exists (a :: l). split; [by apply walk_in; [lia | lia |]|].
    rewrite chunks_of_step by lia. cbn. lia.
Qed.

Lemma walk_entry_next a avail e rest rem l :
  0 < avail → avail < rem → (a + avail) mod D = 0 → sg_ok e → sg_dma_address e mod D = 0 →
  prp_walk D (sg_dma_address e) (sg_dma_len e) rest (rem - avail) l →
  ∃ l', prp_walk D a avail (e :: rest) rem l' ∧
        Z.of_nat (length l') = chunks_of a avail + Z.of_nat (length l).
Proof.
  intros Ha. revert a rem. induction avail as [avail IH] using (well_founded_induction (Zwf_well_founded 0)).
  intros a rem Hr Hend Hok He Hl. pose proof D_pos. pose proof (mod_D_range a).
  destruct (Z.leb_spec avail (D - a mod D)) as [Hle|Hgt].
  - assert (avail = D - a mod D) as Hav.
    { pose proof (next_boundary a) as Hb.
      assert ((a + (D - a mod D) - (a + avail)) mod D = 0) as Hm.
      { rewrite Zminus_mod, Hb, Hend. apply Z.mod_0_l. lia. }
      rewrite Z.mod_small in Hm by lia. lia. }
    exists (a :: l). split; [by apply walk_next|].
    rewrite chunks_of_small by lia. cbn. lia.
  - destruct (IH (avail - (D - a mod D)) ltac:(unfold Zwf; lia) ltac:(lia)
      (a + (D - a mod D)) (rem - (D - a mod D))) as (l' & Hl' & Hn); [lia | | done | done | |].
    { by replace (a + (D - a mod D) + (avail - (D - a mod D))) with (a + avail) by lia. }
    { by replace (rem - (D - a mod D) - (avail - (D - a mod D))) with (rem - avail) by lia. }
    exists (a :: l'). split; [by apply walk_in; [lia | lia |]|].
    rewrite chunks_of_step by lia. cbn. lia.
Qed.

(** *** The device reads back the bytes of the walk *)

Lemma walk_head a avail rest rem l : prp_walk D a avail rest rem l → ∃ l', l = a :: l'.
Proof. destruct 1; eauto. Qed.

Lemma walk_pos a avail rest rem l : prp_walk D a avail rest rem l → 0 < rem.
Proof. pose proof (mod_D_range a). destruct 1; lia. Qed.

Lemma walk_length a avail rest rem l :
  prp_walk D a avail rest rem l → 1 ≤ Z.of_nat (length l) ≤ rem.
Proof.
  induction 1 as [a avail rest rem Hr Hc Ha | a avail rest rem l Ha Hr Hw IH
    | a avail e rest rem l Ha Hr Hok He Hw IH]; pose proof (mod_D_range a); cbn [length]; lia.
Qed.

Lemma dev_bytes_aligned d ds rem : d mod D = 0 → dev_bytes D (d :: ds) rem = dev_chunks D (d :: ds) rem.
Proof. intros E. cbn. by rewrite E, Z.sub_0_r. Qed.

Lemma take_addr_range a n m tl :
  0 ≤ n ≤ m → take (Z.to_nat n) (addr_range a m ++ tl) = addr_range a n.
Proof.
  intros Hn. unfold addr_range. replace m with (n + (m - n)) by lia.
  rewrite seqZ_app, <- app_assoc by lia. apply take_app_length'. rewrite length_seqZ. lia.
Qed.

Lemma take_addr_range_app a n m tl :
  0 ≤ n → 0 ≤ m →
  take (Z.to_nat (n + m)) (addr_range a n ++ tl) = addr_range a n ++ take (Z.to_nat m) tl.
Proof.
  intros Hn Hm. rewrite take_app, take_ge by (unfold addr_range; rewrite length_seqZ; lia).
  do 2 f_equal. unfold addr_range. rewrite length_seqZ. lia.
Qed.

Lemma walk_bytes a avail rest rem l :
  prp_walk D a avail rest rem l →
  dev_bytes D l rem = take (Z.to_nat rem) (addr_range a avail ++ sg_bytes rest).
Proof.
  induction 1 as [a avail rest rem Hr Hc Ha | a avail rest rem l Ha Hr Hw IH
    | a avail e rest rem l Ha Hr Hok He Hw IH]; pose proof (mod_D_range a).
  - cbn. rewrite Z.min_r, app_nil_r, take_addr_range by lia. done.
  - destruct (walk_head _ _ _ _ _ Hw) as [l' ->].
    rewrite dev_bytes_aligned in IH by apply next_boundary.
    cbn [dev_bytes]. rewrite Z.min_l, IH by lia. set (c := D - a mod D) in *.
    replace (addr_range a avail) with (addr_range a c ++ addr_range (a + c) (avail - c)).
    + rewrite <- app_assoc. replace rem with (c + (rem - c)) at 2 by lia.
      by rewrite take_addr_range_app by lia.
    + unfold addr_range. rewrite <- seqZ_app by lia. f_equal. lia.
  - destruct (walk_head _ _ _ _ _ Hw) as [l' ->].
    rewrite dev_bytes_aligned in IH by done.
    cbn [dev_bytes]. rewrite Z.min_l, <- Ha, IH by lia.
    replace rem with (avail + (rem - avail)) at 2 by lia.
    by rewrite take_addr_range_app by lia.
Qed.

(** *** Counting *)

Lemma sg_total_cons e sg : sg_ok e → sg_total (e :: sg) = sg_dma_len e + sg_total sg.
Proof.
  intros [? ? ?]. unfold sg_total, sg_bytes. cbn. rewrite length_app.
  unfold addr_range at 1. rewrite length_seqZ. lia.
Qed.

Lemma sg_total_nonneg sg : 0 ≤ sg_total sg.
Proof. unfold sg_total. lia. Qed.

(** One pass of the counting loop. *)
Lemma count_pass e rest intra rem total :
  sg_ok e → 0 ≤ intra < sg_dma_len e → 0 < rem → 0 ≤ total → total + rem ≤ ULLONG_MAX →
  desc_count_loop (e :: rest) intra rem total D =
  let a := sg_dma_address e + intra in
  let avail := sg_dma_len e - intra in
  if rem <=? avail then inr (total + chunks_of a rem)
  else if negb ((sg_dma_address e + sg_dma_len e) mod D =? 0) then inl (- EINVAL)
  else if (match rest with e' :: _ => negb (sg_dma_address e' mod D =? 0) | [] => false end)
  then inl (- EINVAL)
  else desc_count_loop rest 0 (rem - avail) (total + chunks_of a avail) D.
Proof.
  intros [Ha Hl Hend] Hin Hrem Ht Htot. cbn [desc_count_loop]. cbv zeta.
  unfold mx_prp_first_chunk_len.
  rewrite (u64_id (sg_dma_address e + intra)), (u64_id (sg_dma_len e - intra)) by lia.
  rewrite chunk_len_at, (proj2 (Z.eqb_neq rem 0)) by lia.
  set (a := sg_dma_address e + intra). set (avail := sg_dma_len e - intra).
  pose proof (mod_D_range a) as Ham.
  assert (∀ n, 0 < n ≤ avail → n ≤ rem →
    (if Z.min (Z.min (D - a mod D) avail) n <? n
     then u64 (u64 (total + 1) + DIV_ROUND_UP (n - Z.min (Z.min (D - a mod D) avail) n) D)
     else u64 (total + 1)) = total + chunks_of a n) as Hc.
  { intros n Hn Hnr. pose proof (chunks_of_bound a n ltac:(lia)) as Hb. unfold chunks_of in *.
    replace (Z.min (Z.min (D - a mod D) avail) n) with (Z.min (D - a mod D) n) in * by lia.
    rewrite (u64_id (total + 1)) by lia.
    destruct (Z.ltb_spec (Z.min (D - a mod D) n) n); rewrite ?u64_id by lia; lia. }
  destruct (Z.leb_spec rem avail) as [Hle|Hgt].
  - rewrite Z.min_r, Hc, Z.sub_diag by lia. done.
  - rewrite Z.min_l, Hc, u64_id, (proj2 (Z.eqb_neq (rem - avail) 0)) by lia.
    rewrite misaligned_spec, u64_id by lia.
    replace (a + avail) with (sg_dma_address e + sg_dma_len e) by lia.
    destruct rest as [|e' rest]; [done|]. by rewrite misaligned_spec.
Qed.

Lemma prp_layout_here e intra rest rem : rem ≤ sg_dma_len e - intra → prp_layout D e intra rest rem.
Proof. destruct rest; by left. Qed.

(** The counting loop accepts exactly the layouts of [prp_layout], and then counts
    the chunks of the walk. *)
Lemma count_loop_spec rest1 rest2 e intra rem total :
  sg_ok e → Forall sg_ok rest1 → 0 ≤ intra < sg_dma_len e →
  0 < rem ≤ sg_dma_len e - intra + sg_total rest1 →
  0 ≤ total → total + rem ≤ ULLONG_MAX →
  (prp_layout D e intra (rest1 ++ rest2) rem ∧
   ∃ l, prp_walk D (sg_dma_address e + intra) (sg_dma_len e - intra) (rest1 ++ rest2) rem l ∧
     desc_count_loop (e :: rest1 ++ rest2) intra rem total D = inr (total + Z.of_nat (length l)))
  ∨ (¬ prp_layout D e intra (rest1 ++ rest2) rem ∧
     desc_count_loop (e :: rest1 ++ rest2) intra rem total D = inl (- EINVAL)).
Proof.
  intros He Hrest. revert e intra rem total He.
  induction Hrest as [|e' rest1 He' Hrest IH]; intros e intra rem total He Hin Hrem Ht Htot;
    rewrite count_pass by (done || lia); cbv zeta;
    (destruct (Z.leb_spec rem (sg_dma_len e - intra)) as [Hle|Hgt]; [left|]).
  1,3: split; [by apply prp_layout_here|];
    edestruct (walk_entry_last (sg_dma_address e + intra) (sg_dma_len e - intra)) as (l & Hl & Hlen);
    [| | exists l; rewrite Hlen; split; [exact Hl | done]]; lia.
  - change (sg_total []) with 0 in Hrem. lia.
  - rewrite sg_total_cons in Hrem by done. cbn [app prp_layout].
    destruct (Z.eqb_spec ((sg_dma_address e + sg_dma_len e) mod D) 0) as [Hend|Hend]; cbn [negb];
      [|right; split; [lia | done]].
    destruct (Z.eqb_spec (sg_dma_address e' mod D) 0) as [Hst|Hst]; cbn [negb];
      [|right; split; [lia | done]].
    set (avail := sg_dma_len e - intra) in *.
    pose proof (chunks_of_bound (sg_dma_address e + intra) avail ltac:(lia)).
    destruct (IH e' 0 (rem - avail) (total + chunks_of (sg_dma_address e + intra) avail))
      as [(Hlay & l & Hw & Hc)|[Hlay Hc]]; try done; try lia.
    { destruct He'. lia. }
    + left. split; [by right|]. rewrite Z.add_0_r, Z.sub_0_r in Hw.
      destruct (walk_entry_next (sg_dma_address e + intra) avail e' (rest1 ++ rest2) rem l)
        as (l' & Hw' & Hlen); try done; try lia.
      { by replace (sg_dma_address e + intra + avail) with (sg_dma_address e + sg_dma_len e) by lia. }
      exists l'. split; [done|]. rewrite Hc. f_equal. lia.
    + right. split; [|done]. intros [?|(_ & _ & ?)]; [lia | done].
Qed.

(** *** Locating *)

Lemma locate_spec sg n acc off :
  Forall sg_ok (take n sg) → 0 ≤ acc ≤ off → acc + sg_total (take n sg) ≤ ULLONG_MAX →
  (off - acc < sg_total (take n sg) ∧
   ∃ e rest1 rest2 intra,
     sg_locate_loop sg n acc off = Some (e :: rest1 ++ rest2, intra) ∧
     sg_ok e ∧ Forall sg_ok rest1 ∧ 0 ≤ intra < sg_dma_len e ∧
     drop (Z.to_nat (off - acc)) (sg_bytes (take n sg)) =
       addr_range (sg_dma_address e + intra) (sg_dma_len e - intra) ++ sg_bytes rest1)
  ∨ (sg_total (take n sg) ≤ off - acc ∧ sg_locate_loop sg n acc off = None).
Proof.
  revert sg acc. induction n as [|n IH]; intros sg acc Hok Hacc Htot.
  - right. change (sg_total (take 0 sg)) with 0. destruct sg; split; done || lia.
  - destruct sg as [|e sg]; cbn [take] in *.
    { right. change (sg_total []) with 0. split; [lia | done]. }
    inversion_clear Hok as [|? ? He Hok']. rewrite sg_total_cons in * by done.
    pose proof (sg_total_nonneg (take n sg)). destruct He as [Ha Hl Hend] eqn:EHe. clear EHe.
    cbn [sg_locate_loop]. cbv zeta. rewrite u64_id by lia.
    destruct (Z.ltb_spec off (acc + sg_dma_len e)) as [Hlt|Hge].
    + left. split; [lia|]. exists e, (take n sg), (drop n sg), (off - acc).
      rewrite take_drop, u64_id by lia. split_and!; try done; try lia.
      unfold sg_bytes at 1. cbn. rewrite drop_app_le by (unfold addr_range; rewrite length_seqZ; lia).
      f_equal. unfold addr_range.
      replace (sg_dma_len e) with ((off - acc) + (sg_dma_len e - (off - acc))) at 1 by lia.
      rewrite seqZ_app by lia. apply drop_app_length'. rewrite length_seqZ. lia.
    + destruct (IH sg (acc + sg_dma_len e)) as [(Hlt & e1 & r1 & r2 & intra & Hloc & Hrest)|[Hle Hloc]];
        [done | lia | lia | left | right; split; [lia | done]].
      split; [lia|]. exists e1, r1, r2, intra. split; [done|].
      destruct Hrest as (? & ? & ? & Hd). split_and!; try done; try lia. rewrite <- Hd.
      unfold sg_bytes at 1. cbn.
      rewrite drop_app_ge by (unfold addr_range; rewrite length_seqZ; lia).
      f_equal. unfold addr_range. rewrite length_seqZ. lia.
Qed.
End pow2.
