(* ===== verification/SgEmit.v ===== *)
(** * Emission of descriptor lists

    The emitting loop of [mx_desc_list_init] follows the walk it was counted for, its
    pages are enough, it stays inside them, and the device reads back what was
    emitted. *)

From S2P Require Import Prelude SgDesc SgWalk.

(** ** The number of pages *)

(** [c] pages of [dpl] slots, all but the last giving one slot to the link, hold [n]
    descriptors, and no fewer pages do. *)
Definition list_cnt_spec (n dpl c : Z) : Prop :=
  1 ≤ c ∧ n ≤ dpl + (c - 1) * (dpl - 1) ∧ (1 < c → dpl + (c - 2) * (dpl - 1) < n).

Lemma list_count_loop_spec dpl n0 fuel n c :
  2 ≤ dpl → 0 ≤ n → 1 ≤ c → n = n0 - (c - 1) * (dpl - 1) → (1 < c → dpl + (c - 2) * (dpl - 1) < n0) →
  n < Z.of_nat fuel → ∃ c', list_count_loop fuel n dpl c = Some c' ∧ list_cnt_spec n0 dpl c'.
Proof.
  intros Hd. revert n c. induction fuel as [|f IH]; intros n c Hpos Hc Hn Hmin Hf.
  - lia.
  - cbn. destruct (Z.ltb_spec dpl n) as [Hlt|Hge].
    + apply IH; nia.
    + exists c. split; [done|]. split_and!; nia.
Qed.

Lemma list_count_spec n dpl :
  2 ≤ dpl → 0 ≤ n → ∃ c, mx_get_list_count n dpl = Some c ∧ list_cnt_spec n dpl c.
Proof. intros. apply list_count_loop_spec; lia. Qed.

(** ** Allocation *)

(** What the driver relies on of [dma_pool_alloc]: a page it hands out is not one that
    is still outstanding. *)
Record pool_fresh (env : pool_env) (out : gset Z) : Prop := {
  pf_new : ∀ j ba, dma_pool_alloc env j = Some ba → ba ∉ out;
  pf_inj : ∀ j j' ba, dma_pool_alloc env j = Some ba → dma_pool_alloc env j' = Some ba → j = j';
}.

Lemma desc_list_fill_spec env i n st bas out0 :
  pool_fresh env out0 → pool_out st = list_to_set bas ∪ out0 → NoDup bas →
  (∀ x, x ∈ bas → ∃ j, (j < i)%nat ∧ dma_pool_alloc env j = Some x) →
  (∃ bas', desc_list_fill (dma_pool_alloc env) i n st bas =
             (MkPages (list_to_set bas' ∪ out0) (Some bas'), 0) ∧
           NoDup bas' ∧ length bas' = (length bas + n)%nat ∧
           (∀ x, x ∈ bas' → x ∉ out0)) ∨
  desc_list_fill (dma_pool_alloc env) i n st bas = (MkPages out0 None, - ENOMEM).
Proof.
  intros [Hnew Hinj]. revert i st bas. induction n as [|n IH]; intros i st bas Hout Hnd Hold; cbn.
  - left. exists bas. rewrite Hout. split_and!; [done | done | lia |].
    intros x Hx. destruct (Hold x Hx) as (j & _ & Hp). eauto.
  - destruct (dma_pool_alloc env i) as [ba|] eqn:Hba.
    + destruct (IH (S i) (MkPages ({[ba]} ∪ pool_out st) None) (bas ++ [ba])) as [(bas' & E & Hnd' & Hl & Hdj)|E].
      * cbn. rewrite Hout, list_to_set_app_L, list_to_set_cons, list_to_set_nil. set_solver.
      * apply list.NoDup_app. split_and!; [done | | apply NoDup_singleton].
        intros x Hx ->%list_elem_of_singleton. destruct (Hold ba Hx) as (j & Hj & Hp).
        specialize (Hinj _ _ _ Hp Hba). lia.
      * intros x [Hx| ->%list_elem_of_singleton]%elem_of_app; [|exists i; split; [lia | done]].
        destruct (Hold x Hx) as (j & ? & ?). exists j. split; [lia | done].
      * left. exists bas'. rewrite length_app in Hl. cbn in Hl. split_and!; done || lia.
      * by right.
    + right. unfold desc_list_free. cbn. do 2 f_equal. rewrite Hout.
      apply set_eq. intros x. rewrite elem_of_difference, elem_of_union. split; [tauto|].
      intros Hx. split; [by right|]. rewrite elem_of_list_to_set. intros Hb.
      destruct (Hold x Hb) as (j & _ & Hp). by apply Hnew in Hp.
Qed.

(** All pages or none. *)
Lemma desc_list_alloc_spec env c pages :
  0 ≤ c → pool_fresh env (pool_out pages) →
  (∃ bas, desc_list_alloc env c pages = (MkPages (list_to_set bas ∪ pool_out pages) (Some bas), 0) ∧
          NoDup bas ∧ Z.of_nat (length bas) = c ∧ (∀ x, x ∈ bas → x ∉ pool_out pages)) ∨
  desc_list_alloc env c pages = (MkPages (pool_out pages) None, - ENOMEM).
Proof.
  intros Hc Hf. unfold desc_list_alloc.
  destruct (kcalloc_va env), (kcalloc_ba env); cbn; try by right.
  destruct (desc_list_fill_spec env 0 (Z.to_nat c) pages [] (pool_out pages))
    as [(bas & E & Hnd & Hl & Hdj)|E]; try done.
  - rewrite list_to_set_nil. set_solver.
  - constructor.
  - by intros x ?%not_elem_of_nil.
  - left. exists bas. split_and!; [done | done | cbn in Hl; lia | done].
  - by right.
Qed.

(** ** Descriptor chains *)

Section emit.
Context (k : Z) (dpl : Z) (bas : list Z).
Hypothesis Hk : 0 ≤ k ≤ 32.
Hypothesis Hdpl : 2 ≤ dpl.
Hypothesis Hbas : NoDup bas.
Local Notation D := (2 ^ k).

(** [desc_chain M i j ds]: from slot [j] of page [i] on, memory [M] holds the
    descriptors [ds], with a link in the last slot of every page but the last. *)
Inductive desc_chain (M : desc_mem) : nat → Z → list Z → Prop :=
  | chain_nil i j : desc_chain M i j []
  | chain_store i j ba d ds :
      0 ≤ j < dpl → (j < dpl - 1 ∨ ds = []) → bas !! i = Some ba → M !! (ba, j) = Some d →
      desc_chain M i (j + 1) ds → desc_chain M i j (d :: ds)
  | chain_link i j ba next d d' ds :
      j = dpl - 1 → bas !! i = Some ba → bas !! S i = Some next → M !! (ba, j) = Some next →
      desc_chain M (S i) 0 (d :: d' :: ds) → desc_chain M i j (d :: d' :: ds).

(** Slots before position [(i, j)]. *)
Definition slot_before (i : nat) (j : Z) (key : Z * Z) : Prop :=
  ∃ i', bas !! i' = Some key.1 ∧ ((i' < i)%nat ∨ i' = i ∧ key.2 < j).

Definition agree_before (M mem : desc_mem) (i : nat) (j : Z) : Prop :=
  ∀ key, slot_before i j key → M !! key = mem !! key.

(** The slots of the allocated pages: the only ones the loop may write. *)
Definition slot_in (key : Z * Z) : Prop := key.1 ∈ bas ∧ 0 ≤ key.2 < dpl.

Definition writes_in (M mem : desc_mem) : Prop :=
  ∀ key, ¬ slot_in key → M !! key = mem !! key.

(** Room for [n] descriptors from position [(i, j)]. *)
Definition room (i : nat) (j n : Z) : Prop :=
  (i < length bas)%nat ∧ 0 ≤ j ≤ dpl ∧ (0 < n → j < dpl) ∧
  n ≤ dpl - j + (Z.of_nat (length bas) - 1 - Z.of_nat i) * (dpl - 1).

Lemma agree_insert M mem i j i' j' ba key v :
  bas !! i = Some ba → key = (ba, j) → agree_before M (<[key := v]> mem) i' j' →
  ((i < i')%nat ∨ i = i' ∧ j < j') →
  agree_before M mem i j ∧ M !! key = Some v.
Proof.
  intros Hba -> Hag Hlt. split.
  - intros key (i1 & Hi1 & Hlt1). rewrite Hag.
    + apply lookup_insert_ne. intros <-. cbn in *.
      assert (i1 = i) by (eapply NoDup_lookup; eauto). lia.
    + exists i1. split; [done | lia].
  - rewrite Hag; [by rewrite lookup_insert_eq|]. exists i. split; [done | cbn; lia].
Qed.

Lemma writes_insert mem i j ba v :
  bas !! i = Some ba → 0 ≤ j < dpl → writes_in (<[(ba, j) := v]> mem) mem.
Proof.
  intros Hba Hj key Hkey. apply lookup_insert_ne. intros <-. apply Hkey.
  split; cbn; [eauto using list_elem_of_lookup_2 | lia].
Qed.

(** What emitting one descriptor does: the locals advance, and any later memory that
    keeps what was written continues the chain. *)
Record emitted (st st' : emit_state) (n : Z) : Prop := {
  emd_sg : em_sg st' = em_sg st;
  emd_addr : em_dma_addr st' = u64 (em_dma_addr st + em_len st);
  emd_avail : em_entry_avail st' = u64 (em_entry_avail st - em_len st);
  emd_rem : em_remaining st' = u64 (em_remaining st - em_len st);
  emd_total : em_total st' = n - 1;
  emd_room : room (em_list_idx st') (em_desc_idx st') (n - 1);
  emd_writes : writes_in (em_mem st') (em_mem st);
  emd_chain M ds :
    Z.of_nat (length ds) = n - 1 →
    agree_before M (em_mem st') (em_list_idx st') (em_desc_idx st') →
    desc_chain M (em_list_idx st') (em_desc_idx st') ds →
    agree_before M (em_mem st) (em_list_idx st) (em_desc_idx st) ∧
    desc_chain M (em_list_idx st) (em_desc_idx st) (em_dma_addr st :: ds);
}.

Lemma emit_store_ok st n :
  em_total st = n → 0 < n → room (em_list_idx st) (em_desc_idx st) n →
  em_desc_idx st < dpl - 1 ∨ n = 1 →
  ∃ st', emit_store dpl bas st = Some st' ∧ emitted st st' n.
Proof.
  destruct st as [sg a avail len rem total i j mem]; cbn.
  intros -> Hn (Hi & Hj & Hjn & Hcap) Hlast.
  destruct (lookup_lt_is_Some_2 bas i Hi) as [ba Hba].
  unfold emit_store; cbn. rewrite Hba, (proj2 (Z.leb_gt dpl j)), (proj2 (Z.eqb_neq n 0)) by lia.
  eexists. split; [done|]. constructor; cbn; try done.
  - unfold room. split_and!; lia.
  - by eapply writes_insert; [|lia].
  - intros M ds Hds Hag Hch.
    destruct (agree_insert _ _ i j _ _ ba _ _ Hba eq_refl Hag ltac:(lia)) as [Hag1 Hst].
    split; [done|]. eapply chain_store; [lia | | done..].
    destruct Hlast as [| ->]; [by left|]. right. destruct ds; [done|]. cbn in Hds. lia.
Qed.

(** One descriptor: the link if the page is full, then the store. *)
Lemma emit_put st n :
  em_total st = n → 0 < n → room (em_list_idx st) (em_desc_idx st) n →
  ∃ st1 st2, emit_link dpl bas st = Some st1 ∧ emit_store dpl bas st1 = Some st2 ∧ emitted st st2 n.
Proof.
  intros Ht Hn Hroom. unfold emit_link. rewrite Ht.
  destruct ((em_desc_idx st =? dpl - 1) && (1 <? n)) eqn:Hlink; cycle 1.
  { destruct (emit_store_ok st n Ht Hn Hroom) as (st2 & Hst & Hem); [|eauto].
    destruct Hroom as (_ & ? & ? & _). lia. }
  destruct st as [sg a avail len rem total i j mem]; cbn in *. subst total.
  destruct Hroom as (Hi & Hj & Hjn & Hcap).
  assert (S i < length bas)%nat as Hi' by nia.
  destruct (lookup_lt_is_Some_2 bas i Hi) as [ba Hba].
  destruct (lookup_lt_is_Some_2 bas (S i) Hi') as [next Hnext]. rewrite Hba, Hnext.
  edestruct (emit_store_ok (MkEmit sg a avail len rem n (S i) 0 (<[(ba, j):=next]> mem)) n)
    as (st2 & Hst & [Esg Ea Eav Er Et Eroom Ew Ech]); cbn in *; [done | done | | lia |].
  { unfold room. split_and!; [lia.. | nia]. }
  eexists _, st2. split; [done|]. split; [done|]. constructor; cbn; try done.
  - intros key Hkey. rewrite Ew by done. by eapply writes_insert; [|lia|].
  - intros M ds Hds Hag Hch. destruct (Ech M ds Hds Hag Hch) as [Hag1 Hch1].
    destruct (agree_insert _ _ i j _ _ ba _ _ Hba eq_refl Hag1 ltac:(lia)) as [Hag2 Hln].
    split; [done|]. destruct ds as [|d ds]; [cbn in Hds; lia|].
    eapply chain_link; [lia | done..].
Qed.

(** *** The loop *)

(** The locals at the head of the loop agree with the walk of [l]. *)
Record at_walk (st : emit_state) (a avail : Z) (rest : scatterlist) (rem : Z) (l : list Z) : Prop := {
  aw_sg : tail (em_sg st) = rest;
  aw_addr : em_dma_addr st = a;
  aw_avail : em_entry_avail st = avail;
  aw_len : em_len st = min3 (D - a mod D) avail rem;
  aw_rem : em_remaining st = rem;
  aw_total : em_total st = Z.of_nat (length l);
  aw_range : 0 ≤ a ∧ 0 < avail ∧ a + avail ≤ ULLONG_MAX ∧ rem ≤ ULLONG_MAX;
}.

(** A chunk that ends inside the entry, or exactly at its end. *)
Lemma advance_in st a avail rest rem l :
  a mod D = 0 → tail (em_sg st) = rest → em_dma_addr st = a → em_entry_avail st = avail →
  em_remaining st = rem → em_total st = Z.of_nat (length l) →
  0 ≤ a → 0 < avail → a + avail ≤ ULLONG_MAX → rem ≤ ULLONG_MAX →
  ∃ st', emit_advance D st = Some st' ∧ at_walk st' a avail rest rem l ∧
    em_list_idx st' = em_list_idx st ∧ em_desc_idx st' = em_desc_idx st ∧ em_mem st' = em_mem st.
Proof.
  intros Ha <- <- <- <- Ht ? ? ? ?. unfold emit_advance. cbv zeta.
  rewrite (proj2 (Z.eqb_neq (em_entry_avail st) 0)), misaligned_spec, Ha by lia. cbn.
  eexists. split; [done|]. split; [|done]. split; cbn; try done.
  by rewrite Ha, Z.sub_0_r.
Qed.

Lemma advance_next st e rest rem l :
  sg_ok e → sg_dma_address e mod D = 0 → tail (em_sg st) = e :: rest → em_entry_avail st = 0 →
  em_remaining st = rem → em_total st = Z.of_nat (length l) → rem ≤ ULLONG_MAX →
  ∃ st', emit_advance D st = Some st' ∧
    at_walk st' (sg_dma_address e) (sg_dma_len e) rest rem l ∧
    em_list_idx st' = em_list_idx st ∧ em_desc_idx st' = em_desc_idx st ∧ em_mem st' = em_mem st.
Proof.
  intros [Ha Hl Hend] He Hsg Hav <- Ht ?. unfold emit_advance. cbv zeta.
  rewrite Hav, Hsg. cbn. rewrite misaligned_spec, He by lia. cbn.
  eexists. split; [done|]. split; [|done]. split; cbn; try done.
  by rewrite He, Z.sub_0_r.
Qed.

Lemma emit_loop_walk a avail rest rem l :
  prp_walk D a avail rest rem l →
  ∀ fuel st, (length l ≤ fuel)%nat → at_walk st a avail rest rem l →
  room (em_list_idx st) (em_desc_idx st) (Z.of_nat (length l)) →
  ∃ M, emit_loop fuel D dpl bas st = EmitDone M ∧
    agree_before M (em_mem st) (em_list_idx st) (em_desc_idx st) ∧
    desc_chain M (em_list_idx st) (em_desc_idx st) l ∧ writes_in M (em_mem st).
Proof.
  induction 1 as [a avail rest rem Hr Hc Ha | a avail rest rem l Ha Hr Hw IH
    | a avail e rest rem l Ha Hr Hok He Hw IH];
    intros fuel st Hf [Esg Ea Eav El Er Et Hrng] Hroom;
    pose proof (mod_D_range k Hk a) as Hm; cbn [length] in *;
    (destruct fuel as [|f]; [lia|]); cbn [emit_loop]; rewrite Er;
    (destruct (emit_put st _ Et ltac:(lia) Hroom) as (st1 & st2 & -> & -> & Hem));
    rewrite (proj2 (Z.eqb_neq rem 0)) by lia; destruct Hem as [Dsg Da Dav Dr Dt Droom Dw Dch].
  - rewrite Dr, Er, El. unfold min3. rewrite Z.min_r, Z.sub_diag by lia. cbn.
    exists (em_mem st2). destruct (Dch (em_mem st2) []) as [? ?]; [done | done | constructor |].
    split_and!; try done. by rewrite <- Ea.
  - set (c := D - a mod D) in *.
    assert (em_len st = c) as Elc by (rewrite El; unfold min3; lia).
    rewrite Ea, Elc, u64_id in Da by lia. rewrite Eav, Elc, u64_id in Dav by lia.
    rewrite Er, Elc, u64_id in Dr by lia. rewrite Dr, (proj2 (Z.eqb_neq _ 0)) by lia.
    destruct (advance_in st2 (a + c) (avail - c) rest (rem - c) l)
      as (st3 & -> & Haw & E1 & E2 & E3); try done; try lia.
    { by apply next_boundary. } { by rewrite Dsg. }
    destruct (IH f st3) as (M & HM & Hag & Hch & Hwr); [lia | done | |].
    { rewrite E1, E2. replace (Z.of_nat (length l)) with (Z.of_nat (S (length l)) - 1) by lia. done. }
    rewrite E1, E2, E3 in *. exists M. destruct (Dch M l ltac:(lia) Hag Hch) as [Hag' Hch'].
    rewrite Ea in Hch'. split_and!; try done. intros key Hkey. rewrite Hwr by done. by apply Dw.
  - assert (em_len st = avail) as Elc by (rewrite El; unfold min3; lia).
    rewrite Eav, Elc, Z.sub_diag in Dav by lia.
    rewrite Er, Elc, u64_id in Dr by lia. rewrite Dr, (proj2 (Z.eqb_neq _ 0)) by lia.
    destruct (advance_next st2 e rest (rem - avail) l)
      as (st3 & -> & Haw & E1 & E2 & E3); try done; try lia.
    { by rewrite Dsg. }
    destruct (IH f st3) as (M & HM & Hag & Hch & Hwr); [lia | done | |].
    { rewrite E1, E2. replace (Z.of_nat (length l)) with (Z.of_nat (S (length l)) - 1) by lia. done. }
    rewrite E1, E2, E3 in *. exists M. destruct (Dch M l ltac:(lia) Hag Hch) as [Hag' Hch'].
    rewrite Ea in Hch'. split_and!; try done. intros key Hkey. rewrite Hwr by done. by apply Dw.
Qed.

(** *** The device reads the chain *)

Lemma chain_read_page M i j ba ds :
  desc_chain M i j ds → bas !! i = Some ba → 0 ≤ j → j + Z.of_nat (length ds) ≤ dpl →
  dev_read_page M ba j (length ds) = Some ds.
Proof.
  intros Hch. induction Hch as [i j | i j ba' d ds Hj Hl Hba HM Hch IH | i j ba' next d d' ds Hj _ _ _ _ _];
    intros Hi Hj0 Hlen; cbn [dev_read_page length] in *; [done | | lia].
  rewrite Hba in Hi. injection Hi as ->. rewrite HM, IH by (done || lia). done.
Qed.

(** A chain longer than its page splits at the link. *)
Lemma chain_split M i j ba ds :
  desc_chain M i j ds → bas !! i = Some ba → 0 ≤ j ≤ dpl - 1 → dpl - j < Z.of_nat (length ds) →
  ∃ ds1 ds2 next, ds = ds1 ++ ds2 ∧ Z.of_nat (length ds1) = dpl - 1 - j ∧
    dev_read_page M ba j (length ds1) = Some ds1 ∧
    M !! (ba, dpl - 1) = Some next ∧ bas !! S i = Some next ∧ desc_chain M (S i) 0 ds2.
Proof.
  intros Hch. induction Hch as [i j | i j ba' d ds Hj Hl Hba HM Hch IH
    | i j ba' next d d' ds Hj Hba Hnext HM Hch _]; intros Hi Hj0 Hlen; cbn [length] in *.
  - lia.
  - rewrite Hba in Hi. injection Hi as ->. assert (j < dpl - 1).
    { destruct Hl as [| ->]; [done|]. cbn in Hlen. lia. }
    destruct IH as (ds1 & ds2 & next & -> & Hl1 & Hrd & Hln & Hnext & Hch2); [done | lia | lia |].
    exists (d :: ds1), ds2, next. cbn. rewrite HM, Hrd. split_and!; try done. lia.
  - rewrite Hba in Hi. injection Hi as ->. subst j.
    exists [], (d :: d' :: ds), next. cbn. split_and!; try done. lia.
Qed.

Lemma chain_read_list M fuel i ba ds :
  desc_chain M i 0 ds → bas !! i = Some ba → (length ds < fuel)%nat →
  dev_read_list fuel dpl M ba (Z.of_nat (length ds)) = Some ds.
Proof.
  revert i ba ds. induction fuel as [|f IH]; intros i ba ds Hch Hba Hf; [lia|]. cbn.
  destruct (Z.leb_spec (Z.of_nat (length ds)) dpl) as [Hle|Hgt].
  - rewrite Nat2Z.id. eapply chain_read_page; [done | done | lia | lia].
  - destruct (chain_split M i 0 ba ds Hch Hba) as (ds1 & ds2 & next & -> & Hl1 & Hrd & Hln & Hnext & Hch2);
      [lia | lia |].
    rewrite length_app in *. replace (Z.to_nat (dpl - 1)) with (length ds1) by lia.
    rewrite Hrd, Hln. replace (Z.of_nat (length ds1 + length ds2) - (dpl - 1))
      with (Z.of_nat (length ds2)) by lia.
    erewrite IH; [done | done | done | lia].
Qed.

(** *** Before the loop *)

Lemma start_at_walk sg e rest intra size desc_cnt mem l :
  sg = e :: rest → sg_ok e → 0 ≤ intra < sg_dma_len e → 0 < size ≤ ULLONG_MAX →
  desc_cnt = Z.of_nat (length l) →
  at_walk (emit_start sg e intra size D desc_cnt mem)
    (sg_dma_address e + intra) (sg_dma_len e - intra) rest size l.
Proof.
  intros -> [Ha Hl He] Hin Hs ->. unfold emit_start, mx_prp_first_chunk_len.
  rewrite !u64_id, chunk_len_at by lia. constructor; cbn; try done; unfold min3; lia.
Qed.

(** Skipping the first chunk leaves the walk of the rest. *)
Lemma skip_at_walk st a avail rest rem d l :
  prp_walk D a avail rest rem (d :: l) → l ≠ [] → at_walk st a avail rest rem l →
  ∃ st' a' avail' rest' rem', emit_skip D st = Some st' ∧
    prp_walk D a' avail' rest' rem' l ∧ at_walk st' a' avail' rest' rem' l ∧
    em_list_idx st' = em_list_idx st ∧ em_desc_idx st' = em_desc_idx st ∧ em_mem st' = em_mem st.
Proof.
  intros Hw Hne [Esg Ea Eav El Er Et Hrng]. pose proof (mod_D_range k Hk a) as Hm.
  unfold emit_skip, emit_consume.
  inversion Hw as [| ? ? ? ? ? Hav Hrem Hw' | ? ? e rest1 ? ? Hav Hrem Hok He Hw']; subst; [done| |];
    rewrite El; unfold min3; cbn.
  - set (a := em_dma_addr st) in *. set (c := D - a mod D) in *.
    assert (Z.min (Z.min c (em_entry_avail st)) (em_remaining st) = c) as -> by lia.
    rewrite !u64_id by lia.
    rewrite (proj2 (Z.eqb_neq (em_entry_avail st - c) 0)) by lia. cbn.
    edestruct (advance_in (st <| em_dma_addr := a + c |> <| em_entry_avail := em_entry_avail st - c |>
      <| em_remaining := em_remaining st - c |>) (a + c) (em_entry_avail st - c)
      (tail (em_sg st)) (em_remaining st - c) l) as (st' & Hst & Haw & E); try done; try lia.
    { by apply next_boundary. }
    exists st', (a + c), (em_entry_avail st - c), (tail (em_sg st)), (em_remaining st - c).
    split_and!; try done; by destruct E as (? & ? & ?).
  - set (a := em_dma_addr st) in *.
    assert (Z.min (Z.min (D - a mod D) (em_entry_avail st)) (em_remaining st) = em_entry_avail st)
      as -> by lia.
    rewrite Z.sub_diag, !u64_id by lia.
    rewrite (proj2 (Z.eqb_neq (em_remaining st - em_entry_avail st) 0)) by lia. cbn.
    edestruct (advance_next (st <| em_dma_addr := a + em_entry_avail st |> <| em_entry_avail := 0 |>
      <| em_remaining := em_remaining st - em_entry_avail st |>) e rest1
      (em_remaining st - em_entry_avail st) l) as (st' & Hst & Haw & E); try done; try lia.
    exists st', (sg_dma_address e), (sg_dma_len e), rest1, (em_remaining st - em_entry_avail st).
    split_and!; try done; by destruct E as (? & ? & ?).
Qed.
End emit.

(** ** [mx_desc_list_init] on a counted slice

    After the counting walk accepted the slice, the only failure left is memory: the
    pages are all allocated, the loop fills only their slots, and the device reads the
    counted descriptors from the base address stored in the command. *)
Lemma desc_list_init_spec k dpl env sgt off size skip desc_cnt pages mem e rest intra l :
  0 ≤ k ≤ 32 → 2 ≤ dpl → pool_fresh env (pool_out pages) →
  mx_sg_locate sgt off = Some (e :: rest, intra) → sg_ok e → 0 ≤ intra < sg_dma_len e →
  size ≤ ULLONG_MAX →
  prp_walk (2 ^ k) (sg_dma_address e + intra) (sg_dma_len e - intra) rest size l →
  let ds := if skip : bool then tail l else l in
  desc_cnt = Z.of_nat (length ds) → ds ≠ [] →
  ∃ r, mx_desc_list_init env sgt off size (2 ^ k) dpl skip desc_cnt pages mem = Some r ∧
    ((di_ret r = - ENOMEM ∧ di_pages r = MkPages (pool_out pages) None ∧ di_mem r = mem) ∨
     (∃ bas, di_ret r = 0 ∧ di_pages r = MkPages (list_to_set bas ∪ pool_out pages) (Some bas) ∧
        writes_in dpl bas (di_mem r) mem ∧
        dev_read_list (S (length ds)) dpl (di_mem r) (di_ba r) desc_cnt = Some ds)).
Proof.
  intros Hk Hd Hf Hloc He Hin Hs Hw ds -> Hne.
  pose proof (walk_pos k Hk _ _ _ _ _ Hw) as Hpos.
  assert (0 < Z.of_nat (length ds)) as Hn by (destruct ds; [done | cbn; lia]).
  unfold mx_desc_list_init. rewrite Hloc, (proj2 (Z.eqb_neq _ 0)) by lia.
  destruct (list_count_spec (Z.of_nat (length ds)) dpl) as (c & -> & Hc1 & Hc2 & _); [lia..|].
  destruct (desc_list_alloc_spec env c pages) as [(bas & -> & Hnd & Hlen & Hdj)| ->]; [lia | done | |]; cbn [nz].
  2: { eexists. split; [done|]. by left. }
  pose proof (start_at_walk k Hk (e :: rest) e rest intra size _ mem ds eq_refl He Hin
    ltac:(lia) eq_refl) as Haw.
  set (st := emit_start _ _ _ _ _ _ _) in *.
  assert (∃ st' a avail rest' rem,
    (if skip then emit_skip (2 ^ k) st else Some st) = Some st' ∧
    prp_walk (2 ^ k) a avail rest' rem ds ∧ at_walk k st' a avail rest' rem ds ∧
    em_list_idx st' = 0%nat ∧ em_desc_idx st' = 0 ∧ em_mem st' = mem)
    as (st' & a & avail & rest' & rem & -> & Hw' & Haw' & E1 & E2 & E3).
  { destruct skip; [|by do 5 eexists].
    destruct (walk_head k _ _ _ _ _ Hw) as [l' ->]. by eapply skip_at_walk. }
  destruct (emit_loop_walk k dpl bas Hk Hd Hnd _ _ _ _ _ Hw' (S (Z.to_nat (Z.of_nat (length ds)))) st')
    as (M & HM & _ & Hch & Hwr); [lia | done | |].
  { rewrite E1, E2. unfold room. split_and!; lia. }
  change (default [] (desc_list (MkPages (list_to_set bas ∪ pool_out pages) (Some bas)))) with bas. cbv zeta. rewrite HM. eexists. split; [done|]. right. exists bas. cbn [di_ret di_ba di_pages di_mem].
  rewrite E1, E2, E3 in *. split_and!; try done.
  destruct bas as [|ba bas]; [cbn in Hlen; lia|]. eapply (chain_read_list dpl (ba :: bas) Hd M _ 0); [done | done | lia].
Qed.

(** ** Termination of the emitting loop on any input *)

Lemma emit_loop_fuel D dpl bas fuel st :
  0 ≤ em_total st < Z.of_nat fuel → emit_loop fuel D dpl bas st ≠ EmitFuel.
Proof.
  revert st. induction fuel as [|f IH]; intros st Ht; [lia|]. cbn [emit_loop].
  destruct (em_remaining st =? 0); [done|].
  destruct (emit_link dpl bas st) as [st1|] eqn:E1; [|done].
  assert (em_total st1 = em_total st) as Et1.
  { unfold emit_link in E1. repeat case_match; by simplify_eq/=. }
  destruct (emit_store dpl bas st1) as [st2|] eqn:E2; [|done].
  assert (em_total st2 = em_total st - 1 ∧ em_total st ≠ 0) as [Et2 Hne].
  { unfold emit_store in E2. repeat case_match; simplify_eq/=. rewrite Et1. lia. }
  destruct (em_remaining st2 =? 0); [done|].
  destruct (emit_advance D st2) as [st3|] eqn:E3; [|done].
  assert (em_total st3 = em_total st2) as Et3.
  { unfold emit_advance in E3. repeat case_match; by simplify_eq/=. }
  apply IH. lia.
Qed.

Lemma emit_skip_total D st st' : emit_skip D st = Some st' → em_total st' = em_total st.
Proof. unfold emit_skip, emit_advance, emit_consume. intros E. repeat case_match; by simplify_eq/=. Qed.

(** ** Theorems *)

(** A mapping of the slices the theorems speak about: every mapped entry is sane and
    the whole mapping has fewer than 2^64 bytes. *)
Definition mapping_ok (sgt : sg_table) : Prop :=
  Forall sg_ok (take (nents sgt) (sgl sgt)) ∧ sg_total (take (nents sgt) (sgl sgt)) ≤ ULLONG_MAX.

Definition mapped_bytes (sgt : sg_table) : Z := sg_total (take (nents sgt) (sgl sgt)).

Lemma slice_located sgt off :
  mapping_ok sgt → 0 ≤ off < mapped_bytes sgt →
  ∃ e rest1 rest2 intra, mx_sg_locate sgt off = Some (e :: rest1 ++ rest2, intra) ∧
    sg_ok e ∧ Forall sg_ok rest1 ∧ 0 ≤ intra < sg_dma_len e ∧
    drop (Z.to_nat off) (sg_bytes (take (nents sgt) (sgl sgt))) =
      addr_range (sg_dma_address e + intra) (sg_dma_len e - intra) ++ sg_bytes rest1.
Proof.
  intros [Hok Htot] Hoff. unfold mapped_bytes in Hoff.
  destruct (locate_spec (sgl sgt) (nents sgt) 0 off) as [(_ & H)|[? _]]; [done | lia | lia | | lia].
  by rewrite Z.sub_0_r in H.
Qed.

(** The remaining bytes bound the slice. *)
Lemma located_bound sgt off e rest1 intra size :
  off + size ≤ mapped_bytes sgt → 0 ≤ off → sg_ok e → 0 ≤ intra < sg_dma_len e →
  drop (Z.to_nat off) (sg_bytes (take (nents sgt) (sgl sgt))) =
    addr_range (sg_dma_address e + intra) (sg_dma_len e - intra) ++ sg_bytes rest1 →
  size ≤ sg_dma_len e - intra + sg_total rest1.
Proof.
  intros Hs Ho He Hin Hd. apply (f_equal length) in Hd.
  rewrite length_drop, length_app in Hd. unfold addr_range in Hd. rewrite length_seqZ in Hd.
  unfold mapped_bytes, sg_total in *. lia.
Qed.

(** What the walk reads is the slice. *)
Lemma walk_slice k sgt off size e rest1 rest2 intra l :
  0 ≤ k ≤ 32 → 0 ≤ off → off + size ≤ mapped_bytes sgt → sg_ok e → 0 ≤ intra < sg_dma_len e →
  drop (Z.to_nat off) (sg_bytes (take (nents sgt) (sgl sgt))) =
    addr_range (sg_dma_address e + intra) (sg_dma_len e - intra) ++ sg_bytes rest1 →
  prp_walk (2 ^ k) (sg_dma_address e + intra) (sg_dma_len e - intra) (rest1 ++ rest2) size l →
  dev_bytes (2 ^ k) l size = slice sgt off size.
Proof.
  intros Hk Ho Hs He Hin Hd Hw. pose proof (walk_pos k Hk _ _ _ _ _ Hw).
  rewrite (walk_bytes k Hk _ _ _ _ _ Hw). unfold slice. rewrite Hd.
  rewrite sg_bytes_app, app_assoc. apply take_app_le.
  rewrite <- Hd, length_drop. unfold mapped_bytes, sg_total in Hs. lia.
Qed.

(** A mapping of three entries on 4 KiB chunks: 3584 bytes that end on a boundary, a
    full chunk, and a short tail; a fourth entry of the chain carries no mapping. *)
Definition demo_sgt : sg_table :=
  MkSgt [MkSg 4608 3584; MkSg 16384 4096; MkSg 32768 1000; MkSg 0 0] 3.

Lemma demo_sgt_ok : mapping_ok demo_sgt.
Proof.
  split; [|vm_compute; discriminate].
  repeat constructor; vm_compute; (discriminate || reflexivity).
Qed.

Definition demo_pool : pool_env := MkPool true true (fun j => Some (65536 + 4096 * Z.of_nat j)).

Lemma demo_pool_fresh : pool_fresh demo_pool ∅.
Proof. split; [set_solver | cbn; intros; simplify_eq; lia]. Qed.

(** C10: the counting walk accepts exactly the slices whose inner entry boundaries all
    lie on chunk boundaries.  Inside the mapping the slice is always located; the count
    is an error (-EINVAL) precisely when an entry the slice leaves ends off a boundary
    or an entry it enters starts off one. *)
Theorem desc_count_accepts_layout k sgt off size :
  0 ≤ k ≤ 32 → mapping_ok sgt → 0 ≤ off → 0 < size → off + size ≤ mapped_bytes sgt →
  ∃ e rest intra, mx_sg_locate sgt off = Some (e :: rest, intra) ∧
    ((prp_layout (2 ^ k) e intra rest size ∧
      ∃ n, 0 < n ≤ size ∧ mx_get_total_desc_count (e :: rest) intra size (2 ^ k) = inr n) ∨
     (¬ prp_layout (2 ^ k) e intra rest size ∧
      mx_get_total_desc_count (e :: rest) intra size (2 ^ k) = inl (- EINVAL))).
Proof.
  intros Hk Hok Ho Hs Hb. pose proof Hok as [_ Htot]. unfold mapped_bytes in Hb.
  destruct (slice_located sgt off Hok) as (e & r1 & r2 & intra & Hloc & He & Hr1 & Hin & Hd).
  { unfold mapped_bytes. lia. }
  pose proof (located_bound sgt off e r1 intra size Hb Ho He Hin Hd).
  exists e, (r1 ++ r2), intra. split; [done|].
  unfold mx_get_total_desc_count. rewrite (proj2 (Z.eqb_neq size 0)) by lia.
  destruct (count_loop_spec k Hk r1 r2 e intra size 0) as [(Hl & l & Hw & ->)|[Hl ->]];
    try done; try lia; [left | by right].
  split; [done|]. exists (0 + Z.of_nat (length l)). split; [|done].
  apply (walk_length k Hk) in Hw. lia.
Qed.

Lemma desc_count_accepts_layout_witness :
  ∃ e rest intra, mx_sg_locate demo_sgt 100 = Some (e :: rest, intra) ∧
    ((prp_layout (2 ^ 12) e intra rest 8000 ∧
      ∃ n, 0 < n ≤ 8000 ∧ mx_get_total_desc_count (e :: rest) intra 8000 (2 ^ 12) = inr n) ∨
     (¬ prp_layout (2 ^ 12) e intra rest 8000 ∧
      mx_get_total_desc_count (e :: rest) intra 8000 (2 ^ 12) = inl (- EINVAL))).
Proof.
  apply (desc_count_accepts_layout 12 demo_sgt 100 8000);
    [lia | exact demo_sgt_ok | lia | lia | vm_compute; discriminate].
Defined.

(** C9: the device reads exactly the slice.  When the counting walk accepts a slice and
    the list is built with the count it returned (less the first descriptor when that
    one travels in the command), the build either fails with -ENOMEM and every pool page
    is back, or succeeds; then it wrote only slots of the pages it allocated, and the
    device, following the links from the base address, taking the first chunk up to its
    boundary and full chunks after it, touches the bytes of the slice, in order. *)
Theorem desc_list_device_reads_slice k dpl env sgt off size skip pages mem e rest intra n :
  0 ≤ k ≤ 32 → 2 ≤ dpl → pool_fresh env (pool_out pages) → mapping_ok sgt →
  0 ≤ off → 0 < size → off + size ≤ mapped_bytes sgt →
  mx_sg_locate sgt off = Some (e :: rest, intra) →
  mx_get_total_desc_count (e :: rest) intra size (2 ^ k) = inr n →
  let m := if skip : bool then n - 1 else n in
  m ≠ 0 →
  ∃ r, mx_desc_list_init env sgt off size (2 ^ k) dpl skip m pages mem = Some r ∧
    ((di_ret r = - ENOMEM ∧ di_pages r = MkPages (pool_out pages) None ∧ di_mem r = mem) ∨
     (∃ bas ds, di_ret r = 0 ∧
        di_pages r = MkPages (list_to_set bas ∪ pool_out pages) (Some bas) ∧
        writes_in dpl bas (di_mem r) mem ∧
        dev_read_list (S (Z.to_nat m)) dpl (di_mem r) (di_ba r) m = Some ds ∧
        dev_bytes (2 ^ k) (if skip then sg_dma_address e + intra :: ds else ds) size =
          slice sgt off size)).
Proof.
  intros Hk Hd Hf Hok Ho Hs Hb Hloc Hcnt m Hm. pose proof Hok as [_ Htot].
  destruct (slice_located sgt off Hok) as (e' & r1 & r2 & intra' & Hloc' & He & Hr1 & Hin & Hdr).
  { lia. }
  rewrite Hloc in Hloc'. simplify_eq.
  pose proof (located_bound sgt off e' r1 intra' size Hb Ho He Hin Hdr).
  unfold mapped_bytes in Hb.
  unfold mx_get_total_desc_count in Hcnt. rewrite (proj2 (Z.eqb_neq size 0)) in Hcnt by lia.
  destruct (count_loop_spec k Hk r1 r2 e' intra' size 0) as [(_ & l & Hw & E)|[_ E]];
    try done; try lia; rewrite Hcnt in E; [|done].
  assert (n = Z.of_nat (length l)) as -> by (injection E; lia).
  destruct (walk_head k _ _ _ _ _ Hw) as [l' Hl'].
  destruct (desc_list_init_spec k dpl env sgt off size skip m pages mem e' (r1 ++ r2) intra' l)
    as (r & Hr & [Hfail|(bas & ? & ? & ? & Hread)]); try done; try lia.
  { subst m l. destruct skip; cbn [length tail]; lia. }
  { subst m l. destruct skip; [|done]. cbn. intros ->. cbn in Hm. lia. }
  - eauto.
  - exists r. split; [done|]. right. exists bas, (if skip then tail l else l).
    rewrite <- (walk_slice k sgt off size e' r1 r2 intra' l) by done.
    split_and!; try done.
    + rewrite <- Hread. f_equal. subst m l. destruct skip; cbn [length tail]; lia.
    + subst l. by destruct skip.
Qed.

Lemma desc_list_device_reads_slice_witness :
  ∃ r, mx_desc_list_init demo_pool demo_sgt 100 8000 (2 ^ 12) 2 false 3 (MkPages ∅ None) ∅ = Some r ∧
    ((di_ret r = - ENOMEM ∧ di_pages r = MkPages ∅ None ∧ di_mem r = ∅) ∨
     (∃ bas ds, di_ret r = 0 ∧
        di_pages r = MkPages (list_to_set bas ∪ ∅) (Some bas) ∧
        writes_in 2 bas (di_mem r) ∅ ∧
        dev_read_list (S (Z.to_nat 3)) 2 (di_mem r) (di_ba r) 3 = Some ds ∧
        dev_bytes (2 ^ 12) ds 8000 = slice demo_sgt 100 8000)).
Proof.
  apply (desc_list_device_reads_slice 12 2 demo_pool demo_sgt 100 8000 false (MkPages ∅ None) ∅
    (MkSg 4608 3584) [MkSg 16384 4096; MkSg 32768 1000; MkSg 0 0] 100 3);
    [lia | lia | exact demo_pool_fresh | exact demo_sgt_ok | lia | lia | vm_compute; discriminate
    | reflexivity | reflexivity | lia].
Defined.

(** C38: building a descriptor list always returns and never leaks.  On any input
    (a malformed mapping or a wrong count included) both loops end within the fuel the
    definition gives them, and a nonzero return value comes with a cleared base address
    and the set of outstanding pool pages it started from. *)
Theorem desc_list_init_total env sgt off size D dpl skip cnt pages mem :
  2 ≤ dpl → 0 ≤ cnt → pool_fresh env (pool_out pages) →
  ∃ r, mx_desc_list_init env sgt off size D dpl skip cnt pages mem = Some r ∧
    (di_ret r ≠ 0 → di_ba r = 0 ∧ pool_out (di_pages r) = pool_out pages).
Proof.
  intros Hd Hc Hf. unfold mx_desc_list_init.
  destruct (mx_sg_locate sgt off) as [[[|e rest] intra]|]; try by eauto.
  destruct (cnt =? 0); [by eauto|].
  destruct (list_count_spec cnt dpl Hd Hc) as (c & -> & Hc1 & _).
  destruct (desc_list_alloc_spec env c pages) as [(bas & -> & Hnd & Hlen & Hdj)| ->]; [lia | done | |];
    cbn [nz Z.eqb negb]; cbv zeta; [|by eauto].
  set (pg := MkPages _ (Some bas)).
  assert (pool_out (desc_list_free pg) = pool_out pages) as Hfree.
  { cbn. apply set_eq. intros x. rewrite elem_of_difference, elem_of_union, elem_of_list_to_set. naive_solver. }
  set (st := emit_start _ _ _ _ _ _ _).
  destruct (if skip then emit_skip D st else Some st) as [st'|] eqn:Est; [|by eexists].
  assert (em_total st' = cnt) as Et.
  { destruct skip; [by rewrite (emit_skip_total _ _ _ Est)|by injection Est as <-]. }
  pose proof (emit_loop_fuel D dpl (default [] (desc_list pg)) (S (Z.to_nat cnt)) st' ltac:(lia)).
  destruct (emit_loop _ _ _ _ st'); try done; by eexists.
Qed.

Lemma desc_list_init_total_witness :
  ∃ r, mx_desc_list_init demo_pool demo_sgt 100 8000 (2 ^ 12) 2 false 2 (MkPages ∅ None) ∅ = Some r ∧
    (di_ret r ≠ 0 → di_ba r = 0 ∧ pool_out (di_pages r) = ∅).
Proof.
  apply (desc_list_init_total demo_pool demo_sgt 100 8000 (2 ^ 12) 2 false 2 (MkPages ∅ None) ∅);
    [lia | lia | exact demo_pool_fresh].
Defined.

(** The page count of a descriptor list is exact.  The loop of [mx_get_list_count]
    ends, the pages it asks for hold the descriptors with one slot of every page but the
    last given to the link, and one page fewer would not. *)
Theorem list_count_minimal n dpl :
  2 ≤ dpl → 0 ≤ n →
  ∃ c, mx_get_list_count n dpl = Some c ∧ list_cnt_spec n dpl c.
Proof. apply list_count_spec. Qed.

Lemma list_count_minimal_witness :
  ∃ c, mx_get_list_count 1000 128 = Some c ∧ list_cnt_spec 1000 128 c.
Proof. apply (list_count_minimal 1000 128); lia. Defined.
