(* ===== verification/LeaseTypes.v ===== *)
(** * The objects of src/lease.c

    The request structures of src/include/uapi/mx_dma_lease.h, the lease of a device and
    the context of an open file (src/mx_dma.h), the part of the VFS the lease code calls
    as a record of functions, and the references the driver takes on files and paths. *)

From S2P Require Import Prelude Uapi LeaseSM.

(** ** Requests *)

Record mx_lease_caps_t := MkCaps {
  cap_abi_magic : Z; cap_capabilities : Z; cap_device_incarnation : Z; cap_abi_version : Z;
  cap_struct_size : Z; cap_max_profile : Z; cap_max_transition : Z; cap_reserved_hio_qid : Z;
}.

Record mx_lease_acquire_t := MkAcq {
  aq_abi_magic : Z; aq_expected_device_incarnation : Z; aq_expected_lease_generation : Z;
  aq_state_identity0 : Z; aq_state_identity1 : Z; aq_state_fd : Z; aq_profile : Z;
  aq_abi_version : Z; aq_struct_size : Z;
  aq_device_incarnation : Z; aq_lease_generation : Z; aq_grants : Z; aq_state_dev : Z;
  aq_state_ino : Z; aq_phase : Z; aq_family : Z; aq_publisher_count : Z; aq_workload_count : Z;
  aq_family_holder_count : Z; aq_legacy_count : Z; aq_reserved : Z;
}.

#[export] Instance eta_acq : Eta mx_lease_acquire_t := fun r =>
  MkAcq (aq_abi_magic r) (aq_expected_device_incarnation r) (aq_expected_lease_generation r)
    (aq_state_identity0 r) (aq_state_identity1 r) (aq_state_fd r) (aq_profile r)
    (aq_abi_version r) (aq_struct_size r) (aq_device_incarnation r) (aq_lease_generation r)
    (aq_grants r) (aq_state_dev r) (aq_state_ino r) (aq_phase r) (aq_family r)
    (aq_publisher_count r) (aq_workload_count r) (aq_family_holder_count r)
    (aq_legacy_count r) (aq_reserved r).

Record mx_lease_transition_t := MkTrans {
  tr_abi_magic : Z; tr_expected_device_incarnation : Z; tr_expected_lease_generation : Z;
  tr_operation : Z; tr_abi_version : Z; tr_struct_size : Z; tr_reserved0 : Z;
  tr_device_incarnation : Z; tr_lease_generation : Z; tr_grants : Z; tr_phase : Z;
  tr_family : Z; tr_publisher_count : Z; tr_workload_count : Z; tr_family_holder_count : Z;
  tr_legacy_count : Z; tr_reserved1 : Z;
}.

#[export] Instance eta_trans : Eta mx_lease_transition_t := fun r =>
  MkTrans (tr_abi_magic r) (tr_expected_device_incarnation r) (tr_expected_lease_generation r)
    (tr_operation r) (tr_abi_version r) (tr_struct_size r) (tr_reserved0 r)
    (tr_device_incarnation r) (tr_lease_generation r) (tr_grants r) (tr_phase r) (tr_family r)
    (tr_publisher_count r) (tr_workload_count r) (tr_family_holder_count r)
    (tr_legacy_count r) (tr_reserved1 r).

Record mx_lease_query_t := MkQuery {
  qr_abi_magic : Z; qr_expected_device_incarnation : Z; qr_abi_version : Z; qr_struct_size : Z;
  qr_device_incarnation : Z; qr_lease_generation : Z; qr_state_identity0 : Z;
  qr_state_identity1 : Z; qr_grants : Z; qr_state_dev : Z; qr_state_ino : Z; qr_profile : Z;
  qr_phase : Z; qr_family : Z; qr_publisher_count : Z; qr_workload_count : Z;
  qr_family_holder_count : Z; qr_legacy_count : Z; qr_device_state : Z;
  qr_slot_domain_dev : Z; qr_slot_domain_ino : Z;
}.

Record mx_lease_slot_domain_t := MkDomain {
  sd_abi_magic : Z; sd_expected_device_incarnation : Z; sd_expected_lease_generation : Z;
  sd_slot_domain_fd : Z; sd_abi_version : Z; sd_struct_size : Z; sd_reserved0 : Z;
  sd_slot_domain_dev : Z; sd_slot_domain_ino : Z; sd_grants : Z;
}.

#[export] Instance eta_domain : Eta mx_lease_slot_domain_t := fun r =>
  MkDomain (sd_abi_magic r) (sd_expected_device_incarnation r) (sd_expected_lease_generation r)
    (sd_slot_domain_fd r) (sd_abi_version r) (sd_struct_size r) (sd_reserved0 r)
    (sd_slot_domain_dev r) (sd_slot_domain_ino r) (sd_grants r).

Record mx_lease_proofs_t := MkProofs {
  pr_abi_magic : Z; pr_expected_device_incarnation : Z; pr_expected_lease_generation : Z;
  pr_state_identity0 : Z; pr_state_identity1 : Z; pr_slot_fd : Z; pr_lifetime_fd : Z;
  pr_slot : Z; pr_operation : Z; pr_abi_version : Z; pr_struct_size : Z; pr_grants : Z;
  pr_slot_dev : Z; pr_slot_ino : Z; pr_lifetime_dev : Z; pr_lifetime_ino : Z;
  pr_reserved0 : Z; pr_reserved1 : Z; pr_reserved2 : Z;
}.

#[export] Instance eta_proofs : Eta mx_lease_proofs_t := fun r =>
  MkProofs (pr_abi_magic r) (pr_expected_device_incarnation r) (pr_expected_lease_generation r)
    (pr_state_identity0 r) (pr_state_identity1 r) (pr_slot_fd r) (pr_lifetime_fd r) (pr_slot r)
    (pr_operation r) (pr_abi_version r) (pr_struct_size r) (pr_grants r) (pr_slot_dev r)
    (pr_slot_ino r) (pr_lifetime_dev r) (pr_lifetime_ino r) (pr_reserved0 r) (pr_reserved1 r)
    (pr_reserved2 r).

(** The sizes the static asserts of lease.c fix. *)
Definition sizeof_lease_caps : Z := 64.
Definition sizeof_lease_acquire : Z := 128.
Definition sizeof_lease_transition : Z := 96.
Definition sizeof_lease_query : Z := 128.
Definition sizeof_lease_slot_domain : Z := 64.
Definition sizeof_lease_proofs : Z := 128.

(** [_IOC(dir, type, nr, size)] of the generic ioctl encoding. *)
Definition _IOC (dir type nr size : Z) : Z :=
  Z.lor (Z.shiftl dir 30) (Z.lor (Z.shiftl size 16) (Z.lor (Z.shiftl type 8) nr)).
Definition _IOR (type nr size : Z) : Z := _IOC 2 type nr size.
Definition _IOW (type nr size : Z) : Z := _IOC 1 type nr size.
Definition _IOWR (type nr size : Z) : Z := _IOC 3 type nr size.

Definition MX_IOCTL_MAGIC : Z := 88.
Definition MX_IOCTL_GET_LEASE_CAPS : Z := _IOR MX_IOCTL_MAGIC 12 sizeof_lease_caps.
Definition MX_IOCTL_QUERY_LEASE : Z := _IOWR MX_IOCTL_MAGIC 13 sizeof_lease_query.
Definition MX_IOCTL_ACQUIRE_LEASE : Z := _IOWR MX_IOCTL_MAGIC 14 sizeof_lease_acquire.
Definition MX_IOCTL_TRANSITION_LEASE : Z := _IOWR MX_IOCTL_MAGIC 15 sizeof_lease_transition.
Definition MX_IOCTL_WORKLOAD_PROOFS : Z := _IOWR MX_IOCTL_MAGIC 16 sizeof_lease_proofs.
Definition MX_IOCTL_ANCHOR_SLOT_DOMAIN : Z := _IOWR MX_IOCTL_MAGIC 17 sizeof_lease_slot_domain.

(** ** The VFS

    Open files, inodes and paths are identities.  What the lease code asks the kernel
    about them is a record of functions, an argument of every handler. *)

Definition TMPFS_MAGIC : Z := 0x01021994.
Definition PIPEFS_MAGIC : Z := 0x50495045.
Definition F_RDLCK : Z := 0.
Definition F_WRLCK : Z := 1.
Definition F_UNLCK : Z := 2.
Definition FILE_LOCK_DEFERRED : Z := 1.
Definition OFFSET_MAX : Z := 9223372036854775807.

Record vfs := MkVfs {
  fget : Z → option Z;
  f_mode_read : Z → bool;
  f_mode_write : Z → bool;
  f_pos : Z → Z;
  file_inode : Z → option Z;
  f_path : Z → Z;
  i_isreg : Z → bool;
  i_isfifo : Z → bool;
  i_sb_magic : Z → option Z;
  i_sb_dev : Z → Z;
  i_ino : Z → Z;
  capable_rawio : bool;
  file_clone_open : Z → Z + Z;
  vfs_lock_file : Z → Z → Z → Z → Z;
  vfs_test_lock : Z → Z → Z → Z → Z * Z;
}.

(** ** References *)

(** What the driver holds a reference on. *)
Inductive refkey :=
  | RFile (f : Z)
  | RPath (p : Z).

#[export] Instance refkey_eq_dec : EqDecision refkey.
Proof. solve_decision. Defined.

(** The number of references the driver holds on each object. *)
Definition refs := refkey → Z.
Definition ref_add (k : refkey) (d : Z) (r : refs) : refs :=
  fun k' => r k' + if decide (k' = k) then d else 0.

Definition fput (f : Z) (r : refs) : refs := ref_add (RFile f) (-1) r.
Definition get_file (f : Z) (r : refs) : refs := ref_add (RFile f) 1 r.
Definition path_get (p : Z) (r : refs) : refs := ref_add (RPath p) 1 r.
Definition path_put (p : Z) (r : refs) : refs := ref_add (RPath p) (-1) r.

(** [if (f) fput(f)]. *)
Definition fput_opt (f : option Z) (r : refs) : refs :=
  match f with Some f => fput f r | None => r end.
Definition get_file_opt (f : option Z) (r : refs) : refs :=
  match f with Some f => get_file f r | None => r end.

(** ** State *)

Record mx_device_lease := MkLease {
  ls_state : mx_lease_sm;
  ls_state_path : option Z;
  ls_state_path_valid : bool;
  ls_state_inode : option Z;
  ls_slot_domain_path : option Z;
  ls_slot_domain_path_valid : bool;
  ls_slot_domain_inode : option Z;
  ls_state_identity0 : Z;
  ls_state_identity1 : Z;
  ls_state_family : Z;
  ls_device_incarnation : Z;
  ls_generation_counter : Z;
  ls_generation : Z;
  ls_removed : bool;
}.

#[export] Instance eta_lease : Eta mx_device_lease := fun r =>
  MkLease (ls_state r) (ls_state_path r) (ls_state_path_valid r) (ls_state_inode r)
    (ls_slot_domain_path r) (ls_slot_domain_path_valid r) (ls_slot_domain_inode r)
    (ls_state_identity0 r) (ls_state_identity1 r) (ls_state_family r)
    (ls_device_incarnation r) (ls_generation_counter r) (ls_generation r) (ls_removed r).

(** [mx_cdev] is the index of the character device the file was opened on.  The
    constant fields [magic] and [mx_pdev] are not state. *)
Record mx_file_ctx := MkCtx {
  cx_refs : Z;
  cx_mx_cdev : Z;
  cx_lease : mx_lease_sm_holder;
  cx_slot_source_file : option Z;
  cx_slot_proof_file : option Z;
  cx_lifetime_source_file : option Z;
  cx_lifetime_proof_file : option Z;
  cx_proof_lifetime_tag : Z;
  cx_proof_slot : Z;
  cx_transfer_count : Z;
  cx_direct_count : Z;
  cx_bar_mapping_count : Z;
  cx_proofs_ever_bound : bool;
}.

#[export] Instance eta_ctx : Eta mx_file_ctx := fun r =>
  MkCtx (cx_refs r) (cx_mx_cdev r) (cx_lease r) (cx_slot_source_file r)
    (cx_slot_proof_file r) (cx_lifetime_source_file r) (cx_lifetime_proof_file r)
    (cx_proof_lifetime_tag r) (cx_proof_slot r) (cx_transfer_count r) (cx_direct_count r)
    (cx_bar_mapping_count r) (cx_proofs_ever_bound r).

Definition MX_CDEV_IOCTL : Z := 0.
Definition MX_CDEV_EVENT : Z := 1.
Definition MX_CDEV_BDF : Z := 2.

(** The part of [struct mx_transfer] the lease code owns; the owner is the key of its
    context. *)
Record transfer_lease := MkTl {
  tl_owner_ctx : option nat;
  tl_slot_proof_file : option Z;
  tl_lifetime_proof_file : option Z;
}.

(** What one handler works on: the lease of the device, the context of the calling file
    and the driver's references. *)
Record lstate := MkLs {
  l_dev : mx_device_lease;
  l_ctx : mx_file_ctx;
  l_refs : refs;
}.

#[export] Instance eta_lstate : Eta lstate := fun r => MkLs (l_dev r) (l_ctx r) (l_refs r).
