(* ===== verification/Lease.v ===== *)
(** * The lease ioctls (src/lease.c)

    Every handler of the lease interface with the code's guards in the code's order.  A
    handler that publishes its result to user memory does so after it dropped the lease
    lock and takes the lock again if the copy faults, so it is split in two: the locked
    section ([..._locked]), which either returns or leaves a pending publication, and
    the publication ([..._publish]), which is told whether the copy faulted.  Other
    handlers may run in between. *)

From S2P Require Import Prelude Uapi LeaseSM LeaseTypes.

Definition MX_LEASE_CAPABILITIES : Z :=
  fold_right Z.lor 0
    [MX_LEASE_CAP_OFD_LIFETIME; MX_LEASE_CAP_STATE_INODE_ANCHOR; MX_LEASE_CAP_FAMILY_EXCLUSION;
     MX_LEASE_CAP_ATOMIC_TRANSITION; MX_LEASE_CAP_HUB_REPLACEMENT; MX_LEASE_CAP_LEGACY_EXCLUSION;
     MX_LEASE_CAP_PRIVILEGED_REPLACEMENT; MX_LEASE_CAP_RESERVED_HIO_QID;
     MX_LEASE_CAP_PERSISTENT_STATE_ANCHOR; MX_LEASE_CAP_PRIVILEGED_FRESH_ANCHOR;
     MX_LEASE_CAP_PRIVILEGED_PUBLISHER; MX_LEASE_CAP_WORKLOAD_PROOF_BINDING;
     MX_LEASE_CAP_CANONICAL_SLOT_OFD_PROOF; MX_LEASE_CAP_COORDINATED_PARTICIPANTS;
     MX_LEASE_CAP_WORKLOAD_OFD_LIFETIME; MX_LEASE_CAP_SCOPED_MEMORY_COMMANDS].

Definition is_some {A} (x : option A) : bool := match x with Some _ => true | None => false end.

(** ** Helpers *)

Definition mx_lease_ioctl_cmd (cmd : Z) : bool :=
  (cmd =? MX_IOCTL_GET_LEASE_CAPS) || (cmd =? MX_IOCTL_QUERY_LEASE) ||
  (cmd =? MX_IOCTL_ACQUIRE_LEASE) || (cmd =? MX_IOCTL_TRANSITION_LEASE) ||
  (cmd =? MX_IOCTL_WORKLOAD_PROOFS) || (cmd =? MX_IOCTL_ANCHOR_SLOT_DOMAIN).

Definition mx_lease_valid_header (magic version size expected_size : Z) : bool :=
  (magic =? MX_LEASE_ABI_MAGIC) && (version =? MX_LEASE_ABI_VERSION) && (size =? expected_size).

(** [inode && S_ISREG(inode->i_mode) && inode->i_sb && s_magic == TMPFS_MAGIC]. *)
Definition tmpfs_regular (v : vfs) (f : Z) : bool :=
  match file_inode v f with
  | Some i => i_isreg v i && (match i_sb_magic v i with Some m => m =? TMPFS_MAGIC | None => false end)
  | None => false
  end.

Definition mx_lease_valid_state_file (v : vfs) (file : option Z) : bool :=
  match file with
  | None => false
  | Some f => if negb (f_mode_read v f && f_mode_write v f) then false else tmpfs_regular v f
  end.

(** The counter is a u64 and never hands out 0. *)
Definition mx_lease_next_generation (lease : mx_device_lease) : mx_device_lease :=
  let c := u64 (ls_generation_counter lease + 1) in
  let c := if c =? 0 then u64 (c + 1) else c in
  lease <| ls_generation_counter := c |>.

Definition grant (c : bool) (g : Z) : Z := if c then g else 0.

Definition mx_lease_holder_grants (dev : mx_device_lease) (ctx : mx_file_ctx) (anchored : bool) : Z :=
  let h := cx_lease ctx in
  RETURN MX_LEASE_GRANT_LEGACY WHEN h_legacy h ;;
  RETURN 0 WHEN (h_profile h =? 0) ;;
  let family := mx_lease_profile_family (h_profile h) in
  let grants := grant (mx_lease_profile_is_publisher (h_profile h)) MX_LEASE_GRANT_PUBLISHER in
  let grants := Z.lor grants
    (if family =? MX_LEASE_FAMILY_HUB then MX_LEASE_GRANT_FAMILY_HUB
     else if family =? MX_LEASE_FAMILY_STANDALONE then MX_LEASE_GRANT_FAMILY_STANDALONE
     else if family =? MX_LEASE_FAMILY_COORDINATOR then MX_LEASE_GRANT_FAMILY_COORDINATOR else 0) in
  let grants := Z.lor grants (grant (h_profile h =? MX_LEASE_PROFILE_COORDINATOR_CONTROL)
                                    MX_LEASE_GRANT_COORDINATOR_CONTROL) in
  let grants := Z.lor grants
    (if h_phase h =? MX_LEASE_PHASE_QUIESCENT then MX_LEASE_GRANT_QUIESCENT
     else if h_phase h =? MX_LEASE_PHASE_WORKLOAD then MX_LEASE_GRANT_WORKLOAD
     else if h_phase h =? MX_LEASE_PHASE_REPLACEMENT_CANDIDATE
     then MX_LEASE_GRANT_REPLACEMENT_CANDIDATE
     else if h_phase h =? MX_LEASE_PHASE_COORDINATOR_PREPARED
     then MX_LEASE_GRANT_COORDINATOR_PREPARED else 0) in
  let grants := Z.lor grants (grant anchored MX_LEASE_GRANT_STATE_ANCHORED) in
  let grants := Z.lor grants (grant (is_some (cx_slot_proof_file ctx)) MX_LEASE_GRANT_SLOT_PROOF_BOUND) in
  let grants := Z.lor grants
    (grant (is_some (cx_lifetime_proof_file ctx)) MX_LEASE_GRANT_LIFETIME_PROOF_BOUND) in
  Z.lor grants (grant (ls_slot_domain_path_valid dev) MX_LEASE_GRANT_SLOT_DOMAIN_ANCHORED).

(** Device and inode number of an anchored inode; [NULL] is never dereferenced. *)
Definition inode_dev (v : vfs) (i : option Z) : Z := match i with Some i => i_sb_dev v i | None => 0 end.
Definition inode_ino (v : vfs) (i : option Z) : Z := match i with Some i => i_ino v i | None => 0 end.

Definition mx_lease_fill_acquire_locked (v : vfs) (dev : mx_device_lease) (ctx : mx_file_ctx)
    (out : mx_lease_acquire_t) : mx_lease_acquire_t :=
  let sm := ls_state dev in
  out <| aq_device_incarnation := ls_device_incarnation dev |>
      <| aq_lease_generation := ls_generation dev |>
      <| aq_grants := mx_lease_holder_grants dev ctx (ls_state_path_valid dev) |>
      <| aq_state_dev := inode_dev v (ls_state_inode dev) |>
      <| aq_state_ino := inode_ino v (ls_state_inode dev) |>
      <| aq_phase := h_phase (cx_lease ctx) |>
      <| aq_family := sm_family sm |>
      <| aq_publisher_count := sm_publishers sm |>
      <| aq_workload_count := sm_workloads sm |>
      <| aq_family_holder_count := sm_family_holders sm |>
      <| aq_legacy_count := sm_legacy_holders sm |>.

(** ** GET_LEASE_CAPS *)

(** [None] in the output: nothing was written. *)
Definition mx_lease_get_caps (reserved_hio_qid : Z) (fault : bool) (st : lstate)
    : Z * option mx_lease_caps_t :=
  RETURN (- ENODEV, None) WHEN (ls_removed (l_dev st)) ;;
  RETURN (- EFAULT, None) WHEN fault ;;
  (0, Some (MkCaps MX_LEASE_ABI_MAGIC MX_LEASE_CAPABILITIES (ls_device_incarnation (l_dev st))
              MX_LEASE_ABI_VERSION sizeof_lease_caps MX_LEASE_PROFILE_MAX MX_LEASE_TRANSITION_MAX
              reserved_hio_qid)).

(** ** ACQUIRE_LEASE *)

Record acquire_pending := MkAp {
  ap_req : mx_lease_acquire_t;
  ap_state_file : Z;
  ap_fresh_anchor : bool;
  ap_new_holder : mx_lease_sm_holder;
  ap_new_generation : Z;
}.

Definition acquire_request_ok (req : mx_lease_acquire_t) : bool :=
  mx_lease_valid_header (aq_abi_magic req) (aq_abi_version req) (aq_struct_size req)
    sizeof_lease_acquire &&
  (aq_reserved req =? 0) && negb (aq_profile req =? MX_LEASE_PROFILE_NONE) &&
  (aq_profile req <=? MX_LEASE_PROFILE_MAX) && (0 <=? aq_state_fd req) &&
  (nz (aq_state_identity0 req) || nz (aq_state_identity1 req)).

(** The checks between the lock and [mx_lease_sm_acquire]: an errno, or whether the
    acquisition anchors a fresh state inode. *)
Definition acquire_anchor_check (v : vfs) (dev : mx_device_lease) (req : mx_lease_acquire_t)
    (state_file : Z) : Z + bool :=
  RETURN (inl (- ENODEV)) WHEN (ls_removed dev) ;;
  RETURN (inl (- ESTALE)) WHEN
    ((aq_expected_device_incarnation req =? 0) ||
     negb (aq_expected_device_incarnation req =? ls_device_incarnation dev)) ;;
  if negb (ls_state_path_valid dev) then
    RETURN (inl (- ESTALE)) WHEN (nz (aq_expected_lease_generation req)) ;;
    RETURN (inl (- ENXIO)) WHEN (negb (mx_lease_profile_is_publisher (aq_profile req))) ;;
    inr true
  else
    RETURN (inl (- ESTALE)) WHEN
      ((aq_expected_lease_generation req =? 0) ||
       negb (aq_expected_lease_generation req =? ls_generation dev)) ;;
    RETURN (inl (- EXDEV)) WHEN (negb (bool_decide (ls_state_inode dev = file_inode v state_file))) ;;
    RETURN (inl (- ESTALE)) WHEN
      (negb (ls_state_identity0 dev =? aq_state_identity0 req) ||
       negb (ls_state_identity1 dev =? aq_state_identity1 req)) ;;
    let ret := mx_lease_sm_validate_anchored_acquire (ls_state dev) (ls_state_family dev)
                 (aq_profile req) in
    if nz ret then inl ret else inr false.

Definition install_state_anchor (v : vfs) (f : Z) (req : mx_lease_acquire_t) (st : lstate) : lstate :=
  let dev := l_dev st in
  let dev := dev <| ls_state_path := Some (f_path v f) |>
                 <| ls_state_path_valid := true |>
                 <| ls_state_inode := file_inode v f |>
                 <| ls_state_identity0 := aq_state_identity0 req |>
                 <| ls_state_identity1 := aq_state_identity1 req |>
                 <| ls_state_family := mx_lease_profile_family (aq_profile req) |> in
  let dev := mx_lease_next_generation dev in
  st <| l_dev := dev <| ls_generation := ls_generation_counter dev |> |>
     <| l_refs := path_get (f_path v f) (l_refs st) |>.

Definition acquire_locked (v : vfs) (req : mx_lease_acquire_t) (st : lstate)
    : Z * lstate + acquire_pending * lstate :=
  let ctx := l_ctx st in
  RETURN (inl (- EINVAL, st)) WHEN (negb (acquire_request_ok req)) ;;
  RETURN (inl (- EPERM, st)) WHEN
    ((mx_lease_profile_is_publisher (aq_profile req) ||
      (aq_profile req =? MX_LEASE_PROFILE_COORDINATOR_CONTROL)) &&
     negb (cx_mx_cdev ctx =? MX_CDEV_IOCTL)) ;;
  RETURN (inl (- EPERM, st)) WHEN
    (mx_lease_profile_is_publisher (aq_profile req) && negb (capable_rawio v)) ;;
  let state_file := fget v (aq_state_fd req) in
  let st := st <| l_refs := get_file_opt state_file (l_refs st) |> in
  let put st := st <| l_refs := fput_opt state_file (l_refs st) |> in
  RETURN (inl (- EINVAL, put st)) WHEN (negb (mx_lease_valid_state_file v state_file)) ;;
  match state_file with
  | None => inl (- EINVAL, st)
  | Some f =>
    match acquire_anchor_check v (l_dev st) req f with
    | inl e => inl (e, put st)
    | inr fresh_anchor =>
      let '(ret, sm, holder) :=
        mx_lease_sm_acquire (ls_state (l_dev st)) (cx_lease ctx) (aq_profile req) in
      RETURN (inl (ret, put st)) WHEN (nz ret) ;;
      let st := st <| l_dev := (l_dev st) <| ls_state := sm |> |>
                   <| l_ctx := ctx <| cx_lease := holder |> |> in
      let st := if fresh_anchor then install_state_anchor v f req st else st in
      inr (MkAp (mx_lease_fill_acquire_locked v (l_dev st) (l_ctx st) req) f fresh_anchor
             holder (ls_generation (l_dev st)), st)
    end
  end.

Definition drop_state_anchor (st : lstate) : lstate :=
  let dev := l_dev st in
  st <| l_refs := match ls_state_path dev with Some p => path_put p (l_refs st) | None => l_refs st end |>
     <| l_dev := dev <| ls_state_path_valid := false |>
                     <| ls_state_path := None |>
                     <| ls_state_inode := None |>
                     <| ls_state_identity0 := 0 |>
                     <| ls_state_identity1 := 0 |>
                     <| ls_state_family := MX_LEASE_FAMILY_NONE |>
                     <| ls_generation := 0 |> |>.

Definition acquire_publish (v : vfs) (p : acquire_pending) (fault : bool) (st : lstate)
    : Z * lstate :=
  let put st := st <| l_refs := fput (ap_state_file p) (l_refs st) |> in
  RETURN (0, put st) WHEN (negb fault) ;;
  let st :=
    if bool_decide (cx_lease (l_ctx st) = ap_new_holder p) then
      let '(sm, holder) := mx_lease_sm_release (ls_state (l_dev st)) (cx_lease (l_ctx st)) in
      st <| l_dev := (l_dev st) <| ls_state := sm |> |>
         <| l_ctx := (l_ctx st) <| cx_lease := holder |> |>
    else st in
  let st :=
    if ap_fresh_anchor p && ls_state_path_valid (l_dev st) &&
       (ls_generation (l_dev st) =? ap_new_generation p) &&
       bool_decide (ls_state_inode (l_dev st) = file_inode v (ap_state_file p)) &&
       mx_lease_sm_idle (ls_state (l_dev st))
    then drop_state_anchor st else st in
  (- EFAULT, put st).

(** [req = None]: [copy_from_user] faulted.  [fault]: [copy_to_user] does. *)
Definition mx_lease_acquire (v : vfs) (req : option mx_lease_acquire_t) (fault : bool)
    (st : lstate) : Z * lstate :=
  match req with
  | None => (- EFAULT, st)
  | Some req =>
    match acquire_locked v req st with
    | inl r => r
    | inr (p, st) => acquire_publish v p fault st
    end
  end.

(** ** TRANSITION_LEASE *)

Record transition_pending := MkTp {
  tp_req : mx_lease_transition_t;
  tp_old_state : mx_lease_sm;
  tp_new_state : mx_lease_sm;
  tp_old_holder : mx_lease_sm_holder;
  tp_new_holder : mx_lease_sm_holder;
}.

Definition transition_request_ok (req : mx_lease_transition_t) : bool :=
  mx_lease_valid_header (tr_abi_magic req) (tr_abi_version req) (tr_struct_size req)
    sizeof_lease_transition &&
  (tr_reserved0 req =? 0) && (tr_reserved1 req =? 0) &&
  negb (tr_operation req =? MX_LEASE_TRANSITION_NONE) &&
  (tr_operation req <=? MX_LEASE_TRANSITION_MAX).

Definition fill_transition (dev : mx_device_lease) (ctx : mx_file_ctx) (req : mx_lease_transition_t)
    : mx_lease_transition_t :=
  let sm := ls_state dev in
  req <| tr_device_incarnation := ls_device_incarnation dev |>
      <| tr_lease_generation := ls_generation dev |>
      <| tr_grants := mx_lease_holder_grants dev ctx (ls_state_path_valid dev) |>
      <| tr_phase := h_phase (cx_lease ctx) |>
      <| tr_family := sm_family sm |>
      <| tr_publisher_count := sm_publishers sm |>
      <| tr_workload_count := sm_workloads sm |>
      <| tr_family_holder_count := sm_family_holders sm |>
      <| tr_legacy_count := sm_legacy_holders sm |>.

Definition transition_locked (v : vfs) (req : mx_lease_transition_t) (st : lstate)
    : Z * lstate + transition_pending * lstate :=
  let dev := l_dev st in
  let ctx := l_ctx st in
  RETURN (inl (- EINVAL, st)) WHEN (negb (transition_request_ok req)) ;;
  RETURN (inl (- EPERM, st)) WHEN
    ((tr_operation req =? MX_LEASE_TRANSITION_ACTIVATE_REPLACEMENT) && negb (capable_rawio v)) ;;
  RETURN (inl (- ENODEV, st)) WHEN (ls_removed dev) ;;
  RETURN (inl (- ESTALE, st)) WHEN
    ((tr_expected_device_incarnation req =? 0) ||
     negb (tr_expected_device_incarnation req =? ls_device_incarnation dev) ||
     (tr_expected_lease_generation req =? 0) ||
     negb (tr_expected_lease_generation req =? ls_generation dev)) ;;
  let '(ret, sm, holder) :=
    mx_lease_sm_transition (ls_state dev) (cx_lease ctx) (tr_operation req)
      (cx_direct_count ctx) (cx_transfer_count ctx) (cx_bar_mapping_count ctx)
      (ls_slot_domain_path_valid dev && is_some (ls_slot_domain_inode dev)) in
  RETURN (inl (ret, st)) WHEN (nz ret) ;;
  let st := st <| l_dev := dev <| ls_state := sm |> |> <| l_ctx := ctx <| cx_lease := holder |> |> in
  inr (MkTp (fill_transition (l_dev st) (l_ctx st) req) (ls_state dev) sm (cx_lease ctx) holder, st).

Definition transition_publish (p : transition_pending) (fault : bool) (st : lstate) : Z * lstate :=
  RETURN (0, st) WHEN (negb fault) ;;
  let st :=
    if bool_decide (ls_state (l_dev st) = tp_new_state p) &&
       bool_decide (cx_lease (l_ctx st) = tp_new_holder p)
    then st <| l_dev := (l_dev st) <| ls_state := tp_old_state p |> |>
            <| l_ctx := (l_ctx st) <| cx_lease := tp_old_holder p |> |>
    else st in
  (- EFAULT, st).

Definition mx_lease_transition (v : vfs) (req : option mx_lease_transition_t) (fault : bool)
    (st : lstate) : Z * lstate :=
  match req with
  | None => (- EFAULT, st)
  | Some req =>
    match transition_locked v req st with
    | inl r => r
    | inr (p, st) => transition_publish p fault st
    end
  end.

(** ** OFD locks and proof files *)

Definition mx_lease_valid_slot_proof (v : vfs) (file : option Z) (slot : Z) (allow_zero : bool) : bool :=
  match file with
  | None => false
  | Some f =>
    RETURN false WHEN
      ((negb allow_zero && (slot =? 0)) || (MX_LEASE_MAX_SLOT <? slot) ||
       negb (f_mode_read v f && f_mode_write v f) ||
       negb (f_pos v f =? MX_LEASE_SLOT_MARKER_BASE + slot)) ;;
    tmpfs_regular v f
  end.

Definition mx_lease_valid_lifetime_proof (v : vfs) (file : option Z) : bool :=
  match file with
  | None => false
  | Some f =>
    RETURN false WHEN (negb (f_mode_write v f)) ;;
    match file_inode v f with
    | Some i => i_isfifo v i && (match i_sb_magic v i with Some m => m =? PIPEFS_MAGIC | None => false end)
    | None => false
    end
  end.

Definition mx_lease_valid_workload_ofd (v : vfs) (file : option Z) (slot : Z) : bool :=
  match file with
  | None => false
  | Some f =>
    RETURN false WHEN
      ((MX_LEASE_MAX_WORKLOAD_SLOT <? slot) || negb (f_mode_read v f && f_mode_write v f) ||
       negb (f_pos v f =? MX_LEASE_WORKLOAD_MARKER_BASE + slot)) ;;
    tmpfs_regular v f
  end.

(** Returns the pinned file (with the reference the clone carries), or an errno. *)
Definition mx_lease_clone_with_ofd_lock (v : vfs) (source type start end_ : Z) (r : refs)
    : (Z + Z) * refs :=
  match file_clone_open v source with
  | inl e => (inl e, r)
  | inr pinned =>
    let r := get_file pinned r in
    RETURN (inl (- ESTALE), fput pinned r) WHEN
      (negb (bool_decide (file_inode v pinned = file_inode v source))) ;;
    let ret := vfs_lock_file v pinned type start end_ in
    RETURN (inl (if ret =? FILE_LOCK_DEFERRED then - EAGAIN else ret), fput pinned r) WHEN (nz ret) ;;
    (inr pinned, r)
  end.

Definition mx_lease_slot_identity_held (v : vfs) (slot_file slot : Z) (r : refs) : Z * refs :=
  let offset := MX_LEASE_SLOT_IDENTITY_OFFSET slot in
  let '(ret, type) := vfs_test_lock v slot_file F_WRLCK offset offset in
  let ret := if (ret =? 0) && negb (type =? F_UNLCK) then - EPERM else ret in
  RETURN (ret, r) WHEN (nz ret) ;;
  match file_clone_open v slot_file with
  | inl e => (e, r)
  | inr clone =>
    let r := get_file clone r in
    RETURN (- ESTALE, fput clone r) WHEN
      (negb (bool_decide (file_inode v clone = file_inode v slot_file))) ;;
    let '(ret, type) := vfs_test_lock v clone F_WRLCK offset offset in
    (if (ret =? 0) && (type =? F_UNLCK) then - EPERM else ret, fput clone r)
  end.

Definition mx_lease_pin_slot_ofd_lock (v : vfs) (source slot : Z) (r : refs) : (Z + Z) * refs :=
  let offset := MX_LEASE_SLOT_LIVENESS_OFFSET slot in
  mx_lease_clone_with_ofd_lock v source F_RDLCK offset offset r.

(** ** ANCHOR_SLOT_DOMAIN *)

Record domain_pending := MkDp {
  dp_req : mx_lease_slot_domain_t;
  dp_domain_file : Z;
  dp_exclusive_proof : option Z;
  dp_fresh_anchor : bool;
}.

Definition domain_request_ok (req : mx_lease_slot_domain_t) : bool :=
  mx_lease_valid_header (sd_abi_magic req) (sd_abi_version req) (sd_struct_size req)
    sizeof_lease_slot_domain &&
  (0 <=? sd_slot_domain_fd req) && (sd_reserved0 req =? 0) && (sd_slot_domain_dev req =? 0) &&
  (sd_slot_domain_ino req =? 0) && (sd_grants req =? 0).

(** The checks under the lock; [Some] is the errno of a refusal. *)
Definition domain_check (v : vfs) (dev : mx_device_lease) (ctx : mx_file_ctx)
    (req : mx_lease_slot_domain_t) (f : Z) : option Z :=
  RETURN (Some (- ENODEV)) WHEN (ls_removed dev) ;;
  RETURN (Some (- ESTALE)) WHEN
    ((sd_expected_device_incarnation req =? 0) ||
     negb (sd_expected_device_incarnation req =? ls_device_incarnation dev) ||
     (sd_expected_lease_generation req =? 0) ||
     negb (sd_expected_lease_generation req =? ls_generation dev)) ;;
  RETURN (Some (- EUCLEAN)) WHEN
    (negb (Bool.eqb (ls_slot_domain_path_valid dev) (is_some (ls_slot_domain_inode dev)))) ;;
  let domain_anchored := ls_slot_domain_path_valid dev in
  let same_inode := domain_anchored && bool_decide (ls_slot_domain_inode dev = file_inode v f) in
  let ret := mx_lease_sm_validate_slot_domain_anchor (cx_lease ctx) (ls_state_family dev)
    (ls_state_path_valid dev && is_some (ls_state_inode dev))
    (cx_direct_count ctx) (cx_transfer_count ctx) (cx_bar_mapping_count ctx)
    domain_anchored same_inode in
  RETURN (Some ret) WHEN (nz ret) ;;
  RETURN (Some (- EINVAL)) WHEN (bool_decide (file_inode v f = ls_state_inode dev)) ;;
  None.

Definition fill_domain (v : vfs) (dev : mx_device_lease) (ctx : mx_file_ctx)
    (req : mx_lease_slot_domain_t) : mx_lease_slot_domain_t :=
  req <| sd_slot_domain_dev := inode_dev v (ls_slot_domain_inode dev) |>
      <| sd_slot_domain_ino := inode_ino v (ls_slot_domain_inode dev) |>
      <| sd_grants := mx_lease_holder_grants dev ctx (ls_state_path_valid dev) |>.

Definition domain_locked (v : vfs) (req : mx_lease_slot_domain_t) (st : lstate)
    : Z * lstate + domain_pending * lstate :=
  let ctx := l_ctx st in
  RETURN (inl (- EINVAL, st)) WHEN (negb (domain_request_ok req)) ;;
  RETURN (inl (- EPERM, st)) WHEN
    (negb (capable_rawio v) || negb (cx_mx_cdev ctx =? MX_CDEV_IOCTL)) ;;
  let domain_file := fget v (sd_slot_domain_fd req) in
  let st := st <| l_refs := get_file_opt domain_file (l_refs st) |> in
  let put st := st <| l_refs := fput_opt domain_file (l_refs st) |> in
  RETURN (inl (- EINVAL, put st)) WHEN (negb (mx_lease_valid_state_file v domain_file)) ;;
  match domain_file with
  | None => inl (- EINVAL, st)
  | Some f =>
    match domain_check v (l_dev st) ctx req f with
    | Some e => inl (e, put st)
    | None =>
      if ls_slot_domain_path_valid (l_dev st)
      then inr (MkDp (fill_domain v (l_dev st) ctx req) f None false, st)
      else
        match mx_lease_clone_with_ofd_lock v f F_WRLCK 0 OFFSET_MAX (l_refs st) with
        | (inl e, r) => inl (e, put (st <| l_refs := r |>))
        | (inr proof, r) =>
          let dev := (l_dev st) <| ls_slot_domain_path := Some (f_path v f) |>
                                <| ls_slot_domain_path_valid := true |>
                                <| ls_slot_domain_inode := file_inode v f |> in
          let st := st <| l_dev := dev |> <| l_refs := path_get (f_path v f) r |> in
          inr (MkDp (fill_domain v dev ctx req) f (Some proof) true, st)
        end
    end
  end.

Definition drop_domain_anchor (st : lstate) : lstate :=
  let dev := l_dev st in
  st <| l_refs := match ls_slot_domain_path dev with
                  | Some p => path_put p (l_refs st) | None => l_refs st end |>
     <| l_dev := dev <| ls_slot_domain_path_valid := false |>
                     <| ls_slot_domain_path := None |>
                     <| ls_slot_domain_inode := None |> |>.

Definition domain_publish (v : vfs) (p : domain_pending) (fault : bool) (st : lstate) : Z * lstate :=
  let put st := st <| l_refs := fput (dp_domain_file p) (fput_opt (dp_exclusive_proof p) (l_refs st)) |> in
  RETURN (0, put st) WHEN (negb fault) ;;
  let st :=
    if dp_fresh_anchor p && ls_slot_domain_path_valid (l_dev st) &&
       bool_decide (ls_slot_domain_inode (l_dev st) = file_inode v (dp_domain_file p))
    then drop_domain_anchor st else st in
  (- EFAULT, put st).

Definition mx_lease_anchor_slot_domain (v : vfs) (req : option mx_lease_slot_domain_t) (fault : bool)
    (st : lstate) : Z * lstate :=
  match req with
  | None => (- EFAULT, st)
  | Some req =>
    match domain_locked v req st with
    | inl r => r
    | inr (p, st) => domain_publish v p fault st
    end
  end.

(** ** WORKLOAD_PROOFS *)

Definition mx_lease_proof_request_matches (lease : mx_device_lease) (req : mx_lease_proofs_t) : bool :=
  negb (ls_removed lease) && nz (pr_expected_device_incarnation req) &&
  (pr_expected_device_incarnation req =? ls_device_incarnation lease) &&
  nz (pr_expected_lease_generation req) &&
  (pr_expected_lease_generation req =? ls_generation lease) &&
  (pr_state_identity0 req =? ls_state_identity0 lease) &&
  (pr_state_identity1 req =? ls_state_identity1 lease) &&
  (nz (pr_state_identity0 req) || nz (pr_state_identity1 req)) && ls_state_path_valid lease.

(** The four proof files of a context (or of a handler's locals). *)
Record proof_files := MkPf {
  pf_slot_source : option Z;
  pf_slot_proof : option Z;
  pf_lifetime_source : option Z;
  pf_lifetime_proof : option Z;
}.

Definition no_files : proof_files := MkPf None None None None.

#[export] Instance proof_files_eq_dec : EqDecision proof_files.
Proof. solve_decision. Defined.

Definition ctx_files (ctx : mx_file_ctx) : proof_files :=
  MkPf (cx_slot_source_file ctx) (cx_slot_proof_file ctx) (cx_lifetime_source_file ctx)
    (cx_lifetime_proof_file ctx).

Definition ctx_set_files (pf : proof_files) (tag slot : Z) (ctx : mx_file_ctx) : mx_file_ctx :=
  ctx <| cx_slot_source_file := pf_slot_source pf |>
      <| cx_slot_proof_file := pf_slot_proof pf |>
      <| cx_lifetime_source_file := pf_lifetime_source pf |>
      <| cx_lifetime_proof_file := pf_lifetime_proof pf |>
      <| cx_proof_lifetime_tag := tag |>
      <| cx_proof_slot := slot |>.

Definition fput_files (pf : proof_files) (r : refs) : refs :=
  fput_opt (pf_lifetime_proof pf) (fput_opt (pf_lifetime_source pf)
    (fput_opt (pf_slot_proof pf) (fput_opt (pf_slot_source pf) r))).

(** Opening the descriptors before the lock: the errno, or the slot and lifetime files;
    the references taken so far in either case. *)
Definition bind_open (v : vfs) (ctx : mx_file_ctx) (req : mx_lease_proofs_t) (r : refs)
    : Z * option Z * option Z * refs :=
  let profile := h_profile (cx_lease ctx) in
  let lifetime_ofd := nz (pr_reserved0 req) in
  let lifetime_slot := Z.land (pr_reserved0 req) MX_LEASE_MAX_WORKLOAD_SLOT in
  if (profile =? MX_LEASE_PROFILE_HUB_WORKLOAD) ||
     (profile =? MX_LEASE_PROFILE_COORDINATOR_CONTROL) then
    let control := profile =? MX_LEASE_PROFILE_COORDINATOR_CONTROL in
    RETURN (- EINVAL, None, None, r) WHEN (control && negb (pr_lifetime_fd req =? -1)) ;;
    let slot_file := fget v (pr_slot_fd req) in
    let r := get_file_opt slot_file r in
    RETURN (- EINVAL, slot_file, None, r) WHEN
      (negb (mx_lease_valid_slot_proof v slot_file (pr_slot req) control)) ;;
    RETURN (0, slot_file, None, r) WHEN (pr_lifetime_fd req <? 0) ;;
    let lifetime_file := fget v (pr_lifetime_fd req) in
    let r := get_file_opt lifetime_file r in
    RETURN (- EINVAL, slot_file, lifetime_file, r) WHEN
      (negb (mx_lease_valid_lifetime_proof v lifetime_file)) ;;
    (0, slot_file, lifetime_file, r)
  else if (profile =? MX_LEASE_PROFILE_STANDALONE_WORKLOAD) ||
          (profile =? MX_LEASE_PROFILE_COORDINATOR_WORKLOAD) then
    RETURN (- EINVAL, None, None, r) WHEN (negb (pr_slot_fd req =? -1) || nz (pr_slot req)) ;;
    let lifetime_file := fget v (pr_lifetime_fd req) in
    let r := get_file_opt lifetime_file r in
    RETURN (- EINVAL, None, lifetime_file, r) WHEN
      (if lifetime_ofd then negb (mx_lease_valid_workload_ofd v lifetime_file lifetime_slot)
       else negb (mx_lease_valid_lifetime_proof v lifetime_file)) ;;
    (0, None, lifetime_file, r)
  else (- EPERM, None, None, r).

Definition bind_same (ctx : mx_file_ctx) (req : mx_lease_proofs_t) (slot_file lifetime_file : option Z)
    : bool :=
  bool_decide (cx_slot_source_file ctx = slot_file) &&
  bool_decide ((if nz (pr_reserved0 req) then cx_lifetime_source_file ctx
                else cx_lifetime_proof_file ctx) = lifetime_file) &&
  (cx_proof_slot ctx =? pr_slot req) && (cx_proof_lifetime_tag ctx =? pr_reserved0 req).

(** The state checks under the lock, before any lock file is pinned. *)
Definition bind_check (v : vfs) (dev : mx_device_lease) (ctx : mx_file_ctx) (req : mx_lease_proofs_t)
    (slot_file lifetime_file : option Z) : option Z :=
  RETURN (Some (if ls_removed dev then - ENODEV else - ESTALE)) WHEN
    (negb (mx_lease_proof_request_matches dev req)) ;;
  RETURN (Some (- EACCES)) WHEN (negb (h_phase (cx_lease ctx) =? MX_LEASE_PHASE_WORKLOAD)) ;;
  RETURN (Some (- EBUSY)) WHEN (nz (cx_direct_count ctx) || nz (cx_transfer_count ctx)) ;;
  let same_binding := bind_same ctx req slot_file lifetime_file in
  RETURN (Some (- EALREADY)) WHEN
    ((is_some (cx_slot_source_file ctx) || is_some (cx_slot_proof_file ctx) ||
      is_some (cx_lifetime_proof_file ctx)) && negb same_binding) ;;
  match slot_file with
  | Some f =>
    RETURN None WHEN same_binding ;;
    RETURN (Some (- EUCLEAN)) WHEN
      (negb (ls_slot_domain_path_valid dev) || negb (is_some (ls_slot_domain_inode dev))) ;;
    RETURN (Some (- EXDEV)) WHEN (negb (bool_decide (file_inode v f = ls_slot_domain_inode dev))) ;;
    None
  | None => None
  end.

(** Pinning the slot byte: errno, the lock file, the references. *)
Definition bind_pin_slot (v : vfs) (same_binding : bool) (slot_file : option Z) (slot : Z) (r : refs)
    : Z * option Z * refs :=
  match slot_file with
  | Some f =>
    RETURN (0, None, r) WHEN same_binding ;;
    let '(ret, r) := mx_lease_slot_identity_held v f slot r in
    RETURN (ret, None, r) WHEN (nz ret) ;;
    match mx_lease_pin_slot_ofd_lock v f slot r with
    | (inl e, r) => (e, None, r)
    | (inr lock, r) => (0, Some lock, r)
    end
  | None => (0, None, r)
  end.

(** Pinning the workload byte of the state inode. *)
Definition bind_pin_lifetime (v : vfs) (dev : mx_device_lease) (same_binding : bool)
    (req : mx_lease_proofs_t) (lifetime_file : option Z) (r : refs) : Z * option Z * refs :=
  match lifetime_file with
  | Some f =>
    RETURN (0, None, r) WHEN (negb (nz (pr_reserved0 req))) ;;
    RETURN (- EXDEV, None, r) WHEN (negb (bool_decide (file_inode v f = ls_state_inode dev))) ;;
    RETURN (0, None, r) WHEN same_binding ;;
    let offset := MX_LEASE_WORKLOAD_LIVENESS_OFFSET
                    (Z.land (pr_reserved0 req) MX_LEASE_MAX_WORKLOAD_SLOT) in
    match mx_lease_clone_with_ofd_lock v f F_RDLCK offset offset r with
    | (inl e, r) => (e, None, r)
    | (inr lock, r) => (0, Some lock, r)
    end
  | None => (0, None, r)
  end.

Record bind_pending := MkBp {
  bp_req : mx_lease_proofs_t;
  bp_slot_file : option Z;
  bp_slot_lock_file : option Z;
  bp_lifetime_file : option Z;
  bp_lifetime_lock_file : option Z;
  bp_committed : bool;
}.

(** The files a committed binding stores in the context. *)
Definition bp_files (lifetime_ofd : bool) (slot_file slot_lock lifetime_file lifetime_lock : option Z)
    : proof_files :=
  MkPf slot_file slot_lock (if lifetime_ofd then lifetime_file else None)
    (if lifetime_ofd then lifetime_lock else lifetime_file).

Definition fill_proofs (v : vfs) (dev : mx_device_lease) (ctx : mx_file_ctx)
    (slot_file lifetime_file : option Z) (req : mx_lease_proofs_t) : mx_lease_proofs_t :=
  let slot_inode := slot_file ≫= file_inode v in
  let lifetime_inode := lifetime_file ≫= file_inode v in
  req <| pr_grants := Z.lor (mx_lease_holder_grants dev ctx (ls_state_path_valid dev))
           (Z.lor (grant (is_some slot_file) MX_LEASE_GRANT_SLOT_PROOF_BOUND)
                  (grant (is_some lifetime_file) MX_LEASE_GRANT_LIFETIME_PROOF_BOUND)) |>
      <| pr_slot_dev := inode_dev v slot_inode |>
      <| pr_slot_ino := inode_ino v slot_inode |>
      <| pr_lifetime_dev := inode_dev v lifetime_inode |>
      <| pr_lifetime_ino := inode_ino v lifetime_inode |>.

(** [out_files]: the four locals. *)
Definition fput_locals (slot_file slot_lock lifetime_file lifetime_lock : option Z) (r : refs) : refs :=
  fput_opt lifetime_lock (fput_opt lifetime_file (fput_opt slot_lock (fput_opt slot_file r))).

Definition bind_locked (v : vfs) (req : mx_lease_proofs_t) (st : lstate)
    : Z * lstate + bind_pending * lstate :=
  let ctx := l_ctx st in
  let dev := l_dev st in
  let lifetime_ofd := nz (pr_reserved0 req) in
  let '(ret, slot_file, lifetime_file, r) := bind_open v ctx req (l_refs st) in
  RETURN (inl (ret, st <| l_refs := fput_locals slot_file None lifetime_file None r |>)) WHEN (nz ret) ;;
  match bind_check v dev ctx req slot_file lifetime_file with
  | Some e => inl (e, st <| l_refs := fput_locals slot_file None lifetime_file None r |>)
  | None =>
    let same_binding := bind_same ctx req slot_file lifetime_file in
    let '(ret, slot_lock, r) := bind_pin_slot v same_binding slot_file (pr_slot req) r in
    RETURN (inl (ret, st <| l_refs := fput_locals slot_file slot_lock lifetime_file None r |>))
      WHEN (nz ret) ;;
    let '(ret, lifetime_lock, r) := bind_pin_lifetime v dev same_binding req lifetime_file r in
    RETURN (inl (ret, st <| l_refs := fput_locals slot_file slot_lock lifetime_file lifetime_lock r |>))
      WHEN (nz ret) ;;
    let out := fill_proofs v dev ctx slot_file lifetime_file req in
    let ctx' :=
      if same_binding then ctx
      else (ctx_set_files (bp_files lifetime_ofd slot_file slot_lock lifetime_file lifetime_lock)
              (pr_reserved0 req) (pr_slot req) ctx) <| cx_proofs_ever_bound := true |> in
    inr (MkBp out slot_file slot_lock lifetime_file lifetime_lock (negb same_binding),
         st <| l_ctx := ctx' |> <| l_refs := r |>)
  end.

Definition bind_publish (p : bind_pending) (fault : bool) (st : lstate) : Z * lstate :=
  let put st := st <| l_refs := fput_locals (bp_slot_file p) (bp_slot_lock_file p)
                                  (bp_lifetime_file p) (bp_lifetime_lock_file p) (l_refs st) |> in
  RETURN (0, if bp_committed p then st else put st) WHEN (negb fault) ;;
  RETURN (- EFAULT, put st) WHEN (negb (bp_committed p)) ;;
  let mine := bp_files (nz (pr_reserved0 (bp_req p))) (bp_slot_file p) (bp_slot_lock_file p)
                (bp_lifetime_file p) (bp_lifetime_lock_file p) in
  if bool_decide (ctx_files (l_ctx st) = mine)
  then (- EFAULT, put (st <| l_ctx := ctx_set_files no_files 0 0 (l_ctx st) |>))
  else (- EFAULT, st).

Record unbind_pending := MkUp {
  up_req : mx_lease_proofs_t;
  up_files : proof_files;
  up_old_tag : Z;
  up_old_slot : Z;
}.

Definition unbind_check (dev : mx_device_lease) (ctx : mx_file_ctx) (req : mx_lease_proofs_t) : option Z :=
  let profile := h_profile (cx_lease ctx) in
  RETURN (Some (if ls_removed dev then - ENODEV else - ESTALE)) WHEN
    (negb (mx_lease_proof_request_matches dev req)) ;;
  RETURN (Some (- EPERM)) WHEN
    (negb (profile =? MX_LEASE_PROFILE_HUB_WORKLOAD) &&
     negb (profile =? MX_LEASE_PROFILE_STANDALONE_WORKLOAD) &&
     negb (profile =? MX_LEASE_PROFILE_COORDINATOR_CONTROL) &&
     negb (profile =? MX_LEASE_PROFILE_COORDINATOR_WORKLOAD)) ;;
  RETURN (Some (- ESTALE)) WHEN
    (is_some (cx_slot_proof_file ctx) && negb (pr_slot req =? cx_proof_slot ctx)) ;;
  RETURN (Some (- EINVAL)) WHEN (negb (is_some (cx_slot_proof_file ctx)) && nz (pr_slot req)) ;;
  RETURN (Some (- ESTALE)) WHEN (negb (pr_reserved0 req =? cx_proof_lifetime_tag ctx)) ;;
  RETURN (Some (- EBUSY)) WHEN (nz (cx_bar_mapping_count ctx) || nz (cx_direct_count ctx)) ;;
  None.

Definition unbind_locked (req : mx_lease_proofs_t) (st : lstate) : Z * lstate + unbind_pending * lstate :=
  let dev := l_dev st in
  let ctx := l_ctx st in
  RETURN (inl (- EINVAL, st)) WHEN
    (negb (pr_slot_fd req =? -1) || negb (pr_lifetime_fd req =? -1)) ;;
  match unbind_check dev ctx req with
  | Some e => inl (e, st)
  | None =>
    let out := req <| pr_grants := Z.land (mx_lease_holder_grants dev ctx (ls_state_path_valid dev))
                        (u64 (Z.lnot (Z.lor MX_LEASE_GRANT_SLOT_PROOF_BOUND
                                            MX_LEASE_GRANT_LIFETIME_PROOF_BOUND))) |>
                   <| pr_slot_dev := 0 |> <| pr_slot_ino := 0 |>
                   <| pr_lifetime_dev := 0 |> <| pr_lifetime_ino := 0 |> in
    inr (MkUp out (ctx_files ctx) (cx_proof_lifetime_tag ctx) (cx_proof_slot ctx),
         st <| l_ctx := ctx_set_files no_files 0 0 ctx |>)
  end.

Definition unbind_publish (p : unbind_pending) (fault : bool) (st : lstate) : Z * lstate :=
  let put st := st <| l_refs := fput_files (up_files p) (l_refs st) |> in
  RETURN (0, put st) WHEN (negb fault) ;;
  if bool_decide (ctx_files (l_ctx st) = no_files)
  then (- EFAULT, st <| l_ctx := ctx_set_files (up_files p) (up_old_tag p) (up_old_slot p) (l_ctx st) |>)
  else (- EFAULT, put st).

Definition proofs_request_ok (ctx : mx_file_ctx) (req : mx_lease_proofs_t) : bool :=
  mx_lease_valid_header (pr_abi_magic req) (pr_abi_version req) (pr_struct_size req)
    sizeof_lease_proofs &&
  negb (pr_operation req =? MX_LEASE_PROOF_NONE) && (pr_operation req <=? MX_LEASE_PROOF_MAX) &&
  (pr_grants req =? 0) && (pr_slot_dev req =? 0) && (pr_slot_ino req =? 0) &&
  (pr_lifetime_dev req =? 0) && (pr_lifetime_ino req =? 0) &&
  mx_lease_sm_valid_lifetime_tag (h_profile (cx_lease ctx)) (pr_reserved0 req) &&
  (pr_reserved1 req =? 0) && (pr_reserved2 req =? 0).

Definition mx_lease_bind_proofs (v : vfs) (req : mx_lease_proofs_t) (fault : bool) (st : lstate)
    : Z * lstate :=
  match bind_locked v req st with
  | inl r => r
  | inr (p, st) => bind_publish p fault st
  end.

Definition mx_lease_unbind_proofs (req : mx_lease_proofs_t) (fault : bool) (st : lstate)
    : Z * lstate :=
  match unbind_locked req st with
  | inl r => r
  | inr (p, st) => unbind_publish p fault st
  end.

Definition mx_lease_workload_proofs (v : vfs) (req : option mx_lease_proofs_t) (fault : bool)
    (st : lstate) : Z * lstate :=
  match req with
  | None => (- EFAULT, st)
  | Some req =>
    RETURN (- EINVAL, st) WHEN (negb (proofs_request_ok (l_ctx st) req)) ;;
    if pr_operation req =? MX_LEASE_PROOF_BIND
    then mx_lease_bind_proofs v req fault st
    else mx_lease_unbind_proofs req fault st
  end.

(** ** QUERY_LEASE *)

Definition query_request_ok (req : mx_lease_query_t) : bool :=
  mx_lease_valid_header (qr_abi_magic req) (qr_abi_version req) (qr_struct_size req)
    sizeof_lease_query &&
  (qr_slot_domain_dev req =? 0) && (qr_slot_domain_ino req =? 0).

Definition mx_lease_query (v : vfs) (req : option mx_lease_query_t) (fault : bool) (st : lstate)
    : Z * option mx_lease_query_t :=
  match req with
  | None => (- EFAULT, None)
  | Some req =>
    let lease := l_dev st in
    let sm := ls_state lease in
    let ctx := l_ctx st in
    RETURN (- EINVAL, None) WHEN (negb (query_request_ok req)) ;;
    RETURN (- ENODEV, None) WHEN (ls_removed lease) ;;
    RETURN (- ESTALE, None) WHEN
      ((qr_expected_device_incarnation req =? 0) ||
       negb (qr_expected_device_incarnation req =? ls_device_incarnation lease)) ;;
    RETURN (- EFAULT, None) WHEN fault ;;
    (0, Some (MkQuery (qr_abi_magic req) (qr_expected_device_incarnation req) (qr_abi_version req)
      (qr_struct_size req) (ls_device_incarnation lease) (ls_generation lease)
      (ls_state_identity0 lease) (ls_state_identity1 lease)
      (mx_lease_holder_grants lease ctx (ls_state_path_valid lease))
      (inode_dev v (ls_state_inode lease)) (inode_ino v (ls_state_inode lease))
      (h_profile (cx_lease ctx)) (h_phase (cx_lease ctx)) (sm_family sm) (sm_publishers sm)
      (sm_workloads sm) (sm_family_holders sm) (sm_legacy_holders sm) MX_LEASE_DEVICE_LIVE
      (inode_dev v (ls_slot_domain_inode lease)) (inode_ino v (ls_slot_domain_inode lease))))
  end.

(** ** Dispatch *)

(** The argument of an ioctl: what [copy_from_user] would read, by command. *)
Inductive lease_arg :=
  | ArgNone
  | ArgQuery (req : option mx_lease_query_t)
  | ArgAcquire (req : option mx_lease_acquire_t)
  | ArgTransition (req : option mx_lease_transition_t)
  | ArgProofs (req : option mx_lease_proofs_t)
  | ArgDomain (req : option mx_lease_slot_domain_t).

(** What the argument reads as for each command; a pointer to anything else is modelled
    as a faulting read. *)
Definition arg_query (a : lease_arg) := match a with ArgQuery r => r | _ => None end.
Definition arg_acquire (a : lease_arg) := match a with ArgAcquire r => r | _ => None end.
Definition arg_transition (a : lease_arg) := match a with ArgTransition r => r | _ => None end.
Definition arg_proofs (a : lease_arg) := match a with ArgProofs r => r | _ => None end.
Definition arg_domain (a : lease_arg) := match a with ArgDomain r => r | _ => None end.

Definition mx_lease_ioctl (v : vfs) (reserved_hio_qid : Z) (cmd : Z) (arg : lease_arg) (fault : bool)
    (st : lstate) : Z * lstate :=
  if cmd =? MX_IOCTL_GET_LEASE_CAPS then ((mx_lease_get_caps reserved_hio_qid fault st).1, st)
  else if cmd =? MX_IOCTL_QUERY_LEASE then ((mx_lease_query v (arg_query arg) fault st).1, st)
  else if cmd =? MX_IOCTL_ACQUIRE_LEASE then mx_lease_acquire v (arg_acquire arg) fault st
  else if cmd =? MX_IOCTL_TRANSITION_LEASE then mx_lease_transition v (arg_transition arg) fault st
  else if cmd =? MX_IOCTL_WORKLOAD_PROOFS then mx_lease_workload_proofs v (arg_proofs arg) fault st
  else if cmd =? MX_IOCTL_ANCHOR_SLOT_DOMAIN
  then mx_lease_anchor_slot_domain v (arg_domain arg) fault st
  else (- ENOTTY, st).

(** ** Direct access and transfers *)

Definition ctx_proofs_ok (ctx : mx_file_ctx) : Z :=
  mx_lease_sm_validate_proofs (h_profile (cx_lease ctx)) (cx_proofs_ever_bound ctx)
    (is_some (cx_slot_proof_file ctx)) (is_some (cx_lifetime_proof_file ctx)).

Definition mx_lease_direct_begin (st : lstate) : Z * lstate :=
  let lease := l_dev st in
  let ctx := l_ctx st in
  RETURN (- ENODEV, st) WHEN (ls_removed lease) ;;
  let '(ret, sm, holder, direct) :=
    mx_lease_sm_admit_direct (ls_state lease) (cx_lease ctx) (ls_state_path_valid lease)
      (cx_direct_count ctx) in
  let ctx := ctx <| cx_lease := holder |> <| cx_direct_count := direct |> in
  let st := st <| l_dev := lease <| ls_state := sm |> |> in
  RETURN (ret, st <| l_ctx := ctx |>) WHEN (nz ret) ;;
  let ret := ctx_proofs_ok ctx in
  RETURN (ret, st <| l_ctx := ctx <| cx_direct_count := mx_lease_sm_release_direct direct |> |>)
    WHEN (nz ret) ;;
  (0, st <| l_ctx := ctx |>).

Definition mx_lease_direct_end (ctx : mx_file_ctx) : mx_file_ctx :=
  RETURN ctx WHEN (cx_direct_count ctx =? 0) ;;
  ctx <| cx_direct_count := mx_lease_sm_release_direct (cx_direct_count ctx) |>.

(** [me] is the key of the context: what [transfer->owner_ctx = ctx] stores. *)
Definition mx_lease_transfer_get (me : nat) (st : lstate) (transfer : transfer_lease)
    : Z * lstate * transfer_lease :=
  let lease := l_dev st in
  let ctx := l_ctx st in
  RETURN (- ENODEV, st, transfer) WHEN (ls_removed lease) ;;
  RETURN (- EACCES, st, transfer) WHEN (cx_direct_count ctx =? 0) ;;
  let ret := ctx_proofs_ok ctx in
  RETURN (ret, st, transfer) WHEN (nz ret) ;;
  RETURN (- EOVERFLOW, st, transfer) WHEN (cx_transfer_count ctx =? U32_MAX) ;;
  (0,
   st <| l_ctx := ctx <| cx_refs := cx_refs ctx + 1 |>
                      <| cx_transfer_count := u32 (cx_transfer_count ctx + 1) |> |>
      <| l_refs := get_file_opt (cx_lifetime_proof_file ctx)
                     (get_file_opt (cx_slot_proof_file ctx) (l_refs st)) |>,
   MkTl (Some me)
     (if cx_slot_proof_file ctx is Some f then Some f else tl_slot_proof_file transfer)
     (if cx_lifetime_proof_file ctx is Some f then Some f else tl_lifetime_proof_file transfer)).

(** The part under the lock and the [fput]s; the [mx_file_ctx_put] that follows is the
    caller's next step.  The context is the owner's. *)
Definition mx_lease_transfer_put (transfer : transfer_lease) (ctx : mx_file_ctx) (r : refs)
    : mx_file_ctx * refs * transfer_lease :=
  let ctx := if cx_transfer_count ctx =? 0 then ctx <| cx_transfer_count := 0 |>
             else ctx <| cx_transfer_count := u32 (cx_transfer_count ctx - 1) |> in
  (ctx, fput_opt (tl_lifetime_proof_file transfer) (fput_opt (tl_slot_proof_file transfer) r),
   MkTl None None None).

(** [ctx = NULL] is [None]. *)
Definition mx_lease_authorize_no_completion (ctx : option mx_file_ctx) : Z :=
  if is_some ctx then - EOPNOTSUPP else - EINVAL.

Definition mx_lease_authorize_memory_cmd (ctx : option mx_file_ctx) (subopcode : Z) : Z :=
  match ctx with
  | None => - EINVAL
  | Some ctx => mx_lease_sm_authorize_memory_cmd (h_profile (cx_lease ctx)) subopcode
  end.

(** ** Lifetime of contexts and devices *)

(** [mxdma_device_open]: a zeroed context with one reference. *)
Definition ctx_new (cdev : Z) : mx_file_ctx :=
  MkCtx 1 cdev holder_zero None None None None 0 0 0 0 0 false.

(** The state [mx_file_ctx_free] leaves in the lease, and the references it drops. *)
Definition mx_file_ctx_free (st : lstate) : mx_device_lease * refs :=
  let '(sm, _) := mx_lease_sm_release (ls_state (l_dev st)) (cx_lease (l_ctx st)) in
  ((l_dev st) <| ls_state := sm |>, fput_files (ctx_files (l_ctx st)) (l_refs st)).

(** [mx_lease_init] on a zeroed device; [incarnation] is the first nonzero random word. *)
Definition mx_lease_init (incarnation : Z) : mx_device_lease :=
  MkLease sm_zero None false None None false None 0 0 0 incarnation 0 0 false.

Definition mx_lease_mark_removed (lease : mx_device_lease) : mx_device_lease :=
  lease <| ls_removed := true |>.

(** The lease part of [mx_pdev_free]: the anchors are dropped with the device. *)
Definition mx_pdev_free (lease : mx_device_lease) (r : refs) : mx_device_lease * refs :=
  let sm := ls_state lease in
  let lease :=
    if nz (sm_family_holders sm) || nz (sm_publishers sm) || nz (sm_workloads sm) ||
       nz (sm_legacy_holders sm)
    then lease <| ls_state := sm_zero |> else lease in
  let path_put_opt p r := match p with Some p => path_put p r | None => r end in
  (lease <| ls_state_path_valid := false |> <| ls_state_path := None |> <| ls_state_inode := None |>
         <| ls_slot_domain_path_valid := false |> <| ls_slot_domain_path := None |>
         <| ls_slot_domain_inode := None |>,
   path_put_opt (if ls_slot_domain_path_valid lease then ls_slot_domain_path lease else None)
     (path_put_opt (if ls_state_path_valid lease then ls_state_path lease else None) r)).
