(* ===== verification/LeaseAnchor.v ===== *)
(** * The device lease under the ioctls

    The invariant of [mx_device_lease] together with the claims of all files: the
    anchor fields agree with each other and with the state machine.  Every locked
    section and every publication (the undo of a faulted copy included) preserves it. *)

From S2P Require Import Prelude Uapi LeaseSM LeaseInv LeasePolicy LeaseTypes Lease.

(** ** Invariant *)

Record anchor_inv (dev : mx_device_lease) : Prop := {
  ai_valid : ls_state_path_valid dev = true →
    is_Some (ls_state_inode dev) ∧ is_Some (ls_state_path dev) ∧ ls_generation dev ≠ 0 ∧
    ls_state_family dev ≠ MX_LEASE_FAMILY_NONE;
  ai_none : ls_state_path_valid dev = false →
    ls_state_inode dev = None ∧ ls_state_path dev = None ∧ ls_generation dev = 0 ∧
    ls_state_family dev = MX_LEASE_FAMILY_NONE;
  ai_holders : sm_family_holders (ls_state dev) ≠ 0 →
    ls_state_path_valid dev = true ∧ sm_family (ls_state dev) = ls_state_family dev;
  ai_legacy : sm_legacy_holders (ls_state dev) ≠ 0 → ls_state_path_valid dev = false;
  ai_domain : ls_slot_domain_path_valid dev = is_some (ls_slot_domain_inode dev) ∧
    is_some (ls_slot_domain_path dev) = is_some (ls_slot_domain_inode dev);
  ai_counter : 0 ≤ ls_generation_counter dev ≤ ULLONG_MAX;
}.

(** The device and the claims of its files. *)
Definition dev_inv (dev : mx_device_lease) (hs : gmap nat mx_lease_sm_holder) : Prop :=
  lease_inv (ls_state dev) hs ∧ anchor_inv dev.

(** A handler of file [i] left the state [st]. *)
Definition st_inv (i : nat) (hs : gmap nat mx_lease_sm_holder) (st : lstate) : Prop :=
  dev_inv (l_dev st) (<[i := cx_lease (l_ctx st)]> hs).

Lemma st_inv_intro i hs st :
  hs !! i = Some (cx_lease (l_ctx st)) → dev_inv (l_dev st) hs → st_inv i hs st.
Proof. intros Hi. unfold st_inv. by rewrite insert_id. Qed.

(** Handlers that only touch references, counters or files. *)
Lemma st_inv_frame i hs st st' :
  l_dev st' = l_dev st → cx_lease (l_ctx st') = cx_lease (l_ctx st) → st_inv i hs st → st_inv i hs st'.
Proof. unfold st_inv. by intros -> ->. Qed.

(** ** The state machine operations and the anchor *)

Lemma anchor_inv_sm dev sm' :
  anchor_inv dev →
  (sm_family_holders sm' ≠ 0 →
     ls_state_path_valid dev = true ∧ sm_family sm' = ls_state_family dev) →
  (sm_legacy_holders sm' ≠ 0 → ls_state_path_valid dev = false) →
  anchor_inv (dev <| ls_state := sm' |>).
Proof. intros []. constructor; cbn; auto. Qed.

Lemma release_counters sm h sm' h' :
  mx_lease_sm_release sm h = (sm', h') →
  (sm_family_holders sm' ≠ 0 → sm_family_holders sm ≠ 0 ∧ sm_family sm' = sm_family sm) ∧
  (sm_legacy_holders sm' ≠ 0 → sm_legacy_holders sm ≠ 0).
Proof.
  unfold mx_lease_sm_release. intros Hr.
  repeat (case_match; simplify_eq/=); breflect; split; intros; try done; try (split; done);
    exfalso; try lia; congruence.
Qed.

Lemma release_dev_inv dev hs i h sm' h' :
  dev_inv dev hs → hs !! i = Some h → mx_lease_sm_release (ls_state dev) h = (sm', h') →
  dev_inv (dev <| ls_state := sm' |>) (<[i := h']> hs).
Proof.
  intros [Hl Ha] Hi Hr. split; [by eapply release_inv|].
  destruct (release_counters _ _ _ _ Hr) as [Hf Hg]. apply anchor_inv_sm; [done | |].
  - intros Hne. destruct (Hf Hne) as [H1 ->]. by apply (ai_holders dev Ha).
  - intros Hne. apply (ai_legacy dev Ha), Hg, Hne.
Qed.

Lemma transition_counters sm h op d t b anchored r sm' h' :
  mx_lease_sm_transition sm h op d t b anchored = (r, sm', h') →
  sm_family_holders sm' = sm_family_holders sm ∧ sm_family sm' = sm_family sm ∧
  sm_legacy_holders sm' = sm_legacy_holders sm.
Proof.
  unfold mx_lease_sm_transition, transition_initializer, transition_switch.
  intros Ht. repeat (case_match; simplify_eq/=); done.
Qed.

Lemma transition_dev_inv dev hs i h op d t b anchored r sm' h' :
  dev_inv dev hs → hs !! i = Some h →
  mx_lease_sm_transition (ls_state dev) h op d t b anchored = (r, sm', h') →
  dev_inv (dev <| ls_state := sm' |>) (<[i := h']> hs).
Proof.
  intros [Hl Ha] Hi Ht. split; [by eapply transition_inv|].
  destruct (transition_counters _ _ _ _ _ _ _ _ _ _ Ht) as (E1 & E2 & E3).
  apply anchor_inv_sm; rewrite ?E1, ?E2, ?E3; [done | apply (ai_holders dev Ha) | apply (ai_legacy dev Ha)].
Qed.

Lemma admit_direct_counters sm h anchored d r sm' h' d' :
  mx_lease_sm_admit_direct sm h anchored d = (r, sm', h', d') →
  sm_family_holders sm' = sm_family_holders sm ∧ sm_family sm' = sm_family sm ∧
  (sm_legacy_holders sm' = sm_legacy_holders sm ∨ anchored = false).
Proof.
  unfold mx_lease_sm_admit_direct, mx_lease_sm_authorize_direct_anchored, mx_lease_sm_authorize_direct.
  intros Hd. repeat (case_match; simplify_eq/=; auto). breflect. destruct anchored; [|by auto].
  destruct (h_legacy h), (h_profile h =? 0) eqn:E; cbn in *; try done; lia.
Qed.

Lemma direct_dev_inv dev hs i h d r sm' h' d' :
  dev_inv dev hs → hs !! i = Some h →
  mx_lease_sm_admit_direct (ls_state dev) h (ls_state_path_valid dev) d = (r, sm', h', d') →
  dev_inv (dev <| ls_state := sm' |>) (<[i := h']> hs).
Proof.
  intros [Hl Ha] Hi Hd. split; [by eapply admit_direct_inv|].
  destruct (admit_direct_counters _ _ _ _ _ _ _ _ Hd) as (E1 & E2 & E3).
  apply anchor_inv_sm; rewrite ?E1, ?E2; [done | apply (ai_holders dev Ha) |].
  destruct E3 as [E3|E3]; [rewrite E3; apply (ai_legacy dev Ha) | by rewrite E3].
Qed.

(** A successful acquisition leaves a claim of the requested profile. *)
Lemma acquire_claims sm h p sm' h' :
  mx_lease_sm_acquire sm h p = (0, sm', h') → h_profile h' = p ∧ mx_lease_profile_family p ≠ 0.
Proof.
  unfold mx_lease_sm_acquire, nz. cbv zeta. intros Ha.
  destruct (Z.eqb_spec (mx_lease_profile_family p) 0) as [|Hf]; cbn [negb] in Ha; [by simplify_eq|].
  destruct (h_legacy h || negb (sm_legacy_holders sm =? 0)); [by simplify_eq|].
  destruct (Z.eqb_spec (h_profile h) 0); cbn [negb] in Ha.
  - do 2 (case_match; [by simplify_eq|]).
    destruct (acquire_phase sm p) as [ph|err] eqn:Hph; simplify_eq; [done|].
    by apply acquire_phase_err in Hph.
  - destruct (Z.eqb_spec (h_profile h) p); simplify_eq. done.
Qed.

Lemma claim_family sm hs i h :
  lease_inv sm hs → hs !! i = Some h → h_profile h ≠ 0 →
  sm_family_holders sm ≠ 0 ∧ sm_family sm = mx_lease_profile_family (h_profile h) ∧
  sm_legacy_holders sm = 0.
Proof.
  intros Hinv Hi Hp. pose proof (claim_counted _ _ Hinv i h Hi) as (Hc & _).
  rewrite (hold_live h Hp) in Hc. pose proof (inv_legacy_exclusive _ _ Hinv).
  split_and!; [lia | by rewrite (inv_family _ _ Hinv i h) | lia].
Qed.

Lemma next_generation_nonzero dev : ls_generation_counter (mx_lease_next_generation dev) ≠ 0.
Proof. unfold mx_lease_next_generation; cbn. destruct (Z.eqb_spec (u64 (ls_generation_counter dev + 1)) 0) as [->|]; done. Qed.

(** ** Locked sections and publications *)

(** Both outcomes of a locked section are in order. *)
Definition ran {P} (i : nat) (hs : gmap nat mx_lease_sm_holder) (r : Z * lstate + P * lstate) : Prop :=
  match r with inl (_, st) | inr (_, st) => st_inv i hs st end.

Lemma tmpfs_regular_inode v f : tmpfs_regular v f = true → is_Some (file_inode v f).
Proof. unfold tmpfs_regular. case_match; [by eexists | done]. Qed.

Lemma valid_state_file_inode v f : mx_lease_valid_state_file v (Some f) = true → is_Some (file_inode v f).
Proof. unfold mx_lease_valid_state_file. case_match; [done|]. apply tmpfs_regular_inode. Qed.

(** What the checks before [mx_lease_sm_acquire] establish. *)
Lemma anchor_check_spec v dev req f fresh :
  acquire_anchor_check v dev req f = inr fresh →
  ls_state_path_valid dev = negb fresh ∧
  (fresh = true → mx_lease_profile_is_publisher (aq_profile req) = true) ∧
  (fresh = false → ls_state_family dev = mx_lease_profile_family (aq_profile req) ∧
                   ls_state_inode dev = file_inode v f).
Proof.
  unfold acquire_anchor_check, mx_lease_sm_validate_anchored_acquire. cbv zeta. intros Hc.
  repeat (case_match; simplify_eq/=); breflect; try done; errno; try lia; split_and!; try done;
    by destruct (ls_state_path_valid dev).
Qed.

Lemma fresh_anchor_inv v f req st dev sm :
  mx_lease_valid_state_file v (Some f) = true → mx_lease_profile_family (aq_profile req) ≠ 0 →
  sm_family sm = mx_lease_profile_family (aq_profile req) → sm_legacy_holders sm = 0 →
  anchor_inv dev → l_dev st = dev <| ls_state := sm |> →
  anchor_inv (l_dev (install_state_anchor v f req st)).
Proof.
  intros Hv%valid_state_file_inode Hf Hfam Hleg [_ _ _ _ A5 A6] Hdev.
  unfold install_state_anchor, mx_lease_next_generation. rewrite Hdev. cbn -[u64].
  pose proof (next_generation_nonzero dev) as Hg. unfold mx_lease_next_generation in Hg. cbn -[u64] in Hg.
  constructor; cbn -[u64]; try done.
  case_match; apply u64_range.
Qed.

Lemma acquire_locked_inv v req i hs st :
  dev_inv (l_dev st) hs → hs !! i = Some (cx_lease (l_ctx st)) → ran i hs (acquire_locked v req st).
Proof.
  intros Hdev Hi. pose proof (st_inv_intro i hs st Hi Hdev) as Hst. unfold acquire_locked. cbv zeta.
  do 3 (case_match; [done|]).
  destruct (mx_lease_valid_state_file v (fget v (aq_state_fd req))) eqn:Hv; cbn [negb]; [|by eapply st_inv_frame].
  destruct (fget v (aq_state_fd req)) as [f|] eqn:Hf; [|by eapply st_inv_frame].
  destruct (acquire_anchor_check v _ req f) as [e|fresh] eqn:Hc; [by eapply st_inv_frame|].
  cbn [l_dev l_ctx upd] in *.
  destruct (mx_lease_sm_acquire _ _ (aq_profile req)) as [[ret sm] holder] eqn:Hacq.
  destruct (nz ret) eqn:Hret; [by eapply st_inv_frame|].
  apply negb_false_iff, Z.eqb_eq in Hret as ->.
  destruct Hdev as [Hl Ha]. cbn in Hacq.
  pose proof (acquire_inv _ _ _ _ _ _ _ _ Hl Hi Hacq) as Hl'.
  destruct (acquire_claims _ _ _ _ _ Hacq) as [Hp Hfam].
  assert (h_profile holder ≠ 0) as Hp0 by (intros E; rewrite Hp in E; by rewrite E in Hfam).
  destruct (claim_family _ _ i holder Hl' (lookup_insert_eq _ _ _) Hp0) as (Hh & Hfm & Hleg).
  rewrite Hp in Hfm. apply anchor_check_spec in Hc as (Hvalid & _ & Hanch). cbn in Hvalid, Hanch.
  destruct fresh; (split; [exact Hl'|]).
  - by eapply fresh_anchor_inv; [..|reflexivity].
  - apply anchor_inv_sm; [done | |]; rewrite ?Hleg, ?Hfm, ?Hvalid; [|done].
    intros _. split; [done|]. by destruct (Hanch eq_refl) as [-> _].
Qed.

Lemma acquire_publish_inv v p fault i hs st : st_inv i hs st → st_inv i hs (acquire_publish v p fault st).2.
Proof.
  intros Hst. unfold acquire_publish. cbv zeta.
  destruct fault; cbn [negb]; [|by eapply st_inv_frame].
  set (st1 := if bool_decide _ then _ else st).
  assert (st_inv i hs st1) as Hst1.
  { subst st1. case_bool_decide; [|done].
    destruct (mx_lease_sm_release _ _) as [sm holder] eqn:Hr. unfold st_inv. cbn.
    rewrite <- (insert_insert_eq hs i holder (cx_lease (l_ctx st))).
    eapply release_dev_inv; [exact Hst | apply lookup_insert_eq | done]. }
  clearbody st1. cbn [snd].
  destruct (ap_fresh_anchor p && _ && _ && _ && _) eqn:Hdrop; [|by eapply st_inv_frame].
  apply andb_true_iff in Hdrop as [_ Hidle].
  destruct Hst1 as [Hl [A1 A2 A3 A4 A5 A6]]. split; [done|].
  unfold mx_lease_sm_idle in Hidle. breflect.
  unfold drop_state_anchor. by constructor.
Qed.

(** The undo of a transition is sound whatever ran in between: the snapshot it restores
    was consistent when it was taken, and the counters moved only by this claim. *)
Record transition_snapshot (i : nat) (p : transition_pending) : Prop := {
  ts_hs : ∃ hs0, lease_inv (tp_old_state p) hs0 ∧ hs0 !! i = Some (tp_old_holder p) ∧
                 lease_inv (tp_new_state p) (<[i := tp_new_holder p]> hs0);
  ts_frame : sm_family_holders (tp_new_state p) = sm_family_holders (tp_old_state p) ∧
             sm_family (tp_new_state p) = sm_family (tp_old_state p) ∧
             sm_legacy_holders (tp_new_state p) = sm_legacy_holders (tp_old_state p);
  ts_pub : mx_lease_profile_is_publisher (h_profile (tp_new_holder p)) = true ∧
           h_profile (tp_new_holder p) = h_profile (tp_old_holder p);
}.

Lemma transition_keeps_profile sm h op d t b anchored sm' h' :
  mx_lease_sm_transition sm h op d t b anchored = (0, sm', h') →
  mx_lease_profile_is_publisher (h_profile h') = true ∧ h_profile h' = h_profile h.
Proof.
  unfold mx_lease_sm_transition, transition_initializer, transition_switch. intros Ht.
  destruct (mx_lease_profile_is_publisher (h_profile h)) eqn:Hp; cbn in Ht; [|by simplify_eq].
  repeat (case_match; simplify_eq/=); done.
Qed.

Lemma transition_locked_inv v req i hs st :
  dev_inv (l_dev st) hs → hs !! i = Some (cx_lease (l_ctx st)) →
  ran i hs (transition_locked v req st) ∧
  (∀ p st', transition_locked v req st = inr (p, st') → transition_snapshot i p).
Proof.
  intros Hdev Hi. pose proof (st_inv_intro i hs st Hi Hdev) as Hst. unfold transition_locked. cbv zeta.
  do 4 (case_match; [done|]).
  destruct (mx_lease_sm_transition _ _ _ _ _ _ _) as [[ret sm] holder] eqn:Htr.
  destruct (nz ret) eqn:Hret; [done|].
  apply negb_false_iff, Z.eqb_eq in Hret as ->. split.
  - by eapply transition_dev_inv.
  - intros p st' [= <- <-]. constructor; cbn.
    + exists hs. destruct Hdev. split_and!; try done. by eapply transition_inv.
    + by eapply transition_counters.
    + by eapply transition_keeps_profile.
Qed.

Lemma transition_publish_inv p fault i hs st :
  transition_snapshot i p → hs !! i = Some (cx_lease (l_ctx st)) → st_inv i hs st →
  st_inv i hs (transition_publish p fault st).2.
Proof.
  intros [(hs0 & Hold & Hi0 & Hnew) (Ef & Efam & El) [Hpub Hprof]] Hi Hst. unfold transition_publish.
  destruct fault; cbn [negb]; [|done]. cbv zeta. case_bool_decide as Hsm; [|done].
  case_bool_decide as Hh; cbn [andb snd]; [|done].
  unfold st_inv in Hst. rewrite insert_id in Hst by done. destruct Hst as [Hl Ha].
  rewrite Hsm in Hl. rewrite Hh in Hi.
  assert (∀ f, msum f (<[i := tp_new_holder p]> hs0) = msum f hs0 - f (tp_old_holder p) + f (tp_new_holder p))
    as Hup by (intros f; by apply msum_update).
  split; cbn.
  - eapply (inv_update _ _ Hl i _ _ _ Hi); try apply Hold; try lia;
      rewrite ?(inv_pubs _ _ Hold), ?(inv_pubs _ _ Hnew), ?(inv_workloads _ _ Hold),
        ?(inv_workloads _ _ Hnew), ?(inv_quiescent _ _ Hold), ?(inv_quiescent _ _ Hnew),
        ?(inv_holders _ _ Hold), ?(inv_holders _ _ Hnew), ?(inv_legacy _ _ Hold),
        ?(inv_legacy _ _ Hnew), ?Hup; try lia.
    + by apply (inv_wf _ _ Hold i).
    + by apply (inv_family _ _ Hold i).
    + by apply (inv_prepared _ _ Hold i).
    + right. right. rewrite <- Hup, <- (inv_pubs _ _ Hnew).
      pose proof (inv_pub1 _ _ Hnew). pose proof (claim_counted _ _ Hl i _ Hi) as (_ & Hc & _).
      unfold is_pub in *. rewrite Hpub in *. cbn in *. lia.
  - apply anchor_inv_sm; [done | |]; rewrite <- ?Ef, <- ?Efam, <- ?El, <- Hsm;
      [apply (ai_holders _ Ha) | apply (ai_legacy _ Ha)].
Qed.

Lemma domain_locked_inv v req i hs st :
  dev_inv (l_dev st) hs → hs !! i = Some (cx_lease (l_ctx st)) → ran i hs (domain_locked v req st).
Proof.
  intros Hdev Hi. pose proof (st_inv_intro i hs st Hi Hdev) as Hst. unfold domain_locked. cbv zeta.
  do 2 (case_match; [done|]).
  destruct (mx_lease_valid_state_file v (fget v (sd_slot_domain_fd req))) eqn:Hv; cbn [negb];
    [|by eapply st_inv_frame].
  destruct (fget v (sd_slot_domain_fd req)) as [f|] eqn:Hf; [|by eapply st_inv_frame].
  destruct (domain_check _ _ _ _ _); [by eapply st_inv_frame|].
  destruct (ls_slot_domain_path_valid _); [by eapply st_inv_frame|].
  destruct (mx_lease_clone_with_ofd_lock _ _ _ _ _ _) as [[e|proof] r]; [by eapply st_inv_frame|].
  apply valid_state_file_inode in Hv as [ino Hino].
  unfold ran, st_inv. cbn. rewrite insert_id by done.
  destruct Hdev as [Hl [A1 A2 A3 A4 A5 A6]]. split; [done|]. constructor; cbn; try done.
  by rewrite Hino.
Qed.

Lemma domain_publish_inv v p fault i hs st : st_inv i hs st → st_inv i hs (domain_publish v p fault st).2.
Proof.
  intros Hst. unfold domain_publish. cbv zeta. destruct fault; cbn [negb]; [|by eapply st_inv_frame].
  case_match; [|by eapply st_inv_frame]. destruct Hst as [Hl [A1 A2 A3 A4 A5 A6]].
  split; [done|]. by constructor.
Qed.

Lemma bind_locked_inv v req i hs st :
  dev_inv (l_dev st) hs → hs !! i = Some (cx_lease (l_ctx st)) → ran i hs (bind_locked v req st).
Proof.
  intros Hdev Hi. pose proof (st_inv_intro i hs st Hi Hdev) as Hst. unfold bind_locked. cbv zeta.
  destruct (bind_open _ _ _ _) as [[[ret slot_file] lifetime_file] r].
  repeat (case_match; try by eapply st_inv_frame).
Qed.

Lemma bind_publish_inv p fault i hs st : st_inv i hs st → st_inv i hs (bind_publish p fault st).2.
Proof. intros Hst. unfold bind_publish. cbv zeta. repeat case_match; by eapply st_inv_frame. Qed.

Lemma unbind_locked_inv req i hs st :
  dev_inv (l_dev st) hs → hs !! i = Some (cx_lease (l_ctx st)) → ran i hs (unbind_locked req st).
Proof.
  intros Hdev Hi. pose proof (st_inv_intro i hs st Hi Hdev) as Hst. unfold unbind_locked. cbv zeta.
  repeat case_match; by eapply st_inv_frame.
Qed.

Lemma unbind_publish_inv p fault i hs st : st_inv i hs st → st_inv i hs (unbind_publish p fault st).2.
Proof. intros Hst. unfold unbind_publish. cbv zeta. repeat case_match; by eapply st_inv_frame. Qed.

Lemma direct_begin_inv i hs st :
  dev_inv (l_dev st) hs → hs !! i = Some (cx_lease (l_ctx st)) →
  st_inv i hs (mx_lease_direct_begin st).2.
Proof.
  intros Hdev Hi. pose proof (st_inv_intro i hs st Hi Hdev) as Hst. unfold mx_lease_direct_begin.
  cbv zeta. case_match; [done|].
  destruct (mx_lease_sm_admit_direct _ _ _ _) as [[[ret sm] holder] direct] eqn:Hd.
  pose proof (direct_dev_inv _ _ _ _ _ _ _ _ _ Hdev Hi Hd). by repeat case_match.
Qed.
