(* ===== verification/BarMap.v ===== *)
(** * BAR mappings and registered mailboxes (src/core_common.c, BAR mapping;
      src/ioctl.c, mailbox registration)

    A user mapping of the BAR and the mailboxes the ioctl path drives own the same
    registers, so the driver admits one or the other.  The mapping side counts the
    VMAs of the device and charges each [mmap] call to the context that made it; the
    registration side builds its mailboxes outside the lock and checks again. *)

From S2P Require Import Prelude Uapi LeaseSM LeaseTypes Bits Mbox.

(** ** State *)

(** The fields of [mx_pci_dev] and its [mx_bar_map] the two paths use; an entry of a
    mailbox list that is [NULL] is absent from the map. *)
Record bar_dev := MkBar {
  bd_enabled : bool;
  bd_reserved_hio_qid : Z;
  bd_bar_mapped_size : Z;
  bd_sq_mbox_list : gmap Z mx_mbox;
  bd_cq_mbox_list : gmap Z mx_mbox;
  bd_kref : Z;
  bd_count : Z;
  bd_mapping : option Z;
  bd_pdev_ref : Z;
}.

#[export] Instance eta_bar : Eta bar_dev := fun r =>
  MkBar (bd_enabled r) (bd_reserved_hio_qid r) (bd_bar_mapped_size r) (bd_sq_mbox_list r)
    (bd_cq_mbox_list r) (bd_kref r) (bd_count r) (bd_mapping r) (bd_pdev_ref r).

(** [struct mx_bar_vma]: one per [mmap] call, shared by the copies fork and split make. *)
Record mx_bar_vma := MkVma {
  bv_owner_ctx : nat;
  bv_refs : Z;
}.

#[export] Instance eta_vma : Eta mx_bar_vma := fun r => MkVma (bv_owner_ctx r) (bv_refs r).

(** The mapping request. *)
Record vm_area := MkArea {
  vm_pgoff : Z;
  vm_shared : bool;
  vm_start : Z;
  vm_end : Z;
  vm_f_mapping : Z;
}.

(** ** Mapping *)

(** [any_mbox]: the loop over [sq_mbox_list]. *)
Definition any_mbox (dev : bar_dev) : bool :=
  existsb (fun qid => match bd_sq_mbox_list dev !! qid with Some _ => true | None => false end)
    (seqZ 0 MAX_NUM_OF_MBOX).

(** [alloc]: whether [kzalloc] succeeds; [remap]: what [io_remap_pfn_range] returns. *)
Definition mx_bar_mmap (alloc : bool) (remap : Z) (me : nat) (vma : vm_area)
    (dev : bar_dev) (ctx : mx_file_ctx) : Z * bar_dev * mx_file_ctx * option mx_bar_vma :=
  RETURN (- ENOMEM, dev, ctx, None) WHEN (negb alloc) ;;
  RETURN (- ENODEV, dev, ctx, None) WHEN (negb (bd_enabled dev)) ;;
  RETURN (- EBUSY, dev, ctx, None) WHEN (any_mbox dev) ;;
  RETURN (- EINVAL, dev, ctx, None) WHEN (nz (vm_pgoff vma)) ;;
  RETURN (- EINVAL, dev, ctx, None) WHEN (negb (vm_shared vma)) ;;
  RETURN (- EINVAL, dev, ctx, None) WHEN (negb (vm_end vma - vm_start vma =? bd_bar_mapped_size dev)) ;;
  RETURN (- EOVERFLOW, dev, ctx, None) WHEN (cx_bar_mapping_count ctx =? U32_MAX) ;;
  RETURN (remap, dev, ctx, None) WHEN (nz remap) ;;
  (0,
   dev <| bd_mapping := Some (vm_f_mapping vma) |>
       <| bd_pdev_ref := bd_pdev_ref dev + 1 |>
       <| bd_kref := bd_kref dev + 1 |>
       <| bd_count := u32 (bd_count dev + 1) |>,
   ctx <| cx_refs := cx_refs ctx + 1 |>
       <| cx_bar_mapping_count := u32 (cx_bar_mapping_count ctx + 1) |>,
   Some (MkVma me 1)).

Definition mx_bar_vma_open (dev : bar_dev) (bar_vma : mx_bar_vma) : bar_dev * mx_bar_vma :=
  (dev <| bd_kref := bd_kref dev + 1 |> <| bd_count := u32 (bd_count dev + 1) |>,
   bar_vma <| bv_refs := bv_refs bar_vma + 1 |>).

(** [None] for the object: this was the last copy, it is freed.  The [mx_file_ctx_put] on
    the owner is the caller's next step. *)
Definition mx_bar_vma_close (dev : bar_dev) (bar_vma : mx_bar_vma) (owner_ctx : mx_file_ctx)
    : bar_dev * option mx_bar_vma * mx_file_ctx :=
  let dev :=
    if bd_count dev =? 0 then dev
    else
      let dev := dev <| bd_count := u32 (bd_count dev - 1) |> in
      if bd_count dev =? 0 then dev <| bd_mapping := None |> else dev in
  let refs := bv_refs bar_vma - 1 in
  if refs =? 0 then
    let ctx :=
      if cx_bar_mapping_count owner_ctx =? 0 then owner_ctx
      else owner_ctx <| cx_bar_mapping_count := u32 (cx_bar_mapping_count owner_ctx - 1) |> in
    (dev <| bd_pdev_ref := bd_pdev_ref dev - 1 |> <| bd_kref := bd_kref dev - 1 |>, None, ctx)
  else (dev <| bd_kref := bd_kref dev - 1 |>, Some (bar_vma <| bv_refs := refs |>), owner_ctx).

(** ** Mailbox registration *)

Record mx_ioctl_mbox_info := MkMboxInfo {
  mi_qid : Z;
  mi_sq_ctx_addr : Z;
  mi_sq_data_addr : Z;
  mi_cq_ctx_addr : Z;
  mi_cq_data_addr : Z;
}.

(** [read]: return value and word of the SQ_READ of the context; [alloc]: [kzalloc]. *)
Definition create_mx_mbox (read : Z * Z) (alloc : bool) (ctx_addr data_addr : Z) : Z + mx_mbox :=
  let '(ret, ctx) := read in
  RETURN (inl (if ret <? 0 then ret else - EIO)) WHEN (ret <=? 0) ;;
  RETURN (inl (- EINVAL)) WHEN (ctx =? ULLONG_MAX) ;;
  RETURN (inl (- ENOMEM)) WHEN (negb alloc) ;;
  inr (mx_mbox_init ctx_addr data_addr ctx).

Definition reset_mx_mbox (read : Z * Z) (mbox : mx_mbox) : Z * mx_mbox :=
  let '(ret, ctx) := read in
  RETURN (if ret <? 0 then ret else - EIO, mbox) WHEN (ret <=? 0) ;;
  (0, mbox <| mb_ctx := ctx |>).

Definition get_sq_mbox (dev : bar_dev) (qid : Z) : option mx_mbox :=
  if qid <? MAX_NUM_OF_MBOX then bd_sq_mbox_list dev !! qid else None.

Definition get_cq_mbox (dev : bar_dev) (qid : Z) : option mx_mbox :=
  if qid <? MAX_NUM_OF_MBOX then bd_cq_mbox_list dev !! qid else None.

Definition registered_mbox_matches (dev : bar_dev) (info : mx_ioctl_mbox_info) : bool :=
  match bd_sq_mbox_list dev !! mi_qid info, bd_cq_mbox_list dev !! mi_qid info with
  | Some sq, Some cq => (r_ctx_addr sq =? mi_sq_ctx_addr info) && (r_ctx_addr cq =? mi_cq_ctx_addr info)
  | _, _ => false
  end.

(** The ownership check under the lock, made before and after the mailboxes are built:
    [Some] is the value to return. *)
Definition register_check (dev : bar_dev) (info : mx_ioctl_mbox_info) : option Z :=
  RETURN (Some (- EBUSY)) WHEN (nz (bd_count dev)) ;;
  match bd_sq_mbox_list dev !! mi_qid info with
  | Some _ => Some (if registered_mbox_matches dev info then 0 else - EINVAL)
  | None => None
  end.

(** Up to the point where the lock is dropped to read the contexts. *)
Definition register_begin (dev : bar_dev) (info : option mx_ioctl_mbox_info)
    : Z + mx_ioctl_mbox_info :=
  match info with
  | None => inl (- EFAULT)
  | Some info =>
    RETURN (inl (- EINVAL)) WHEN (MAX_NUM_OF_MBOX <=? mi_qid info) ;;
    RETURN (inl (- EBUSY)) WHEN
      ((0 <=? bd_reserved_hio_qid dev) && (mi_qid info =? bd_reserved_hio_qid dev)) ;;
    match register_check dev info with
    | Some ret => inl ret
    | None => inr info
    end
  end.

(** From the first read on; [sq] and [cq] are what the two [create_mx_mbox] returned. *)
Definition register_finish (dev : bar_dev) (info : mx_ioctl_mbox_info) (sq cq : Z + mx_mbox)
    : Z * bar_dev :=
  match sq with
  | inl e => (e, dev)
  | inr sq_mbox =>
    match cq with
    | inl e => (e, dev)
    | inr cq_mbox =>
      match register_check dev info with
      | Some ret => (ret, dev)
      | None =>
        (0, dev <| bd_sq_mbox_list := <[mi_qid info := sq_mbox]> (bd_sq_mbox_list dev) |>
                <| bd_cq_mbox_list := <[mi_qid info := cq_mbox]> (bd_cq_mbox_list dev) |>)
      end
    end
  end.

Definition mx_free_registered_mboxes (dev : bar_dev) : bar_dev :=
  dev <| bd_sq_mbox_list := ∅ |> <| bd_cq_mbox_list := ∅ |>.

(** Teardown revokes the page tables of every mapping; the VMAs stay. *)
Definition mxdma_unmap_all_bar_vmas (dev : bar_dev) : bar_dev := dev <| bd_mapping := None |>.

(** ** The system of both paths *)

(** The device, the contexts, the live [bar_vma] objects, the VMAs that point at them,
    and the registrations between their two locked sections, each with the copy of its
    argument: that copy is all a registration holds while the contexts are read. *)
Record bar_world := MkBw {
  bw_dev : bar_dev;
  bw_ctxs : gmap nat mx_file_ctx;
  bw_objs : gmap nat mx_bar_vma;
  bw_vmas : gmap nat nat;
  bw_regs : gmap nat mx_ioctl_mbox_info;
}.

#[export] Instance eta_bw : Eta bar_world := fun r =>
  MkBw (bw_dev r) (bw_ctxs r) (bw_objs r) (bw_vmas r) (bw_regs r).

(** A registration runs [register_begin] on the argument user space passed
    ([BwRegBegin]; the queue id is a u32) and leaves, or goes on to [register_finish] at
    any later time ([BwRegFinish]), with other registrations and mappings in between; the
    device goes online before it is mapped, teardown disables it, revokes the mappings and
    frees the mailboxes; files are opened, used in other ways and closed.  The
    counters are u32 words: more than 2^32 - 1 live VMAs do not fit in memory, and the
    steps that create one say so. *)
Inductive bar_step : bar_world → bar_world → Prop :=
  | BwMmap w alloc remap i vma ctx dev' ctx' bv o a :
      bw_ctxs w !! i = Some ctx → bw_objs w !! o = None → bw_vmas w !! a = None →
      bd_count (bw_dev w) < U32_MAX →
      mx_bar_mmap alloc remap i vma (bw_dev w) ctx = (0, dev', ctx', Some bv) →
      bar_step w (w <| bw_dev := dev' |> <| bw_ctxs := <[i := ctx']> (bw_ctxs w) |>
                    <| bw_objs := <[o := bv]> (bw_objs w) |>
                    <| bw_vmas := <[a := o]> (bw_vmas w) |>)
  | BwOpen w a b o bv dev' bv' :
      bw_vmas w !! a = Some o → bw_objs w !! o = Some bv → bw_vmas w !! b = None →
      bd_count (bw_dev w) < U32_MAX →
      mx_bar_vma_open (bw_dev w) bv = (dev', bv') →
      bar_step w (w <| bw_dev := dev' |> <| bw_objs := <[o := bv']> (bw_objs w) |>
                    <| bw_vmas := <[b := o]> (bw_vmas w) |>)
  | BwClose w a o bv ctx dev' bv' ctx' :
      bw_vmas w !! a = Some o → bw_objs w !! o = Some bv →
      bw_ctxs w !! bv_owner_ctx bv = Some ctx →
      mx_bar_vma_close (bw_dev w) bv ctx = (dev', bv', ctx') →
      bar_step w (w <| bw_dev := dev' |> <| bw_ctxs := <[bv_owner_ctx bv := ctx']> (bw_ctxs w) |>
                    <| bw_objs := match bv' with Some bv' => <[o := bv']> (bw_objs w)
                                  | None => delete o (bw_objs w) end |>
                    <| bw_vmas := delete a (bw_vmas w) |>)
  | BwRegBegin w r arg info :
      bw_regs w !! r = None → 0 ≤ mi_qid info →
      register_begin (bw_dev w) arg = inr info →
      bar_step w (w <| bw_regs := <[r := info]> (bw_regs w) |>)
  | BwRegFinish w r info sq cq ret dev' :
      bw_regs w !! r = Some info →
      register_finish (bw_dev w) info sq cq = (ret, dev') →
      bar_step w (w <| bw_dev := dev' |> <| bw_regs := delete r (bw_regs w) |>)
  | BwFree w : bar_step w (w <| bw_dev := mx_free_registered_mboxes (bw_dev w) |>)
  | BwOnline w :
      bd_count (bw_dev w) = 0 → bar_step w (w <| bw_dev := (bw_dev w) <| bd_enabled := true |> |>)
  | BwOffline w : bar_step w (w <| bw_dev := (bw_dev w) <| bd_enabled := false |> |>)
  | BwUnmapAll w :
      bd_enabled (bw_dev w) = false → bar_step w (w <| bw_dev := mxdma_unmap_all_bar_vmas (bw_dev w) |>)
  | BwCtxNew w i c :
      bw_ctxs w !! i = None → cx_bar_mapping_count c = 0 →
      bar_step w (w <| bw_ctxs := <[i := c]> (bw_ctxs w) |>)
  | BwCtxOther w i c c' :
      bw_ctxs w !! i = Some c → cx_bar_mapping_count c' = cx_bar_mapping_count c →
      bar_step w (w <| bw_ctxs := <[i := c']> (bw_ctxs w) |>)
  | BwCtxFree w i c :
      bw_ctxs w !! i = Some c → cx_bar_mapping_count c = 0 →
      bar_step w (w <| bw_ctxs := delete i (bw_ctxs w) |>).

(** ** Invariant *)

Definition points_to (o o' : nat) : Z := Z.b2z (bool_decide (o' = o)).
Definition owned_by (i : nat) (bv : mx_bar_vma) : Z := Z.b2z (bool_decide (bv_owner_ctx bv = i)).
Definition one {A} (_ : A) : Z := 1.

Record bar_inv (w : bar_world) : Prop := {
  bi_count : bd_count (bw_dev w) = msum one (bw_vmas w);
  bi_count_u32 : bd_count (bw_dev w) ≤ U32_MAX;
  bi_refs o bv : bw_objs w !! o = Some bv → bv_refs bv = msum (points_to o) (bw_vmas w) ∧ 0 < bv_refs bv;
  bi_objs a o : bw_vmas w !! a = Some o → is_Some (bw_objs w !! o);
  bi_owner o bv : bw_objs w !! o = Some bv → is_Some (bw_ctxs w !! bv_owner_ctx bv);
  bi_charge i c : bw_ctxs w !! i = Some c →
    cx_bar_mapping_count c = msum (owned_by i) (bw_objs w) ∧ cx_bar_mapping_count c ≤ U32_MAX;
  bi_mapping : (is_Some (bd_mapping (bw_dev w)) → bd_count (bw_dev w) ≠ 0) ∧
    (bd_enabled (bw_dev w) = true → bd_count (bw_dev w) ≠ 0 → is_Some (bd_mapping (bw_dev w)));
  bi_excl : bd_count (bw_dev w) ≠ 0 → bd_sq_mbox_list (bw_dev w) = ∅;
  bi_qid q m : bd_sq_mbox_list (bw_dev w) !! q = Some m →
    0 ≤ q < MAX_NUM_OF_MBOX ∧ q ≠ bd_reserved_hio_qid (bw_dev w) ∧
    is_Some (bd_cq_mbox_list (bw_dev w) !! q);
  bi_regs r info : bw_regs w !! r = Some info →
    0 ≤ mi_qid info < MAX_NUM_OF_MBOX ∧ mi_qid info ≠ bd_reserved_hio_qid (bw_dev w);
  bi_kref : bd_kref (bw_dev w) = 1 + bd_count (bw_dev w);
}.

Lemma points_to_range o o' : 0 ≤ points_to o o' ≤ 1.
Proof. unfold points_to. case_bool_decide; cbn; lia. Qed.
Lemma owned_by_range i bv : 0 ≤ owned_by i bv ≤ 1.
Proof. unfold owned_by. case_bool_decide; cbn; lia. Qed.
Lemma points_to_same o : points_to o o = 1.
Proof. unfold points_to. by rewrite bool_decide_eq_true_2. Qed.
Lemma points_to_other o o' : o' ≠ o → points_to o o' = 0.
Proof. intros. unfold points_to. by rewrite bool_decide_eq_false_2. Qed.

Lemma any_mbox_false dev :
  (∀ q m, bd_sq_mbox_list dev !! q = Some m → 0 ≤ q < MAX_NUM_OF_MBOX) →
  any_mbox dev = false → bd_sq_mbox_list dev = ∅.
Proof.
  intros Hq Hany. apply map_eq. intros q. rewrite lookup_empty.
  destruct (bd_sq_mbox_list dev !! q) as [m|] eqn:E; [|done]. exfalso.
  assert (any_mbox dev = true); [|congruence].
  unfold any_mbox. apply existsb_exists. exists q. rewrite E. split; [|done].
  apply list_elem_of_In, elem_of_seqZ. specialize (Hq _ _ E). lia.
Qed.

(** An object nothing points at is not counted; one that is pointed at is. *)
Lemma points_zero o (vmas : gmap nat nat) :
  (∀ a o', vmas !! a = Some o' → o' ≠ o) → msum (points_to o) vmas = 0.
Proof.
  intros Hne. rewrite <- (msum_zero vmas). apply msum_ext. intros a o' Ha.
  apply points_to_other. by eapply Hne.
Qed.

Lemma count_pos {A} (m : gmap nat A) a x : m !! a = Some x → 1 ≤ msum one m.
Proof. intros Ha. apply (msum_lookup one m a x); [unfold one; lia | done]. Qed.

(** ** Preservation *)

Lemma mmap_ok alloc remap i vma dev ctx dev' ctx' bv :
  mx_bar_mmap alloc remap i vma dev ctx = (0, dev', ctx', Some bv) →
  any_mbox dev = false ∧ cx_bar_mapping_count ctx ≠ U32_MAX ∧ bv = MkVma i 1 ∧
  dev' = dev <| bd_mapping := Some (vm_f_mapping vma) |> <| bd_pdev_ref := bd_pdev_ref dev + 1 |>
             <| bd_kref := bd_kref dev + 1 |> <| bd_count := u32 (bd_count dev + 1) |> ∧
  ctx' = ctx <| cx_refs := cx_refs ctx + 1 |>
             <| cx_bar_mapping_count := u32 (cx_bar_mapping_count ctx + 1) |>.
Proof. unfold mx_bar_mmap. intros E. repeat (case_match; simplify_eq/=). breflect. done. Qed.

Section preserve.
Context (w : bar_world).
Hypothesis Hinv : bar_inv w.

Lemma count_nonneg : 0 ≤ bd_count (bw_dev w).
Proof. rewrite (bi_count w Hinv). apply msum_nonneg. unfold one. lia. Qed.

Lemma charge_nonneg i c : bw_ctxs w !! i = Some c → 0 ≤ cx_bar_mapping_count c.
Proof.
  intros Hi. destruct (bi_charge w Hinv i c Hi) as [-> _].
  apply msum_nonneg. intros. apply owned_by_range.
Qed.

(** A fresh object key is pointed at by no VMA. *)
Lemma fresh_obj o : bw_objs w !! o = None → msum (points_to o) (bw_vmas w) = 0.
Proof.
  intros Ho. apply points_zero. intros a o' Ha ->.
  destruct (bi_objs w Hinv a o Ha). congruence.
Qed.

(** The charges after the context [i] is updated and the object map changes by an
    amount only its owner sees. *)
Lemma charge_update i ctx ctx' (objs' : gmap nat mx_bar_vma) :
  bw_ctxs w !! i = Some ctx →
  cx_bar_mapping_count ctx' = msum (owned_by i) objs' → cx_bar_mapping_count ctx' ≤ U32_MAX →
  (∀ j, j ≠ i → msum (owned_by j) objs' = msum (owned_by j) (bw_objs w)) →
  ∀ j c, <[i := ctx']> (bw_ctxs w) !! j = Some c →
    cx_bar_mapping_count c = msum (owned_by j) objs' ∧ cx_bar_mapping_count c ≤ U32_MAX.
Proof.
  intros Hi Hc Hb Ho j c [[<- <-]|[Hne Hj]]%lookup_insert_Some; [done|].
  rewrite Ho by done. by apply (bi_charge w Hinv).
Qed.

Lemma owner_update i ctx' o' bv (objs' : gmap nat mx_bar_vma) :
  (∀ o bv, objs' !! o = Some bv → is_Some (bw_ctxs w !! bv_owner_ctx bv)) →
  objs' !! o' = Some bv → is_Some (<[i := ctx']> (bw_ctxs w) !! bv_owner_ctx bv).
Proof.
  intros Hobj Ho'. apply lookup_insert_is_Some. destruct (decide (i = bv_owner_ctx bv)); [by left|].
  right. split; [done|]. by apply (Hobj o').
Qed.

Lemma bar_mmap_inv alloc remap i vma ctx dev' ctx' bv o a :
  bw_ctxs w !! i = Some ctx → bw_objs w !! o = None → bw_vmas w !! a = None →
  bd_count (bw_dev w) < U32_MAX →
  mx_bar_mmap alloc remap i vma (bw_dev w) ctx = (0, dev', ctx', Some bv) →
  bar_inv (MkBw dev' (<[i := ctx']> (bw_ctxs w)) (<[o := bv]> (bw_objs w)) (<[a := o]> (bw_vmas w)) (bw_regs w)).
Proof.
  intros Hi Ho Ha Hlt (Hany & Hmax & -> & -> & ->)%mmap_ok.
  pose proof count_nonneg. pose proof (charge_nonneg i ctx Hi).
  destruct (bi_charge w Hinv i ctx Hi) as [Hch Hchb].
  assert (bd_sq_mbox_list (bw_dev w) = ∅) as Hnone.
  { apply any_mbox_false; [|done]. intros q m Hq. by apply (bi_qid w Hinv) in Hq as [? _]. }
  assert (u32 (cx_bar_mapping_count ctx + 1) = cx_bar_mapping_count ctx + 1) as Hu.
  { apply u32_id. lia. }
  constructor; cbn [bw_dev bw_ctxs bw_objs bw_vmas bw_regs]; cbn -[u32 msum].
  - rewrite u32_id, (bi_count w Hinv), msum_insert by (done || lia). unfold one at 2. lia.
  - rewrite u32_id by lia. lia.
  - intros o' bv' [[<- <-]|[Hne Ho']]%lookup_insert_Some; rewrite msum_insert by done.
    + rewrite points_to_same, fresh_obj by done. cbn. lia.
    + rewrite points_to_other by done. destruct (bi_refs w Hinv o' bv' Ho'). lia.
  - intros b o' [[<- <-]|[Hne Hb]]%lookup_insert_Some; apply lookup_insert_is_Some;
      [by left|]. destruct (decide (o = o')); [by left|]. right. split; [done|]. by apply (bi_objs w Hinv b).
  - intros o' bv' Ho'. eapply owner_update, Ho'.
    intros o'' bv'' [[<- <-]|[_ Hx]]%lookup_insert_Some; [done | by eapply bi_owner].
  - apply (charge_update i ctx); cbn -[u32 msum]; [done | | rewrite Hu; lia |].
    + rewrite Hu, msum_insert by done. unfold owned_by at 1; cbn.
      rewrite bool_decide_eq_true_2 by done. cbn. lia.
    + intros j Hj. rewrite msum_insert by done. unfold owned_by at 1; cbn.
      rewrite bool_decide_eq_false_2 by done. cbn. lia.
  - rewrite u32_id by lia. split; [lia | done].
  - done.
  - rewrite Hnone. intros q m. by rewrite lookup_empty.
  - apply (bi_regs w Hinv).
  - rewrite u32_id, (bi_kref w Hinv) by lia. lia.
Qed.

Lemma bar_open_inv a b o bv dev' bv' :
  bw_vmas w !! a = Some o → bw_objs w !! o = Some bv → bw_vmas w !! b = None →
  bd_count (bw_dev w) < U32_MAX →
  mx_bar_vma_open (bw_dev w) bv = (dev', bv') →
  bar_inv (MkBw dev' (bw_ctxs w) (<[o := bv']> (bw_objs w)) (<[b := o]> (bw_vmas w)) (bw_regs w)).
Proof.
  intros Ha Ho Hb Hlt Hop. unfold mx_bar_vma_open in Hop. simplify_eq.
  pose proof count_nonneg. pose proof (count_pos _ _ _ Ha) as Hpos.
  rewrite <- (bi_count w Hinv) in Hpos.
  constructor; cbn [bw_dev bw_ctxs bw_objs bw_vmas bw_regs]; cbn -[u32 msum].
  - rewrite u32_id, (bi_count w Hinv), msum_insert by (done || lia). unfold one at 2. lia.
  - rewrite u32_id by lia. lia.
  - intros o' bv' [[<- <-]|[Hne Ho']]%lookup_insert_Some; rewrite msum_insert by done.
    + rewrite points_to_same. destruct (bi_refs w Hinv o bv Ho). cbn. lia.
    + rewrite points_to_other by done. destruct (bi_refs w Hinv o' bv' Ho'). lia.
  - intros b' o' [[<- <-]|[Hne Hb']]%lookup_insert_Some; apply lookup_insert_is_Some;
      [by left|]. destruct (decide (o = o')); [by left|]. right. split; [done|]. by apply (bi_objs w Hinv b').
  - intros o' bv' [[<- <-]|[_ Hx]]%lookup_insert_Some; cbn; by eapply bi_owner.
  - intros i c Hi. rewrite (msum_update _ _ o bv _ Ho). cbn. destruct (bi_charge w Hinv i c Hi).
    unfold owned_by at 2 3; cbn. lia.
  - rewrite u32_id by lia. split; [lia|]. intros He _. apply (bi_mapping w Hinv); [done | lia].
  - rewrite u32_id by lia. intros _. apply (bi_excl w Hinv). lia.
  - apply (bi_qid w Hinv).
  - apply (bi_regs w Hinv).
  - rewrite u32_id, (bi_kref w Hinv) by lia. lia.
Qed.

(** What closing one VMA does to the device: the warning branch is dead. *)
Lemma close_dev a o bv ctx dev' bv' ctx' :
  bw_vmas w !! a = Some o → bw_objs w !! o = Some bv → bw_ctxs w !! bv_owner_ctx bv = Some ctx →
  mx_bar_vma_close (bw_dev w) bv ctx = (dev', bv', ctx') →
  bd_count dev' = bd_count (bw_dev w) - 1 ∧ bd_kref dev' = bd_kref (bw_dev w) - 1 ∧
  bd_mapping dev' = (if bd_count (bw_dev w) =? 1 then None else bd_mapping (bw_dev w)) ∧
  bd_sq_mbox_list dev' = bd_sq_mbox_list (bw_dev w) ∧
  bd_cq_mbox_list dev' = bd_cq_mbox_list (bw_dev w) ∧
  bd_reserved_hio_qid dev' = bd_reserved_hio_qid (bw_dev w) ∧ bd_enabled dev' = bd_enabled (bw_dev w) ∧
  ((bv_refs bv = 1 ∧ bv' = None ∧ cx_bar_mapping_count ctx' = cx_bar_mapping_count ctx - 1) ∨
   (1 < bv_refs bv ∧ bv' = Some (bv <| bv_refs := bv_refs bv - 1 |>) ∧ ctx' = ctx)).
Proof.
  intros Ha Ho Hi. pose proof (count_pos _ _ _ Ha) as Hpos. rewrite <- (bi_count w Hinv) in Hpos.
  pose proof (bi_count_u32 w Hinv). destruct (bi_refs w Hinv o bv Ho) as [_ Href].
  destruct (bi_charge w Hinv _ ctx Hi) as [Hch Hchb].
  assert (1 ≤ cx_bar_mapping_count ctx) as Hc1.
  { rewrite Hch. pose proof (msum_lookup (owned_by (bv_owner_ctx bv)) (bw_objs w) o bv
      (fun _ y _ => proj1 (owned_by_range _ y)) Ho) as Hle.
    unfold owned_by at 1 in Hle. by rewrite bool_decide_eq_true_2 in Hle. }
  unfold mx_bar_vma_close. rewrite (proj2 (Z.eqb_neq (bd_count (bw_dev w)) 0)) by lia.
  cbn -[u32]. rewrite u32_id by lia.
  replace (bd_count (bw_dev w) - 1 =? 0) with (bd_count (bw_dev w) =? 1) by lia.
  rewrite (proj2 (Z.eqb_neq (cx_bar_mapping_count ctx) 0)) by lia.
  destruct (Z.eqb_spec (bv_refs bv - 1) 0), (bd_count (bw_dev w) =? 1);
    intros Hcl; simplify_eq; cbn -[u32]; rewrite ?u32_id by lia;
    (split_and!; try done; try lia; [left; split_and!; done || lia .. | right; split_and!; done || lia])
    || (split_and!; try done; try lia; right; split_and!; done || lia)
    || (split_and!; try done; try lia; left; split_and!; done || lia).
Qed.

Lemma bar_close_inv a o bv ctx dev' bv' ctx' :
  bw_vmas w !! a = Some o → bw_objs w !! o = Some bv → bw_ctxs w !! bv_owner_ctx bv = Some ctx →
  mx_bar_vma_close (bw_dev w) bv ctx = (dev', bv', ctx') →
  bar_inv (MkBw dev' (<[bv_owner_ctx bv := ctx']> (bw_ctxs w))
    (match bv' with Some bv' => <[o := bv']> (bw_objs w) | None => delete o (bw_objs w) end)
    (delete a (bw_vmas w)) (bw_regs w)).
Proof.
  intros Ha Ho Hi Hcl. destruct (close_dev _ _ _ _ _ _ _ Ha Ho Hi Hcl)
    as (Hc & Hk & Hm & Hs & Hq & Hr & He & Hcase). clear Hcl.
  pose proof (bi_count_u32 w Hinv). destruct (bi_refs w Hinv o bv Ho) as [Hrefs Href].
  assert (∀ f, msum f (bw_vmas w) = f o + msum f (delete a (bw_vmas w))) as Hdel.
  { intros f. by apply msum_delete. }
  destruct (bi_charge w Hinv _ ctx Hi) as [Hch Hchb].
  (* No VMA is left on an object whose last reference went away. *)
  assert (bv_refs bv = 1 → ∀ b, delete a (bw_vmas w) !! b ≠ Some o) as Hlast.
  { intros H1 b Hb. rewrite Hdel, points_to_same in Hrefs.
    pose proof (msum_lookup (points_to o) _ b o (fun _ y _ => proj1 (points_to_range o y)) Hb) as Hle.
    rewrite points_to_same in Hle. lia. }
  constructor; cbn [bw_dev bw_ctxs bw_objs bw_vmas bw_regs].
  - rewrite Hc, (bi_count w Hinv), Hdel. unfold one at 1. lia.
  - lia.
  - intros o' bv1 Ho'. destruct (decide (o' = o)) as [->|Hne].
    + destruct Hcase as [(_ & -> & _)|(Hgt & -> & _)]; simplify_map_eq.
      rewrite Hdel, points_to_same in Hrefs. cbn. lia.
    + assert (bw_objs w !! o' = Some bv1) as Ho1 by (destruct bv'; simplify_map_eq; done).
      destruct (bi_refs w Hinv o' bv1 Ho1) as [H1 H2]. rewrite Hdel, points_to_other in H1 by done. lia.
  - intros b o' Hb. pose proof Hb as [_ Hb']%lookup_delete_Some.
    destruct (bi_objs w Hinv b o' Hb') as [x Hx].
    destruct Hcase as [(H1 & -> & _)|(_ & -> & _)].
    + assert (o' ≠ o) by (intros ->; by eapply Hlast). rewrite lookup_delete_ne by done. by eexists.
    + apply lookup_insert_is_Some. destruct (decide (o = o')); [by left | right; split; [done | by eexists]].
  - intros o' bv1 Ho'. eapply owner_update, Ho'. intros o'' bv2 Hx.
    destruct Hcase as [(_ & -> & _)|(_ & -> & _)].
    + apply lookup_delete_Some in Hx as [_ Hx]. by eapply bi_owner.
    + apply lookup_insert_Some in Hx as [[<- <-]|[_ Hx]]; [by eexists | by eapply bi_owner].
  - destruct Hcase as [(_ & -> & Hcx)|(_ & -> & ->)].
    + assert (∀ j, msum (owned_by j) (bw_objs w) = owned_by j bv + msum (owned_by j) (delete o (bw_objs w)))
        as Hdo by (intros; by apply msum_delete).
      apply (charge_update _ ctx); [done | | lia |].
      * rewrite Hcx, Hch, Hdo. unfold owned_by at 1. rewrite bool_decide_eq_true_2 by done. cbn. lia.
      * intros j Hj. rewrite Hdo. unfold owned_by at 2. rewrite bool_decide_eq_false_2 by done. done.
    + assert (∀ j, msum (owned_by j) (<[o := bv <| bv_refs := bv_refs bv - 1 |>]> (bw_objs w)) =
        msum (owned_by j) (bw_objs w)) as Hup.
      { intros j. rewrite (msum_update _ _ o bv _ Ho). unfold owned_by at 2 3. cbn. lia. }
      apply (charge_update _ ctx); [done | by rewrite Hup | done | by intros; rewrite Hup].
  - rewrite Hm, Hc, He. destruct (bi_mapping w Hinv) as [Hm1 Hm2].
    destruct (Z.eqb_spec (bd_count (bw_dev w)) 1) as [E|E].
    + split; [by intros [? ?] | lia].
    + pose proof count_nonneg. pose proof (count_pos _ _ _ Ha) as Hp.
      rewrite <- (bi_count w Hinv) in Hp. split; [lia|]. intros. apply Hm2; [done | lia].
  - rewrite Hs. intros _. apply (bi_excl w Hinv). pose proof (count_pos _ _ _ Ha) as Hp.
    rewrite <- (bi_count w Hinv) in Hp. lia.
  - rewrite Hs, Hq, Hr. apply (bi_qid w Hinv).
  - rewrite Hr. apply (bi_regs w Hinv).
  - rewrite Hk, Hc, (bi_kref w Hinv). lia.
Qed.

Lemma register_begin_inr dev arg info :
  register_begin dev arg = inr info →
  arg = Some info ∧ mi_qid info < MAX_NUM_OF_MBOX ∧
  (0 ≤ bd_reserved_hio_qid dev → mi_qid info ≠ bd_reserved_hio_qid dev) ∧ register_check dev info = None.
Proof.
  unfold register_begin. intros E. destruct arg as [i|]; [|done].
  repeat (case_match; simplify_eq). breflect. split_and!; try done; lia.
Qed.

Lemma register_begin_inv r arg info :
  0 ≤ mi_qid info → register_begin (bw_dev w) arg = inr info →
  bar_inv (w <| bw_regs := <[r := info]> (bw_regs w) |>).
Proof.
  intros Hq (_ & Hlt & Hres & _)%register_begin_inr.
  destruct Hinv as [J1 J2 J3 J4 J5 J6 J7 J8 J9 J10 J11]. constructor; try done. cbn.
  intros r' info' [[<- <-]|[_ Hr]]%lookup_insert_Some; [|by eapply J10]. lia.
Qed.

Lemma register_finish_inv r info sq cq ret dev' :
  bw_regs w !! r = Some info → register_finish (bw_dev w) info sq cq = (ret, dev') →
  bar_inv (w <| bw_dev := dev' |> <| bw_regs := delete r (bw_regs w) |>).
Proof.
  intros Hr Hreg. destruct (bi_regs w Hinv r info Hr) as [Hq Hres].
  destruct Hinv as [J1 J2 J3 J4 J5 J6 J7 J8 J9 J10 J11].
  assert (∀ d, bd_reserved_hio_qid d = bd_reserved_hio_qid (bw_dev w) →
    ∀ r' info', delete r (bw_regs w) !! r' = Some info' →
    0 ≤ mi_qid info' < MAX_NUM_OF_MBOX ∧ mi_qid info' ≠ bd_reserved_hio_qid d) as Hregs.
  { intros d -> r' info' [_ Hr']%lookup_delete_Some. by eapply J10. }
  unfold register_finish, register_check in Hreg.
  repeat case_match; simplify_eq; (constructor; cbn; try done; try by apply Hregs). breflect.
  - lia.
  - intros q mb [[<- <-]|[Hne Hx]]%lookup_insert_Some.
    + split_and!; [lia | lia | done |]. apply lookup_insert_is_Some. by left.
    + destruct (J9 q mb Hx) as (? & ? & ?). split_and!; [lia | lia | done |].
      apply lookup_insert_is_Some. right. done.
Qed.
End preserve.

(** A context that is charged for nothing owns no object. *)
Lemma uncharged_owns_nothing w i :
  bar_inv w → msum (owned_by i) (bw_objs w) = 0 → ∀ o bv, bw_objs w !! o = Some bv → bv_owner_ctx bv ≠ i.
Proof.
  intros Hinv Hz o bv Ho <-.
  pose proof (msum_lookup (owned_by (bv_owner_ctx bv)) (bw_objs w) o bv
    (fun _ y _ => proj1 (owned_by_range _ y)) Ho) as Hle.
  unfold owned_by at 1 in Hle. rewrite bool_decide_eq_true_2 in Hle by done. cbn in Hle. lia.
Qed.

Lemma unknown_owns_nothing w i :
  bar_inv w → bw_ctxs w !! i = None → msum (owned_by i) (bw_objs w) = 0.
Proof.
  intros Hinv Hi. rewrite <- (msum_zero (bw_objs w)). apply msum_ext. intros o bv Ho.
  unfold owned_by. rewrite bool_decide_eq_false_2; [done|]. intros <-.
  destruct (bi_owner w Hinv o bv Ho). congruence.
Qed.

Lemma bar_step_inv w w' : bar_step w w' → bar_inv w → bar_inv w'.
Proof.
  destruct 1; intros Hinv; destruct w as [dev ctxs objs vmas regs]; cbn in *.
  - by eapply (bar_mmap_inv (MkBw dev ctxs objs vmas regs)).
  - by eapply (bar_open_inv (MkBw dev ctxs objs vmas regs)).
  - by eapply (bar_close_inv (MkBw dev ctxs objs vmas regs)).
  - by eapply (register_begin_inv (MkBw dev ctxs objs vmas regs)).
  - by eapply (register_finish_inv (MkBw dev ctxs objs vmas regs)).
  - destruct Hinv; constructor; cbn in *; try done.
  - destruct Hinv; constructor; cbn in *; try done. split; [apply bi_mapping0 | lia].
  - destruct Hinv; constructor; cbn in *; try done. split; [apply bi_mapping0 | done].
  - destruct Hinv; constructor; cbn in *; try done. split; [by intros [? ?] | congruence].
  - pose proof (unknown_owns_nothing _ i Hinv) as Hz. cbn in Hz.
    destruct Hinv; constructor; cbn in *; try done.
    + intros o bv Ho. apply lookup_insert_is_Some'. right. by eapply bi_owner0.
    + intros j x [[<- <-]|[_ Hj]]%lookup_insert_Some; [|by apply bi_charge0].
      rewrite Hz by done. split; [done | unfold U32_MAX; lia].
  - destruct Hinv; constructor; cbn in *; try done.
    + intros o bv Ho. apply lookup_insert_is_Some'. right. by eapply bi_owner0.
    + intros j x [[<- <-]|[_ Hj]]%lookup_insert_Some; [|by apply bi_charge0].
      rewrite H0. by apply bi_charge0.
  - pose proof (uncharged_owns_nothing _ i Hinv) as Hz.
    rewrite <- (proj1 (bi_charge _ Hinv i c H)) in Hz. specialize (Hz H0).
    destruct Hinv; constructor; cbn in *; try done.
    + intros o bv Ho. rewrite lookup_delete_ne; [by eapply bi_owner0|].
      intros Heq. by apply (Hz o bv Ho).
    + intros j x [_ Hj]%lookup_delete_Some. by apply bi_charge0.
Qed.

(** A device with no mapping and no registered mailbox, and the contexts of its files. *)
Definition bar_start (w : bar_world) : Prop :=
  bd_count (bw_dev w) = 0 ∧ bd_kref (bw_dev w) = 1 ∧ bd_mapping (bw_dev w) = None ∧
  bd_sq_mbox_list (bw_dev w) = ∅ ∧ bw_objs w = ∅ ∧ bw_vmas w = ∅ ∧ bw_regs w = ∅ ∧
  ∀ i c, bw_ctxs w !! i = Some c → cx_bar_mapping_count c = 0.

Lemma bar_start_inv w : bar_start w → bar_inv w.
Proof.
  intros (Hc & Hk & Hm & Hs & Ho & Hv & Hg & Hx). constructor; rewrite ?Ho, ?Hv, ?Hg, ?Hs, ?Hc, ?Hk, ?Hm;
    try done; try (by intros *; rewrite lookup_empty).
  intros i c Hi. rewrite (Hx i c Hi), msum_empty. done.
Qed.

Lemma bar_reachable_inv w0 w : bar_start w0 → rtc bar_step w0 w → bar_inv w.
Proof.
  intros H0 Hr. revert w Hr. apply (rtc_ind_r bar_inv w0); [by apply bar_start_inv|].
  intros y z _ Hstep Hy. by eapply bar_step_inv.
Qed.

(** ** Theorems *)

(** C11: One owner of the BAR registers.  In every state reachable from a fresh device by
    any interleaving of mmap, fork, unmap, the two halves of mailbox registrations
    ([register_begin] and [register_finish], any number of registrations at once) and
    teardown: while a user mapping of the BAR exists no mailbox is registered, and a
    registered mailbox has a queue id that passed the checks of [register_begin]: one of
    the [MAX_NUM_OF_MBOX], and not the one the driver itself uses. *)
Theorem bar_mailbox_exclusion w0 w :
  bar_start w0 → rtc bar_step w0 w →
  (∀ a o, bw_vmas w !! a = Some o → bd_sq_mbox_list (bw_dev w) = ∅) ∧
  (∀ q m, bd_sq_mbox_list (bw_dev w) !! q = Some m →
     0 ≤ q < MAX_NUM_OF_MBOX ∧ q ≠ bd_reserved_hio_qid (bw_dev w) ∧ is_Some (bd_cq_mbox_list (bw_dev w) !! q)).
Proof.
  intros H0 Hr. pose proof (bar_reachable_inv _ _ H0 Hr) as Hi. split; [|apply Hi].
  intros a o Ha. apply (bi_excl w Hi). rewrite (bi_count w Hi). pose proof (count_pos _ _ _ Ha). lia.
Qed.

(** The books of the mappings, in the same states: the device counts the VMAs, each
    [bar_vma] counts its copies and lives while one exists, each context is charged for
    the mappings it made, the [bar_map] object is referenced once by the device and once
    by each VMA, and as long as the device is online the address space teardown needs to
    revoke them is known. *)
Theorem bar_mapping_charged w0 w :
  bar_start w0 → rtc bar_step w0 w →
  bd_count (bw_dev w) = msum one (bw_vmas w) ∧ bd_kref (bw_dev w) = 1 + bd_count (bw_dev w) ∧
  (∀ o bv, bw_objs w !! o = Some bv → bv_refs bv = msum (points_to o) (bw_vmas w) ∧ 0 < bv_refs bv) ∧
  (∀ a o, bw_vmas w !! a = Some o → is_Some (bw_objs w !! o)) ∧
  (∀ i c, bw_ctxs w !! i = Some c → cx_bar_mapping_count c = msum (owned_by i) (bw_objs w)) ∧
  (bd_enabled (bw_dev w) = true → ∀ a o, bw_vmas w !! a = Some o → is_Some (bd_mapping (bw_dev w))).
Proof.
  intros H0 Hr. pose proof (bar_reachable_inv _ _ H0 Hr) as Hi.
  split_and!; [apply Hi | apply Hi | apply Hi | apply Hi | |].
  - intros i c Hc. by apply (bi_charge w Hi).
  - intros He a o Ha. apply (bi_mapping w Hi); [done|]. rewrite (bi_count w Hi). pose proof (count_pos _ _ _ Ha). lia.
Qed.

(** ** Example: one file that maps the BAR *)

Definition demo_ctx : mx_file_ctx := MkCtx 1 0 holder_zero None None None None 0 0 0 0 0 false.
Definition demo_bw : bar_world := MkBw (MkBar true (-1) 4096 ∅ ∅ 1 0 None 1) {[0%nat := demo_ctx]} ∅ ∅ ∅.

Lemma demo_bw_start : bar_start demo_bw.
Proof.
  split_and!; try done. intros i c Hc. cbn in Hc. apply lookup_singleton_Some in Hc as [_ <-]. done.
Qed.

Definition demo_mapped : bar_world :=
  let '(_, dev, ctx, bv) := mx_bar_mmap true 0 0 (MkArea 0 true 0 4096 1) (bw_dev demo_bw) demo_ctx in
  MkBw dev (<[0%nat := ctx]> (bw_ctxs demo_bw)) (<[0%nat := default (MkVma 0 0) bv]> ∅) (<[0%nat := 0%nat]> ∅) ∅.

Lemma demo_mapped_reachable : rtc bar_step demo_bw demo_mapped.
Proof.
  apply rtc_once. eapply (BwMmap demo_bw true 0 0%nat (MkArea 0 true 0 4096 1) demo_ctx _ _ _ 0%nat 0%nat);
    [done | done | done | done | by vm_compute].
Qed.

(** Queue 3 is registered on a fresh device whose own channel is queue 5. *)
Definition demo_info : mx_ioctl_mbox_info := MkMboxInfo 3 4096 8192 12288 16384.
Definition demo_bw5 : bar_world := demo_bw <| bw_dev := (bw_dev demo_bw) <| bd_reserved_hio_qid := 5 |> |>.
Definition demo_registered : bar_world :=
  demo_bw5 <| bw_dev := (bw_dev demo_bw5)
    <| bd_sq_mbox_list := <[3 := mx_mbox_init 4096 8192 0]> ∅ |>
    <| bd_cq_mbox_list := <[3 := mx_mbox_init 12288 16384 0]> ∅ |> |>.

Lemma demo_bw5_start : bar_start demo_bw5.
Proof.
  split_and!; try done. intros i c Hc. cbn in Hc. apply lookup_singleton_Some in Hc as [_ <-]. done.
Qed.

Lemma demo_registered_reachable : rtc bar_step demo_bw5 demo_registered.
Proof.
  eapply rtc_l; [apply (BwRegBegin demo_bw5 0%nat (Some demo_info) demo_info); [done | done | reflexivity]|].
  apply rtc_once. eassert (bar_step _ _) as Hstep.
  { apply (BwRegFinish (demo_bw5 <| bw_regs := <[0%nat := demo_info]> (bw_regs demo_bw5) |>) 0%nat demo_info
      (inr (mx_mbox_init 4096 8192 0)) (inr (mx_mbox_init 12288 16384 0)) 0 (bw_dev demo_registered));
      reflexivity. }
  exact Hstep.
Qed.

Lemma bar_mailbox_exclusion_witness :
  bd_sq_mbox_list (bw_dev demo_mapped) = ∅ ∧
  is_Some (bd_cq_mbox_list (bw_dev demo_registered) !! 3).
Proof.
  split.
  - exact (proj1 (bar_mailbox_exclusion demo_bw demo_mapped demo_bw_start demo_mapped_reachable) 0%nat 0%nat eq_refl).
  - apply (proj2 (bar_mailbox_exclusion demo_bw5 demo_registered demo_bw5_start demo_registered_reachable) 3
      (mx_mbox_init 4096 8192 0)). reflexivity.
Defined.

Lemma bar_mapping_charged_witness : bd_kref (bw_dev demo_mapped) = 1 + bd_count (bw_dev demo_mapped).
Proof. exact (proj1 (proj2 (bar_mapping_charged demo_bw demo_mapped demo_bw_start demo_mapped_reachable))). Defined.
