(* ===== verification/LeaseWorld.v ===== *)
(** * All files of a device

    The step relation of the lease system: any number of open files, every handler of
    src/lease.c run by any of them, publications that complete later than their locked
    section, direct calls (the ioctl and mmap bodies of src/fops.c between
    [mx_lease_direct_begin] and [mx_lease_direct_end]), transfers and BAR mappings that
    outlive the call that made them, and contexts freed by their last reference. *)

From S2P Require Import Prelude Uapi LeaseSM LeaseInv LeasePolicy LeaseTypes Lease LeaseAnchor BarMap.

(** ** World *)

(** A publication on its way to user memory. *)
Inductive pending :=
  | PAcquire (p : acquire_pending)
  | PTransition (p : transition_pending)
  | PDomain (p : domain_pending)
  | PBind (p : bind_pending)
  | PUnbind (p : unbind_pending).

(** [w_open]: contexts whose file is open; [w_calls]: direct calls in progress, by
    context; [w_xfers]: transfers that took a lease reference; [w_maps]: live BAR mmap
    objects, by owner. *)
Record world := MkWorld {
  w_dev : mx_device_lease;
  w_refs : refs;
  w_ctxs : gmap nat mx_file_ctx;
  w_open : gset nat;
  w_pend : gmap nat (nat * pending);
  w_calls : gmap nat nat;
  w_xfers : gmap nat transfer_lease;
  w_maps : gmap nat nat;
}.

#[export] Instance eta_world : Eta world := fun r =>
  MkWorld (w_dev r) (w_refs r) (w_ctxs r) (w_open r) (w_pend r) (w_calls r) (w_xfers r) (w_maps r).

Definition w_state (w : world) (ctx : mx_file_ctx) : lstate := MkLs (w_dev w) ctx (w_refs w).
Definition w_store (i : nat) (st : lstate) (w : world) : world :=
  w <| w_dev := l_dev st |> <| w_refs := l_refs st |> <| w_ctxs := <[i := l_ctx st]> (w_ctxs w) |>.

(** The locked section of one lease ioctl. *)
Definition wrap {P} (c : P → pending) (r : Z * lstate + P * lstate) : Z * lstate + pending * lstate :=
  match r with inl x => inl x | inr (p, st) => inr (c p, st) end.

Inductive lease_call (v : vfs) (st : lstate) : Z * lstate + pending * lstate → Prop :=
  | call_acquire req : lease_call v st (wrap PAcquire (acquire_locked v req st))
  | call_transition req : lease_call v st (wrap PTransition (transition_locked v req st))
  | call_domain req : lease_call v st (wrap PDomain (domain_locked v req st))
  | call_bind req : proofs_request_ok (l_ctx st) req = true →
      lease_call v st (wrap PBind (bind_locked v req st))
  | call_unbind req : proofs_request_ok (l_ctx st) req = true →
      lease_call v st (wrap PUnbind (unbind_locked req st)).

Definition publish (v : vfs) (p : pending) (fault : bool) (st : lstate) : Z * lstate :=
  match p with
  | PAcquire p => acquire_publish v p fault st
  | PTransition p => transition_publish p fault st
  | PDomain p => domain_publish v p fault st
  | PBind p => bind_publish p fault st
  | PUnbind p => unbind_publish p fault st
  end.

(** [mx_file_ctx_put]: the last reference frees the context and gives up its claim. *)
Definition ctx_put (i : nat) (ctx : mx_file_ctx) (w : world) : world :=
  if cx_refs ctx =? 1 then
    let '(dev, r) := mx_file_ctx_free (w_state w ctx) in
    w <| w_dev := dev |> <| w_refs := r |> <| w_ctxs := delete i (w_ctxs w) |>
  else w <| w_ctxs := <[i := ctx <| cx_refs := cx_refs ctx - 1 |>]> (w_ctxs w) |>.

(** [faults]: whether the publication of an acquisition or a transition may fault. *)
Definition may_fault (faults : bool) (p : pending) (fault : bool) : Prop :=
  match p with
  | PAcquire _ | PTransition _ => fault = true → faults = true
  | _ => True
  end.

Inductive wstep (faults : bool) (w : world) : world → Prop :=
  | WOpen i cdev :
      w_ctxs w !! i = None → ls_removed (w_dev w) = false →
      wstep faults w (w <| w_ctxs := <[i := ctx_new cdev]> (w_ctxs w) |>
                        <| w_open := {[i]} ∪ w_open w |>)
  | WReturn v i ctx ret st :
      w_ctxs w !! i = Some ctx → i ∈ w_open w →
      lease_call v (w_state w ctx) (inl (ret, st)) →
      wstep faults w (w_store i st w)
  | WCommit v i ctx j p st :
      w_ctxs w !! i = Some ctx → i ∈ w_open w → w_pend w !! j = None →
      lease_call v (w_state w ctx) (inr (p, st)) →
      wstep faults w (w_store i st w <| w_pend := <[j := (i, p)]> (w_pend w) |>)
  | WPublish v i ctx j p fault :
      w_pend w !! j = Some (i, p) → w_ctxs w !! i = Some ctx → may_fault faults p fault →
      wstep faults w (w_store i (publish v p fault (w_state w ctx)).2 w
                        <| w_pend := delete j (w_pend w) |>)
  | WBegin i ctx c ret st :
      w_ctxs w !! i = Some ctx → i ∈ w_open w → w_calls w !! c = None →
      mx_lease_direct_begin (w_state w ctx) = (ret, st) →
      wstep faults w (w_store i st w
                        <| w_calls := if ret =? 0 then <[c := i]> (w_calls w) else w_calls w |>)
  | WEnd i ctx c :
      w_calls w !! c = Some i → w_ctxs w !! i = Some ctx →
      wstep faults w (w <| w_ctxs := <[i := mx_lease_direct_end ctx]> (w_ctxs w) |>
                        <| w_calls := delete c (w_calls w) |>)
  | WXferGet i ctx c t st tl :
      w_calls w !! c = Some i → w_ctxs w !! i = Some ctx → w_xfers w !! t = None →
      mx_lease_transfer_get i (w_state w ctx) (MkTl None None None) = (0, st, tl) →
      wstep faults w (w_store i st w <| w_xfers := <[t := tl]> (w_xfers w) |>)
  | WXferPut t tl i ctx ctx' r tl' :
      w_xfers w !! t = Some tl → tl_owner_ctx tl = Some i → w_ctxs w !! i = Some ctx →
      mx_lease_transfer_put tl ctx (w_refs w) = (ctx', r, tl') →
      wstep faults w (ctx_put i ctx' (w <| w_refs := r |> <| w_xfers := delete t (w_xfers w) |>))
  | WMap i ctx c o alloc remap vma bd bd' ctx' bv :
      w_calls w !! c = Some i → w_ctxs w !! i = Some ctx → w_maps w !! o = None →
      mx_bar_mmap alloc remap i vma bd ctx = (0, bd', ctx', Some bv) →
      wstep faults w (w <| w_ctxs := <[i := ctx']> (w_ctxs w) |> <| w_maps := <[o := i]> (w_maps w) |>)
  | WUnmap i ctx o bd bv bd' ctx' :
      w_maps w !! o = Some i → w_ctxs w !! i = Some ctx →
      mx_bar_vma_close bd bv ctx = (bd', None, ctx') →
      wstep faults w (ctx_put i ctx' (w <| w_maps := delete o (w_maps w) |>))
  | WClose i ctx :
      i ∈ w_open w → w_ctxs w !! i = Some ctx →
      (∀ j p, w_pend w !! j ≠ Some (i, p)) → (∀ c, w_calls w !! c ≠ Some i) →
      wstep faults w (ctx_put i ctx (w <| w_open := w_open w ∖ {[i]} |>))
  | WRemove : wstep faults w (w <| w_dev := mx_lease_mark_removed (w_dev w) |>).

Definition world0 (incarnation : Z) : world :=
  MkWorld (mx_lease_init incarnation) (fun _ => 0) ∅ ∅ ∅ ∅ ∅ ∅.

Definition reachable (faults : bool) (w : world) : Prop :=
  ∃ incarnation, rtc (wstep faults) (world0 incarnation) w.

(** ** Invariant *)

Definition on_ctx (i j : nat) : Z := Z.b2z (bool_decide (j = i)).
Definition xfer_of (i : nat) (t : transfer_lease) : Z := Z.b2z (bool_decide (tl_owner_ctx t = Some i)).

(** Everything but the liveness of the contexts. *)
Record world_pre (w : world) : Prop := {
  wi_dev : dev_inv (w_dev w) (cx_lease <$> w_ctxs w);
  wi_pend j i p : w_pend w !! j = Some (i, p) →
    i ∈ w_open w ∧ match p with PTransition p => transition_snapshot i p | _ => True end;
  wi_open i : i ∈ w_open w → is_Some (w_ctxs w !! i);
  wi_calls c i : w_calls w !! c = Some i → i ∈ w_open w;
  wi_xfers t tl : w_xfers w !! t = Some tl → ∃ i, tl_owner_ctx tl = Some i ∧ is_Some (w_ctxs w !! i);
  wi_maps o i : w_maps w !! o = Some i → is_Some (w_ctxs w !! i);
  wi_direct i c : w_ctxs w !! i = Some c →
    cx_direct_count c = msum (on_ctx i) (w_calls w) ∧ cx_direct_count c ≤ U32_MAX;
  wi_transfer i c : w_ctxs w !! i = Some c →
    cx_transfer_count c = msum (xfer_of i) (w_xfers w) ∧ cx_transfer_count c ≤ U32_MAX;
  wi_mapping i c : w_ctxs w !! i = Some c →
    cx_bar_mapping_count c = msum (on_ctx i) (w_maps w) ∧ cx_bar_mapping_count c ≤ U32_MAX;
  wi_refs i c : w_ctxs w !! i = Some c →
    cx_refs c = Z.b2z (bool_decide (i ∈ w_open w)) + cx_transfer_count c + cx_bar_mapping_count c;
}.

Definition world_inv (w : world) : Prop :=
  world_pre w ∧ ∀ i c, w_ctxs w !! i = Some c → 0 < cx_refs c.

(** ** Counting per context *)

Lemma on_ctx_range i j : 0 ≤ on_ctx i j ≤ 1.
Proof. unfold on_ctx. case_bool_decide; cbn; lia. Qed.
Lemma on_ctx_same i : on_ctx i i = 1.
Proof. unfold on_ctx. by rewrite bool_decide_eq_true_2. Qed.
Lemma on_ctx_other i j : j ≠ i → on_ctx i j = 0.
Proof. intros. unfold on_ctx. by rewrite bool_decide_eq_false_2. Qed.
Lemma xfer_of_range i t : 0 ≤ xfer_of i t ≤ 1.
Proof. unfold xfer_of. case_bool_decide; cbn; lia. Qed.
Lemma xfer_of_same i s l : xfer_of i (MkTl (Some i) s l) = 1.
Proof. unfold xfer_of. by rewrite bool_decide_eq_true_2. Qed.
Lemma xfer_of_owner i j t : tl_owner_ctx t = Some j → xfer_of i t = on_ctx i j.
Proof.
  intros E. unfold xfer_of, on_ctx. rewrite E. f_equal.
  apply bool_decide_ext. split; [by intros [=] | by intros ->].
Qed.

Lemma msum_on_ctx_nonneg i (m : gmap nat nat) : 0 ≤ msum (on_ctx i) m.
Proof. apply msum_nonneg. intros. apply on_ctx_range. Qed.
Lemma msum_xfer_nonneg i (m : gmap nat transfer_lease) : 0 ≤ msum (xfer_of i) m.
Proof. apply msum_nonneg. intros. apply xfer_of_range. Qed.

Lemma msum_on_ctx_pos i (m : gmap nat nat) k : m !! k = Some i → 1 ≤ msum (on_ctx i) m.
Proof.
  intros Hk. rewrite <- (on_ctx_same i). apply (msum_lookup (on_ctx i) m k i); [|done].
  intros. apply on_ctx_range.
Qed.

Lemma msum_xfer_pos i (m : gmap nat transfer_lease) k t :
  m !! k = Some t → tl_owner_ctx t = Some i → 1 ≤ msum (xfer_of i) m.
Proof.
  intros Hk Ht. pose proof (xfer_of_owner i i t Ht) as E. rewrite on_ctx_same in E. rewrite <- E.
  apply (msum_lookup (xfer_of i) m k t); [|done]. intros. apply xfer_of_range.
Qed.

(** ** Updating one context *)

Lemma world_update w i c c' dev' r' pend' calls' xfers' maps' :
  world_pre w → w_ctxs w !! i = Some c →
  dev_inv dev' (<[i := cx_lease c']> (cx_lease <$> w_ctxs w)) →
  (∀ j k p, pend' !! j = Some (k, p) →
     k ∈ w_open w ∧ match p with PTransition p => transition_snapshot k p | _ => True end) →
  (∀ x k, calls' !! x = Some k → k ∈ w_open w) →
  (∀ t tl, xfers' !! t = Some tl → ∃ k, tl_owner_ctx tl = Some k ∧ is_Some (w_ctxs w !! k)) →
  (∀ o k, maps' !! o = Some k → is_Some (w_ctxs w !! k)) →
  (∀ j, j ≠ i → msum (on_ctx j) calls' = msum (on_ctx j) (w_calls w) ∧
                msum (xfer_of j) xfers' = msum (xfer_of j) (w_xfers w) ∧
                msum (on_ctx j) maps' = msum (on_ctx j) (w_maps w)) →
  cx_direct_count c' = msum (on_ctx i) calls' → cx_direct_count c' ≤ U32_MAX →
  cx_transfer_count c' = msum (xfer_of i) xfers' → cx_transfer_count c' ≤ U32_MAX →
  cx_bar_mapping_count c' = msum (on_ctx i) maps' → cx_bar_mapping_count c' ≤ U32_MAX →
  cx_refs c' = Z.b2z (bool_decide (i ∈ w_open w)) + cx_transfer_count c' + cx_bar_mapping_count c' →
  world_pre (MkWorld dev' r' (<[i := c']> (w_ctxs w)) (w_open w) pend' calls' xfers' maps').
Proof.
  intros [P1 P2 P3 P4 P5 P6 P7 P8 P9 P10] Hi Hdev Hp Hc Hx Hm Hoth D1 D2 T1 T2 M1 M2 R1.
  assert (∀ k, is_Some (w_ctxs w !! k) → is_Some (<[i := c']> (w_ctxs w) !! k)) as Hmono.
  { intros k Hk. apply lookup_insert_is_Some'. by right. }
  constructor; cbn; try done; try (by eauto).
  - by rewrite fmap_insert.
  - intros t tl Ht. destruct (Hx t tl Ht) as (k & ? & ?). eauto.
  - intros j x [[<- <-]|[Hne Hj]]%lookup_insert_Some; [done|].
    rewrite (proj1 (Hoth j (not_eq_sym Hne))). by apply P7.
  - intros j x [[<- <-]|[Hne Hj]]%lookup_insert_Some; [done|].
    rewrite (proj1 (proj2 (Hoth j (not_eq_sym Hne)))). by apply P8.
  - intros j x [[<- <-]|[Hne Hj]]%lookup_insert_Some; [done|].
    rewrite (proj2 (proj2 (Hoth j (not_eq_sym Hne)))). by apply P9.
  - intros j x [[<- <-]|[Hne Hj]]%lookup_insert_Some; [done|]. by apply P10.
Qed.

(** A handler that leaves the counters of the context alone. *)
Definition same_counts (c c' : mx_file_ctx) : Prop :=
  cx_refs c' = cx_refs c ∧ cx_direct_count c' = cx_direct_count c ∧
  cx_transfer_count c' = cx_transfer_count c ∧ cx_bar_mapping_count c' = cx_bar_mapping_count c.

Lemma world_handler w i c st pend' :
  world_pre w → w_ctxs w !! i = Some c → same_counts c (l_ctx st) →
  st_inv i (cx_lease <$> w_ctxs w) st →
  (∀ j k p, pend' !! j = Some (k, p) →
     k ∈ w_open w ∧ match p with PTransition p => transition_snapshot k p | _ => True end) →
  world_pre (w_store i st w <| w_pend := pend' |>).
Proof.
  intros Hw Hi (E1 & E2 & E3 & E4) Hst Hp.
  pose proof (wi_direct w Hw i c Hi). pose proof (wi_transfer w Hw i c Hi).
  pose proof (wi_mapping w Hw i c Hi). pose proof (wi_refs w Hw i c Hi).
  apply (world_update w i c); rewrite ?E1, ?E2, ?E3, ?E4; try done; try (by apply Hw); try tauto.
Qed.

(** ** The handlers *)

Definition out {P} (r : Z * lstate + P * lstate) : lstate :=
  match r with inl (_, st) | inr (_, st) => st end.

Lemma ran_out {P} i hs (r : Z * lstate + P * lstate) : ran i hs r → st_inv i hs (out r).
Proof. by destruct r as [[? ?]|[? ?]]. Qed.

Lemma out_wrap {P} (c : P → pending) r : out (wrap c r) = out r.
Proof. by destruct r as [[? ?]|[? ?]]. Qed.

Ltac frame_cases := repeat case_match; simplify_eq; repeat split; done.

Lemma acquire_locked_counts v req st : same_counts (l_ctx st) (l_ctx (out (acquire_locked v req st))).
Proof. unfold acquire_locked, install_state_anchor. cbv zeta. frame_cases. Qed.

Lemma transition_locked_counts v req st : same_counts (l_ctx st) (l_ctx (out (transition_locked v req st))).
Proof. unfold transition_locked. cbv zeta. frame_cases. Qed.

Lemma domain_locked_counts v req st : same_counts (l_ctx st) (l_ctx (out (domain_locked v req st))).
Proof. unfold domain_locked. cbv zeta. frame_cases. Qed.

Lemma bind_locked_counts v req st : same_counts (l_ctx st) (l_ctx (out (bind_locked v req st))).
Proof. unfold bind_locked. cbv zeta. frame_cases. Qed.

Lemma unbind_locked_counts req st : same_counts (l_ctx st) (l_ctx (out (unbind_locked req st))).
Proof. unfold unbind_locked. cbv zeta. frame_cases. Qed.

Lemma lease_call_counts v st r : lease_call v st r → same_counts (l_ctx st) (l_ctx (out r)).
Proof.
  destruct 1; rewrite out_wrap; eauto using acquire_locked_counts, transition_locked_counts,
    domain_locked_counts, bind_locked_counts, unbind_locked_counts.
Qed.

Lemma lease_call_inv v i hs st r :
  dev_inv (l_dev st) hs → hs !! i = Some (cx_lease (l_ctx st)) → lease_call v st r →
  st_inv i hs (out r) ∧ (∀ p st', r = inr (PTransition p, st') → transition_snapshot i p).
Proof.
  intros Hdev Hi Hc. split.
  - destruct Hc; rewrite out_wrap; apply ran_out;
      eauto using acquire_locked_inv, domain_locked_inv, bind_locked_inv, unbind_locked_inv.
    by apply transition_locked_inv.
  - intros p st' ->. inversion Hc as [req E|req E|req E|req Hq E|req Hq E];
      unfold wrap in E; repeat case_match; simplify_eq.
    eapply transition_locked_inv; [exact Hdev | exact Hi | done].
Qed.

Lemma publish_counts v p fault st : same_counts (l_ctx st) (l_ctx (publish v p fault st).2).
Proof.
  destruct p; cbn [publish]; unfold acquire_publish, transition_publish, domain_publish, bind_publish,
    unbind_publish, drop_state_anchor, drop_domain_anchor; cbv zeta; frame_cases.
Qed.

Lemma publish_inv v i hs p fault st :
  match p with PTransition p => transition_snapshot i p | _ => True end →
  hs !! i = Some (cx_lease (l_ctx st)) → st_inv i hs st → st_inv i hs (publish v p fault st).2.
Proof.
  intros Hs Hi Hst. destruct p; cbn [publish]; eauto using acquire_publish_inv, transition_publish_inv,
    domain_publish_inv, bind_publish_inv, unbind_publish_inv.
Qed.

(** ** Dropping a reference *)

(** [w'] is the world after a reference of context [i] went away, before the count of
    the context was decremented: with the decrement it is in order. *)
Lemma ctx_put_inv w i c :
  world_pre (w <| w_ctxs := <[i := c <| cx_refs := cx_refs c - 1 |>]> (w_ctxs w) |>) →
  (∀ j x, j ≠ i → w_ctxs w !! j = Some x → 0 < cx_refs x) →
  world_inv (ctx_put i c w).
Proof.
  intros Hpre Hpos. unfold ctx_put. set (c1 := c <| cx_refs := cx_refs c - 1 |>) in *.
  assert (<[i := c1]> (w_ctxs w) !! i = Some c1) as Hi by apply lookup_insert_eq.
  pose proof (proj1 (wi_direct _ Hpre i c1 Hi)) as Hd. pose proof (proj1 (wi_transfer _ Hpre i c1 Hi)) as Ht.
  pose proof (proj1 (wi_mapping _ Hpre i c1 Hi)) as Hm. pose proof (wi_refs _ Hpre i c1 Hi) as Hr.
  pose proof (msum_xfer_nonneg i (w_xfers w)) as Ht0. pose proof (msum_on_ctx_nonneg i (w_maps w)) as Hm0.
  cbn in Hd, Ht, Hm, Hr.
  destruct (Z.eqb_spec (cx_refs c) 1) as [E|E]; cycle 1.
  { split; [done|]. cbn [w_ctxs upd]. intros j x [[<- <-]|[Hne Hj]]%lookup_insert_Some; [|by eapply Hpos].
    cbn. destruct (bool_decide (i ∈ w_open w)); cbn in Hr; lia. }
  destruct (bool_decide (i ∈ w_open w)) eqn:Hopen; cbn in Hr; [lia|]. apply bool_decide_eq_false in Hopen.
  assert (cx_transfer_count c = 0 ∧ cx_bar_mapping_count c = 0) as [Et Em] by lia.
  destruct (mx_file_ctx_free (w_state w c)) as [dev r] eqn:Hfree.
  unfold mx_file_ctx_free in Hfree. destruct (mx_lease_sm_release _ _) as [sm h'] eqn:Hrel.
  simplify_eq. cbn in Hrel. split; cbn; [|intros j x [Hne Hj]%lookup_delete_Some; eauto].
  assert (∀ k, k ≠ i → is_Some (<[i := c1]> (w_ctxs w) !! k) → is_Some (delete i (w_ctxs w) !! k)) as Hkeep.
  { intros k Hk. rewrite lookup_insert_ne, lookup_delete_ne by done. done. }
  destruct Hpre as [P1 P2 P3 P4 P5 P6 P7 P8 P9 P10]. cbn in *.
  constructor; cbn; try done.
  - (* the claim is released, then the file is gone *)
    rewrite fmap_insert in P1. rewrite fmap_delete.
    pose proof (release_dev_inv _ _ i _ _ _ P1 (lookup_insert_eq _ _ _) Hrel) as [Hl Ha].
    cbn in Hl. rewrite insert_insert_eq in Hl.
    destruct (release_empties _ _ _ _ (inv_wf _ _ (proj1 P1) i _ (lookup_insert_eq _ _ _)) Hrel).
    split; [|done]. rewrite <- (delete_insert_eq _ i h').
    by eapply inv_delete_zero; [apply lookup_insert_eq | | |].
  - intros j Hj. apply Hkeep; [by intros -> | by apply P3].
  - intros t tl Htl. destruct (P5 t tl Htl) as (k & Hk & Hs). exists k. split; [done|].
    apply Hkeep; [|done]. intros ->. pose proof (msum_xfer_pos i _ t tl Htl Hk). lia.
  - intros o k Hk. apply Hkeep; [|by eapply P6]. intros ->. pose proof (msum_on_ctx_pos i _ o Hk). lia.
  - intros j x [Hne Hj]%lookup_delete_Some. apply P7. by rewrite lookup_insert_ne.
  - intros j x [Hne Hj]%lookup_delete_Some. apply P8. by rewrite lookup_insert_ne.
  - intros j x [Hne Hj]%lookup_delete_Some. apply P9. by rewrite lookup_insert_ne.
  - intros j x [Hne Hj]%lookup_delete_Some. apply P10. by rewrite lookup_insert_ne.
Qed.

(** ** Preservation *)

Lemma direct_begin_counts st ret st' :
  mx_lease_direct_begin st = (ret, st') → 0 ≤ cx_direct_count (l_ctx st) ≤ U32_MAX →
  cx_refs (l_ctx st') = cx_refs (l_ctx st) ∧
  cx_transfer_count (l_ctx st') = cx_transfer_count (l_ctx st) ∧
  cx_bar_mapping_count (l_ctx st') = cx_bar_mapping_count (l_ctx st) ∧
  cx_direct_count (l_ctx st') = cx_direct_count (l_ctx st) + (if ret =? 0 then 1 else 0) ∧
  cx_direct_count (l_ctx st') ≤ U32_MAX.
Proof.
  unfold mx_lease_direct_begin, mx_lease_sm_admit_direct, mx_lease_sm_release_direct. cbv zeta.
  intros Hb Hd. unfold nz in *. errno.
  destruct (ls_removed _); [simplify_eq; change (- (19) =? 0) with false; split_and!; done || lia|].
  destruct (Z.eqb_spec (cx_direct_count (l_ctx st)) U32_MAX).
  { change (- (75) =? 0) with false in Hb. cbn [negb] in Hb. simplify_eq.
    change (- (75) =? 0) with false. cbn. split_and!; done || lia. }
  destruct (mx_lease_sm_authorize_direct_anchored _ _ _) as [[ra sm] h].
  destruct (Z.eqb_spec ra 0) as [->|Hra]; cbn [negb] in Hb; cycle 1.
  { destruct (Z.eqb_spec ra 0); [done|]. cbn [negb] in Hb. simplify_eq.
    destruct (Z.eqb_spec ret 0); [done|]. cbn. split_and!; done || lia. }
  rewrite u32_id in Hb by lia. cbn [negb Z.eqb] in Hb.
  set (x := ctx_proofs_ok _) in Hb. clearbody x.
  destruct (Z.eqb_spec x 0) as [|Hne]; cbn [negb] in Hb; simplify_eq; cbn -[u32].
  - split_and!; done || lia.
  - destruct (Z.eqb_spec (cx_direct_count (l_ctx st) + 1) 0); [lia|]. cbn -[u32].
    destruct (Z.eqb_spec ret 0); [done|].
    rewrite u32_id by lia. split_and!; done || lia.
Qed.

Lemma world_open w i cdev :
  world_inv w → w_ctxs w !! i = None →
  world_inv (w <| w_ctxs := <[i := ctx_new cdev]> (w_ctxs w) |> <| w_open := {[i]} ∪ w_open w |>).
Proof.
  intros [Hw Hpos] Hi.
  assert (msum (on_ctx i) (w_calls w) = 0) as Zc.
  { rewrite <- (msum_zero (w_calls w)). apply msum_ext. intros c k Hc. apply on_ctx_other. intros ->.
    destruct (wi_open w Hw i (wi_calls w Hw c i Hc)). congruence. }
  assert (msum (on_ctx i) (w_maps w) = 0) as Zm.
  { rewrite <- (msum_zero (w_maps w)). apply msum_ext. intros o k Ho. apply on_ctx_other. intros ->.
    destruct (wi_maps w Hw o i Ho). congruence. }
  assert (msum (xfer_of i) (w_xfers w) = 0) as Zx.
  { rewrite <- (msum_zero (w_xfers w)). apply msum_ext. intros t tl Ht.
    destruct (wi_xfers w Hw t tl Ht) as (k & Hk & Hs). rewrite (xfer_of_owner i k) by done.
    apply on_ctx_other. intros ->. destruct Hs. congruence. }
  assert (i ∉ w_open w) as Hno by (intros ?; destruct (wi_open w Hw i); [done | congruence]).
  assert (∀ k, is_Some (w_ctxs w !! k) → is_Some (<[i := ctx_new cdev]> (w_ctxs w) !! k)) as Hmono.
  { intros k Hk. apply lookup_insert_is_Some'. by right. }
  destruct Hw as [P1 P2 P3 P4 P5 P6 P7 P8 P9 P10].
  split; cbn; [constructor; cbn; try (by eauto)|].
  - rewrite fmap_insert. destruct P1 as [Hl Ha]. split; [|done].
    apply inv_insert_zero; [by rewrite lookup_fmap, Hi | done].
  - intros j k p Hj. destruct (P2 j k p Hj). set_solver.
  - intros k [->%elem_of_singleton|Hk]%elem_of_union; [apply lookup_insert_is_Some'; by left | eauto].
  - intros c k Hc. specialize (P4 c k Hc). set_solver.
  - intros t tl Ht. destruct (P5 t tl Ht) as (k & ? & ?). eauto.
  - intros j x [[<- <-]|[Hne Hj]]%lookup_insert_Some; [rewrite Zc; done | by apply P7].
  - intros j x [[<- <-]|[Hne Hj]]%lookup_insert_Some; [rewrite Zx; done | by apply P8].
  - intros j x [[<- <-]|[Hne Hj]]%lookup_insert_Some; [rewrite Zm; done | by apply P9].
  - intros j x [[<- <-]|[Hne Hj]]%lookup_insert_Some.
    + cbn. by rewrite bool_decide_eq_true_2 by set_solver.
    + rewrite (P10 j x Hj). do 3 f_equal. apply bool_decide_ext. set_solver.
  - intros j x [[<- <-]|[Hne Hj]]%lookup_insert_Some; [done | eauto].
Qed.

Section steps.
Context (w : world) (i : nat) (ctx : mx_file_ctx).
Hypothesis Hw : world_inv w.
Hypothesis Hi : w_ctxs w !! i = Some ctx.

Lemma hs_lookup : (cx_lease <$> w_ctxs w) !! i = Some (cx_lease ctx).
Proof. by rewrite lookup_fmap, Hi. Qed.

Lemma pos_update c' : 0 < cx_refs c' → ∀ j x, <[i := c']> (w_ctxs w) !! j = Some x → 0 < cx_refs x.
Proof. intros Hc j x [[<- <-]|[_ Hj]]%lookup_insert_Some; [done | by eapply (proj2 Hw)]. Qed.

Lemma world_handler_inv st pend' :
  same_counts ctx (l_ctx st) → st_inv i (cx_lease <$> w_ctxs w) st →
  (∀ j k p, pend' !! j = Some (k, p) →
     k ∈ w_open w ∧ match p with PTransition p => transition_snapshot k p | _ => True end) →
  world_inv (w_store i st w <| w_pend := pend' |>).
Proof.
  intros Hs Hst Hp. split; [by apply (world_handler w i ctx); [apply (proj1 Hw) | ..]|].
  apply pos_update. destruct Hs as [-> _]. by apply (proj2 Hw i).
Qed.

(** A step that leaves the lease alone. *)
Lemma lease_untouched c' :
  cx_lease c' = cx_lease ctx → dev_inv (w_dev w) (<[i := cx_lease c']> (cx_lease <$> w_ctxs w)).
Proof. intros ->. rewrite insert_id by apply hs_lookup. apply (wi_dev w (proj1 Hw)). Qed.

Lemma step_begin c ret st :
  i ∈ w_open w → w_calls w !! c = None → mx_lease_direct_begin (w_state w ctx) = (ret, st) →
  world_inv (w_store i st w <| w_calls := if ret =? 0 then <[c := i]> (w_calls w) else w_calls w |>).
Proof.
  intros Ho Hc Hb. destruct Hw as [Hp Hpos].
  destruct (wi_direct w Hp i ctx Hi) as [D1 D2]. destruct (wi_transfer w Hp i ctx Hi) as [T1 T2].
  destruct (wi_mapping w Hp i ctx Hi) as [M1 M2]. pose proof (wi_refs w Hp i ctx Hi) as R1.
  pose proof (msum_on_ctx_nonneg i (w_calls w)).
  destruct (direct_begin_counts _ _ _ Hb) as (E1 & E2 & E3 & E4 & E5); [cbn; lia|].
  pose proof (direct_begin_inv i (cx_lease <$> w_ctxs w) (w_state w ctx) (wi_dev w Hp) hs_lookup) as Hst.
  rewrite Hb in Hst. cbn in Hst, E1, E2, E3, E4.
  split; [|apply pos_update; rewrite E1; by eapply Hpos].
  apply (world_update w i ctx); rewrite ?E1, ?E2, ?E3; try done; try (by apply Hp).
  - intros x k Hk. cbn in Hk. destruct (ret =? 0); [|by eapply wi_calls].
    apply lookup_insert_Some in Hk as [[<- <-]|[_ Hk]]; [done | by eapply wi_calls].
  - intros j Hj. split; [|done]. cbn. destruct (ret =? 0); [|done].
    rewrite msum_insert, on_ctx_other by done. done.
  - rewrite E4, D1. cbn. destruct (ret =? 0); [|lia]. rewrite msum_insert, on_ctx_same by done. lia.
Qed.

Lemma step_end c :
  w_calls w !! c = Some i →
  world_inv (w <| w_ctxs := <[i := mx_lease_direct_end ctx]> (w_ctxs w) |>
               <| w_calls := delete c (w_calls w) |>).
Proof.
  intros Hc. destruct Hw as [Hp Hpos].
  destruct (wi_direct w Hp i ctx Hi) as [D1 D2]. destruct (wi_transfer w Hp i ctx Hi) as [T1 T2].
  destruct (wi_mapping w Hp i ctx Hi) as [M1 M2]. pose proof (wi_refs w Hp i ctx Hi) as R1.
  pose proof (msum_on_ctx_pos i (w_calls w) c Hc) as Hp1. rewrite <- D1 in Hp1.
  assert (∀ f, msum f (w_calls w) = f i + msum f (delete c (w_calls w))) as Hdel by (intros; by apply msum_delete).
  assert (mx_lease_direct_end ctx = ctx <| cx_direct_count := cx_direct_count ctx - 1 |>) as ->.
  { unfold mx_lease_direct_end, mx_lease_sm_release_direct, nz.
    rewrite (proj2 (Z.eqb_neq _ 0)) by lia. cbn -[u32]. by rewrite u32_id by lia. }
  split; [|apply pos_update; cbn; by apply (Hpos i)].
  apply (world_update w i ctx); cbn; try done; try (by apply Hp); try lia.
  - by apply lease_untouched.
  - intros x k [_ Hk]%lookup_delete_Some. by eapply wi_calls.
  - intros j Hj. split; [|done]. rewrite Hdel, on_ctx_other by done. done.
  - rewrite D1, Hdel, on_ctx_same. lia.
Qed.

Lemma step_xfer_get t st tl :
  w_xfers w !! t = None →
  mx_lease_transfer_get i (w_state w ctx) (MkTl None None None) = (0, st, tl) →
  world_inv (w_store i st w <| w_xfers := <[t := tl]> (w_xfers w) |>).
Proof.
  intros Ht Hg. destruct Hw as [Hp Hpos].
  destruct (wi_direct w Hp i ctx Hi) as [D1 D2]. destruct (wi_transfer w Hp i ctx Hi) as [T1 T2].
  destruct (wi_mapping w Hp i ctx Hi) as [M1 M2]. pose proof (wi_refs w Hp i ctx Hi) as R1.
  pose proof (msum_xfer_nonneg i (w_xfers w)). pose proof (Hpos i ctx Hi).
  unfold mx_lease_transfer_get in Hg. cbv zeta in Hg. cbn [w_state l_dev l_ctx] in Hg.
  repeat (case_match; [by simplify_eq|]). 
  destruct (nz (ctx_proofs_ok ctx)) eqn:Hpr; [simplify_eq; by rewrite H3 in Hpr|].
  case_match eqn:Hmax; [by simplify_eq|]. simplify_eq. breflect.
  split; [|apply pos_update; cbn; lia].
  apply (world_update w i ctx); cbn -[u32 msum]; try done; try (by apply Hp); rewrite ?u32_id by lia; try lia.
  - by apply lease_untouched.
  - intros t' tl' [[<- <-]|[_ Hx]]%lookup_insert_Some; [|by eapply wi_xfers]. exists i. split; [done|]. by eexists.
  - intros j Hj. split_and!; try done. rewrite msum_insert by done.
    rewrite (xfer_of_owner j i) by done. by rewrite on_ctx_other.
  - rewrite msum_insert, xfer_of_same by done. lia.
Qed.

Lemma others_pos c' j x : j ≠ i → <[i := c']> (w_ctxs w) !! j = Some x → 0 < cx_refs x.
Proof. intros Hne. rewrite lookup_insert_ne by done. by apply (proj2 Hw). Qed.

Lemma step_xfer_put t tl ctx' r tl' :
  w_xfers w !! t = Some tl → tl_owner_ctx tl = Some i →
  mx_lease_transfer_put tl ctx (w_refs w) = (ctx', r, tl') →
  world_inv (ctx_put i ctx' (w <| w_refs := r |> <| w_xfers := delete t (w_xfers w) |>)).
Proof.
  intros Ht Ho Hput. pose proof Hw as [Hp Hpos].
  destruct (wi_direct w Hp i ctx Hi) as [D1 D2]. destruct (wi_transfer w Hp i ctx Hi) as [T1 T2].
  destruct (wi_mapping w Hp i ctx Hi) as [M1 M2]. pose proof (wi_refs w Hp i ctx Hi) as R1.
  pose proof (msum_xfer_pos i (w_xfers w) t tl Ht Ho) as Hx1. rewrite <- T1 in Hx1.
  assert (∀ f, msum f (w_xfers w) = f tl + msum f (delete t (w_xfers w))) as Hdel by (intros; by apply msum_delete).
  unfold mx_lease_transfer_put in Hput. rewrite (proj2 (Z.eqb_neq (cx_transfer_count ctx) 0)) in Hput by lia.
  simplify_eq. rewrite u32_id by lia.
  apply ctx_put_inv; cbn -[msum]; [|intros j x ? ?; by eapply Hpos].
  apply (world_update w i ctx); cbn -[msum]; try done; try (by apply Hp); try lia.
  - by apply lease_untouched.
  - intros t' tl' [_ Hx]%lookup_delete_Some. by eapply wi_xfers.
  - intros j Hj. split_and!; try done. rewrite Hdel, (xfer_of_owner j i) by done. by rewrite on_ctx_other.
  - rewrite T1, Hdel, (xfer_of_owner i i), on_ctx_same by done. lia.
Qed.

Lemma step_map c o alloc remap vma bd bd' ctx' bv :
  w_calls w !! c = Some i → w_maps w !! o = None →
  mx_bar_mmap alloc remap i vma bd ctx = (0, bd', ctx', Some bv) →
  world_inv (w <| w_ctxs := <[i := ctx']> (w_ctxs w) |> <| w_maps := <[o := i]> (w_maps w) |>).
Proof.
  intros Hc Ho (_ & Hmax & _ & _ & ->)%mmap_ok. destruct Hw as [Hp Hpos].
  destruct (wi_direct w Hp i ctx Hi) as [D1 D2]. destruct (wi_transfer w Hp i ctx Hi) as [T1 T2].
  destruct (wi_mapping w Hp i ctx Hi) as [M1 M2]. pose proof (wi_refs w Hp i ctx Hi) as R1.
  pose proof (msum_on_ctx_nonneg i (w_maps w)). pose proof (Hpos i ctx Hi).
  split; [|apply pos_update; cbn; lia].
  apply (world_update w i ctx); cbn -[u32 msum]; try done; try (by apply Hp); rewrite ?u32_id by lia; try lia.
  - by apply lease_untouched.
  - intros o' k [[<- <-]|[_ Hk]]%lookup_insert_Some; [by eexists | by eapply wi_maps].
  - intros j Hj. split_and!; try done. rewrite msum_insert, on_ctx_other by done. done.
  - rewrite msum_insert, on_ctx_same by done. lia.
Qed.

Lemma step_unmap o bd bv bd' ctx' :
  w_maps w !! o = Some i → mx_bar_vma_close bd bv ctx = (bd', None, ctx') →
  world_inv (ctx_put i ctx' (w <| w_maps := delete o (w_maps w) |>)).
Proof.
  intros Ho Hcl. pose proof Hw as [Hp Hpos].
  destruct (wi_direct w Hp i ctx Hi) as [D1 D2]. destruct (wi_transfer w Hp i ctx Hi) as [T1 T2].
  destruct (wi_mapping w Hp i ctx Hi) as [M1 M2]. pose proof (wi_refs w Hp i ctx Hi) as R1.
  pose proof (msum_on_ctx_pos i (w_maps w) o Ho) as Hx1. rewrite <- M1 in Hx1.
  assert (∀ f, msum f (w_maps w) = f i + msum f (delete o (w_maps w))) as Hdel by (intros; by apply msum_delete).
  assert (ctx' = ctx <| cx_bar_mapping_count := cx_bar_mapping_count ctx - 1 |>) as ->.
  { unfold mx_bar_vma_close in Hcl. rewrite (proj2 (Z.eqb_neq (cx_bar_mapping_count ctx) 0)) in Hcl by lia.
    rewrite (u32_id (cx_bar_mapping_count ctx - 1)) in Hcl by lia.
    destruct (bv_refs bv - 1 =? 0); by simplify_eq. }
  apply ctx_put_inv; cbn -[msum]; [|intros j x ? ?; by eapply Hpos].
  apply (world_update w i ctx); cbn -[msum]; try done; try (by apply Hp); try lia.
  - by apply lease_untouched.
  - intros o' k [_ Hk]%lookup_delete_Some. by eapply wi_maps.
  - intros j Hj. split_and!; try done. rewrite Hdel, on_ctx_other by done. done.
  - rewrite M1, Hdel, on_ctx_same. lia.
Qed.

Lemma step_close_file :
  i ∈ w_open w → (∀ j p, w_pend w !! j ≠ Some (i, p)) → (∀ c, w_calls w !! c ≠ Some i) →
  world_inv (ctx_put i ctx (w <| w_open := w_open w ∖ {[i]} |>)).
Proof.
  intros Ho Hnp Hnc. pose proof Hw as [[P1 P2 P3 P4 P5 P6 P7 P8 P9 P10] Hpos].
  assert (∀ k, is_Some (w_ctxs w !! k) →
    is_Some (<[i := ctx <| cx_refs := cx_refs ctx - 1 |>]> (w_ctxs w) !! k)) as Hmono.
  { intros k Hk. apply lookup_insert_is_Some'. by right. }
  apply ctx_put_inv; cbn; [|intros j x ? ?; by eapply Hpos].
  constructor; cbn; try (by eauto).
  - rewrite fmap_insert. cbn. rewrite insert_id by (by rewrite lookup_fmap, Hi). done.
  - intros j k p Hj. destruct (P2 j k p Hj) as [? ?]. split; [|done].
    assert (k ≠ i) by (intros ->; by eapply Hnp). set_solver.
  - intros k [Hk _]%elem_of_difference. eauto.
  - intros c k Hc. assert (k ≠ i) by (intros ->; by eapply Hnc). specialize (P4 c k Hc). set_solver.
  - intros t tl Ht. destruct (P5 t tl Ht) as (k & ? & ?). eauto.
  - intros j x [[<- <-]|[Hne Hj]]%lookup_insert_Some; [by apply (P7 i ctx) | by apply P7].
  - intros j x [[<- <-]|[Hne Hj]]%lookup_insert_Some; [by apply (P8 i ctx) | by apply P8].
  - intros j x [[<- <-]|[Hne Hj]]%lookup_insert_Some; [by apply (P9 i ctx) | by apply P9].
  - intros j x [[<- <-]|[Hne Hj]]%lookup_insert_Some; cbn.
    + rewrite (P10 i ctx Hi), (bool_decide_eq_true_2 (i ∈ w_open w)), bool_decide_eq_false_2 by set_solver.
      cbn. lia.
    + rewrite (P10 j x Hj). do 3 f_equal. apply bool_decide_ext. set_solver.
Qed.
End steps.

Lemma wstep_inv faults w w' : wstep faults w w' → world_inv w → world_inv w'.
Proof.
  intros Hs Hw. pose proof (proj1 Hw) as Hp. destruct Hs.
  - by apply world_open.
  - pose proof (lease_call_inv v i _ (w_state w ctx) _ (wi_dev w Hp) (hs_lookup w i ctx H) H1) as [Hst _].
    pose proof (lease_call_counts _ _ _ H1) as Hc.
    pose proof (world_handler_inv w i ctx Hw H st (w_pend w) Hc Hst (wi_pend w Hp)) as Hr. by destruct w.
  - pose proof (lease_call_inv v i _ (w_state w ctx) _ (wi_dev w Hp) (hs_lookup w i ctx H) H2) as [Hst Hsn].
    pose proof (lease_call_counts _ _ _ H2) as Hc.
    apply (world_handler_inv w i ctx Hw H st _ Hc Hst).
    intros j' k p' [[<- [= <- <-]]|[_ Hj]]%lookup_insert_Some; [|by apply (wi_pend w Hp j')].
    split; [done|]. destruct p; try done. by eapply Hsn.
  - destruct (wi_pend w Hp j i p H) as [Ho Hsn].
    apply (world_handler_inv w i ctx Hw H0).
    + apply publish_counts.
    + apply publish_inv; [done | by apply hs_lookup|].
      apply st_inv_intro; [by apply hs_lookup | apply (wi_dev w Hp)].
    + intros j' k p' [_ Hj]%lookup_delete_Some. by apply (wi_pend w Hp j').
  - by eapply step_begin.
  - by eapply step_end.
  - by eapply step_xfer_get.
  - by eapply step_xfer_put.
  - by eapply step_map.
  - by eapply step_unmap.
  - by eapply step_close_file.
  - destruct Hw as [[[Hl [A1 A2 A3 A4 A5 A6]] P2 P3 P4 P5 P6 P7 P8 P9 P10] Hpos].
    split; [|done]. constructor; try done.
Qed.

Lemma world0_inv incarnation : world_inv (world0 incarnation).
Proof.
  split; [|intros ? ?; cbn; by rewrite lookup_empty]. constructor; cbn; try (by intros *; rewrite lookup_empty).
  - rewrite fmap_empty. split; [apply inv_init|]. constructor; cbn; try done.
Qed.

Lemma reachable_world_inv faults w : reachable faults w → world_inv w.
Proof.
  intros [n Hr]. revert w Hr. apply (rtc_ind_r world_inv); [apply world0_inv|].
  intros y z _ Hstep Hy. by eapply wstep_inv.
Qed.
