(* ===== verification/LeaseDomain.v ===== *)
(** * The two anchors of a device: what they reference and how they move

    The driver keeps a path of the state inode and a path of the slot-domain inode.  No
    handler references a path otherwise, so the references on paths are exactly these
    two; and the slot-domain anchor is set by the one call that finds none, dropped by
    the same call when its reply faults, and left alone by everything else. *)

From S2P Require Import Prelude Uapi LeaseSM LeaseInv LeasePolicy LeaseTypes Lease LeaseAnchor BarMap LeaseWorld.

(** ** References on paths *)

Lemma fput_path f r p : fput f r (RPath p) = r (RPath p).
Proof. unfold fput, ref_add. rewrite decide_False by done. lia. Qed.
Lemma get_file_path f r p : get_file f r (RPath p) = r (RPath p).
Proof. unfold get_file, ref_add. rewrite decide_False by done. lia. Qed.
Lemma fput_opt_path f r p : fput_opt f r (RPath p) = r (RPath p).
Proof. destruct f; [apply fput_path | done]. Qed.
Lemma get_file_opt_path f r p : get_file_opt f r (RPath p) = r (RPath p).
Proof. destruct f; [apply get_file_path | done]. Qed.

Create HintDb paths.
#[export] Hint Rewrite fput_path get_file_path fput_opt_path get_file_opt_path : paths.

Lemma fput_files_path pf r p : fput_files pf r (RPath p) = r (RPath p).
Proof. unfold fput_files. by autorewrite with paths. Qed.
Lemma fput_locals_path a b c d r p : fput_locals a b c d r (RPath p) = r (RPath p).
Proof. unfold fput_locals. by autorewrite with paths. Qed.
#[export] Hint Rewrite fput_files_path fput_locals_path : paths.

(** [o] is the path anchored: one reference on it. *)
Definition holds (o : option Z) (p : Z) : Z := Z.b2z (bool_decide (o = Some p)).

Lemma path_get_path q r p : path_get q r (RPath p) = r (RPath p) + holds (Some q) p.
Proof.
  unfold path_get, ref_add, holds. case_decide as E; case_bool_decide as E'; simplify_eq; done.
Qed.
Lemma path_put_path q r p : path_put q r (RPath p) = r (RPath p) - holds (Some q) p.
Proof.
  unfold path_put, ref_add, holds. case_decide as E; case_bool_decide as E'; simplify_eq; cbn; lia.
Qed.
Lemma holds_None p : holds None p = 0.
Proof. done. Qed.

(** What a function that takes and returns the references does to a path: nothing. *)
Ltac path_frame :=
  repeat (case_match; simplify_eq/=); by autorewrite with paths.

Lemma clone_path v source type a b r x r' p :
  mx_lease_clone_with_ofd_lock v source type a b r = (x, r') → r' (RPath p) = r (RPath p).
Proof. unfold mx_lease_clone_with_ofd_lock. intros E. path_frame. Qed.

Lemma identity_path v f slot r ret r' p :
  mx_lease_slot_identity_held v f slot r = (ret, r') → r' (RPath p) = r (RPath p).
Proof. unfold mx_lease_slot_identity_held. intros E. path_frame. Qed.

Lemma bind_open_path v ctx req r ret a b r' p :
  bind_open v ctx req r = (ret, a, b, r') → r' (RPath p) = r (RPath p).
Proof. unfold bind_open. intros E. path_frame. Qed.

Lemma bind_pin_slot_path v same f slot r ret lock r' p :
  bind_pin_slot v same f slot r = (ret, lock, r') → r' (RPath p) = r (RPath p).
Proof.
  unfold bind_pin_slot, mx_lease_pin_slot_ofd_lock. intros E. destruct f as [f|]; [|by simplify_eq].
  destruct same; [by simplify_eq|]. destruct (mx_lease_slot_identity_held v f slot r) as [e r1] eqn:E1.
  apply (identity_path _ _ _ _ _ _ p) in E1. destruct (nz e); [by simplify_eq|].
  destruct (mx_lease_clone_with_ofd_lock _ _ _ _ _ _) as [y r2] eqn:E2.
  apply (clone_path _ _ _ _ _ _ _ _ p) in E2. destruct y; simplify_eq; congruence.
Qed.

Lemma bind_pin_lifetime_path v dev same req f r ret lock r' p :
  bind_pin_lifetime v dev same req f r = (ret, lock, r') → r' (RPath p) = r (RPath p).
Proof.
  unfold bind_pin_lifetime. intros E. destruct f as [f|]; [|by simplify_eq].
  do 3 (case_match; [by simplify_eq|]).
  destruct (mx_lease_clone_with_ofd_lock _ _ _ _ _ _) as [y r2] eqn:E2.
  apply (clone_path _ _ _ _ _ _ _ _ p) in E2. destruct y; simplify_eq; congruence.
Qed.

(** ** The anchors and the handlers *)

Definition state_anchor (dev : mx_device_lease) : option Z * bool * option Z :=
  (ls_state_path dev, ls_state_path_valid dev, ls_state_inode dev).
Definition slot_domain (dev : mx_device_lease) : option Z * bool * option Z :=
  (ls_slot_domain_path dev, ls_slot_domain_path_valid dev, ls_slot_domain_inode dev).

(** The anchor of file [f], and no anchor. *)
Definition anchor_of (v : vfs) (f : Z) : option Z * bool * option Z :=
  (Some (f_path v f), true, file_inode v f).
Definition no_anchor : option Z * bool * option Z := (None, false, None).

(** A handler that leaves both anchors and the references on paths alone. *)
Record kept (st st' : lstate) : Prop := {
  kp_state : state_anchor (l_dev st') = state_anchor (l_dev st);
  kp_domain : slot_domain (l_dev st') = slot_domain (l_dev st);
  kp_paths p : l_refs st' (RPath p) = l_refs st (RPath p);
}.

Lemma kept_refl st : kept st st.
Proof. done. Qed.
Lemma kept_trans a b c : kept a b → kept b c → kept a c.
Proof. intros [A1 A2 A3] [B1 B2 B3]. constructor; [by rewrite B1 | by rewrite B2 | intros; by rewrite B3]. Qed.

(** A handler that only drops or takes file references, or changes the state machine. *)
Ltac kept_frame := constructor; cbn; [done | done | intros; by autorewrite with paths].

(** Setting and dropping one anchor. *)
Definition sets_state (v : vfs) (f : Z) (st st' : lstate) : Prop :=
  ls_state_path_valid (l_dev st) = false ∧ state_anchor (l_dev st') = anchor_of v f ∧
  slot_domain (l_dev st') = slot_domain (l_dev st) ∧
  ∀ p, l_refs st' (RPath p) = l_refs st (RPath p) + holds (Some (f_path v f)) p.

Definition drops_state (st st' : lstate) : Prop :=
  state_anchor (l_dev st') = no_anchor ∧ slot_domain (l_dev st') = slot_domain (l_dev st) ∧
  ∀ p, l_refs st' (RPath p) = l_refs st (RPath p) - holds (ls_state_path (l_dev st)) p.

Definition sets_domain (v : vfs) (f : Z) (st st' : lstate) : Prop :=
  ls_slot_domain_path_valid (l_dev st) = false ∧ slot_domain (l_dev st') = anchor_of v f ∧
  is_Some (file_inode v f) ∧ file_inode v f ≠ ls_state_inode (l_dev st) ∧ ls_generation (l_dev st) ≠ 0 ∧
  state_anchor (l_dev st') = state_anchor (l_dev st) ∧
  ∀ p, l_refs st' (RPath p) = l_refs st (RPath p) + holds (Some (f_path v f)) p.

Definition drops_domain (st st' : lstate) : Prop :=
  slot_domain (l_dev st') = no_anchor ∧ state_anchor (l_dev st') = state_anchor (l_dev st) ∧
  ∀ p, l_refs st' (RPath p) = l_refs st (RPath p) - holds (ls_slot_domain_path (l_dev st)) p.

Lemma acquire_locked_anchor v req st :
  let st' := out (acquire_locked v req st) in kept st st' ∨ ∃ f, sets_state v f st st'.
Proof.
  unfold acquire_locked. cbv zeta. do 3 (case_match; [by left|]).
  case_match; [left; kept_frame|].
  destruct (fget v (aq_state_fd req)) as [f|]; [|left; kept_frame].
  destruct (acquire_anchor_check v _ req f) as [e|fresh] eqn:Hc; [left; kept_frame|].
  apply anchor_check_spec in Hc as (Hv & _). cbn in Hv.
  destruct (mx_lease_sm_acquire _ _ _) as [[ret sm] holder]. case_match; [left; kept_frame|].
  destruct fresh; [right | left; kept_frame]. exists f. split_and!; [done | done | done |].
  intros p. cbn. rewrite path_get_path. by autorewrite with paths.
Qed.

Lemma acquire_publish_anchor v p fault st :
  let st' := (acquire_publish v p fault st).2 in
  kept st st' ∨ (fault = true ∧ drops_state st st').
Proof.
  unfold acquire_publish. cbv zeta. destruct fault; cbn [negb]; [|left; kept_frame].
  set (st1 := if bool_decide _ then _ else st).
  assert (kept st st1 ∧ l_refs st1 = l_refs st) as [H1 Hr].
  { subst st1. case_bool_decide; [|done]. by destruct (mx_lease_sm_release _ _). }
  clearbody st1. cbn [snd]. case_match; cycle 1.
  { left. eapply kept_trans; [exact H1 | kept_frame]. }
  right. split; [done|]. destruct H1 as [[= S1 S2 S3] D1 P1]. unfold drop_state_anchor.
  split_and!; [done | done |]. intros q. cbn. autorewrite with paths. rewrite <- P1, <- S1.
  destruct (ls_state_path (l_dev st1)); [apply path_put_path | rewrite holds_None; lia].
Qed.

Lemma transition_locked_kept v req st : kept st (out (transition_locked v req st)).
Proof. unfold transition_locked. cbv zeta. repeat case_match; simplify_eq; kept_frame. Qed.

Lemma transition_publish_kept p fault st : kept st (transition_publish p fault st).2.
Proof. unfold transition_publish. cbv zeta. repeat case_match; kept_frame. Qed.

Lemma bind_locked_kept v req st : kept st (out (bind_locked v req st)).
Proof.
  unfold bind_locked. cbv zeta. destruct (bind_open _ _ _ _) as [[[ret a] b] r] eqn:Eo.
  pose proof (fun p => bind_open_path _ _ _ _ _ _ _ _ p Eo) as Po.
  case_match; [constructor; cbn; try done; intros; autorewrite with paths; apply Po|].
  case_match; [constructor; cbn; try done; intros; autorewrite with paths; apply Po|].
  destruct (bind_pin_slot _ _ _ _ _) as [[ret1 l1] r1] eqn:E1.
  pose proof (fun p => bind_pin_slot_path _ _ _ _ _ _ _ _ p E1) as P1.
  case_match; [constructor; cbn; try done; intros; autorewrite with paths; by rewrite P1|].
  destruct (bind_pin_lifetime _ _ _ _ _ _) as [[ret2 l2] r2] eqn:E2.
  pose proof (fun p => bind_pin_lifetime_path _ _ _ _ _ _ _ _ _ p E2) as P2.
  case_match; constructor; cbn; try done; intros; autorewrite with paths; by rewrite P2, P1.
Qed.

Lemma bind_publish_kept p fault st : kept st (bind_publish p fault st).2.
Proof. unfold bind_publish. cbv zeta. repeat case_match; kept_frame. Qed.

Lemma unbind_locked_kept req st : kept st (out (unbind_locked req st)).
Proof. unfold unbind_locked. cbv zeta. repeat case_match; kept_frame. Qed.

Lemma unbind_publish_kept p fault st : kept st (unbind_publish p fault st).2.
Proof. unfold unbind_publish. cbv zeta. repeat case_match; kept_frame. Qed.

Lemma validate_same h fam anchored a b c valid same :
  mx_lease_sm_validate_slot_domain_anchor h fam anchored a b c valid same = 0 → valid = true → same = true.
Proof.
  unfold mx_lease_sm_validate_slot_domain_anchor. errno. intros Hr ->.
  destruct same; [done|]. repeat (case_match; try done).
Qed.

Lemma domain_check_spec v dev ctx req f :
  domain_check v dev ctx req f = None →
  ls_generation dev ≠ 0 ∧ file_inode v f ≠ ls_state_inode dev ∧
  (ls_slot_domain_path_valid dev = true → ls_slot_domain_inode dev = file_inode v f).
Proof.
  unfold domain_check. cbv zeta. intros Hc.
  case_match; [done|]. case_match eqn:Hg; [done|]. case_match; [done|].
  case_match eqn:Hv; [done|]. case_match eqn:Hne; [done|]. clear Hc.
  breflect. split_and!; [congruence || lia | done |]. intros E.
  apply validate_same in Hv; [|done]. by breflect.
Qed.

Lemma domain_check_errno v dev ctx req f e : domain_check v dev ctx req f = Some e → e ≠ 0.
Proof.
  unfold domain_check. cbv zeta. errno. intros Hc.
  repeat (case_match; [simplify_eq; done || by breflect|]). done.
Qed.

(** A [dentry_open] that fails returns an errno. *)
Definition open_fails_with_errno (v : vfs) : Prop := ∀ f e, file_clone_open v f = inl e → e ≠ 0.

Lemma clone_errno v source type a b r e r' :
  open_fails_with_errno v → mx_lease_clone_with_ofd_lock v source type a b r = (inl e, r') → e ≠ 0.
Proof.
  unfold mx_lease_clone_with_ofd_lock. errno. intros Hv E.
  destruct (file_clone_open v source) eqn:Ho; [simplify_eq; by eapply Hv|].
  case_match; [by simplify_eq|]. case_match; [|by simplify_eq]. simplify_eq. case_match; [done | by breflect].
Qed.

(** The reply of a committed call is about an anchored slot domain: the inode of the file
    of the request, other than the state inode. *)
Definition domain_at (v : vfs) (f : Z) (st : lstate) : Prop :=
  ls_slot_domain_path_valid (l_dev st) = true ∧ ls_slot_domain_inode (l_dev st) = file_inode v f ∧
  file_inode v f ≠ ls_state_inode (l_dev st).

Lemma domain_locked_anchor v req st :
  match domain_locked v req st with
  | inl (ret, st') => kept st st' ∧ (open_fails_with_errno v → ret ≠ 0)
  | inr (p, st') =>
      let f := dp_domain_file p in
      fget v (sd_slot_domain_fd req) = Some f ∧ domain_at v f st' ∧
      if dp_fresh_anchor p then sets_domain v f st st' else kept st st'
  end.
Proof.
  unfold domain_locked. cbv zeta. errno.
  destruct (negb (domain_request_ok req)); [by split|].
  destruct (negb (capable_rawio v) || _); [by split|].
  destruct (mx_lease_valid_state_file v _) eqn:Hv; cbn [negb]; [|split; [kept_frame | done]].
  destruct (fget v (sd_slot_domain_fd req)) as [f|] eqn:Hf; [|split; [kept_frame | done]].
  destruct (domain_check _ _ _ _ _) as [e|] eqn:Hc.
  { split; [kept_frame|]. intros _. by eapply domain_check_errno. }
  apply domain_check_spec in Hc as (Hg & Hne & Hsame). cbn in Hg, Hne, Hsame.
  destruct (ls_slot_domain_path_valid _) eqn:Hvalid; cbn in Hvalid.
  { unfold domain_at. split_and!; cbn; auto. kept_frame. }
  destruct (mx_lease_clone_with_ofd_lock _ _ _ _ _ _) as [[e|proof] r] eqn:Hcl;
    pose proof (fun p => clone_path _ _ _ _ _ _ _ _ p Hcl) as Hp; cbn in Hp.
  { split; [|intros Hopen; by eapply clone_errno].
    constructor; cbn; try done. intros. autorewrite with paths. rewrite Hp. by autorewrite with paths. }
  cbn. unfold domain_at, sets_domain. cbn. split_and!; try done.
  - by apply valid_state_file_inode.
  - intros p. rewrite path_get_path, Hp. by autorewrite with paths.
Qed.

Lemma domain_publish_anchor v p fault st :
  let st' := (domain_publish v p fault st).2 in
  let undone := fault && dp_fresh_anchor p && ls_slot_domain_path_valid (l_dev st) &&
                bool_decide (ls_slot_domain_inode (l_dev st) = file_inode v (dp_domain_file p)) in
  (domain_publish v p fault st).1 = (if fault then - EFAULT else 0) ∧
  if undone then drops_domain st st' else kept st st'.
Proof.
  unfold domain_publish. cbv zeta. destruct fault; cbn [negb andb]; [|split; [done | kept_frame]].
  destruct (_ && _ && bool_decide _); cbn [fst snd]; split; try done; [|kept_frame].
  unfold drop_domain_anchor. split_and!; [done | done |]. intros q. cbn. autorewrite with paths.
  destruct (ls_slot_domain_path (l_dev st)); [apply path_put_path | rewrite holds_None; lia].
Qed.

(** ** The anchors in the world *)

(** Each path is referenced once by each anchor that is on it, and by nothing else. *)
Definition anchored_paths (dev : mx_device_lease) (r : refs) : Prop :=
  ∀ p, r (RPath p) = holds (ls_state_path dev) p + holds (ls_slot_domain_path dev) p.

(** The slot domain belongs to an anchored state inode and is another inode. *)
Definition domain_below_state (dev : mx_device_lease) : Prop :=
  ls_slot_domain_path_valid dev = true →
  ls_state_path_valid dev = true ∧ ls_slot_domain_inode dev ≠ ls_state_inode dev.

(** What one step of the system does to the slot-domain anchor. *)
Inductive domain_step (w w' : world) : Prop :=
  | DsKept : slot_domain (w_dev w') = slot_domain (w_dev w) → domain_step w w'
  | DsSet v j i p :
      slot_domain (w_dev w) = no_anchor → w_pend w !! j = None →
      w_pend w' !! j = Some (i, PDomain p) → dp_fresh_anchor p = true →
      slot_domain (w_dev w') = anchor_of v (dp_domain_file p) →
      ls_state_path_valid (w_dev w') = true →
      ls_slot_domain_inode (w_dev w') ≠ ls_state_inode (w_dev w') → domain_step w w'
  | DsUndone v j i p :
      w_pend w !! j = Some (i, PDomain p) → w_pend w' !! j = None → dp_fresh_anchor p = true →
      ls_slot_domain_inode (w_dev w) = file_inode v (dp_domain_file p) →
      slot_domain (w_dev w') = no_anchor → domain_step w w'.

(** A step that leaves both anchors and the references on paths alone. *)
Definition wkept (w w' : world) : Prop :=
  state_anchor (w_dev w') = state_anchor (w_dev w) ∧ slot_domain (w_dev w') = slot_domain (w_dev w) ∧
  ∀ p, w_refs w' (RPath p) = w_refs w (RPath p).

Lemma kept_store w i c st : kept (w_state w c) st → wkept w (w_store i st w).
Proof. by intros [K1 K2 K3]. Qed.

Lemma ctx_put_kept w0 w i c : wkept w0 w → wkept w0 (ctx_put i c w).
Proof.
  intros (K1 & K2 & K3). unfold ctx_put. case_match; [|done].
  destruct (mx_file_ctx_free _) as [dev r] eqn:E. unfold mx_file_ctx_free in E.
  destruct (mx_lease_sm_release _ _). injection E as <- <-. split_and!; [exact K1 | exact K2 |].
  intros p. cbn. by autorewrite with paths.
Qed.

Lemma direct_begin_kept st : kept st (mx_lease_direct_begin st).2.
Proof. unfold mx_lease_direct_begin. cbv zeta. repeat case_match; done. Qed.

Lemma transfer_get_kept me st tl : kept st (mx_lease_transfer_get me st tl).1.2.
Proof. unfold mx_lease_transfer_get. cbv zeta. repeat case_match; kept_frame. Qed.

Lemma call_anchor v st r :
  lease_call v st r →
  kept st (out r) ∨ (∃ f, sets_state v f st (out r)) ∨
  ∃ p st', r = inr (PDomain p, st') ∧ dp_fresh_anchor p = true ∧ sets_domain v (dp_domain_file p) st st' ∧
           domain_at v (dp_domain_file p) st'.
Proof.
  destruct 1; rewrite ?out_wrap.
  - destruct (acquire_locked_anchor v req st); auto.
  - left. apply transition_locked_kept.
  - pose proof (domain_locked_anchor v req st) as H. destruct (domain_locked v req st) as [[ret st']|[p st']]; cbn.
    + left. apply H.
    + destruct H as (_ & Hat & H). destruct (dp_fresh_anchor p) eqn:Hf; [|by left]. right. right. by exists p, st'.
  - left. apply bind_locked_kept.
  - left. apply unbind_locked_kept.
Qed.

Lemma publish_anchor v p fault st :
  let st' := (publish v p fault st).2 in
  kept st st' ∨ (∃ a, p = PAcquire a ∧ fault = true ∧ drops_state st st') ∨
  ∃ d, p = PDomain d ∧ dp_fresh_anchor d = true ∧
       ls_slot_domain_inode (l_dev st) = file_inode v (dp_domain_file d) ∧ drops_domain st st'.
Proof.
  destruct p as [a|t|d|b|u]; cbn [publish].
  - destruct (acquire_publish_anchor v a fault st) as [?|[? ?]]; [by left|]. right. left. eauto.
  - left. apply transition_publish_kept.
  - destruct (domain_publish_anchor v d fault st) as [_ H]. case_match eqn:Hu; [|by left].
    breflect. right. right. exists d. by split_and!.
  - left. apply bind_publish_kept.
  - left. apply unbind_publish_kept.
Qed.

(** *** The references *)

Definition world_paths (w : world) : Prop := anchored_paths (w_dev w) (w_refs w).

Lemma anchored_paths_kept w w' : wkept w w' → world_paths w → world_paths w'.
Proof.
  intros (S & D & Hp) Hw p. injection S as S1 _ _. injection D as D1 _ _. by rewrite Hp, S1, D1.
Qed.

(** An anchor that is not valid holds no path. *)
Lemma anchors_agree dev : anchor_inv dev →
  (ls_state_path_valid dev = false → state_anchor dev = no_anchor) ∧
  (ls_slot_domain_path_valid dev = false → slot_domain dev = no_anchor).
Proof.
  intros [A1 A2 A3 A4 [A5 A5'] A6]. split; intros Hv; unfold state_anchor, slot_domain.
  - rewrite Hv. by destruct (A2 Hv) as (-> & -> & _).
  - rewrite Hv in *.
    by destruct (ls_slot_domain_inode dev), (ls_slot_domain_path dev).
Qed.

Lemma store_paths w i c st v :
  anchor_inv (w_dev w) →
  kept (w_state w c) st ∨ (∃ f, sets_state v f (w_state w c) st) ∨ drops_state (w_state w c) st ∨
    (∃ f, sets_domain v f (w_state w c) st) ∨ drops_domain (w_state w c) st →
  world_paths w → world_paths (w_store i st w).
Proof.
  intros Ha Hc Hw. destruct (anchors_agree _ Ha) as [Ns Nd].
  destruct Hc as [Hk|[[f Hs]|[Hs|[[f Hs]|Hs]]]].
  - by eapply anchored_paths_kept; [eapply kept_store|].
  - destruct Hs as (Hv & [= S1 _ _] & [= D1 _ _] & Hp). pose proof (Ns Hv) as [= E _ _].
    intros p. cbn. rewrite Hp, S1, D1. cbn. rewrite (Hw p), E, holds_None. lia.
  - destruct Hs as ([= S1 _ _] & [= D1 _ _] & Hp).
    intros p. cbn. rewrite Hp, S1, D1. cbn. rewrite (Hw p), holds_None. lia.
  - destruct Hs as (Hv & [= D1 _ _] & _ & _ & _ & [= S1 _ _] & Hp). pose proof (Nd Hv) as [= E _ _].
    intros p. cbn. rewrite Hp, S1, D1. cbn. rewrite (Hw p), E, holds_None. lia.
  - destruct Hs as ([= D1 _ _] & [= S1 _ _] & Hp).
    intros p. cbn. rewrite Hp, S1, D1. cbn. rewrite (Hw p), holds_None. lia.
Qed.

(** *** Steps *)

(** Every step outside the lease calls and publications leaves the anchors alone. *)
Lemma wstep_anchor faults w w' : wstep faults w w' →
  wkept w w' ∨
  (∃ v i c r, w_ctxs w !! i = Some c ∧ lease_call v (w_state w c) r ∧
     match r with
     | inl (_, st) => w' = w_store i st w
     | inr (p, st) => ∃ j, w_pend w !! j = None ∧ w' = w_store i st w <| w_pend := <[j := (i, p)]> (w_pend w) |>
     end) ∨
  (∃ v i c j p fault, w_pend w !! j = Some (i, p) ∧ w_ctxs w !! i = Some c ∧ may_fault faults p fault ∧
     w' = w_store i (publish v p fault (w_state w c)).2 w <| w_pend := delete j (w_pend w) |>).
Proof.
  intros Hs. destruct Hs as [i cdev Hi Hopen|v i ctx ret st Hi Hopen Hc|v i ctx j p st Hi Hopen Hj Hc|v i ctx j p fault Hj Hi Hf
    |i ctx c ret st Hi Hopen Hc Hb|i ctx c Hc Hi|i ctx c t st tl Hc Hi Ht Hg|t tl i ctx ctx' r tl' Ht Ho Hi Hput
    |i ctx c o alloc remap vma bd bd' ctx' bv Hc Hi Ho Hm|i ctx o bd bv bd' ctx' Ho Hi Hcl|i ctx Hi Hopen Hp Hc|].
  - by left.
  - right. left. exists v, i, ctx, (inl (ret, st)). by split_and!.
  - right. left. exists v, i, ctx, (inr (p, st)). split_and!; [done | done | by exists j].
  - right. right. exists v, i, ctx, j, p, fault. by split_and!.
  - left. pose proof (direct_begin_kept (w_state w ctx)) as Hk. rewrite Hb in Hk. by apply (kept_store w i ctx).
  - by left.
  - left. pose proof (transfer_get_kept i (w_state w ctx) (MkTl None None None)) as Hk. rewrite Hg in Hk.
    by apply (kept_store w i ctx).
  - left. apply ctx_put_kept. unfold mx_lease_transfer_put in Hput. injection Hput as _ <- _.
    split_and!; [done | done |]. intros p. cbn. by autorewrite with paths.
  - by left.
  - left. by apply ctx_put_kept.
  - left. by apply ctx_put_kept.
  - by left.
Qed.

Lemma wstep_paths faults w w' : wstep faults w w' → world_inv w → world_paths w → world_paths w'.
Proof.
  intros Hs Hw Hp. pose proof (proj2 (wi_dev w (proj1 Hw))) as Ha.
  destruct (wstep_anchor _ _ _ Hs) as [Hk|[(v & i & c & r & Hi & Hc & Hr)|(v & i & c & j & p & fault & _ & _ & _ & ->)]].
  - by eapply anchored_paths_kept.
  - assert (world_paths (w_store i (out r) w)) as Hgoal.
    { apply (store_paths w i c _ v); [done | | done].
      destruct (call_anchor _ _ _ Hc) as [?|[?|(p & st & -> & _ & ? & _)]]; [by left | auto |].
      right. right. right. left. by exists (dp_domain_file p). }
    destruct r as [[ret st]|[p st]]; [by subst | by destruct Hr as (j & _ & ->)].
  - apply (store_paths w i c _ v); [done | | done].
    destruct (publish_anchor v p fault (w_state w c)) as [?|[(a & _ & _ & ?)|(d & _ & _ & _ & ?)]]; tauto.
Qed.

Lemma reachable_paths faults w : reachable faults w → world_paths w.
Proof.
  intros [n Hr]. revert w Hr.
  apply (rtc_ind_r (λ w, world_paths w) (world0 n)); [done|].
  intros y z Hr Hs Hy. eapply wstep_paths; [done | | done]. apply (reachable_world_inv faults). by exists n.
Qed.

(** The slot domain: how a step moves it, and where it ends up. *)
Lemma wstep_domain faults w w' : wstep faults w w' → world_inv w → domain_step w w'.
Proof.
  intros Hs Hw. destruct (anchors_agree _ (proj2 (wi_dev w (proj1 Hw)))) as [Ns Nd].
  pose proof (ai_none _ (proj2 (wi_dev w (proj1 Hw)))) as Hnone.
  destruct (wstep_anchor _ _ _ Hs) as [Hk|[(v & i & c & r & Hi & Hc & Hr)|(v & i & c & j & p & fault & Hj & _ & _ & ->)]].
  - apply DsKept, Hk.
  - destruct (call_anchor _ _ _ Hc) as [Hk|[[f Hk]|(p & st & -> & Hf & Hk & Hat)]].
    + apply DsKept. destruct r as [[ret st]|[p st]]; [subst | destruct Hr as (j & _ & ->)]; apply Hk.
    + apply DsKept. destruct r as [[ret st]|[p st]]; [subst | destruct Hr as (j & _ & ->)]; apply Hk.
    + destruct Hr as (j & Hj & ->). destruct Hk as (Hv & Hd & Hino & Hne & Hg & [= S1 S2 S3] & _).
      eapply (DsSet _ _ v j i p); cbn; [by apply Nd | done | apply lookup_insert_eq | done | done | |].
      * rewrite S2. destruct (ls_state_path_valid (w_dev w)) eqn:E; [done|].
        by destruct (Hnone eq_refl) as (_ & _ & ? & _).
      * rewrite S3. cbn. destruct Hat as (_ & -> & _). done.
  - destruct (publish_anchor v p fault (w_state w c)) as [Hk|[(a & _ & _ & Hk)|(d & -> & Hf & Hi & Hk)]].
    + apply DsKept, Hk.
    + apply DsKept, Hk.
    + eapply (DsUndone _ _ v j i d); [done | apply lookup_delete_eq | done | done | apply Hk].
Qed.

Lemma wstep_below w w' :
  wstep false w w' → world_inv w → domain_below_state (w_dev w) → domain_below_state (w_dev w').
Proof.
  intros Hs Hw Hb. unfold domain_below_state.
  destruct (wstep_anchor _ _ _ Hs) as [(S1 & D1 & _)|[(v & i & c & r & Hi & Hc & Hr)|(v & i & c & j & p & fault & Hj & _ & Hf & ->)]].
  - injection S1 as _ -> ->. injection D1 as _ -> ->. done.
  - assert (∃ st, w_dev w' = l_dev st ∧ st = out r) as (st & -> & ->).
    { destruct r as [[ret st]|[p st]]; [subst | destruct Hr as (j & _ & ->)]; by exists st. }
    clear Hr. destruct (call_anchor _ _ _ Hc) as [[S1 D1 _]|[(f & Hv & S1 & D1 & _)|(p & st & -> & _ & Hk & Hat)]].
    + injection S1 as _ -> ->. injection D1 as _ -> ->. done.
    + injection D1 as _ -> ->. cbn in Hv |- *. intros E. destruct (Hb E). congruence.
    + destruct Hat as (_ & Hat & Hne). cbn. intros _. rewrite Hat. split; [|done].
      destruct Hk as (_ & _ & _ & _ & Hg & S1 & _). injection S1 as _ -> _. cbn in *.
      destruct (ls_state_path_valid (w_dev w)) eqn:E; [done|].
      by destruct (ai_none _ (proj2 (wi_dev w (proj1 Hw))) E) as (_ & _ & ? & _).
  - destruct (publish_anchor v p fault (w_state w c)) as [[S1 D1 _]|[(a & -> & -> & _)|(d & _ & _ & _ & D1 & _)]].
    + cbn. injection S1 as _ -> ->. injection D1 as _ -> ->. done.
    + by specialize (Hf eq_refl).
    + cbn. injection D1 as _ -> _. done.
Qed.

Lemma reachable_below w : reachable false w → domain_below_state (w_dev w).
Proof.
  intros [n Hr]. revert w Hr.
  apply (rtc_ind_r (λ w, domain_below_state (w_dev w)) (world0 n)); [done|].
  intros y z Hr Hs Hy. eapply wstep_below; [done | | done]. apply (reachable_world_inv false). by exists n.
Qed.

(** *** The call, start to end *)

(** ANCHOR_SLOT_DOMAIN with nothing in between: 0 with the file of the request anchored,
    or an error with both anchors and their references as they were. *)
Lemma anchor_call v req fault st ret st' :
  anchor_inv (l_dev st) → open_fails_with_errno v →
  mx_lease_anchor_slot_domain v req fault st = (ret, st') →
  (ret = 0 ∧ fault = false ∧
   ∃ q f, req = Some q ∧ fget v (sd_slot_domain_fd q) = Some f ∧ domain_at v f st') ∨
  (ret ≠ 0 ∧ kept st st').
Proof.
  intros Ha Hopen. unfold mx_lease_anchor_slot_domain. errno.
  destruct req as [q|]; [|intros [= <- <-]; right; split; [done | apply kept_refl]].
  pose proof (domain_locked_anchor v q st) as Hl.
  destruct (domain_locked v q st) as [[e st1]|[p st1]].
  { intros [= <- <-]. right. split; [by apply Hl | apply Hl]. }
  intros Hp. destruct Hl as (Hf & Hat & Hfresh).
  destruct (domain_publish_anchor v p fault st1) as [Hret Hpub]. rewrite Hp in Hret, Hpub. cbn in Hret, Hpub.
  destruct fault; subst ret.
  - right. split; [by errno|]. destruct Hat as (E1 & E2 & _). rewrite E1, E2 in Hpub.
    rewrite bool_decide_eq_true_2 in Hpub by done.
    destruct (dp_fresh_anchor p); cbn in Hpub; [|by eapply kept_trans].
    destruct (anchors_agree _ Ha) as [_ Nd].
    destruct Hfresh as (Hv & [= D1 D2 D3] & _ & _ & _ & S1 & P1). destruct Hpub as (D' & S' & P').
    constructor; [by rewrite S' | by rewrite D', Nd |]. intros k. rewrite P', P1, D1. lia.
  - left. split_and!; [done | done |]. exists q, (dp_domain_file p). split_and!; [done | done |].
    cbn in Hpub. destruct Hpub as [[= S1 S2 S3] [= D1 D2 D3] _]. unfold domain_at.
    by rewrite D2, D3, S3.
Qed.
