(* ===== verification/LeaseSafety.v ===== *)
(** * What the lease protects

    Hardware access (a direct call, a transfer in flight, a live BAR mapping) against
    the claims of the files: the safety theorems of the lease system, the consistency of
    the device anchor and of the bookkeeping, and the one way the exclusion is lost. *)

From S2P Require Import Prelude Uapi LeaseSM LeaseInv LeasePolicy LeaseTypes Lease LeaseAnchor BarMap LeaseWorld LeaseDomain.

(** ** Access and claims *)

(** The context can reach the hardware: a direct call runs, a transfer is in flight, or
    the BAR is mapped. *)
Definition active (c : mx_file_ctx) : Prop :=
  cx_direct_count c ≠ 0 ∨ cx_transfer_count c ≠ 0 ∨ cx_bar_mapping_count c ≠ 0.

(** A claim that admits hardware access. *)
Definition may_access (h : mx_lease_sm_holder) : Prop :=
  h_legacy h = true ∨
  (h_profile h ≠ 0 ∧ (h_phase h = MX_LEASE_PHASE_QUIESCENT ∨ h_phase h = MX_LEASE_PHASE_WORKLOAD)).

Definition access_inv (w : world) : Prop :=
  ∀ i c, w_ctxs w !! i = Some c → active c → may_access (cx_lease c).

(** ** An active context keeps its claim *)

Lemma acquire_active sm h p r sm' h' :
  may_access h → mx_lease_sm_acquire sm h p = (r, sm', h') → h' = h.
Proof.
  intros Hm. unfold mx_lease_sm_acquire, nz. cbv zeta. intros Ha.
  case_match; [by simplify_eq|]. case_match eqn:Hl; [by simplify_eq|].
  apply orb_false_iff in Hl as [Hl _]. destruct Hm as [Hm|[Hp _]]; [congruence|].
  rewrite (proj2 (Z.eqb_neq (h_profile h) 0)) in Ha by done. cbn [negb] in Ha. by simplify_eq.
Qed.

Lemma transition_active sm h op d t b anchored r sm' h' :
  may_access h → d ≠ 0 ∨ t ≠ 0 ∨ b ≠ 0 →
  mx_lease_sm_transition sm h op d t b anchored = (r, sm', h') → h' = h.
Proof.
  intros Hm Hact Ht.
  assert (nz d || nz t || nz b = true) as Hn.
  { unfold nz. destruct (Z.eqb_spec d 0), (Z.eqb_spec t 0), (Z.eqb_spec b 0); cbn; try done. lia. }
  unfold mx_lease_sm_transition, transition_initializer, transition_switch in Ht. rewrite Hn in Ht.
  unfold may_access in Hm. uapi. rewrite ?andb_true_r in Ht.
  destruct (h_legacy h) eqn:El; [rewrite orb_true_r in Ht; by simplify_eq|].
  destruct Hm as [Hm|[_ [Hq|Hq]]]; [done|..]; rewrite Hq in Ht; cbn in Ht;
    repeat (case_match; simplify_eq/=; try done); breflect; done.
Qed.

Lemma begin_access st ret st' :
  mx_lease_direct_begin st = (ret, st') →
  (cx_lease (l_ctx st') = cx_lease (l_ctx st) ∨ h_legacy (cx_lease (l_ctx st')) = true) ∧
  (ret = 0 → may_access (cx_lease (l_ctx st'))).
Proof.
  unfold mx_lease_direct_begin, mx_lease_sm_admit_direct, mx_lease_sm_authorize_direct_anchored,
    mx_lease_sm_authorize_direct, may_access, nz. cbv zeta. errno. intros Hb.
  repeat (case_match; simplify_eq/=; try (split; [by auto | by intros])); breflect; split; auto; intros; try lia;
    right; split; auto; breflect; try lia.
Qed.

Lemma active_counts c c' : same_counts c c' → active c' → active c.
Proof. unfold same_counts, active. intros (_ & -> & -> & ->). done. Qed.

Lemma acquire_locked_claim v req st :
  may_access (cx_lease (l_ctx st)) → cx_lease (l_ctx (out (acquire_locked v req st))) = cx_lease (l_ctx st).
Proof.
  intros Hm. unfold acquire_locked. cbv zeta.
  repeat (case_match; cbn; try done; simplify_eq);
    repeat (case_match; cbn; simplify_eq); try done; by eapply acquire_active.
Qed.

Lemma lease_call_access v st r :
  lease_call v st r → active (l_ctx st) → may_access (cx_lease (l_ctx st)) →
  cx_lease (l_ctx (out r)) = cx_lease (l_ctx st).
Proof.
  intros Hc Hact Hm. destruct Hc; rewrite out_wrap.
  - by apply acquire_locked_claim.
  - unfold transition_locked. cbv zeta. repeat (case_match; cbn; try done; simplify_eq).
    eapply transition_active; [done | exact Hact | done].
  - unfold domain_locked. cbv zeta. by repeat (case_match; cbn; simplify_eq).
  - unfold bind_locked. cbv zeta. by repeat (case_match; cbn; simplify_eq).
  - unfold unbind_locked. cbv zeta. by repeat (case_match; cbn; simplify_eq).
Qed.

Lemma publish_claim v p fault st :
  may_fault false p fault → cx_lease (l_ctx (publish v p fault st).2) = cx_lease (l_ctx st).
Proof.
  destruct p; cbn; intros Hf.
  - destruct fault; [by specialize (Hf eq_refl) | done].
  - destruct fault; [by specialize (Hf eq_refl) | done].
  - unfold domain_publish. cbv zeta. by repeat case_match.
  - unfold bind_publish. cbv zeta. by repeat case_match.
  - unfold unbind_publish. cbv zeta. by repeat case_match.
Qed.

(** Replacing one context. *)
Lemma access_update w w' i c' :
  w_ctxs w' = <[i := c']> (w_ctxs w) → access_inv w →
  (active c' → may_access (cx_lease c')) → access_inv w'.
Proof.
  intros E Ha Hc j c. rewrite E. intros [[<- <-]|[_ Hj]]%lookup_insert_Some; [done | by apply (Ha j)].
Qed.

Lemma ctx_put_access i c w :
  access_inv w → (active c → may_access (cx_lease c)) → access_inv (ctx_put i c w).
Proof.
  intros Ha Hc. unfold ctx_put. case_match.
  - destruct (mx_file_ctx_free _) as [dev r]. unfold access_inv. cbn. intros j x [_ Hj]%lookup_delete_Some. eauto.
  - by eapply access_update.
Qed.

Lemma call_active w c i ctx :
  world_inv w → w_calls w !! c = Some i → w_ctxs w !! i = Some ctx → cx_direct_count ctx ≠ 0.
Proof.
  intros [Hp _] Hc Hi. rewrite (proj1 (wi_direct w Hp i ctx Hi)).
  pose proof (msum_on_ctx_pos i _ c Hc). lia.
Qed.

Lemma access_step w w' : world_inv w → wstep false w w' → access_inv w → access_inv w'.
Proof.
  intros Hw Hs Ha. destruct Hs.
  - eapply access_update; [reflexivity | exact Ha | cbn]. intros [?|[?|?]]; done.
  - eapply access_update; [reflexivity | exact Ha | cbn]. intros Hact. pose proof (lease_call_counts _ _ _ H1) as Hc.
    pose proof (active_counts _ _ Hc Hact) as Hact'. pose proof (Ha i ctx H Hact') as Hm.
    cbn. by rewrite (lease_call_access _ _ _ H1 Hact' Hm : cx_lease (l_ctx st) = _).
  - eapply access_update; [reflexivity | exact Ha | cbn]. intros Hact. pose proof (lease_call_counts _ _ _ H2) as Hc.
    pose proof (active_counts _ _ Hc Hact) as Hact'. pose proof (Ha i ctx H Hact') as Hm.
    cbn. by rewrite (lease_call_access _ _ _ H2 Hact' Hm : cx_lease (l_ctx st) = _).
  - eapply access_update; [reflexivity | exact Ha | cbn]. intros Hact.
    rewrite publish_claim by done. apply (Ha i ctx H0).
    by eapply active_counts; [apply (publish_counts v p fault (w_state w ctx))|].
  - eapply access_update; [reflexivity | exact Ha | cbn]. intros Hact. pose proof (begin_access _ _ _ H2) as [Hor Hok].
    destruct Hw as [Hp _]. destruct (wi_direct w Hp i ctx H) as [D1 D2].
    pose proof (msum_on_ctx_nonneg i (w_calls w)).
    destruct (direct_begin_counts _ _ _ H2) as (E1 & E2 & E3 & E4 & _); [cbn; lia|].
    destruct (Z.eqb_spec ret 0) as [Hr|Hr]; [by apply Hok|].
    destruct Hor as [->|Hleg]; [|by left]. apply (Ha i ctx H).
    unfold active in *. rewrite E2, E3, E4, Z.add_0_r in Hact. exact Hact.
  - eapply access_update; [reflexivity | exact Ha | cbn]. intros _. pose proof (call_active _ _ _ _ Hw H H0).
    unfold mx_lease_direct_end. case_match; cbn; apply (Ha i ctx H0); by left.
  - eapply access_update; [reflexivity | exact Ha | cbn]. intros _. pose proof (call_active _ _ _ _ Hw H H0).
    pose proof (Ha i ctx H0 (or_introl H3)) as Hm.
    unfold mx_lease_transfer_get in H2. cbv zeta in H2. by repeat (case_match; simplify_eq/=).
  - apply ctx_put_access; [exact Ha|]. intros _. destruct Hw as [Hp _].
    pose proof (msum_xfer_pos i _ t tl H H0). rewrite <- (proj1 (wi_transfer w Hp i ctx H1)) in *.
    assert (may_access (cx_lease ctx)) by (apply (Ha i ctx H1); right; left; lia).
    unfold mx_lease_transfer_put in H2. by case_match; simplify_eq/=.
  - eapply access_update; [reflexivity | exact Ha | cbn]. intros _. pose proof (call_active _ _ _ _ Hw H H0).
    apply mmap_ok in H2 as (_ & _ & _ & _ & ->). apply (Ha i ctx H0). by left.
  - apply ctx_put_access; [exact Ha|]. intros _. destruct Hw as [Hp _].
    pose proof (msum_on_ctx_pos i _ o H). rewrite <- (proj1 (wi_mapping w Hp i ctx H0)) in *.
    assert (may_access (cx_lease ctx)) by (apply (Ha i ctx H0); right; right; lia).
    unfold mx_bar_vma_close in H1. by repeat case_match; simplify_eq/=.
  - apply ctx_put_access; [exact Ha|]. by apply (Ha i).
  - exact Ha.
Qed.

Lemma reachable_access w : reachable false w → world_inv w ∧ access_inv w.
Proof.
  intros [n Hr]. revert w Hr.
  apply (rtc_ind_r (fun w => world_inv w ∧ access_inv w)).
  - split; [apply world0_inv|]. intros i c. cbn. by rewrite lookup_empty.
  - intros y z _ Hstep [Hy Hay]. split; [by eapply wstep_inv | by eapply access_step].
Qed.

(** ** Executable runs *)

(** The actions the examples are made of, and their effect; [None]: not enabled. *)
Inductive action :=
  | AOpen (i : nat) (cdev : Z)
  | AAcquire (i j : nat) (req : mx_lease_acquire_t)
  | ATransition (i j : nat) (req : mx_lease_transition_t)
  | ADomain (i j : nat) (req : mx_lease_slot_domain_t)
  | APublish (j : nat) (fault : bool)
  | ABegin (i c : nat)
  | AEnd (c : nat)
  | AMap (c o : nat) (vma : vm_area) (bd : bar_dev).

Definition committed {P} (c : P → pending) (i j : nat) (r : Z * lstate + P * lstate) (w : world) : option world :=
  match r with
  | inl _ => None
  | inr (p, st) => Some (w_store i st w <| w_pend := <[j := (i, c p)]> (w_pend w) |>)
  end.

Definition none {A} (o : option A) : bool := match o with None => true | Some _ => false end.

Definition exec (v : vfs) (a : action) (w : world) : option world :=
  match a with
  | AOpen i cdev =>
    match w_ctxs w !! i with
    | Some _ => None
    | None =>
      if ls_removed (w_dev w) then None
      else Some (w <| w_ctxs := <[i := ctx_new cdev]> (w_ctxs w) |> <| w_open := {[i]} ∪ w_open w |>)
    end
  | AAcquire i j req =>
    ctx ← w_ctxs w !! i;
    if bool_decide (i ∈ w_open w) && none (w_pend w !! j)
    then committed PAcquire i j (acquire_locked v req (w_state w ctx)) w else None
  | ATransition i j req =>
    ctx ← w_ctxs w !! i;
    if bool_decide (i ∈ w_open w) && none (w_pend w !! j)
    then committed PTransition i j (transition_locked v req (w_state w ctx)) w else None
  | ADomain i j req =>
    ctx ← w_ctxs w !! i;
    if bool_decide (i ∈ w_open w) && none (w_pend w !! j)
    then committed PDomain i j (domain_locked v req (w_state w ctx)) w else None
  | APublish j fault =>
    '(i, p) ← w_pend w !! j; ctx ← w_ctxs w !! i;
    Some (w_store i (publish v p fault (w_state w ctx)).2 w <| w_pend := delete j (w_pend w) |>)
  | ABegin i c =>
    ctx ← w_ctxs w !! i;
    if bool_decide (i ∈ w_open w) && none (w_calls w !! c)
    then
      let '(ret, st) := mx_lease_direct_begin (w_state w ctx) in
      Some (w_store i st w <| w_calls := if ret =? 0 then <[c := i]> (w_calls w) else w_calls w |>)
    else None
  | AEnd c =>
    i ← w_calls w !! c; ctx ← w_ctxs w !! i;
    Some (w <| w_ctxs := <[i := mx_lease_direct_end ctx]> (w_ctxs w) |>
            <| w_calls := delete c (w_calls w) |>)
  | AMap c o vma bd =>
    i ← w_calls w !! c; ctx ← w_ctxs w !! i;
    match w_maps w !! o, mx_bar_mmap true 0 i vma bd ctx with
    | None, (ret, _, ctx', Some _) =>
      if ret =? 0
      then Some (w <| w_ctxs := <[i := ctx']> (w_ctxs w) |> <| w_maps := <[o := i]> (w_maps w) |>)
      else None
    | _, _ => None
    end
  end.

Definition is_fault (a : action) : bool := match a with APublish _ b => b | _ => false end.

Lemma none_spec {A} (o : option A) : none o = true → o = None.
Proof. by destruct o. Qed.

Lemma committed_step {P} b v (f : P → pending) i j (r : Z * lstate + P * lstate) w ctx w' :
  w_ctxs w !! i = Some ctx → i ∈ w_open w → w_pend w !! j = None →
  lease_call v (w_state w ctx) (wrap f r) → committed f i j r w = Some w' → wstep b w w'.
Proof.
  intros Hi Ho Hj Hc He. unfold committed in He. destruct r as [|[p st]]; simplify_eq.
  by eapply WCommit.
Qed.

Lemma exec_step v a b w w' :
  exec v a w = Some w' → (is_fault a = true → b = true) → wstep b w w'.
Proof.
  intros He Hfl. destruct a as [i cdev|i j req|i j req|i j req|j fault|i c|c|c o vma bd]; cbn -[mx_bar_mmap] in He.
  - destruct (w_ctxs w !! i) eqn:?; [done|]. destruct (ls_removed _) eqn:?; simplify_eq. by apply WOpen.
  - destruct (w_ctxs w !! i) as [ctx|] eqn:Hi; cbn in He; [|done]. case_match eqn:G; [|done].
    apply andb_true_iff in G as [Ho%bool_decide_eq_true Hj%none_spec].
    eapply committed_step; [exact Hi | done | exact Hj | apply call_acquire | exact He].
  - destruct (w_ctxs w !! i) as [ctx|] eqn:Hi; cbn in He; [|done]. case_match eqn:G; [|done].
    apply andb_true_iff in G as [Ho%bool_decide_eq_true Hj%none_spec].
    eapply committed_step; [exact Hi | done | exact Hj | apply call_transition | exact He].
  - destruct (w_ctxs w !! i) as [ctx|] eqn:Hi; cbn in He; [|done]. case_match eqn:G; [|done].
    apply andb_true_iff in G as [Ho%bool_decide_eq_true Hj%none_spec].
    eapply committed_step; [exact Hi | done | exact Hj | apply call_domain | exact He].
  - destruct (w_pend w !! j) as [[i p]|] eqn:Hj; cbn in He; [|done].
    destruct (w_ctxs w !! i) as [ctx|] eqn:Hi; cbn in He; [|done]. simplify_eq.
    eapply WPublish; [exact Hj | exact Hi |]. destruct p; cbn in *; done.
  - destruct (w_ctxs w !! i) as [ctx|] eqn:Hi; cbn in He; [|done]. case_match eqn:G; [|done].
    apply andb_true_iff in G as [Ho%bool_decide_eq_true Hj%none_spec].
    destruct (mx_lease_direct_begin _) as [ret st] eqn:Hb. simplify_eq. by eapply WBegin.
  - destruct (w_calls w !! c) as [i|] eqn:Hc; cbn in He; [|done].
    destruct (w_ctxs w !! i) as [ctx|] eqn:Hi; cbn in He; [|done]. simplify_eq. by eapply WEnd.
  - destruct (w_calls w !! c) as [i|] eqn:Hc; cbn -[mx_bar_mmap] in He; [|done].
    destruct (w_ctxs w !! i) as [ctx|] eqn:Hi; cbn -[mx_bar_mmap] in He; [|done].
    destruct (w_maps w !! o) eqn:Ho; [done|]. revert He.
    destruct (mx_bar_mmap true 0 i vma bd ctx) as [[[ret bd'] ctx'] [bv|]] eqn:Hm; intros He; [|done].
    destruct (Z.eqb_spec ret 0) as [->|]; simplify_eq. by eapply WMap.
Qed.

Fixpoint run (v : vfs) (l : list action) (w : world) : option world :=
  match l with [] => Some w | a :: l => w' ← exec v a w; run v l w' end.

Lemma run_rtc v l b w w' :
  run v l w = Some w' → (existsb is_fault l = true → b = true) → rtc (wstep b) w w'.
Proof.
  revert w. induction l as [|a l IH]; cbn; intros w Hr Hf; [by simplify_eq|].
  destruct (exec v a w) as [x|] eqn:He; cbn in Hr; [|done].
  eapply rtc_l; [eapply exec_step; [exact He|] | apply IH; [exact Hr|]]; intros E; apply Hf; rewrite E;
    [done | by rewrite orb_true_r].
Qed.

Lemma run_reachable v l b n w :
  run v l (world0 n) = Some w → (existsb is_fault l = true → b = true) → reachable b w.
Proof. intros. exists n. by eapply run_rtc. Qed.

(** ** Example runs *)

(** Every descriptor is a read-write tmpfs file; descriptor [n] is file [n], inode [n]; a
    clone of file [n] is file [n + 100]. *)
Definition demo_vfs : vfs :=
  MkVfs Some (fun _ => true) (fun _ => true) (fun _ => 0) (fun f => Some (f mod 100)) (fun f => f) (fun _ => true)
    (fun _ => false) (fun _ => Some TMPFS_MAGIC) (fun _ => 1) (fun i => i) true
    (fun f => inr (f + 100)) (fun _ _ _ _ => 0) (fun _ _ _ _ => (0, 0)).

Definition demo_acquire (generation profile : Z) : mx_lease_acquire_t :=
  MkAcq MX_LEASE_ABI_MAGIC 7 generation 1 2 3 profile MX_LEASE_ABI_VERSION sizeof_lease_acquire
    0 0 0 0 0 0 0 0 0 0 0 0.

Definition demo_transition (generation operation : Z) : mx_lease_transition_t :=
  MkTrans MX_LEASE_ABI_MAGIC 7 generation operation MX_LEASE_ABI_VERSION sizeof_lease_transition
    0 0 0 0 0 0 0 0 0 0 0.

Definition demo_vma : vm_area := MkArea 0 true 0 4096 1.
Definition demo_bar : bar_dev := MkBar true 0 4096 ∅ ∅ 1 0 None 1.

(** Two contexts, the publisher of a family and a workload of it, both mapped. *)
Definition demo_shared : list action :=
  [ AOpen 0 MX_CDEV_IOCTL; AOpen 1 MX_CDEV_IOCTL;
    AAcquire 0 0 (demo_acquire 0 MX_LEASE_PROFILE_STANDALONE_PUBLISHER); APublish 0 false;
    ATransition 0 0 (demo_transition 1 MX_LEASE_TRANSITION_ACTIVATE_WORKLOAD); APublish 0 false;
    AAcquire 1 0 (demo_acquire 1 MX_LEASE_PROFILE_STANDALONE_WORKLOAD); APublish 0 false;
    ABegin 0 0; ABegin 1 1; AMap 0 0 demo_vma demo_bar; AMap 1 1 demo_vma demo_bar; AEnd 0; AEnd 1 ].

(** A publisher that maps the BAR, acquires again and loses the reply of the second
    acquisition; another file then acquires the same profile. *)
Definition demo_fault : list action :=
  [ AOpen 0 MX_CDEV_IOCTL; AOpen 1 MX_CDEV_IOCTL;
    AAcquire 0 0 (demo_acquire 0 MX_LEASE_PROFILE_HUB_PUBLISHER); APublish 0 false;
    ABegin 0 0; AMap 0 0 demo_vma demo_bar; AEnd 0;
    AAcquire 0 0 (demo_acquire 1 MX_LEASE_PROFILE_HUB_PUBLISHER); APublish 0 true;
    AAcquire 1 0 (demo_acquire 1 MX_LEASE_PROFILE_HUB_PUBLISHER); APublish 0 false ].

(** ** Exclusion *)

Section exclusion.
Context (w : world) (Hinv : world_inv w) (Hacc : access_inv w).

Lemma ctx_claim i c : w_ctxs w !! i = Some c → (cx_lease <$> w_ctxs w) !! i = Some (cx_lease c).
Proof. intros Hi. by rewrite lookup_fmap, Hi. Qed.

Lemma world_lease_inv : lease_inv (ls_state (w_dev w)) (cx_lease <$> w_ctxs w).
Proof. apply (wi_dev w (proj1 Hinv)). Qed.

Lemma quiescent_only_active i j c c' :
  w_ctxs w !! i = Some c → w_ctxs w !! j = Some c' → i ≠ j →
  h_phase (cx_lease c) = MX_LEASE_PHASE_QUIESCENT → ¬ active c'.
Proof.
  intros Hi Hj Hne Hq Hact. pose proof (Hacc j c' Hj Hact) as Hm.
  destruct (quiescent_alone _ _ world_lease_inv i (cx_lease c) j (cx_lease c')) as [Hp Hl];
    eauto using ctx_claim.
  destruct Hm as [Hm|[Hm _]]; congruence.
Qed.

Lemma active_pair i j c c' :
  w_ctxs w !! i = Some c → w_ctxs w !! j = Some c' → i ≠ j → active c → active c' →
  (h_legacy (cx_lease c) = true ∧ h_legacy (cx_lease c') = true) ∨
  (h_phase (cx_lease c) = MX_LEASE_PHASE_WORKLOAD ∧ h_phase (cx_lease c') = MX_LEASE_PHASE_WORKLOAD ∧
   h_profile (cx_lease c) ≠ 0 ∧ h_profile (cx_lease c') ≠ 0 ∧
   mx_lease_profile_family (h_profile (cx_lease c)) = mx_lease_profile_family (h_profile (cx_lease c'))).
Proof.
  intros Hi Hj Hne Ha Ha'.
  pose proof (Hacc i c Hi Ha) as Hm. pose proof (Hacc j c' Hj Ha') as Hm'.
  pose proof (ctx_claim i c Hi) as Ci. pose proof (ctx_claim j c' Hj) as Cj.
  pose proof (quiescent_only_active i j c c' Hi Hj Hne) as Hq.
  pose proof (quiescent_only_active j i c' c Hj Hi (not_eq_sym Hne)) as Hq'.
  destruct Hm as [Hl|[Hp [Hph|Hph]]]; [|tauto|]; destruct Hm' as [Hl'|[Hp' [Hph'|Hph']]]; try tauto.
  - pose proof (no_legacy_with_claim _ _ world_lease_inv j i _ _ Cj Ci Hp'). congruence.
  - pose proof (no_legacy_with_claim _ _ world_lease_inv i j _ _ Ci Cj Hp). congruence.
  - right. split_and!; try done. by apply (claims_same_family _ _ world_lease_inv i j).
Qed.
End exclusion.

(** C1: Hardware exclusion.  In every state reachable by any interleaving of opens,
    closes, lease ioctls of any file, their later publications, direct calls, transfers,
    BAR mappings and device removal in which the reply of an acquisition or transition
    reaches user memory: two different files that can both reach the hardware at the
    same time (direct call running, transfer in flight or BAR mapped) are both legacy
    files, or both hold claims of the same family in the WORKLOAD phase; and while a
    file is QUIESCENT no other file can reach the hardware at all. *)
Theorem hardware_exclusion w i j c c' :
  reachable false w → w_ctxs w !! i = Some c → w_ctxs w !! j = Some c' → i ≠ j →
  (active c → active c' →
    (h_legacy (cx_lease c) = true ∧ h_legacy (cx_lease c') = true) ∨
    (h_phase (cx_lease c) = MX_LEASE_PHASE_WORKLOAD ∧ h_phase (cx_lease c') = MX_LEASE_PHASE_WORKLOAD ∧
     h_profile (cx_lease c) ≠ 0 ∧ h_profile (cx_lease c') ≠ 0 ∧
     mx_lease_profile_family (h_profile (cx_lease c)) = mx_lease_profile_family (h_profile (cx_lease c')))) ∧
  (h_phase (cx_lease c) = MX_LEASE_PHASE_QUIESCENT → ¬ active c').
Proof.
  intros [Hinv Hacc]%reachable_access Hi Hj Hne. split.
  - by apply (active_pair w Hinv Hacc i j).
  - by apply (quiescent_only_active w Hinv Hacc i j).
Qed.

Definition end_world (l : list action) : world := default (world0 7) (run demo_vfs l (world0 7)).
Definition end_ctx (l : list action) (i : nat) : mx_file_ctx :=
  default (ctx_new 0) (w_ctxs (end_world l) !! i).

Lemma end_reachable l b :
  is_some (run demo_vfs l (world0 7)) = true → (existsb is_fault l = true → b = true) →
  reachable b (end_world l).
Proof.
  intros Hs Hf. unfold end_world. destruct (run demo_vfs l (world0 7)) as [w|] eqn:E; [|done]. cbn.
  by eapply run_reachable.
Qed.

Lemma hardware_exclusion_witness :
  active (end_ctx demo_shared 0) ∧ active (end_ctx demo_shared 1) ∧
  h_phase (cx_lease (end_ctx demo_shared 0)) = MX_LEASE_PHASE_WORKLOAD.
Proof.
  assert (active (end_ctx demo_shared 0)) as A by (right; right; by vm_compute).
  assert (active (end_ctx demo_shared 1)) as B by (right; right; by vm_compute).
  split_and!; [exact A | exact B |].
  destruct (proj1 (hardware_exclusion (end_world demo_shared) 0 1 (end_ctx demo_shared 0)
    (end_ctx demo_shared 1) ltac:(apply end_reachable; by vm_compute) ltac:(by vm_compute)
    ltac:(by vm_compute) ltac:(done)) A B) as [[H _]|[H _]].
  - exfalso. revert H. by vm_compute.
  - exact H.
Defined.

(** C39: The exclusion needs the reply to arrive.  An acquisition whose [copy_to_user]
    faults gives up the claim of the file even when that claim was held before the call:
    a publisher that has the BAR mapped and acquires again ends with no claim and a live
    mapping, and the next file to acquire is QUIESCENT, alone by its claim, while the
    first still reaches the hardware. *)
Theorem reacquire_fault_loses_exclusion :
  ∃ w c c', reachable true w ∧ w_ctxs w !! 0%nat = Some c ∧ w_ctxs w !! 1%nat = Some c' ∧
    active c ∧ ¬ may_access (cx_lease c) ∧
    h_profile (cx_lease c') = MX_LEASE_PROFILE_HUB_PUBLISHER ∧
    h_phase (cx_lease c') = MX_LEASE_PHASE_QUIESCENT.
Proof.
  exists (end_world demo_fault), (end_ctx demo_fault 0), (end_ctx demo_fault 1). split_and!.
  - apply end_reachable; by vm_compute.
  - by vm_compute.
  - by vm_compute.
  - right; right; by vm_compute.
  - intros [H|[H _]]; revert H; by vm_compute.
  - by vm_compute.
  - by vm_compute.
Qed.

(** C27: Bookkeeping of the file contexts, in every reachable state, faulted replies
    included: the direct, transfer and mapping counters of a context are the numbers of
    its direct calls in progress, of its transfers in flight and of its live BAR
    mappings; none of them has wrapped; its reference count is one for the open file
    plus one per transfer and mapping, so a context is freed only when all of its
    counters are zero and its file is closed; and the file can reach the hardware exactly
    when one of the calls, transfers or mappings of the device is its own. *)
Theorem context_bookkeeping faults w i c :
  reachable faults w → w_ctxs w !! i = Some c →
  cx_direct_count c = msum (on_ctx i) (w_calls w) ∧
  cx_transfer_count c = msum (xfer_of i) (w_xfers w) ∧
  cx_bar_mapping_count c = msum (on_ctx i) (w_maps w) ∧
  0 ≤ cx_direct_count c ≤ U32_MAX ∧ 0 ≤ cx_transfer_count c ≤ U32_MAX ∧
  0 ≤ cx_bar_mapping_count c ≤ U32_MAX ∧
  cx_refs c = Z.b2z (bool_decide (i ∈ w_open w)) + cx_transfer_count c + cx_bar_mapping_count c ∧
  0 < cx_refs c ∧
  (cx_refs c = 1 → i ∈ w_open w → cx_transfer_count c = 0 ∧ cx_bar_mapping_count c = 0) ∧
  (i ∉ w_open w → cx_direct_count c = 0) ∧
  (active c ↔ 0 < msum (on_ctx i) (w_calls w) + msum (xfer_of i) (w_xfers w) + msum (on_ctx i) (w_maps w)).
Proof.
  intros [Hp Hpos]%reachable_world_inv Hi.
  destruct (wi_direct w Hp i c Hi), (wi_transfer w Hp i c Hi), (wi_mapping w Hp i c Hi).
  pose proof (wi_refs w Hp i c Hi) as Hr. pose proof (Hpos i c Hi).
  pose proof (msum_on_ctx_nonneg i (w_calls w)). pose proof (msum_on_ctx_nonneg i (w_maps w)).
  pose proof (msum_xfer_nonneg i (w_xfers w)).
  split_and!; try done; try lia.
  - intros Hone Ho. rewrite bool_decide_eq_true_2 in Hr by done. cbn in Hr. lia.
  - intros Ho. rewrite H, (msum_ext _ (fun _ => 0)), msum_zero; [done|].
    intros k j Hk. apply on_ctx_other. intros ->. by apply Ho, (wi_calls w Hp k).
  - unfold active. lia.
Qed.

Lemma context_bookkeeping_witness : cx_refs (end_ctx demo_shared 0) = 2.
Proof.
  pose proof (context_bookkeeping false (end_world demo_shared) 0 (end_ctx demo_shared 0)
    ltac:(apply end_reachable; by vm_compute) ltac:(by vm_compute)) as (_ & _ & _ & _ & _ & _ & -> & _).
  by vm_compute.
Defined.

(** A claim, or a legacy file, against the state anchor. *)
Lemma claim_anchored w i c :
  world_inv w → w_ctxs w !! i = Some c →
  (h_profile (cx_lease c) ≠ 0 →
     ls_state_path_valid (w_dev w) = true ∧ is_Some (ls_state_inode (w_dev w)) ∧
     ls_state_family (w_dev w) = mx_lease_profile_family (h_profile (cx_lease c))) ∧
  (h_legacy (cx_lease c) = true → ls_state_path_valid (w_dev w) = false) ∧
  (ls_generation (w_dev w) ≠ 0 ↔ ls_state_path_valid (w_dev w) = true) ∧
  (ls_state_path_valid (w_dev w) = true → may_access (cx_lease c) → h_profile (cx_lease c) ≠ 0).
Proof.
  intros Hw Hi. pose proof (world_lease_inv w Hw) as Hl.
  destruct (wi_dev w (proj1 Hw)) as [_ [A1 A2 A3 A4 A5 A6]]. pose proof (ctx_claim w i c Hi) as Ci.
  pose proof (claim_counted _ _ Hl i _ Ci) as (Ch & _ & _ & _ & Cl).
  assert (h_legacy (cx_lease c) = true → ls_state_path_valid (w_dev w) = false) as Hleg.
  { intros Hleg. apply A4. unfold is_legacy in Cl. rewrite Hleg in Cl. cbn in Cl. lia. }
  split; [|split; [exact Hleg|split]].
  - intros Hp. rewrite (hold_live _ Hp) in Ch. destruct A3 as [Hv Hf]; [lia|].
    split_and!; [done | by apply A1 |]. rewrite <- Hf. symmetry. by apply (inv_family _ _ Hl i).
  - destruct (ls_state_path_valid (w_dev w)).
    + destruct A1 as (_ & _ & ? & _); done.
    + destruct A2 as (_ & _ & -> & _); [done|]. by split.
  - intros Hv [Hm|[Hm _]]; [|done]. rewrite (Hleg Hm) in Hv. done.
Qed.

(** Freeing the device drops what the anchors hold. *)
Lemma free_paths dev r p :
  anchor_inv dev → anchored_paths dev r → (mx_pdev_free dev r).2 (RPath p) = 0.
Proof.
  intros Ha Hp. destruct (anchors_agree _ Ha) as [Ns Nd]. unfold mx_pdev_free.
  cbv zeta. set (lease := if nz (sm_family_holders _) || _ || _ || _ then _ else dev).
  assert (state_anchor lease = state_anchor dev ∧ slot_domain lease = slot_domain dev) as [S D].
  { subst lease. by case_match. }
  clearbody lease. injection S as S1 S2 _. injection D as D1 D2 _. cbn. rewrite S1, S2, D1, D2.
  assert (∀ (o : option Z) (q : Z) (r' : refs),
    match o with Some x => path_put x r' | None => r' end (RPath q) = r' (RPath q) - holds o q) as Hput.
  { intros [x|] q r'; [apply path_put_path | rewrite holds_None; lia]. }
  rewrite !Hput, (Hp p). unfold state_anchor, slot_domain, no_anchor in *.
  destruct (ls_state_path_valid dev), (ls_slot_domain_path_valid dev);
    repeat match goal with H : false = false → _ |- _ => injection (H eq_refl) as -> _ end;
    rewrite ?holds_None; lia.
Qed.

(** C28: The anchors of the device, in every reachable state, faulted replies included.
    The state anchor: a file with a claim implies that a state inode is anchored, of the
    family of the claim; a legacy file implies that none is; the lease generation is
    nonzero exactly while a state inode is anchored; and while one is, a file whose claim
    admits hardware access has acquired that claim.  The slot-domain anchor: its flag, its
    path and its inode are set together; a step sets it only as the ANCHOR_SLOT_DOMAIN
    that found none, on another inode than the anchored state inode, drops it only as the
    faulted reply of such a call for the same inode, and otherwise leaves it alone
    ([domain_step]); as long as no acquisition or transition faults it stays above the
    state anchor it was made for.  A whole call returns 0 with the file of the request
    anchored, or an error with both anchors as they were.  Each anchor holds one reference
    on its path and nothing else holds any: freeing the device leaves none. *)
Theorem anchor_consistent faults w i c :
  reachable faults w → w_ctxs w !! i = Some c →
  ((h_profile (cx_lease c) ≠ 0 →
     ls_state_path_valid (w_dev w) = true ∧ is_Some (ls_state_inode (w_dev w)) ∧
     ls_state_family (w_dev w) = mx_lease_profile_family (h_profile (cx_lease c))) ∧
   (h_legacy (cx_lease c) = true → ls_state_path_valid (w_dev w) = false) ∧
   (ls_generation (w_dev w) ≠ 0 ↔ ls_state_path_valid (w_dev w) = true) ∧
   (ls_state_path_valid (w_dev w) = true → may_access (cx_lease c) → h_profile (cx_lease c) ≠ 0)) ∧
  (ls_slot_domain_path_valid (w_dev w) = is_some (ls_slot_domain_inode (w_dev w)) ∧
   ls_slot_domain_path_valid (w_dev w) = is_some (ls_slot_domain_path (w_dev w)) ∧
   (∀ w', wstep faults w w' → domain_step w w') ∧
   (faults = false → domain_below_state (w_dev w)) ∧
   (∀ v req fault ret st, open_fails_with_errno v →
      mx_lease_anchor_slot_domain v req fault (w_state w c) = (ret, st) →
      (ret = 0 ∧ fault = false ∧
       ∃ q f, req = Some q ∧ fget v (sd_slot_domain_fd q) = Some f ∧ domain_at v f st) ∨
      (ret ≠ 0 ∧ kept (w_state w c) st))) ∧
  anchored_paths (w_dev w) (w_refs w) ∧
  (∀ p, (mx_pdev_free (w_dev w) (w_refs w)).2 (RPath p) = 0).
Proof.
  intros Hr Hi. pose proof (reachable_world_inv _ _ Hr) as Hw. pose proof (reachable_paths _ _ Hr) as Hp.
  pose proof (proj2 (wi_dev w (proj1 Hw))) as Ha. pose proof (ai_domain _ Ha) as [A1 A2].
  split; [by eapply claim_anchored|]. split; [split_and!|split].
  - done.
  - congruence.
  - intros w' Hs. by eapply wstep_domain.
  - intros ->. by apply reachable_below.
  - intros v req fault ret st Hopen Hcall. by eapply anchor_call.
  - exact Hp.
  - intros p. by apply free_paths.
Qed.

(** The publisher anchors file 4 under the state inode of file 3: one reference on each
    path. *)
Definition demo_domain : list action :=
  [ AOpen 0 MX_CDEV_IOCTL; AAcquire 0 0 (demo_acquire 0 MX_LEASE_PROFILE_HUB_PUBLISHER); APublish 0 false;
    ADomain 0 0 (MkDomain MX_LEASE_ABI_MAGIC 7 1 4 MX_LEASE_ABI_VERSION sizeof_lease_slot_domain 0 0 0 0);
    APublish 0 false ].

Lemma anchor_consistent_witness :
  ls_state_family (w_dev (end_world demo_fault)) = MX_LEASE_FAMILY_HUB ∧
  ls_slot_domain_inode (w_dev (end_world demo_domain)) = Some 4 ∧
  w_refs (end_world demo_domain) (RPath 4) = 1.
Proof.
  split; [|split].
  - rewrite (proj2 (proj2 (proj1 (proj1 (anchor_consistent true (end_world demo_fault) 1 (end_ctx demo_fault 1)
      ltac:(apply end_reachable; by vm_compute) ltac:(by vm_compute))) ltac:(by vm_compute)))).
    by vm_compute.
  - by vm_compute.
  - destruct (anchor_consistent false (end_world demo_domain) 0 (end_ctx demo_domain 0)
      ltac:(apply end_reachable; by vm_compute) ltac:(by vm_compute)) as (_ & _ & Hp & _).
    rewrite (Hp 4). by vm_compute.
Defined.
