(* ===== verification/Ioctl.v ===== *)
(** * The direct ioctls (src/ioctl.c)

    Command numbers and dispatch, and the mailbox ioctls as programs over the four
    device accesses of src/transfer.c ([read_ctrl_from_device], [write_ctrl_to_device],
    [read_data_from_device], [write_data_to_device]).  Each access is one node of the
    program; what the device answers is the argument of the continuation. *)

From S2P Require Import Prelude Uapi Bits Mbox LeaseSM LeaseTypes Lease BarMap.

(** ** Requests and command numbers *)

(** Pointers to user arrays are [None] for NULL, otherwise the 64-bit words behind them. *)
Record mx_ioctl_cmd_with_data := MkCwd {
  cd_qid : Z; cd_cmd : option Z; cd_user_addr : option Z; cd_device_addr : Z; cd_size : Z;
}.

Record mx_ioctl_cmds := MkCmds {
  cm_qid : Z; cm_nr_cmds : Z; cm_cmds : option (Z → Z);
}.

Record mx_ioctl_data := MkData {
  dt_user_addr : option Z; dt_device_addr : Z; dt_size : Z; dt_no_wait : bool;
}.

Record mx_ioctl_passthru_cmd := MkPass {
  ps_device_addr : Z; ps_host_addr : Z; ps_size : Z; ps_subopcode : Z; ps_no_completion : bool;
  ps_status : Z;
}.

Record mx_ioctl_protocol_cmd := MkProto { pc_buf : option Z; pc_size : Z }.

#[export] Instance eta_cmds : Eta mx_ioctl_cmds := fun r => MkCmds (cm_qid r) (cm_nr_cmds r) (cm_cmds r).
#[export] Instance eta_pass : Eta mx_ioctl_passthru_cmd := fun r =>
  MkPass (ps_device_addr r) (ps_host_addr r) (ps_size r) (ps_subopcode r) (ps_no_completion r) (ps_status r).

(** Sizes of the structures on a 64-bit ABI. *)
Definition sizeof_ioctl_mbox_info : Z := 40.
Definition sizeof_ioctl_cmd_with_data : Z := 40.
Definition sizeof_ioctl_cmds : Z := 16.
Definition sizeof_ioctl_data : Z := 32.
Definition sizeof_ioctl_passthru_cmd : Z := 32.
Definition sizeof_ioctl_protocol_cmd : Z := 16.

Definition MX_IOCTL_REGISTER_MBOX : Z := _IOW MX_IOCTL_MAGIC 1 sizeof_ioctl_mbox_info.
Definition MX_IOCTL_INIT_MBOX : Z := _IOW MX_IOCTL_MAGIC 2 4.
Definition MX_IOCTL_SEND_CMD_WITH_DATA : Z := _IOW MX_IOCTL_MAGIC 3 sizeof_ioctl_cmd_with_data.
Definition MX_IOCTL_RECV_CMDS : Z := _IOWR MX_IOCTL_MAGIC 4 sizeof_ioctl_cmds.
Definition MX_IOCTL_SEND_CMDS : Z := _IOWR MX_IOCTL_MAGIC 5 sizeof_ioctl_cmds.
Definition MX_IOCTL_READ_DATA : Z := _IOW MX_IOCTL_MAGIC 6 sizeof_ioctl_data.
Definition MX_IOCTL_WRITE_DATA : Z := _IOW MX_IOCTL_MAGIC 7 sizeof_ioctl_data.
Definition MX_IOCTL_PASSTHRU_CMD : Z := _IOWR MX_IOCTL_MAGIC 8 sizeof_ioctl_passthru_cmd.
Definition MX_IOCTL_HIO_SEND : Z := _IOW MX_IOCTL_MAGIC 9 sizeof_ioctl_protocol_cmd.
Definition MX_IOCTL_HIO_RECV : Z := _IOW MX_IOCTL_MAGIC 10 sizeof_ioctl_protocol_cmd.

(** [enum IO_OPCODE] of src/mx_dma.h. *)
Definition IO_OPCODE_DATA_READ : Z := 0.
Definition IO_OPCODE_DATA_WRITE : Z := 1.
Definition IO_OPCODE_CONTEXT_READ : Z := 2.
Definition IO_OPCODE_CONTEXT_WRITE : Z := 3.
Definition IO_OPCODE_SQ_READ : Z := 4.
Definition IO_OPCODE_SQ_WRITE : Z := 5.
Definition IO_OPCODE_CQ_READ : Z := 6.
Definition IO_OPCODE_CQ_WRITE : Z := 7.
Definition IO_OPCODE_PASSTHRU : Z := 8.
Definition IO_OPCODE_SEND : Z := 9.
Definition IO_OPCODE_RECV : Z := 10.
Definition IO_OPCODE_PING : Z := 11.

Definition mx_ioctl_is_direct_cmd (cmd : Z) : bool :=
  (cmd =? MX_IOCTL_REGISTER_MBOX) || (cmd =? MX_IOCTL_INIT_MBOX) ||
  (cmd =? MX_IOCTL_SEND_CMD_WITH_DATA) || (cmd =? MX_IOCTL_RECV_CMDS) ||
  (cmd =? MX_IOCTL_SEND_CMDS) || (cmd =? MX_IOCTL_READ_DATA) || (cmd =? MX_IOCTL_WRITE_DATA) ||
  (cmd =? MX_IOCTL_PASSTHRU_CMD) || (cmd =? MX_IOCTL_HIO_SEND) || (cmd =? MX_IOCTL_HIO_RECV).

(** The handler [ioctl_to_device] runs; [None]: -EINVAL. *)
Inductive ioctl_op :=
  | OpRegisterMbox | OpInitMbox | OpSendCmdWithData | OpRecvCmds | OpSendCmds
  | OpReadData | OpWriteData | OpPassthru | OpHio (opcode : Z).

Definition ioctl_to_device (cmd : Z) : option ioctl_op :=
  if cmd =? MX_IOCTL_REGISTER_MBOX then Some OpRegisterMbox
  else if cmd =? MX_IOCTL_INIT_MBOX then Some OpInitMbox
  else if cmd =? MX_IOCTL_SEND_CMD_WITH_DATA then Some OpSendCmdWithData
  else if cmd =? MX_IOCTL_RECV_CMDS then Some OpRecvCmds
  else if cmd =? MX_IOCTL_SEND_CMDS then Some OpSendCmds
  else if cmd =? MX_IOCTL_READ_DATA then Some OpReadData
  else if cmd =? MX_IOCTL_WRITE_DATA then Some OpWriteData
  else if cmd =? MX_IOCTL_PASSTHRU_CMD then Some OpPassthru
  else if cmd =? MX_IOCTL_HIO_SEND then Some (OpHio IO_OPCODE_SEND)
  else if cmd =? MX_IOCTL_HIO_RECV then Some (OpHio IO_OPCODE_RECV)
  else None.

(** ** Programs over the device accesses *)

(** The continuations take the return value of the access, and of [ReadCtrl] also the
    word it delivered.  [ReadData] delivers into user memory, [WriteData] takes the
    words of the user buffer.  [nowait] is the last argument of [write_ctrl_to_device] and
    [write_data_to_device]: with it the access returns its size as soon as the transfer is
    queued ([mx_transfer_submit_sg_one], [mx_transfer_submit_ctrl]), so a success says
    nothing of the words having reached the device.  What a queued access does, and when,
    is up to the runs of the programs (MboxFifo). *)
Inductive io (A : Type) : Type :=
  | Ret (a : A)
  | ReadCtrl (addr opcode : Z) (k : Z → Z → io A)
  | WriteCtrl (word addr opcode : Z) (nowait : bool) (k : Z → io A)
  | ReadData (n addr opcode : Z) (k : Z → io A)
  | WriteData (words : list Z) (addr opcode : Z) (nowait : bool) (k : Z → io A).
Arguments Ret {A} a.
Arguments ReadCtrl {A} addr opcode k.
Arguments WriteCtrl {A} word addr opcode nowait k.
Arguments ReadData {A} n addr opcode k.
Arguments WriteData {A} words addr opcode nowait k.

#[export] Instance io_ret : MRet io := fun A a => Ret a.
#[export] Instance io_bind : MBind io := fix go A B (f : A → io B) (p : io A) : io B :=
  match p with
  | Ret a => f a
  | ReadCtrl addr op k => ReadCtrl addr op (fun r w => go A B f (k r w))
  | WriteCtrl w addr op nw k => WriteCtrl w addr op nw (fun r => go A B f (k r))
  | ReadData n addr op k => ReadData n addr op (fun r => go A B f (k r))
  | WriteData ws addr op nw k => WriteData ws addr op nw (fun r => go A B f (k r))
  end.

(** [count] words of a user array. *)
Definition user_words (cmds : Z → Z) (count : Z) : list Z := cmds <$> seqZ 0 count.

(** *** INIT_MBOX *)

(** Both mailboxes are re-read; [None] in the output: that mailbox is as it was. *)
Definition ioctl_init_mbox (qid : option Z) (sq cq : Z → option mx_mbox)
    : io (Z * option mx_mbox * option mx_mbox) :=
  match qid with
  | None => Ret (- EFAULT, None, None)
  | Some qid =>
    match sq qid, cq qid with
    | Some sq_mbox, Some cq_mbox =>
      ReadCtrl (r_ctx_addr sq_mbox) IO_OPCODE_SQ_READ (fun r w =>
        let '(ret, sq') := reset_mx_mbox (r, w) sq_mbox in
        RETURN (Ret (ret, None, None)) WHEN (nz ret) ;;
        ReadCtrl (r_ctx_addr cq_mbox) IO_OPCODE_SQ_READ (fun r w =>
          let '(ret, cq') := reset_mx_mbox (r, w) cq_mbox in
          RETURN (Ret (ret, Some sq', None)) WHEN (nz ret) ;;
          Ret (0, Some sq', Some cq')))
    | _, _ => Ret (- EINVAL, None, None)
    end
  end.

(** *** SEND_CMDS *)

(** Advance the tail and queue the write of the context; the result is ignored. *)
Definition sq_publish (count : Z) (mbox : mx_mbox) : io mx_mbox :=
  let mbox := set_tail (get_next_index (mb_tail mbox) count (mb_depth mbox)) mbox in
  WriteCtrl (mb_ctx mbox) (w_ctx_addr mbox) IO_OPCODE_SQ_WRITE true (fun _ => Ret mbox).

(** Once [count] is known to cover the request, or was refreshed from the device. *)
Definition send_batch (nr_cmds : Z) (cmds : Z → Z) (mbox : mx_mbox) : io ((Z + Z) * mx_mbox) :=
  let count := get_pushable_count mbox in
  RETURN (Ret (inr 0, mbox)) WHEN (count =? 0) ;;
  let count := if nr_cmds <? count then nr_cmds else count in
  let data_addr := u64 (mb_data_addr mbox + get_data_offset (mb_tail mbox)) in
  WriteData (user_words cmds count) data_addr IO_OPCODE_CONTEXT_WRITE true (fun wret =>
    RETURN (Ret (inl (if wret <? 0 then wret else - EIO), mbox)) WHEN (wret <? 8 * count) ;;
    mbox ← sq_publish count mbox; Ret (inr count, mbox)).

(** The section under [sq_mbox->lock]: an errno, or the number of words taken. *)
Definition send_cmds_locked (nr_cmds : Z) (cmds : Z → Z) (mbox : mx_mbox)
    : io ((Z + Z) * mx_mbox) :=
  if get_pushable_count mbox <? nr_cmds then
    ReadCtrl (r_ctx_addr mbox) IO_OPCODE_SQ_READ (fun r w =>
      RETURN (Ret (inl (- EINTR), mbox)) WHEN (r <=? 0) ;;
      send_batch nr_cmds cmds (set_head (ctx_head w) mbox))
  else send_batch nr_cmds cmds mbox.

(** [req = None]: [copy_from_user] faulted; [fault]: [copy_to_user] does.  The output is
    the return value, the mailbox written back and the structure written back. *)
Definition ioctl_send_cmds (sq : Z → option mx_mbox) (req : option mx_ioctl_cmds) (fault : bool)
    : io (Z * option mx_mbox * option mx_ioctl_cmds) :=
  match req with
  | None => Ret (- EFAULT, None, None)
  | Some req =>
    match sq (cm_qid req) with
    | None => Ret (- EINVAL, None, None)
    | Some mbox =>
      match cm_cmds req with
      | None => Ret (- EINVAL, None, None)
      | Some cmds =>
        '(r, mbox) ← send_cmds_locked (cm_nr_cmds req) cmds mbox;
        match r with
        | inl e => Ret (e, Some mbox, None)
        | inr count =>
          RETURN (Ret (- EFAULT, Some mbox, None)) WHEN fault ;;
          Ret (0, Some mbox, Some (req <| cm_nr_cmds := count |>))
        end
      end
    end
  end.

(** *** SEND_CMD_WITH_DATA *)

(** [while (is_full(sq_mbox))]: [None] when [fuel] context reads all found it full. *)
Fixpoint wait_room (fuel : nat) (mbox : mx_mbox) : io (option ((Z + unit) * mx_mbox)) :=
  if is_full mbox then
    match fuel with
    | O => Ret None
    | S fuel =>
      ReadCtrl (r_ctx_addr mbox) IO_OPCODE_SQ_READ (fun r w =>
        RETURN (Ret (Some (inl (- EINTR), mbox))) WHEN (r <=? 0) ;;
        wait_room fuel (set_head (ctx_head w) mbox))
    end
  else Ret (Some (inr tt, mbox)).

(** One command word, after room was found. *)
Definition send_one (cmd : Z) (mbox : mx_mbox) : io (Z * mx_mbox) :=
  let data_addr := u64 (mb_data_addr mbox + get_data_offset (mb_tail mbox)) in
  WriteData [cmd] data_addr IO_OPCODE_CONTEXT_WRITE true (fun cret =>
    RETURN (Ret (if cret <? 0 then cret else - EIO, mbox)) WHEN (cret <? 8) ;;
    mbox ← sq_publish 1 mbox; Ret (0, mbox)).

Definition send_one_locked (fuel : nat) (cmd : Z) (mbox : mx_mbox) : io (option (Z * mx_mbox)) :=
  r ← wait_room fuel mbox;
  match r with
  | None => Ret None
  | Some (inl e, mbox) => Ret (Some (e, mbox))
  | Some (inr _, mbox) => r ← send_one cmd mbox; Ret (Some r)
  end.

(** [payload]: the words of the user buffer that are sent ahead of the command. *)
Definition ioctl_send_cmd_with_data (fuel : nat) (sq : Z → option mx_mbox)
    (req : option mx_ioctl_cmd_with_data) (payload : list Z) : io (option (Z * option mx_mbox)) :=
  match req with
  | None => Ret (Some (- EFAULT, None))
  | Some req =>
    match sq (cd_qid req), cd_cmd req with
    | Some mbox, Some cmd =>
      let push :=
        r ← send_one_locked fuel cmd mbox;
        match r with None => Ret None | Some (e, mbox) => Ret (Some (e, Some mbox)) end in
      if is_some (cd_user_addr req) && (0 <? cd_size req) then
        WriteData payload (cd_device_addr req) IO_OPCODE_DATA_WRITE true (fun wret =>
          RETURN (Ret (Some (wret, None))) WHEN (wret <? 0) ;; push)
      else push
    | _, _ => Ret (Some (- EINVAL, None))
    end
  end.

(** *** RECV_CMDS *)

(** The section under [cq_mbox->lock]; the result of the data read is ignored. *)
Definition recv_cmds_locked (nr_cmds : Z) (mbox : mx_mbox) : io ((Z + Z) * mx_mbox) :=
  ReadCtrl (r_ctx_addr mbox) IO_OPCODE_CQ_READ (fun r w =>
    RETURN (Ret (inl (- EINTR), mbox)) WHEN (r <=? 0) ;;
    let mbox := set_tail (ctx_tail w) mbox in
    RETURN (Ret (inr 0, mbox)) WHEN (is_empty mbox) ;;
    let count := get_popable_count mbox in
    let count := if nr_cmds <? count then nr_cmds else count in
    let data_addr := u64 (mb_data_addr mbox + get_data_offset (mb_head mbox)) in
    let mbox := set_head (get_next_index (mb_head mbox) count (mb_depth mbox)) mbox in
    ReadData count data_addr IO_OPCODE_CONTEXT_READ (fun _ =>
      WriteCtrl (mb_ctx mbox) (w_ctx_addr mbox) IO_OPCODE_CQ_WRITE true (fun _ =>
        Ret (inr count, mbox)))).

Definition ioctl_recv_cmds (cq : Z → option mx_mbox) (req : option mx_ioctl_cmds) (fault : bool)
    : io (Z * option mx_mbox * option mx_ioctl_cmds) :=
  match req with
  | None => Ret (- EFAULT, None, None)
  | Some req =>
    match cq (cm_qid req) with
    | None => Ret (- EINVAL, None, None)
    | Some mbox =>
      RETURN (Ret (- EINVAL, None, None)) WHEN ((cm_nr_cmds req =? 0) || negb (is_some (cm_cmds req))) ;;
      '(r, mbox) ← recv_cmds_locked (cm_nr_cmds req) mbox;
      match r with
      | inl e => Ret (e, Some mbox, None)
      | inr count =>
        RETURN (Ret (- EFAULT, Some mbox, None)) WHEN fault ;;
        Ret (0, Some mbox, Some (req <| cm_nr_cmds := count |>))
      end
    end
  end.

(** *** READ_DATA, WRITE_DATA, PASSTHRU_CMD, HIO *)

(** [transfer] is the transfer of src/transfer.c, run on the request. *)
Definition ioctl_read_data (req : option mx_ioctl_data) (transfer : mx_ioctl_data → Z) : Z :=
  match req with
  | None => - EFAULT
  | Some r =>
    RETURN (- EINVAL) WHEN ((dt_size r =? 0) || negb (is_some (dt_user_addr r))) ;;
    let ret := transfer r in
    RETURN ret WHEN (ret <? 0) ;; 0
  end.

Definition ioctl_write_data (req : option mx_ioctl_data) (transfer : mx_ioctl_data → Z) : Z :=
  match req with
  | None => - EFAULT
  | Some r =>
    RETURN (- EINVAL) WHEN ((dt_size r =? 0) || negb (is_some (dt_user_addr r))) ;;
    let ret := transfer r in
    RETURN ret WHEN (ret <? 0) ;; 0
  end.

(** [submit]: [submit_passthru_command], its return value, status and host address. *)
Definition ioctl_passthru_cmd (ctx : option mx_file_ctx) (req : option mx_ioctl_passthru_cmd)
    (submit : mx_ioctl_passthru_cmd → Z * Z * Z) (fault : bool) : Z * option mx_ioctl_passthru_cmd :=
  match req with
  | None => (- EFAULT, None)
  | Some cmd =>
    RETURN (- EINVAL, None) WHEN (0xF <? ps_subopcode cmd) ;;
    let ret := mx_lease_authorize_memory_cmd ctx (ps_subopcode cmd) in
    RETURN (ret, None) WHEN (nz ret) ;;
    let ret := if ps_no_completion cmd then mx_lease_authorize_no_completion ctx else 0 in
    RETURN (ret, None) WHEN (nz ret) ;;
    let '(ret, status, host_addr) := submit cmd in
    RETURN (ret, None) WHEN (nz ret) ;;
    RETURN (- EFAULT, None) WHEN fault ;;
    (0, Some (cmd <| ps_status := status |> <| ps_host_addr := host_addr |>))
  end.

Definition ioctl_hio_protocol (req : option mx_ioctl_protocol_cmd)
    (submit : mx_ioctl_protocol_cmd → Z) : Z :=
  match req with
  | None => - EFAULT
  | Some cmd => RETURN (- EINVAL) WHEN (negb (is_some (pc_buf cmd))) ;; submit cmd
  end.
