(* ===== verification/MboxFifo.v ===== *)
(** * Mailboxes as queues between host and device

    The mailbox ioctls run against a device that consumes its submission queue, or fills
    its completion queue, at any time between two accesses of the driver.  Words sent are
    consumed once each and in order; words produced are received once each and in order,
    as long as the data reads succeed. *)

From S2P Require Import Prelude Uapi Bits Mbox LeaseSM LeaseTypes Lease BarMap Ioctl.

(** ** Encodings in a window *)

Section window.
Context (d : Z) (Hd : pow2_depth d).

(** Two counters of one window of [d + 1] values with the same encoding are equal. *)
Lemma enc_inj a b h : 0 ≤ h → h ≤ a ≤ h + d → h ≤ b ≤ h + d → ring_enc d a = ring_enc d b → a = b.
Proof.
  intros Hh Ha Hb E. pose proof (pow2_depth_range d Hd).
  assert (a mod d = b mod d) as Em by (rewrite <- !(enc_index d Hd); congruence).
  assert ((a / d) mod 2 = (b / d) mod 2) as Ep by (rewrite <- !(enc_phase d Hd); congruence).
  pose proof (Z.div_mod a d). pose proof (Z.div_mod b d).
  assert (a / d = b / d ∨ a / d = b / d + 1 ∨ b / d = a / d + 1) as [Eq|[Eq|Eq]] by nia; [nia|..];
    exfalso; rewrite Eq in Ep;
    match type of Ep with context [(?q + 1) mod 2] =>
      pose proof (Z.div_mod q 2); pose proof (Z.div_mod (q + 1) 2);
      pose proof (Z.mod_pos_bound q 2); pose proof (Z.mod_pos_bound (q + 1) 2); lia
    end.
Qed.

(** Distinct counters of one window of [d] values occupy distinct slots. *)
Lemma slot_inj a b : a < b < a + d → a mod d ≠ b mod d.
Proof.
  intros Hab E. pose proof (pow2_depth_range d Hd). pose proof (Z.div_mod a d). pose proof (Z.div_mod b d).
  assert (b - a = d * (b / d - a / d)) by lia.
  assert (b / d - a / d ≤ 0 ∨ 1 ≤ b / d - a / d) as [?|?] by lia; nia.
Qed.

(** A run that does not wrap occupies consecutive slots. *)
Lemma slot_run t i : 0 ≤ t → 0 ≤ i < d - t mod d → (t + i) mod d = t mod d + i.
Proof.
  intros Ht Hi. pose proof (pow2_depth_range d Hd). pose proof (Z.mod_pos_bound t d).
  rewrite <- Z.add_mod_idemp_l by lia. apply Z.mod_small. lia.
Qed.
End window.

(** ** The device side of a mailbox *)

(** An access the driver queued with [nowait] and that has not taken effect yet: words for
    the mailbox memory, or a context word. *)
Inductive posted :=
  | PostData (addr : Z) (words : list Z)
  | PostCtx (word addr : Z).

(** [dv_mem]: the 64-bit words of the mailbox memory by address; [dv_head] and [dv_tail]:
    how many words the device counts as consumed and as produced; [dv_log]: the words
    themselves, those the device consumed (SQ) or produced (CQ), in order;
    [dv_user]: the words a data read delivered to user memory, in order; [dv_pending]: the
    queued accesses, oldest first. *)
Record mbox_dev := MkMd {
  dv_mem : Z → Z;
  dv_head : Z;
  dv_tail : Z;
  dv_log : list Z;
  dv_user : list Z;
  dv_pending : list posted;
}.

#[export] Instance eta_md : Eta mbox_dev := fun r =>
  MkMd (dv_mem r) (dv_head r) (dv_tail r) (dv_log r) (dv_user r) (dv_pending r).

(** The words [ws] are stored from [addr] on. *)
Definition mem_store (addr : Z) (ws : list Z) (mem mem' : Z → Z) : Prop :=
  (∀ i w, ws !! i = Some w → mem' (addr + 8 * Z.of_nat i) = w) ∧
  (∀ a, (∀ i, (i < length ws)%nat → a ≠ addr + 8 * Z.of_nat i) → mem' a = mem a).

(** A write that was cut short: any of its words may have changed. *)
Definition mem_torn (addr : Z) (ws : list Z) (mem mem' : Z → Z) : Prop :=
  ∀ a, (∀ i, (i < length ws)%nat → a ≠ addr + 8 * Z.of_nat i) → mem' a = mem a.

Definition slot_addr (mbox : mx_mbox) (n : Z) : Z := mb_data_addr mbox + 8 * (n mod mb_depth mbox).

(** The mailbox memory lies inside the 64-bit address space. *)
Definition mbox_fits (mbox : mx_mbox) : Prop :=
  0 ≤ mb_data_addr mbox ∧ mb_data_addr mbox + 8 * mb_depth mbox ≤ 2 ^ 64.

(** ** Submission queue *)

(** A write takes effect: words are stored; of a context word the device takes the tail,
    if it is one of the window, unless the publication is lost. *)
Definition sq_exec (mbox : mx_mbox) (p : posted) (s s' : mbox_dev) : Prop :=
  match p with
  | PostData addr ws => ∃ mem', mem_store addr ws (dv_mem s) mem' ∧ s' = s <| dv_mem := mem' |>
  | PostCtx word addr => ∃ tail,
      (tail = dv_tail s ∨
       (addr = w_ctx_addr mbox ∧ dv_head s ≤ tail ≤ dv_head s + mb_depth mbox ∧
        ctx_tail word = ring_enc (mb_depth mbox) tail)) ∧
      s' = s <| dv_tail := tail |>
  end.

(** What happens on the other side: the device consumes a word whenever its tail is ahead
    of its head, and the queued writes take effect.  [ok]: they do so in the order they
    were queued and no queued data write is lost.  Otherwise a write may overtake others,
    and a data write may be lost, or torn: its waiter recovered it from the submission
    list after the timeout, the device failed it, or the user buffer changed before the
    device read it. *)
Inductive sq_dev (ok : bool) (mbox : mx_mbox) (s : mbox_dev) : mbox_dev → Prop :=
  | SdConsume :
      dv_head s < dv_tail s →
      sq_dev ok mbox s (s <| dv_log := dv_log s ++ [dv_mem s (slot_addr mbox (dv_head s))] |>
                          <| dv_head := dv_head s + 1 |>)
  | SdExec l1 p l2 s' :
      dv_pending s = l1 ++ p :: l2 → (ok = true → l1 = []) →
      sq_exec mbox p (s <| dv_pending := l1 ++ l2 |>) s' → sq_dev ok mbox s s'
  | SdLose l1 addr ws l2 mem' :
      ok = false → dv_pending s = l1 ++ PostData addr ws :: l2 → mem_torn addr ws (dv_mem s) mem' →
      sq_dev ok mbox s (s <| dv_pending := l1 ++ l2 |> <| dv_mem := mem' |>).

(** A write that succeeded: queued, or waited for. *)
Definition sq_issue (ok : bool) (mbox : mx_mbox) (nowait : bool) (p : posted) (s s' : mbox_dev) : Prop :=
  if nowait then s' = s <| dv_pending := dv_pending s ++ [p] |>
  else (ok = true → dv_pending s = []) ∧ sq_exec mbox p s s'.

(** Runs of a driver program against such a device, which may move at any time between two
    accesses.  The device reports its head in the context word.  A write that fails was
    not queued; it has at worst torn its own words. *)
Inductive sq_run {A} (ok : bool) (mbox : mx_mbox) : mbox_dev → io A → mbox_dev → A → Prop :=
  | SqRet s a : sq_run ok mbox s (Ret a) s a
  | SqDev s s1 p s' a : sq_dev ok mbox s s1 → sq_run ok mbox s1 p s' a → sq_run ok mbox s p s' a
  | SqReadCtrl s addr op k r w s' a :
      r ≤ 0 ∨ (addr = r_ctx_addr mbox ∧ ctx_head w = ring_enc (mb_depth mbox) (dv_head s)) →
      sq_run ok mbox s (k r w) s' a → sq_run ok mbox s (ReadCtrl addr op k) s' a
  | SqWriteCtrl s word addr op nowait k r s1 s' a :
      (if 0 <? r then sq_issue ok mbox nowait (PostCtx word addr) s s1 else s1 = s) →
      sq_run ok mbox s1 (k r) s' a → sq_run ok mbox s (WriteCtrl word addr op nowait k) s' a
  | SqWriteData s ws addr op nowait k r s1 s' a :
      (if r <? 8 * Z.of_nat (length ws)
       then ∃ mem', mem_torn addr ws (dv_mem s) mem' ∧ s1 = s <| dv_mem := mem' |>
       else sq_issue ok mbox nowait (PostData addr ws) s s1) →
      sq_run ok mbox s1 (k r) s' a → sq_run ok mbox s (WriteData ws addr op nowait k) s' a
  | SqReadData s n addr op k r s' a :
      sq_run ok mbox s (k r) s' a → sq_run ok mbox s (ReadData n addr op k) s' a.

(** The driver has sent the words [sent], the device consumed a prefix of them, and the
    rest is in the slots: the mailbox of a queue that stores its words itself (the
    version 1 transport). *)
Record sq_inv (mbox : mx_mbox) (s : mbox_dev) (sent : list Z) (h : Z) : Prop := {
  sq_ring : ring mbox h (Z.of_nat (length sent));
  sq_fits : mbox_fits mbox;
  sq_order : h ≤ dv_head s ≤ dv_tail s ∧ dv_tail s ≤ Z.of_nat (length sent);
  sq_log : dv_log s = take (Z.to_nat (dv_head s)) sent;
  sq_slots n : dv_head s ≤ n < Z.of_nat (length sent) →
    sent !! Z.to_nat n = Some (dv_mem s (slot_addr mbox n));
}.

(** The queued writes of the driver, when the words before [st] are stored: the rest of
    [sent] in order, in its slots, and tails that count what is stored by then. *)
Inductive pend_ok (mbox : mx_mbox) (sent : list Z) : Z → list posted → Prop :=
  | PoNil : pend_ok mbox sent (Z.of_nat (length sent)) []
  | PoData st addr ws p :
      0 ≤ st →
      (∀ i w, ws !! i = Some w →
        sent !! Z.to_nat (st + Z.of_nat i) = Some w ∧ addr + 8 * Z.of_nat i = slot_addr mbox (st + Z.of_nat i)) →
      pend_ok mbox sent (st + Z.of_nat (length ws)) p → pend_ok mbox sent st (PostData addr ws :: p)
  | PoCtx st word p :
      ctx_tail word = ring_enc (mb_depth mbox) st → pend_ok mbox sent st p →
      pend_ok mbox sent st (PostCtx word (w_ctx_addr mbox) :: p).

(** The driver has sent the words [sent]; those before [st] are stored, the others are on
    their way; the device consumed a prefix of the stored ones. *)
Record sq_dev_ok (mbox : mx_mbox) (s : mbox_dev) (sent : list Z) (h st : Z) : Prop := {
  so_order : 0 ≤ h ≤ dv_head s ∧ dv_head s ≤ dv_tail s ≤ st;
  so_room : Z.of_nat (length sent) - h ≤ mb_depth mbox;
  so_log : dv_log s = take (Z.to_nat (dv_head s)) sent;
  so_slots n : dv_head s ≤ n < st → sent !! Z.to_nat n = Some (dv_mem s (slot_addr mbox n));
  so_pend : pend_ok mbox sent st (dv_pending s);
}.

Record sq_ok (mbox : mx_mbox) (s : mbox_dev) (sent : list Z) (h : Z) : Prop := {
  sk_ring : ring mbox h (Z.of_nat (length sent));
  sk_fits : mbox_fits mbox;
  sk_dev : ∃ st, sq_dev_ok mbox s sent h st;
}.

(** Mailboxes that differ only in the cached head or tail. *)
Definition same_geometry (mbox mbox' : mx_mbox) : Prop :=
  r_ctx_addr mbox' = r_ctx_addr mbox ∧ w_ctx_addr mbox' = w_ctx_addr mbox ∧
  mb_data_addr mbox' = mb_data_addr mbox ∧ mb_depth mbox' = mb_depth mbox.

Lemma geometry_refl mbox : same_geometry mbox mbox.
Proof. done. Qed.
Lemma geometry_trans a b c : same_geometry a b → same_geometry b c → same_geometry a c.
Proof. unfold same_geometry. intuition congruence. Qed.
Lemma geometry_head v mbox : same_geometry mbox (set_head v mbox).
Proof. done. Qed.
Lemma geometry_tail v mbox : same_geometry mbox (set_tail v mbox).
Proof. done. Qed.

Lemma geometry_slot mbox mbox' n : same_geometry mbox mbox' → slot_addr mbox' n = slot_addr mbox n.
Proof. intros (_ & _ & Ea & Ed). unfold slot_addr. congruence. Qed.

Lemma sq_exec_geometry mbox mbox' p s s' :
  same_geometry mbox mbox' → sq_exec mbox p s s' → sq_exec mbox' p s s'.
Proof. intros (_ & Ew & _ & Ed). destruct p; cbn; [done|]. by rewrite Ew, Ed. Qed.

Lemma sq_dev_geometry ok mbox mbox' s s' :
  same_geometry mbox mbox' → sq_dev ok mbox s s' → sq_dev ok mbox' s s'.
Proof.
  intros Hg [Hlt|l1 p l2 s1 Hp Hok He|l1 addr ws l2 mem' Hok Hp Hm].
  - rewrite <- (geometry_slot _ _ _ Hg). by apply SdConsume.
  - eapply SdExec; [done | done | by eapply sq_exec_geometry].
  - by eapply SdLose.
Qed.

Lemma sq_issue_geometry ok mbox mbox' nowait p s s' :
  same_geometry mbox mbox' → sq_issue ok mbox nowait p s s' → sq_issue ok mbox' nowait p s s'.
Proof. intros Hg. destruct nowait; cbn; [done|]. intros [Hn He]. split; [done|]. by eapply sq_exec_geometry. Qed.

Lemma sq_run_geometry {A} ok mbox mbox' s (p : io A) s' a :
  same_geometry mbox mbox' → sq_run ok mbox s p s' a → sq_run ok mbox' s p s' a.
Proof.
  intros Hg Hr. pose proof Hg as (Er & Ew & Ea & Ed). induction Hr.
  - constructor.
  - eapply SqDev; [by eapply sq_dev_geometry | done].
  - eapply SqReadCtrl; [|done]. by rewrite Er, Ed.
  - eapply SqWriteCtrl; [|done]. destruct (0 <? r); [by eapply sq_issue_geometry | done].
  - eapply SqWriteData; [|done]. destruct (r <? _); [done | by eapply sq_issue_geometry].
  - by eapply SqReadData.
Qed.

Lemma pend_ok_geometry mbox mbox' sent st p :
  same_geometry mbox mbox' → pend_ok mbox sent st p → pend_ok mbox' sent st p.
Proof.
  intros Hg. induction 1 as [|st addr ws p Hst Hw Hp IH|st word p Hw Hp IH].
  - constructor.
  - constructor; [done | | done]. intros i w Hi. rewrite (geometry_slot _ _ _ Hg). by apply Hw.
  - destruct Hg as (_ & <- & _ & Ed). constructor; [by rewrite Ed | done].
Qed.

Lemma sq_dev_ok_geometry mbox mbox' s sent h st :
  same_geometry mbox mbox' → sq_dev_ok mbox s sent h st → sq_dev_ok mbox' s sent h st.
Proof.
  intros Hg [O Rm L SL P]. constructor; [done | | done | | by eapply pend_ok_geometry].
  - by destruct Hg as (_ & _ & _ & ->).
  - intros n Hn. rewrite (geometry_slot _ _ _ Hg). by apply SL.
Qed.

(** *** A run of slots behind the tail *)

Lemma slot_addr_inj mbox a b :
  pow2_depth (mb_depth mbox) → a < b < a + mb_depth mbox → slot_addr mbox a ≠ slot_addr mbox b.
Proof. intros Hd Hab. pose proof (slot_inj _ Hd a b Hab). unfold slot_addr. lia. Qed.

(** A write that starts at the tail and stays within the free run. *)
Section run.
Context (mbox : mx_mbox) (h t c : Z).
Hypothesis Hring : ring mbox h t.
Hypothesis Hfits : mbox_fits mbox.
Local Notation d := (mb_depth mbox).
Hypothesis Hrun : c ≤ Z.min (d - (t - h)) (d - t mod d).
Local Notation addr := (mb_data_addr mbox + get_data_offset (mb_tail mbox)).

Lemma run_addr i : 0 ≤ i < c → addr + 8 * i = slot_addr mbox (t + i).
Proof.
  intros Hi. pose proof (ring_pow2 _ _ _ Hring) as Hd. pose proof (ring_order _ _ _ Hring).
  unfold slot_addr, get_data_offset. rewrite (ring_tail _ _ _ Hring), enc_index, slot_run by (done || lia). lia.
Qed.

Lemma run_addr_u64 : 0 < c → u64 addr = addr.
Proof.
  intros Hc. destruct Hfits as [F1 F2]. pose proof (run_addr 0 ltac:(lia)) as E.
  pose proof (pow2_depth_range d (ring_pow2 _ _ _ Hring)). pose proof (Z.mod_pos_bound (t + 0) d).
  unfold slot_addr in E. apply u64_id. unfold ULLONG_MAX. lia.
Qed.

Lemma run_disjoint n i : h ≤ n < t → 0 ≤ i < c → slot_addr mbox n ≠ addr + 8 * i.
Proof.
  intros Hn Hi. rewrite run_addr by lia. pose proof (ring_bound _ _ _ Hring).
  apply slot_addr_inj; [by eapply ring_pow2 | lia].
Qed.
End run.

(** *** Words stored at once *)

(** The device steps before the next access keep the invariant. *)
Lemma sq_consume_inv mbox s sent h :
  sq_inv mbox s sent h → dv_head s < dv_tail s →
  sq_inv mbox (s <| dv_log := dv_log s ++ [dv_mem s (slot_addr mbox (dv_head s))] |>
                 <| dv_head := dv_head s + 1 |>) sent h.
Proof.
  intros [R F O L SL] Hlt. pose proof (ring_order _ _ _ R). constructor; cbn; try done; try lia.
  - rewrite L. replace (Z.to_nat (dv_head s + 1)) with (S (Z.to_nat (dv_head s))) by lia.
    symmetry. apply take_S_r. apply SL. lia.
  - intros n Hn. apply SL. lia.
Qed.

Section batch.
Context (mbox : mx_mbox) (s : mbox_dev) (sent : list Z) (h : Z) (ws : list Z) (mem' : Z → Z).
Hypothesis Hinv : sq_inv mbox s sent h.
Local Notation t := (Z.of_nat (length sent)).
Local Notation d := (mb_depth mbox).
Local Notation c := (Z.of_nat (length ws)).
Hypothesis Hrun : c ≤ Z.min (d - (t - h)) (d - t mod d).
Local Notation addr := (mb_data_addr mbox + get_data_offset (mb_tail mbox)).

Lemma batch_addr i : 0 ≤ i < c → addr + 8 * i = slot_addr mbox (t + i).
Proof. apply (run_addr mbox h t c (sq_ring _ _ _ _ Hinv) Hrun). Qed.

(** A complete write puts the words behind the others, in their slots. *)
Lemma batch_stored n :
  mem_store addr ws (dv_mem s) mem' → dv_head s ≤ n < t + c →
  (sent ++ ws) !! Z.to_nat n = Some (mem' (slot_addr mbox n)).
Proof.
  intros [Hin Hout] Hn. destruct Hinv as [R F O L SL]. pose proof (ring_order _ _ _ R).
  destruct (decide (n < t)) as [Hlt|Hge].
  - rewrite lookup_app_l by lia. rewrite Hout; [by apply SL; lia|].
    intros i Hi. apply (run_disjoint mbox h t c R Hrun); lia.
  - rewrite lookup_app_r by lia.
    destruct (lookup_lt_is_Some_2 ws (Z.to_nat n - length sent)) as [w Hw]; [lia|].
    pose proof (lookup_lt_Some _ _ _ Hw).
    rewrite Hw, <- (Hin _ _ Hw), batch_addr by lia. do 3 f_equal. lia.
Qed.
End batch.

(** *** Queued writes *)

Section pend.
Context (mbox : mx_mbox).

Lemma pend_le sent st p : pend_ok mbox sent st p → st ≤ Z.of_nat (length sent).
Proof. induction 1; lia. Qed.

(** Queueing the words [ws], for the slots behind the others. *)
Lemma pend_data sent st p addr ws :
  (∀ i, 0 ≤ i < Z.of_nat (length ws) → addr + 8 * i = slot_addr mbox (Z.of_nat (length sent) + i)) →
  pend_ok mbox sent st p → pend_ok mbox (sent ++ ws) st (p ++ [PostData addr ws]).
Proof.
  intros Ha. induction 1 as [|st a ws1 p Hst Hw Hp IH|st word p Hw Hp IH]; cbn.
  - constructor; [lia| |].
    + intros i w Hi. pose proof (lookup_lt_Some _ _ _ Hi). split; [|apply Ha; lia].
      rewrite lookup_app_r by lia. rewrite <- Hi. f_equal. lia.
    + rewrite <- Nat2Z.inj_add, <- length_app. constructor.
  - constructor; [done| |done]. intros i w Hi. destruct (Hw i w Hi) as [Hl ?]. split; [|done].
    by apply lookup_app_l_Some.
  - by constructor.
Qed.

(** Queueing a context word that counts all of them. *)
Lemma pend_ctx sent st p word :
  ctx_tail word = ring_enc (mb_depth mbox) (Z.of_nat (length sent)) →
  pend_ok mbox sent st p → pend_ok mbox sent st (p ++ [PostCtx word (w_ctx_addr mbox)]).
Proof.
  intros Hc. induction 1 as [|st a ws1 p Hst Hw Hp IH|st word' p Hw Hp IH]; cbn.
  - constructor; [done | constructor].
  - by constructor.
  - by constructor.
Qed.
End pend.

(** Whatever the device does next, when queued writes take effect in order. *)
Lemma sq_dev_step mbox s sent h st s1 :
  pow2_depth (mb_depth mbox) → sq_dev_ok mbox s sent h st → sq_dev true mbox s s1 →
  ∃ st1, sq_dev_ok mbox s1 sent h st1 ∧ dv_head s ≤ dv_head s1.
Proof.
  intros Hd [O Rm L SL P] [Hlt|l1 p l2 s' Hp Hok He|? ? ? ? ? [=]].
  - exists st. split; [|cbn; lia]. constructor; cbn; [lia | done | | | done].
    + rewrite L. replace (Z.to_nat (dv_head s + 1)) with (S (Z.to_nat (dv_head s))) by lia.
      symmetry. apply take_S_r. apply SL. lia.
    + intros n Hn. apply SL. lia.
  - rewrite (Hok eq_refl) in *. cbn in Hp. rewrite Hp in P.
    inversion P as [|st' addr ws q Hst Hw Pq|st' word q Hw Pq]; subst; pose proof (pend_le _ _ _ _ Pq).
    + destruct He as (mem' & [Hin Hout] & ->). exists (st + Z.of_nat (length ws)). split; [|done].
      constructor; cbn; [lia | done | done | | done]. intros n Hn.
      destruct (decide (n < st)) as [Hlt|Hge].
      * rewrite Hout; [apply SL; lia|]. intros i Hi.
        destruct (lookup_lt_is_Some_2 ws i Hi) as [w Hi']. destruct (Hw i w Hi') as [_ ->].
        apply slot_addr_inj; [done | lia].
      * destruct (lookup_lt_is_Some_2 ws (Z.to_nat (n - st))) as [w Hi]; [lia|].
        destruct (Hw _ w Hi) as [Hl Ha]. replace (st + Z.of_nat (Z.to_nat (n - st))) with n in * by lia.
        by rewrite Hl, <- Ha, (Hin _ _ Hi).
    + destruct He as (tail & Ht & ->). exists st. split; [|done]. cbn in Ht.
      constructor; cbn; [|done..]. destruct Ht as [->|(_ & Hwin & He)]; [done|].
      rewrite (enc_inj _ Hd tail st (dv_head s)); [lia | lia | lia | lia | congruence].
Qed.

Lemma sq_dev_steps mbox s sent h st s1 :
  pow2_depth (mb_depth mbox) → sq_dev_ok mbox s sent h st → rtc (sq_dev true mbox) s s1 →
  ∃ st1, sq_dev_ok mbox s1 sent h st1 ∧ dv_head s ≤ dv_head s1.
Proof.
  intros Hd Hs Hr. revert st Hs. induction Hr as [s|s s2 s1 Hstep _ IH]; intros st Hs; [eauto using Z.le_refl|].
  destruct (sq_dev_step _ _ _ _ _ _ Hd Hs Hstep) as (st2 & H2 & Hle).
  destruct (IH _ H2) as (st1 & H1 & Hle1). exists st1. split; [done | lia].
Qed.

Section sq_ok.
Context (mbox : mx_mbox) (s : mbox_dev) (sent : list Z) (h : Z).
Hypothesis Hi : sq_ok mbox s sent h.

Lemma sq_ok_order : 0 ≤ h ≤ dv_head s ∧ dv_head s ≤ Z.of_nat (length sent) ≤ h + mb_depth mbox.
Proof. destruct Hi as [R F (st & [O Rm L SL P])]. pose proof (pend_le _ _ _ _ P). lia. Qed.

Lemma sq_ok_dev s1 : rtc (sq_dev true mbox) s s1 → sq_ok mbox s1 sent h ∧ dv_head s ≤ dv_head s1.
Proof.
  intros Hr. destruct Hi as [R F (st & Hs)].
  destruct (sq_dev_steps _ _ _ _ _ _ (ring_pow2 _ _ _ R) Hs Hr) as (st1 & H1 & Hle).
  split; [|done]. constructor; eauto.
Qed.

(** Refreshing the cached head from the device. *)
Lemma sq_ok_refresh : sq_ok (set_head (ring_enc (mb_depth mbox) (dv_head s)) mbox) s sent (dv_head s).
Proof.
  pose proof sq_ok_order. destruct Hi as [R F (st & Hs)]. destruct R as [Rd Rh Rt Ro Rb].
  pose proof (enc_range _ Rd (dv_head s)). constructor; [|done|].
  - constructor; try done; try lia; [by rewrite head_set_head | by rewrite tail_set_head | cbn; lia].
  - exists st. apply (sq_dev_ok_geometry mbox); [apply geometry_head|].
    destruct Hs as [O Rm L SL P]. constructor; [lia | lia | done | done | done].
Qed.

(** A torn write at the tail leaves the queue as it was. *)
Lemma sq_ok_torn ws mem' :
  Z.of_nat (length ws) ≤ get_pushable_count mbox →
  mem_torn (u64 (mb_data_addr mbox + get_data_offset (mb_tail mbox))) ws (dv_mem s) mem' →
  sq_ok mbox (s <| dv_mem := mem' |>) sent h.
Proof.
  intros Hc Hm. destruct Hi as [R F (st & [O Rm L SL P])]. pose proof (pend_le _ _ _ _ P).
  rewrite (ring_pushable _ _ _ R) in Hc. constructor; [done | done |]. exists st. constructor; try done.
  cbn. intros n Hn. rewrite Hm; [by apply SL|]. intros i Hib.
  rewrite (run_addr_u64 mbox h _ _ R F Hc) by lia. apply (run_disjoint mbox h _ _ R Hc); lia.
Qed.

(** Words queued behind the others, not yet counted in the tail. *)
Lemma sq_ok_queued ws :
  Z.of_nat (length ws) ≤ get_pushable_count mbox →
  ∃ st, sq_dev_ok mbox (s <| dv_pending := dv_pending s ++
    [PostData (u64 (mb_data_addr mbox + get_data_offset (mb_tail mbox))) ws] |>) (sent ++ ws) h st.
Proof.
  intros Hc. destruct Hi as [R F (st & [O Rm L SL P])]. pose proof (pend_le _ _ _ _ P).
  rewrite (ring_pushable _ _ _ R) in Hc. exists st. constructor; cbn; [done | | | |].
  - rewrite length_app. lia.
  - rewrite L, take_app_le by lia. done.
  - intros n Hn. apply lookup_app_l_Some. by apply SL.
  - apply pend_data; [|done]. intros i Hib. rewrite (run_addr_u64 mbox h _ _ R F Hc) by lia.
    by apply (run_addr mbox h _ _ R Hc).
Qed.
End sq_ok.

(** ** Programs on the submission queue *)

(** Inversion of each access, past the device steps that come before it. *)
Section sq_inversion.
Context {A : Type} (ok : bool) (mbox : mx_mbox) (s' : mbox_dev) (a : A).

Lemma sq_ret_inv s b : sq_run ok mbox s (Ret b) s' a → a = b ∧ rtc (sq_dev ok mbox) s s'.
Proof.
  intros Hr. remember (Ret b) as p eqn:E. induction Hr; simplify_eq; [by split; [|apply rtc_refl]|].
  destruct IHHr as [-> ?]; [done|]. split; [done|]. by eapply rtc_l.
Qed.

Lemma sq_read_inv s addr op k :
  sq_run ok mbox s (ReadCtrl addr op k) s' a →
  ∃ s1 r w, rtc (sq_dev ok mbox) s s1 ∧ sq_run ok mbox s1 (k r w) s' a ∧
    (r ≤ 0 ∨ ctx_head w = ring_enc (mb_depth mbox) (dv_head s1)).
Proof.
  intros Hr. remember (ReadCtrl addr op k) as p eqn:E. induction Hr; simplify_eq.
  - destruct IHHr as (s2 & r & w & ? & ? & ?); [done|]. exists s2, r, w. split_and!; [by eapply rtc_l | done..].
  - exists s, r, w. split_and!; [apply rtc_refl | done | tauto].
Qed.

Lemma sq_write_data_inv s ws addr op nowait k :
  sq_run ok mbox s (WriteData ws addr op nowait k) s' a →
  ∃ s1 r s2, rtc (sq_dev ok mbox) s s1 ∧ sq_run ok mbox s2 (k r) s' a ∧
    (if r <? 8 * Z.of_nat (length ws)
     then ∃ mem', mem_torn addr ws (dv_mem s1) mem' ∧ s2 = s1 <| dv_mem := mem' |>
     else sq_issue ok mbox nowait (PostData addr ws) s1 s2).
Proof.
  intros Hr. remember (WriteData ws addr op nowait k) as p eqn:E. induction Hr; simplify_eq.
  - destruct IHHr as (s2 & r & s3 & ? & ? & ?); [done|]. exists s2, r, s3. split_and!; [by eapply rtc_l | done..].
  - exists s, r, s1. split_and!; [apply rtc_refl | done..].
Qed.

Lemma sq_write_ctrl_inv s word addr op nowait k :
  sq_run ok mbox s (WriteCtrl word addr op nowait k) s' a →
  ∃ s1 r s2, rtc (sq_dev ok mbox) s s1 ∧ sq_run ok mbox s2 (k r) s' a ∧
    (if 0 <? r then sq_issue ok mbox nowait (PostCtx word addr) s1 s2 else s2 = s1).
Proof.
  intros Hr. remember (WriteCtrl word addr op nowait k) as p eqn:E. induction Hr; simplify_eq.
  - destruct IHHr as (s2 & r & s3 & ? & ? & ?); [done|]. exists s2, r, s3. split_and!; [by eapply rtc_l | done..].
  - exists s, r, s1. split_and!; [apply rtc_refl | done..].
Qed.
End sq_inversion.

Lemma sq_ok_ret {A} mbox s (b : A) s' a sent h :
  sq_ok mbox s sent h → sq_run true mbox s (Ret b) s' a → a = b ∧ sq_ok mbox s' sent h.
Proof. intros Hi [-> Hr]%sq_ret_inv. split; [done|]. by apply (sq_ok_dev _ _ _ _ Hi). Qed.

(** Advancing the tail over the words just queued and queueing the context word. *)
Lemma sq_publish_inv {A} mbox s sent ws h st (f : mx_mbox → A) s' a :
  ring mbox h (Z.of_nat (length sent)) → mbox_fits mbox → sq_dev_ok mbox s (sent ++ ws) h st →
  sq_run true mbox s (m ← sq_publish (Z.of_nat (length ws)) mbox; Ret (f m)) s' a →
  ∃ mbox', a = f mbox' ∧ sq_ok mbox' s' (sent ++ ws) h ∧ same_geometry mbox mbox'.
Proof.
  intros R F Hs Hr. cbn in Hr.
  apply sq_write_ctrl_inv in Hr as (s1 & r & s2 & Hd1 & Hr & Hw). cbn in Hw.
  destruct (sq_dev_steps _ _ _ _ _ _ (ring_pow2 _ _ _ R) Hs Hd1) as (st1 & H1 & _).
  pose proof (so_room _ _ _ _ _ H1) as Hroom. rewrite length_app in Hroom.
  pose proof (ring_push _ _ _ R (Z.of_nat (length ws)) ltac:(lia)) as R'.
  rewrite <- Nat2Z.inj_add, <- length_app in R'.
  set (m := set_tail _ mbox) in *. assert (same_geometry mbox m) as Hg by done.
  eapply sq_run_geometry in Hr; [|exact Hg].
  assert (sq_ok m s2 (sent ++ ws) h) as H2.
  { constructor; [done | done |]. exists st1. apply (sq_dev_ok_geometry mbox); [done|].
    destruct (0 <? r); subst s2; [|done]. destruct H1 as [O Rm L SL P]. constructor; try done. cbn.
    apply (pend_ctx mbox); [|done]. apply (ring_tail _ _ _ R'). }
  destruct (sq_ok_ret _ _ _ _ _ _ _ H2 Hr) as [-> ?]. eauto.
Qed.


(** Writing [ws] at the tail and publishing it, or giving up. *)
Lemma sq_write_publish {A} mbox s sent h ws c op (f : mx_mbox → A) (g : Z → A) k s' a :
  sq_ok mbox s sent h → Z.of_nat (length ws) = c → c ≤ get_pushable_count mbox →
  (∀ wret, k wret = (RETURN (Ret (g wret)) WHEN (wret <? 8 * c) ;; m ← sq_publish c mbox; Ret (f m))) →
  sq_run true mbox s (WriteData ws (u64 (mb_data_addr mbox + get_data_offset (mb_tail mbox))) op true k) s' a →
  (∃ wret, a = g wret ∧ wret < 8 * c ∧ sq_ok mbox s' sent h) ∨
  (∃ mbox', a = f mbox' ∧ sq_ok mbox' s' (sent ++ ws) h ∧ same_geometry mbox mbox').
Proof.
  intros Hi <- Hc Hk Hr.
  apply sq_write_data_inv in Hr as (s1 & r & s2 & Hd1 & Hr & Hw). rewrite Hk in Hr. clear Hk.
  destruct (sq_ok_dev _ _ _ _ Hi _ Hd1) as [H1 _].
  destruct (Z.ltb_spec r (8 * Z.of_nat (length ws))).
  - destruct Hw as (mem' & Hm & ->). left. exists r.
    by destruct (sq_ok_ret _ _ _ _ _ _ _ (sq_ok_torn _ _ _ _ H1 ws mem' Hc Hm) Hr) as [-> ?].
  - cbn in Hw. subst s2. right. destruct (sq_ok_queued _ _ _ _ H1 ws Hc) as (st & H2).
    eapply sq_publish_inv; [apply H1 | apply H1 | exact H2 | exact Hr].
Qed.




(** The loop that waits for room.  It runs out of fuel only when no fuel was given, or
    when the device had consumed nothing more by the last read. *)
Lemma wait_room_inv {A} fuel mbox s sent h (k : option ((Z + unit) * mx_mbox) → io A) s' a :
  sq_ok mbox s sent h → sq_run true mbox s (r ← wait_room fuel mbox; k r) s' a →
  ∃ s1 r, sq_run true mbox s1 (k r) s' a ∧ dv_head s ≤ dv_head s1 ∧
    match r with
    | None => fuel = O ∨ dv_head s = Z.of_nat (length sent) - mb_depth mbox
    | Some (inl e, m) => e < 0 ∧ ∃ h', h ≤ h' ∧ sq_ok m s1 sent h' ∧ same_geometry mbox m
    | Some (inr _, m) => is_full m = false ∧ ∃ h', h ≤ h' ∧ sq_ok m s1 sent h' ∧ same_geometry mbox m
    end.
Proof.
  revert mbox s h. induction fuel as [|fuel IH]; intros mbox s h Hi Hr; cbn in Hr; destruct (is_full mbox) eqn:Ef.
  - exists s, None. split_and!; auto. lia.
  - exists s, (Some (inr tt, mbox)). split_and!; [done | lia | done |]. exists h. by split_and!; try lia.
  - cbn in Hr. apply sq_read_inv in Hr as (s1 & r & w & Hd1 & Hr & Hw).
    destruct (sq_ok_dev _ _ _ _ Hi _ Hd1) as [H1 Hmono].
    destruct (Z.leb_spec r 0) as [Hr0|Hr0]; cbn in Hr.
    { exists s1, (Some (inl (- EINTR), mbox)). split_and!; [done | done | by errno |].
      exists h. by split_and!; try lia. }
    destruct Hw as [?|Hw]; [lia|]. rewrite Hw in Hr. pose proof (sq_ok_refresh _ _ _ _ H1) as H2.
    pose proof (sq_ok_order _ _ _ _ H1). pose proof (sq_ok_order _ _ _ _ Hi).
    eapply sq_run_geometry in Hr; [|apply (geometry_head (ring_enc (mb_depth mbox) (dv_head s1)))].
    pose proof (ring_full _ _ _ (sk_ring _ _ _ _ H2)) as Hfull. cbn [mb_depth set_head upd] in Hfull.
    destruct fuel as [|fuel'] eqn:Efu.
    + cbn in Hr. destruct (is_full (set_head _ _)) eqn:Ef2.
      * exists s1, None. split_and!; [by eapply sq_run_geometry in Hr; [exact Hr|] | done | right].
        destruct (Z.eqb_spec (Z.of_nat (length sent) - dv_head s1) (mb_depth mbox)); [lia | done].
      * eexists s1, (Some (inr tt, _)). split_and!; [by eapply sq_run_geometry in Hr; [exact Hr|] | done | exact Ef2 |].
        exists (dv_head s1). split_and!; [lia | exact H2 | done].
    + apply (IH _ _ _ H2) in Hr as (s2 & res & Hr & Hle & Hres).
      exists s2, res. split_and!; [by eapply sq_run_geometry in Hr; [exact Hr|] | lia |].
      destruct res as [[[e|[]] m]|].
      * destruct Hres as (He & h' & Hh & Hm & Hg). split; [done|]. exists h'. split_and!; [lia | done | done].
      * destruct Hres as (He & h' & Hh & Hm & Hg). split; [done|]. exists h'. split_and!; [lia | done | done].
      * right. cbn in Hres. lia.
  - exists s, (Some (inr tt, mbox)). split_and!; [done | lia | done |]. exists h. by split_and!; try lia.
Qed.

Lemma send_one_inv fuel mbox s sent h cmd s' res :
  sq_ok mbox s sent h → sq_run true mbox s (send_one_locked fuel cmd mbox) s' res →
  match res with
  | None => fuel = O ∨ dv_head s = Z.of_nat (length sent) - mb_depth mbox
  | Some (ret, mbox') => ∃ h', h ≤ h' ∧ same_geometry mbox mbox' ∧
      ((ret < 0 ∧ sq_ok mbox' s' sent h') ∨ (ret = 0 ∧ sq_ok mbox' s' (sent ++ [cmd]) h'))
  end.
Proof.
  intros Hi Hr. unfold send_one_locked in Hr.
  apply (wait_room_inv _ _ _ _ _ _ _ _ Hi) in Hr as (s1 & r & Hr & Hle & Hres).
  destruct r as [[[e|[]] m]|].
  - destruct Hres as (He & h' & Hh & Hm & Hg). eapply sq_run_geometry in Hr; [|exact Hg].
    destruct (sq_ok_ret _ _ _ _ _ _ _ Hm Hr) as [-> Hi']. exists h'. split_and!; auto.
  - destruct Hres as (He & h' & Hh & Hm & Hg). eapply sq_run_geometry in Hr; [|exact Hg].
    pose proof (sk_ring _ _ _ _ Hm) as R. pose proof (ring_pushable _ _ _ R) as Hp.
    rewrite (ring_full _ _ _ R), Z.eqb_neq in He.
    pose proof (pow2_depth_range _ (ring_pow2 _ _ _ R)). pose proof (ring_bound _ _ _ R).
    pose proof (Z.mod_pos_bound (Z.of_nat (length sent)) (mb_depth m)).
    eapply (sq_write_publish m s1 sent h' [cmd] 1 IO_OPCODE_CONTEXT_WRITE (fun m => Some (0, m))
      (fun wret => Some (if wret <? 0 then wret else - EIO, m))) in Hr;
      [|exact Hm | done | lia | intros wret; change (8 * 1) with 8; destruct (wret <? 8); reflexivity].
    destruct Hr as [(wret & -> & Hw & Hi')|(m' & -> & Hi' & Hg')].
    + exists h'. split_and!; [done | done | left]. split; [|done]. errno. case_match; breflect; lia.
    + exists h'. split_and!; [done | by eapply geometry_trans | by right].
  - by apply sq_ret_inv in Hr as [-> _].
Qed.

(** ** Sessions *)




(** A mailbox of eight slots, nothing sent. *)
Definition demo_sq : mx_mbox := mx_mbox_init 4096 8192 (Z.shiftl 3 40).
Definition demo_dev : mbox_dev := MkMd (fun _ => 0) 0 0 [] [] [].

Lemma demo_sq_inv : sq_inv demo_sq demo_dev [] 0.
Proof.
  constructor; try done.
  - constructor; try done. by exists 3.
  - cbn. lia.
Qed.

Lemma demo_sq_ok : sq_ok demo_sq demo_dev [] 0.
Proof.
  destruct demo_sq_inv as [R F O L SL]. constructor; [done..|]. exists 0.
  constructor; try done. cbn. constructor.
Qed.





(** Every program has a run: each access may fail. *)
Lemma sq_run_exists {A} ok mbox (p : io A) s : ∃ s' a, sq_run ok mbox s p s' a.
Proof.
  revert s. induction p as [a|addr op k IH|w addr op nw k IH|n addr op k IH|ws addr op nw k IH]; intros s.
  - eexists _, _. apply SqRet.
  - destruct (IH 0 0 s) as (s' & a & Hr). exists s', a. eapply SqReadCtrl; [|exact Hr]. left. lia.
  - destruct (IH 0 s) as (s' & a & Hr). exists s', a. by apply (SqWriteCtrl _ _ _ _ _ _ _ _ 0 s).
  - destruct (IH 0 s) as (s' & a & Hr). exists s', a. by eapply SqReadData.
  - destruct (IH (-1) (s <| dv_mem := dv_mem s |>)) as (s' & a & Hr). exists s', a.
    eapply SqWriteData; [|exact Hr]. rewrite (proj2 (Z.ltb_lt _ _)) by lia.
    exists (dv_mem s). split; [by intros ? _ | done].
Qed.

(** SEND_CMD_WITH_DATA does not spin once the device makes room.  If the device has
    consumed at least one of the [depth] outstanding words when the section under the
    lock starts, the loop on [is_full] ends within one context read: in every run the
    section returns, with the word appended to the queue and 0, or with an errno and the
    queue as it was. *)
Theorem send_one_returns fuel mbox s sent h cmd :
  sq_ok mbox s sent h → Z.of_nat (length sent) - dv_head s < mb_depth mbox → fuel ≠ O →
  (∃ s' res, sq_run true mbox s (send_one_locked fuel cmd mbox) s' res) ∧
  (∀ s' res, sq_run true mbox s (send_one_locked fuel cmd mbox) s' res →
     ∃ ret mbox' h', res = Some (ret, mbox') ∧
       ((ret < 0 ∧ sq_ok mbox' s' sent h') ∨ (ret = 0 ∧ sq_ok mbox' s' (sent ++ [cmd]) h'))).
Proof.
  intros Hi Hroom Hf. split; [apply sq_run_exists|]. intros s' res Hr.
  apply (send_one_inv _ _ _ _ _ _ _ _ Hi) in Hr. destruct res as [[ret mbox']|]; [|lia].
  destruct Hr as (h' & _ & _ & Hor). eauto.
Qed.

Lemma send_one_returns_witness :
  ∃ s' res, sq_run true demo_sq demo_dev (send_one_locked 1 42 demo_sq) s' res.
Proof. apply (send_one_returns 1 demo_sq demo_dev [] 0 42 demo_sq_ok); [by vm_compute | done]. Defined.

(** A queued write that is lost is not noticed.  SEND_CMDS queues the word 100 and the tail
    and reports one word sent; the queued data write is lost (its waiter recovered it, or the
    device failed it), the tail is published all the same, and the device consumes what was
    in the slot before: the order of the two writes does not make the second wait for the
    first to land. *)
Theorem nowait_lost_write_sends_stale :
  ∃ s m, sq_run false demo_sq demo_dev (send_cmds_locked 1 (fun _ => 100) demo_sq) s (inr 1, m) ∧
    dv_log s = [0] ∧ dv_pending s = [] ∧ mb_tail m = 1.
Proof.
  exists (demo_dev <| dv_tail := 1 |> <| dv_log := [0] |> <| dv_head := 1 |>), (set_tail 1 demo_sq).
  split_and!; try done.
  eapply (SqWriteData _ _ _ _ _ _ _ _ 8); [by cbn|].
  eapply (SqWriteCtrl _ _ _ _ _ _ _ _ 8); [by cbn|]. cbv zeta.
  eapply SqDev; [eapply (SdLose _ _ _ [] _ _ [_] (fun _ => 0)); done|].
  eapply SqDev; [eapply (SdExec _ _ _ [] (PostCtx _ _) []); [done..|]; exists 1;
    split; [right; by vm_compute | done]|].
  eapply SqDev; [by apply (SdConsume _ _ (demo_dev <| dv_tail := 1 |>))|]. vm_compute. apply SqRet.
Qed.

(** ** Completion queue *)

(** The words a data read of [n] words from [addr] finds. *)
Definition mem_words (mem : Z → Z) (addr n : Z) : list Z := (fun i => mem (addr + 8 * i)) <$> seqZ 0 n.

(** The other side: the device stores a word whenever a slot is free, and the context words
    the driver queued take effect one after the other; of each the device takes the head,
    if it is one of the window, unless the publication is lost. *)
Inductive cq_dev (mbox : mx_mbox) (s : mbox_dev) : mbox_dev → Prop :=
  | CdProduce w :
      dv_tail s - dv_head s < mb_depth mbox →
      cq_dev mbox s (s <| dv_mem := fun a => if a =? slot_addr mbox (dv_tail s) then w else dv_mem s a |>
                       <| dv_log := dv_log s ++ [w] |> <| dv_tail := dv_tail s + 1 |>)
  | CdPublish word addr p head :
      dv_pending s = PostCtx word addr :: p →
      head = dv_head s ∨
      (addr = w_ctx_addr mbox ∧ dv_head s ≤ head ≤ dv_tail s ∧
       ctx_head word = ring_enc (mb_depth mbox) head) →
      cq_dev mbox s (s <| dv_pending := p |> <| dv_head := head |>).

(** Runs against such a device.  It reports its tail in the context word; a context write
    that succeeds is queued, [nowait].  A data read is waited for.  [ok]: the data reads
    succeed; one that fails delivers nothing. *)
Inductive cq_run {A} (ok : bool) (mbox : mx_mbox) : mbox_dev → io A → mbox_dev → A → Prop :=
  | CqRet s a : cq_run ok mbox s (Ret a) s a
  | CqDev s s1 p s' a : cq_dev mbox s s1 → cq_run ok mbox s1 p s' a → cq_run ok mbox s p s' a
  | CqReadCtrl s addr op k r w s' a :
      r ≤ 0 ∨ (addr = r_ctx_addr mbox ∧ ctx_tail w = ring_enc (mb_depth mbox) (dv_tail s)) →
      cq_run ok mbox s (k r w) s' a → cq_run ok mbox s (ReadCtrl addr op k) s' a
  | CqWriteCtrl s word addr op k r s' a :
      cq_run ok mbox (if 0 <? r then s <| dv_pending := dv_pending s ++ [PostCtx word addr] |> else s)
        (k r) s' a →
      cq_run ok mbox s (WriteCtrl word addr op true k) s' a
  | CqReadData s n addr op k r s' a :
      (ok = true → 8 * n ≤ r) →
      cq_run ok mbox (s <| dv_user := dv_user s ++ if 8 * n <=? r then mem_words (dv_mem s) addr n else [] |>)
        (k r) s' a →
      cq_run ok mbox s (ReadData n addr op k) s' a.

(** The driver has received [h] words; the device knows of at most that many. *)
Record cq_base (mbox : mx_mbox) (s : mbox_dev) (h t : Z) : Prop := {
  cq_ring : ring mbox h t;
  cq_fits : mbox_fits mbox;
  cq_order : 0 ≤ dv_head s ≤ h ∧ t ≤ dv_tail s;
  cq_room : dv_tail s - dv_head s ≤ mb_depth mbox;
  cq_tail : dv_tail s = Z.of_nat (length (dv_log s));
  cq_slots n : dv_head s ≤ n < dv_tail s → dv_log s !! Z.to_nat n = Some (dv_mem s (slot_addr mbox n));
}.

(** The queued heads: between what the device knows and what the driver received, in
    order. *)
Inductive heads_ok (mbox : mx_mbox) (h : Z) : Z → list posted → Prop :=
  | HoNil lo : lo ≤ h → heads_ok mbox h lo []
  | HoCtx lo x word p :
      lo ≤ x → ctx_head word = ring_enc (mb_depth mbox) x → heads_ok mbox h x p →
      heads_ok mbox h lo (PostCtx word (w_ctx_addr mbox) :: p).

(** The same with context words of the driver on their way. *)
Record cq_inv (mbox : mx_mbox) (s : mbox_dev) (h t : Z) : Prop := {
  cq_state : cq_base mbox s h t;
  cq_heads : heads_ok mbox h (dv_head s) (dv_pending s);
}.

Lemma cq_run_geometry {A} ok mbox mbox' s (p : io A) s' a :
  same_geometry mbox mbox' → cq_run ok mbox s p s' a → cq_run ok mbox' s p s' a.
Proof.
  intros Hg Hr. pose proof Hg as (Er & Ew & Ea & Ed). induction Hr.
  - constructor.
  - eapply CqDev; [|done]. destruct H as [w Hlt|word addr q head Hp Hh].
    + rewrite <- (geometry_slot _ _ _ Hg). apply CdProduce. by rewrite Ed.
    + eapply CdPublish; [done|]. by rewrite Ew, Ed.
  - eapply CqReadCtrl; [|done]. by rewrite Er, Ed.
  - by eapply CqWriteCtrl.
  - by eapply CqReadData.
Qed.

Lemma heads_le mbox h lo p : heads_ok mbox h lo p → lo ≤ h.
Proof. induction 1; lia. Qed.

Lemma heads_weaken mbox h lo lo' p : lo' ≤ lo → heads_ok mbox h lo p → heads_ok mbox h lo' p.
Proof. intros Hle Hp. revert Hle. destruct Hp as [|lo x word p Hx Hw Hp]; intros Hle;
    [apply HoNil; lia | apply (HoCtx _ _ _ x); [lia | done..]]. Qed.

Lemma heads_advance mbox h h' lo p : h ≤ h' → heads_ok mbox h lo p → heads_ok mbox h' lo p.
Proof. intros Hle. induction 1; [apply HoNil; lia | by eapply HoCtx]. Qed.

Lemma heads_geometry mbox mbox' h lo p :
  same_geometry mbox mbox' → heads_ok mbox h lo p → heads_ok mbox' h lo p.
Proof.
  intros (_ & Ew & _ & Ed). induction 1 as [|lo x word p Hx Hw Hp IH]; [by apply HoNil|].
  rewrite <- Ew. apply (HoCtx _ _ _ x); [exact Hx | by rewrite Ed | done].
Qed.

Lemma heads_publish mbox h lo p word :
  ctx_head word = ring_enc (mb_depth mbox) h → heads_ok mbox h lo p →
  heads_ok mbox h lo (p ++ [PostCtx word (w_ctx_addr mbox)]).
Proof.
  intros Hw. induction 1 as [lo Hlo|lo x word' p Hx Hw' Hp IH]; cbn.
  - apply (HoCtx _ _ _ h); [done | done | by apply HoNil].
  - by apply (HoCtx _ _ _ x).
Qed.

Lemma cq_produce_inv mbox s w h t :
  cq_base mbox s h t → dv_tail s - dv_head s < mb_depth mbox →
  cq_base mbox (s <| dv_mem := fun a => if a =? slot_addr mbox (dv_tail s) then w else dv_mem s a |>
                 <| dv_log := dv_log s ++ [w] |> <| dv_tail := dv_tail s + 1 |>) h t.
Proof.
  intros [R F O Rm T SL] Hlt. constructor; cbn; try done; try lia.
  - rewrite length_app. cbn. lia.
  - intros n Hn. destruct (decide (n = dv_tail s)) as [->|Hne].
    + rewrite Z.eqb_refl, lookup_app_r by lia. rewrite T. by rewrite Nat2Z.id, Nat.sub_diag.
    + rewrite lookup_app_l by lia. rewrite SL by lia. f_equal.
      rewrite (proj2 (Z.eqb_neq _ _)); [done|].
      apply slot_addr_inj; [by eapply ring_pow2 | lia].
Qed.

(** Nothing but the device has moved. *)
Definition cq_moved (s s1 : mbox_dev) : Prop :=
  dv_log s `prefix_of` dv_log s1 ∧ dv_user s1 = dv_user s.

Lemma cq_dev_inv mbox s s1 h t : cq_inv mbox s h t → cq_dev mbox s s1 → cq_inv mbox s1 h t ∧ cq_moved s s1.
Proof.
  intros [Hb Hh] [w Hlt|word addr p head Hp Hhd].
  - split; [constructor; [by apply cq_produce_inv | done]|]. split; [by apply prefix_app_r | done].
  - split; [|done]. rewrite Hp in Hh. inversion Hh as [|lo x word' p' Hx Hw Hps]; subst.
    destruct Hb as [R F O Rm T SL]. pose proof (heads_le _ _ _ _ Hps). pose proof (ring_order _ _ _ R).
    assert (head = dv_head s ∨ head = x) as Hor.
    { destruct Hhd as [->|(_ & Hwin & He)]; [by left | right].
      apply (enc_inj _ (ring_pow2 _ _ _ R) _ _ (dv_head s)); [lia | lia | lia | congruence]. }
    constructor; [constructor; cbn; try done; try lia; intros n Hn; apply SL; lia|].
    cbn. destruct Hor as [-> | ->]; [by eapply heads_weaken | done].
Qed.

Lemma cq_devs_inv mbox s s1 h t :
  cq_inv mbox s h t → rtc (cq_dev mbox) s s1 → cq_inv mbox s1 h t ∧ cq_moved s s1.
Proof.
  intros Hi Hr. revert Hi. induction Hr as [s|s s2 s1 Hd _ IH]; intros Hi; [done|].
  destruct (cq_dev_inv _ _ _ _ _ Hi Hd) as [H2 [Hp Hu]]. destruct (IH H2) as [H1 [Hp1 Hu1]].
  split; [done|]. split; [by etrans | congruence].
Qed.

(** Inversion of each access, past the device steps that come before it. *)
Section cq_inversion.
Context {A : Type} (ok : bool) (mbox : mx_mbox) (h t : Z) (s' : mbox_dev) (a : A).

Lemma cq_ret_inv s b :
  cq_inv mbox s h t → cq_run ok mbox s (Ret b) s' a →
  a = b ∧ cq_inv mbox s' h t ∧ cq_moved s s'.
Proof.
  intros Hi Hr. assert (a = b ∧ rtc (cq_dev mbox) s s') as [Eb Hd].
  { remember (Ret b) as p eqn:E. clear Hi. induction Hr; simplify_eq; [by split; [|apply rtc_refl]|].
    destruct IHHr as [-> ?]; [done|]. split; [done | by eapply rtc_l]. }
  split; [done|]. by apply cq_devs_inv.
Qed.

Lemma cq_read_ctrl_inv s addr op k :
  cq_inv mbox s h t → cq_run ok mbox s (ReadCtrl addr op k) s' a →
  ∃ s1 r w, cq_inv mbox s1 h t ∧ cq_moved s s1 ∧ cq_run ok mbox s1 (k r w) s' a ∧
    (r ≤ 0 ∨ ctx_tail w = ring_enc (mb_depth mbox) (dv_tail s1)).
Proof.
  intros Hi Hr. remember (ReadCtrl addr op k) as p eqn:E. revert Hi. induction Hr; intros Hi; simplify_eq.
  - destruct (cq_dev_inv _ _ _ _ _ Hi H) as [H1 [Hp Hu]].
    destruct (IHHr eq_refl H1) as (s2 & r & w & ? & [Hp2 Hu2] & ? & ?).
    exists s2, r, w. split_and!; try done. split; [by etrans | congruence].
  - exists s, r, w. split_and!; try done. tauto.
Qed.

Lemma cq_read_data_inv s n addr op k :
  cq_inv mbox s h t → cq_run ok mbox s (ReadData n addr op k) s' a →
  ∃ s1 r, cq_inv mbox s1 h t ∧ cq_moved s s1 ∧ (ok = true → 8 * n ≤ r) ∧
    cq_run ok mbox (s1 <| dv_user := dv_user s1 ++
      if 8 * n <=? r then mem_words (dv_mem s1) addr n else [] |>) (k r) s' a.
Proof.
  intros Hi Hr. remember (ReadData n addr op k) as p eqn:E. revert Hi. induction Hr; intros Hi; simplify_eq.
  - destruct (cq_dev_inv _ _ _ _ _ Hi H) as [H1 [Hp Hu]].
    destruct (IHHr eq_refl H1) as (s2 & r & ? & [Hp2 Hu2] & ? & ?).
    exists s2, r. split_and!; try done. split; [by etrans | congruence].
  - exists s, r. by split_and!.
Qed.

Lemma cq_write_ctrl_inv s word op k :
  cq_inv mbox s h t → ctx_head word = ring_enc (mb_depth mbox) h →
  cq_run ok mbox s (WriteCtrl word (w_ctx_addr mbox) op true k) s' a →
  ∃ s1 r, cq_inv mbox s1 h t ∧ cq_moved s s1 ∧ cq_run ok mbox s1 (k r) s' a.
Proof.
  intros Hi Hw Hr. remember (WriteCtrl word (w_ctx_addr mbox) op true k) as p eqn:E. revert Hi.
  induction Hr; intros Hi; simplify_eq.
  - destruct (cq_dev_inv _ _ _ _ _ Hi H) as [H1 [Hp Hu]].
    destruct (IHHr eq_refl H1) as (s2 & r & ? & [Hp2 Hu2] & ?).
    exists s2, r. split_and!; try done. split; [by etrans | congruence].
  - eexists _, r. split_and!; [| |exact Hr]; [|by destruct (0 <? r)].
    destruct (0 <? r); [|done]. destruct Hi as [[R F O Rm T SL] Hh]. constructor; [done|]. cbn.
    by apply heads_publish.
Qed.
End cq_inversion.

(** Taking the tail the device reported. *)
Lemma cq_refresh_inv mbox s h t :
  cq_inv mbox s h t → cq_inv (set_tail (ring_enc (mb_depth mbox) (dv_tail s)) mbox) s h (dv_tail s).
Proof.
  intros [[R F O Rm T SL] Hh]. destruct R as [Rd Rh Rt Ro Rb]. pose proof (enc_range _ Rd (dv_tail s)).
  constructor; [|by apply (heads_geometry mbox)].
  constructor; try done; try lia. constructor; try done; try lia.
  - by rewrite head_set_tail.
  - by rewrite tail_set_tail.
  - cbn. lia.
Qed.

(** Counting [c] more words as received. *)
Lemma cq_advance_inv mbox s h t c :
  cq_inv mbox s h t → 0 ≤ c ≤ t - h →
  cq_inv (set_head (get_next_index (mb_head mbox) c (mb_depth mbox)) mbox) s (h + c) t.
Proof.
  intros [[R F O Rm T SL] Hh] Hc.
  constructor; [|apply (heads_geometry mbox), (heads_advance _ h); [done | lia | done]].
  constructor; try done; try lia. by apply ring_pop.
Qed.

(** The words of a run that does not wrap, as the device produced them. *)
Lemma cq_words mbox s h t c :
  cq_inv mbox s h t → 0 ≤ c ≤ Z.min (t - h) (mb_depth mbox - h mod mb_depth mbox) → 0 < c →
  mem_words (dv_mem s) (u64 (mb_data_addr mbox + get_data_offset (mb_head mbox))) c =
  take (Z.to_nat c) (drop (Z.to_nat h) (dv_log s)).
Proof.
  intros [[R F O Rm T SL] _] Hc Hpos. pose proof (ring_pow2 _ _ _ R) as Hd. pose proof (pow2_depth_range _ Hd).
  pose proof (ring_order _ _ _ R). pose proof (Z.mod_pos_bound h (mb_depth mbox)).
  assert (u64 (mb_data_addr mbox + get_data_offset (mb_head mbox)) =
          mb_data_addr mbox + 8 * (h mod mb_depth mbox)) as ->.
  { unfold get_data_offset. rewrite (ring_head _ _ _ R), enc_index by done. destruct F.
    apply u64_id. unfold ULLONG_MAX. lia. }
  apply list_eq. intros i. unfold mem_words. rewrite list_lookup_fmap.
  destruct (decide (i < Z.to_nat c)%nat) as [Hi|Hi].
  - rewrite lookup_seqZ_lt by lia. cbn. rewrite lookup_take_lt, lookup_drop by lia.
    rewrite <- (Nat2Z.id (Z.to_nat h + i)), SL by lia. f_equal. unfold slot_addr. f_equal.
    replace (Z.of_nat (Z.to_nat h + i)) with (h + Z.of_nat i) by lia. rewrite slot_run by (done || lia). lia.
  - rewrite lookup_seqZ_ge by lia. rewrite lookup_take_ge by lia. done.
Qed.

Lemma drop_prefix_take (n c : nat) (l l' : list Z) :
  l `prefix_of` l' → (n + c ≤ length l)%nat → take c (drop n l) = take c (drop n l').
Proof.
  intros [k ->] Hl. rewrite drop_app_le by lia. rewrite take_app_le; [done|]. rewrite length_drop. lia.
Qed.

(** Publishing the advanced head. *)
Lemma cq_publish_inv {A} ok mbox s h t (b : A) op s' a :
  cq_inv mbox s h t →
  cq_run ok mbox s (WriteCtrl (mb_ctx mbox) (w_ctx_addr mbox) op true (fun _ => Ret b)) s' a →
  a = b ∧ cq_inv mbox s' h t ∧ cq_moved s s'.
Proof.
  intros Hi Hr.
  apply (cq_write_ctrl_inv _ _ _ _ _ _ _ _ _ _ Hi) in Hr as (s1 & r & H1 & [Hp Hu] & Hr);
    [|apply (ring_head _ _ _ (cq_ring _ _ _ _ (cq_state _ _ _ _ Hi)))].
  apply (cq_ret_inv _ _ _ _ _ _ _ _ H1) in Hr as (-> & Hi' & [Hp' Hu']). split_and!; [done | done |].
  split; [by etrans | congruence].
Qed.

Lemma recv_cmds_inv ok mbox s h t nr s' res mbox' :
  cq_inv mbox s h t → 0 < nr → cq_run ok mbox s (recv_cmds_locked nr mbox) s' (res, mbox') →
  ∃ c t', cq_inv mbox' s' (h + c) t' ∧ same_geometry mbox mbox' ∧ dv_log s `prefix_of` dv_log s' ∧
    match res with
    | inl e => c = 0 ∧ e < 0 ∧ dv_user s' = dv_user s
    | inr count => c = count ∧ 0 ≤ c ≤ nr ∧
        (ok = true → dv_user s' = dv_user s ++ take (Z.to_nat c) (drop (Z.to_nat h) (dv_log s')))
    end.
Proof.
  intros Hi Hnr Hr. unfold recv_cmds_locked in Hr.
  apply (cq_read_ctrl_inv _ _ _ _ _ _ _ _ _ _ Hi) in Hr as (s1 & r & w & Hi1 & [Hp Hu] & Hr & Hw).
  destruct (Z.leb_spec r 0) as [Hr0|Hr0].
  { apply (cq_ret_inv _ _ _ _ _ _ _ _ Hi1) in Hr as ([= -> ->] & Hi' & [Hp' Hu']). exists 0, t.
    rewrite Z.add_0_r. errno. split_and!; try done; [by etrans | congruence]. }
  destruct Hw as [?|Hw]; [lia|]. rewrite Hw in Hr. cbv zeta in Hr.
  pose proof (cq_refresh_inv _ _ _ _ Hi1) as Hi2. set (m := set_tail _ mbox) in *.
  assert (same_geometry mbox m) as Hg by done. eapply cq_run_geometry in Hr; [|exact Hg].
  pose proof (cq_ring _ _ _ _ (cq_state _ _ _ _ Hi2)) as R. rewrite (ring_empty _ _ _ R) in Hr.
  pose proof (ring_popable _ _ _ R) as Hpop. pose proof (ring_order _ _ _ R).
  pose proof (pow2_depth_range _ (ring_pow2 _ _ _ R)). pose proof (Z.mod_pos_bound h (mb_depth m)).
  destruct (Z.eqb_spec (dv_tail s1) h) as [He|He].
  { apply (cq_ret_inv _ _ _ _ _ _ _ _ Hi2) in Hr as ([= -> ->] & Hi' & [Hp' Hu']). exists 0, (dv_tail s1).
    rewrite Z.add_0_r. split_and!; try done; [by etrans | lia |]. intros _. rewrite Hu', Hu. cbn. by rewrite app_nil_r. }
  set (c := if nr <? get_popable_count m then nr else get_popable_count m) in *.
  assert (c = Z.min nr (get_popable_count m)) as Ec by (unfold c; case_match; breflect; lia).
  apply (cq_read_data_inv _ _ _ _ _ _ _ _ _ _ _ Hi2) in Hr as (s2 & r2 & Hi3 & [Hp2 Hu2] & Hok & Hr).
  pose proof (cq_words _ _ _ _ c Hi3 ltac:(lia) ltac:(lia)) as Hwords.
  pose proof (cq_advance_inv _ _ _ _ c Hi3 ltac:(lia)) as Hi4.
  set (m2 := set_head _ m) in *. eapply cq_run_geometry in Hr; [|by apply (geometry_head _ m : same_geometry m m2)].
  eapply cq_publish_inv in Hr as ([= -> ->] & Hi5 & [Hp5 Hu5]); [|destruct Hi4 as [[] ?]; by constructor].
  exists c, (dv_tail s1). cbn in Hp5, Hu5.
  split_and!; try done; [by etrans; [|etrans; [exact Hp2|]] | lia | lia |].
  intros Hok1. rewrite Hu5, Hu2, Hu, (proj2 (Z.leb_le _ _) (Hok Hok1)). f_equal.
  etrans; [exact Hwords|]. apply drop_prefix_take; [done|].
  destruct Hi3 as [[] _]. lia.
Qed.

(** Any sequence of RECV_CMDS calls on one mailbox.  The number is how many words the
    successful calls reported. *)
Inductive cq_session (ok : bool) : mx_mbox → mbox_dev → Z → mx_mbox → mbox_dev → Z → Prop :=
  | CsDone m s n : cq_session ok m s n m s n
  | CsRecv m s n nr s1 r m1 m' s' n' :
      0 < nr → cq_run ok m s (recv_cmds_locked nr m) s1 (r, m1) →
      cq_session ok m1 s1 (n + match r with inl _ => 0 | inr count => count end) m' s' n' →
      cq_session ok m s n m' s' n'.

Lemma cq_session_inv m s n m' s' n' t :
  cq_session true m s n m' s' n' → cq_inv m s n t → dv_user s = take (Z.to_nat n) (dv_log s) →
  ∃ t', cq_inv m' s' n' t' ∧ dv_user s' = take (Z.to_nat n') (dv_log s').
Proof.
  intros Hs. revert t. induction Hs as [m s n|m s n nr s1 r m1 m' s' n' Hnr Hr Hs IH]; intros t Hi Hu; [eauto|].
  pose proof Hi as Hi0.
  apply (recv_cmds_inv _ _ _ _ _ _ _ _ _ Hi Hnr) in Hr as (c & t' & Hi1 & Hg & Hp & Hres).
  destruct Hi0 as [[R F O Rm T _] _]. pose proof (ring_order _ _ _ R).
  destruct r as [e|count].
  - destruct Hres as (-> & _ & Hu1). apply (IH t'); [done|].
    rewrite Z.add_0_r, Hu1, Hu. destruct Hp as [l ->]. rewrite take_app_le by lia. done.
  - destruct Hres as (-> & Hc & Hu1). apply (IH t'); [done|].
    rewrite Hu1, Hu by done. rewrite Z2Nat.inj_add, <- take_take_drop by lia. f_equal.
    destruct Hp as [l ->]. rewrite take_app_le by lia. done.
Qed.

(** C13: The completion mailbox is a FIFO as long as the data reads succeed.  Over any
    sequence of RECV_CMDS calls, with the device producing at any moment between two
    accesses and head publications that are queued, take effect in order, and may be lost:
    the words delivered to user memory are exactly the first [n] words the device
    produced, in order, where [n] is the number of words the calls reported, and nothing
    unread is overwritten. *)
Theorem cq_mailbox_fifo m s m' s' n t :
  cq_inv m s 0 t → dv_user s = [] → cq_session true m s 0 m' s' n →
  dv_user s' = take (Z.to_nat n) (dv_log s') ∧ dv_user s' `prefix_of` dv_log s' ∧
  0 ≤ n ≤ dv_tail s' ∧ dv_tail s' - n ≤ mb_depth m'.
Proof.
  intros Hi Hu Hs. destruct (cq_session_inv _ _ _ _ _ _ _ Hs Hi Hu) as (t' & Hi' & Hu').
  destruct Hi' as [[R F O Rm T SL] _]. pose proof (ring_order _ _ _ R). split_and!; try done; try lia. rewrite Hu'. apply prefix_take.
Qed.

(** The device has produced one word into an empty mailbox of eight slots. *)
Definition demo_cq_dev : mbox_dev := MkMd (fun a => if a =? 8192 then 7 else 0) 0 1 [7] [] [].

Lemma demo_cq_inv : cq_inv demo_sq demo_cq_dev 0 0.
Proof.
  constructor; [|by apply HoNil]. constructor; try done.
  - constructor; try done. by exists 3.
  - cbn. intros n Hn. by replace n with 0 by lia.
Qed.

(** RECV_CMDS against it; the data read returns [r]. *)
Lemma demo_recv ok r l :
  (ok = true → 8 ≤ r) → l = (if 8 <=? r then [7] else []) →
  cq_run ok demo_sq demo_cq_dev (recv_cmds_locked 4 demo_sq)
    (demo_cq_dev <| dv_user := l |> <| dv_head := 1 |>) (inr 1, set_head 1 (set_tail 1 demo_sq)).
Proof.
  intros Hok ->. eapply (CqReadCtrl _ _ _ _ _ _ 8 (Z.shiftl 1 48)); [right; by vm_compute|].
  eapply (CqReadData _ _ _ _ _ _ _ r); [exact Hok|].
  eapply (CqWriteCtrl _ _ _ _ _ _ _ 8). cbv zeta.
  eapply (CqDev _ _ _ (demo_cq_dev <| dv_user := if 8 <=? r then [7] else [] |> <| dv_head := 1 |>)).
  - match goal with |- cq_dev _ ?s _ =>
      pose proof (CdPublish demo_sq s (mb_ctx (set_head 1 (set_tail 1 demo_sq))) (w_ctx_addr demo_sq) [] 1) as Hd
    end.
    vm_compute in Hd. vm_compute. apply Hd; [done | right; by vm_compute].
  - vm_compute. apply CqRet.
Qed.

Lemma cq_mailbox_fifo_witness :
  dv_user (demo_cq_dev <| dv_user := [7] |> <| dv_head := 1 |>) `prefix_of` [7].
Proof.
  refine (proj1 (proj2 (cq_mailbox_fifo demo_sq demo_cq_dev (set_head 1 (set_tail 1 demo_sq))
    (demo_cq_dev <| dv_user := [7] |> <| dv_head := 1 |>) 1 0 demo_cq_inv eq_refl _))).
  eapply (CsRecv _ _ _ _ 4 _ (inr 1)); [lia | by apply (demo_recv true 8) | apply CsDone].
Defined.

(** C40: A failed data read loses words.  RECV_CMDS advances and publishes the head
    whatever [read_data_from_device] returned, and still reports success: there is a run
    in which the data read fails, the call returns one word, user memory received none,
    and the device counts the word as consumed, so it can be overwritten and is never
    delivered. *)
Theorem recv_failed_read_loses_words :
  ∃ m s s' m', cq_inv m s 0 0 ∧ dv_log s = [7] ∧ dv_user s = [] ∧
    cq_run false m s (recv_cmds_locked 4 m) s' (inr 1, m') ∧
    dv_user s' = [] ∧ dv_head s' = 1 ∧ mb_head m' = 1.
Proof.
  exists demo_sq, demo_cq_dev, (demo_cq_dev <| dv_user := [] |> <| dv_head := 1 |>),
    (set_head 1 (set_tail 1 demo_sq)).
  split; [exact demo_cq_inv|]. split_and!; try done. by apply (demo_recv false (-5)).
Qed.
