(* ===== verification/Transfer.v ===== *)
(** * Life of a transfer (src/transfer.c, src/helper.c, the submit and complete loops of
      src/core_common.c)

    A transfer is allocated with an id, queued, pushed to the device, completed under its
    id, and freed by whoever owns it last: the waiter, or the zombie cleaner when the
    waiter gave up first.  The threads that take part interleave freely; each step below
    is what one of them does under one lock. *)

From S2P Require Import Prelude.

(** ** State *)

Definition MX_PING_ID : Z := Z.shiftl 1 16 - 1.

(** Where the waiter or the cleaner of a transfer is. *)
Inductive owner :=
  | OAlloc      (** allocated, command not built yet *)
  | OWait       (** queued; its waiter sleeps on [done] *)
  | OLate       (** timed out after the push; one more second for a late completion *)
  | OMarked     (** [is_zombie] written *)
  | OCounted    (** [zombie_wait_count] incremented *)
  | OZombie     (** on [zombie_list] *)
  | OCleanup    (** on the cleaner's [to_cleanup] list *)
  | OFreed.

#[export] Instance owner_eq_dec : EqDecision owner.
Proof. solve_decision. Defined.

(** The fields of [struct mx_transfer] that decide its life.  [tf_pushed] records that
    the command was handed to the device. *)
Record mx_transfer := MkXfer {
  tf_id : Z;
  tf_no_completion : bool;
  tf_is_zombie : bool;
  tf_wait_claimed : bool;
  tf_done : bool;
  tf_pushed : bool;
  tf_owner : owner;
}.

#[export] Instance eta_xfer : Eta mx_transfer := fun r =>
  MkXfer (tf_id r) (tf_no_completion r) (tf_is_zombie r) (tf_wait_claimed r) (tf_done r)
    (tf_pushed r) (tf_owner r).

(** [ts_hw]: commands the device owns and will complete; [ts_cq]: completion entries not
    popped yet, named by their transfer (an entry carries only its id). *)
Record tsys := MkTs {
  ts_x : gmap nat mx_transfer;
  ts_ids : gmap Z nat;
  ts_sq_list : list nat;
  ts_hw : gset nat;
  ts_cq : list nat;
  ts_zombie_list : list nat;
  ts_to_cleanup : list nat;
  ts_wait_count : Z;
  ts_zombie_wait_count : Z;
  ts_dma_reclaim_safe : bool;
}.

#[export] Instance eta_tsys : Eta tsys := fun r =>
  MkTs (ts_x r) (ts_ids r) (ts_sq_list r) (ts_hw r) (ts_cq r) (ts_zombie_list r) (ts_to_cleanup r)
    (ts_wait_count r) (ts_zombie_wait_count r) (ts_dma_reclaim_safe r).

Definition ts0 : tsys := MkTs ∅ ∅ [] ∅ [] [] [] 0 0 false.

Definition set_x (t : nat) (x : mx_transfer) (s : tsys) : tsys := s <| ts_x := <[t := x]> (ts_x s) |>.

(** [list_del_init] of one entry. *)
Definition list_remove (t : nat) (l : list nat) : list nat := filter (fun u => u ≠ t) l.

(** ** Ids (src/helper.c) *)

(** [id]: the id [idr_alloc_cyclic] picked in [0, MX_PING_ID). *)
Definition transfer_id_alloc (t : nat) (id : Z) (s : tsys) : tsys :=
  s <| ts_ids := <[id := t]> (ts_ids s) |>.

Definition transfer_id_free (t : nat) (id : Z) (s : tsys) : tsys :=
  match ts_ids s !! id with
  | Some u => if decide (u = t) then s <| ts_ids := delete id (ts_ids s) |> else s
  | None => s
  end.

(** The transfer whose completion the caller now owns. *)
Definition transfer_id_claim_completion (id : Z) (s : tsys) : option (nat * mx_transfer * tsys) :=
  match ts_ids s !! id with
  | None => None
  | Some t =>
    match ts_x s !! t with
    | None => None
    | Some x =>
      if tf_wait_claimed x then None
      else
        let x := x <| tf_wait_claimed := true |> in
        Some (t, x, set_x t x s <| ts_ids := delete id (ts_ids s) |>)
    end
  end.

(** ** Allocation, queueing, release (src/transfer.c) *)

Definition alloc_mx_transfer (t : nat) (id : Z) (no_completion : bool) (s : tsys) : tsys :=
  set_x t (MkXfer id no_completion false false false false OAlloc) (transfer_id_alloc t id s).

(** The id and the transfer itself; the lease and SG references are those of Lease.v and
    of the mapping. *)
Definition release_mx_transfer (t : nat) (x : mx_transfer) (s : tsys) : tsys :=
  set_x t (x <| tf_owner := OFreed |>) (transfer_id_free t (tf_id x) s).

Definition mx_transfer_queue (t : nat) (x : mx_transfer) (s : tsys) : tsys :=
  set_x t (x <| tf_done := false |> <| tf_owner := OWait |>) s
    <| ts_sq_list := ts_sq_list s ++ [t] |>.

Definition mx_transfer_remove_from_sq (t : nat) (s : tsys) : bool * tsys :=
  if bool_decide (t ∈ ts_sq_list s)
  then (true, s <| ts_sq_list := list_remove t (ts_sq_list s) |>)
  else (false, s).

(** ** The submit and complete loops (src/core_common.c) *)

(** One iteration of [mx_submit_handler] over [sq_list], the queue being pushable. *)
Definition submit_one (t : nat) (x : mx_transfer) (s : tsys) : tsys :=
  let s := s <| ts_sq_list := list_remove t (ts_sq_list s) |> in
  let x := x <| tf_pushed := true |> in
  if tf_no_completion x then set_x t (x <| tf_done := true |>) s
  else set_x t x s <| ts_wait_count := ts_wait_count s + 1 |> <| ts_hw := {[t]} ∪ ts_hw s |>.

(** One iteration of [mx_complete_handler] for the entry with [info.id = id]. *)
Definition complete_one (id : Z) (s : tsys) : tsys :=
  match transfer_id_claim_completion id s with
  | None => s
  | Some (t, x, s) =>
    let s := s <| ts_wait_count := ts_wait_count s - 1 |> in
    if tf_is_zombie x then s else set_x t (x <| tf_done := true |>) s
  end.

(** ** The end of a wait, zombies (src/transfer.c) *)

(** [is_zombie], [zombie_wait_count] and [zombie_list], in this order and not atomically. *)
Definition zombie_mark (t : nat) (x : mx_transfer) (s : tsys) : tsys :=
  set_x t (x <| tf_is_zombie := true |> <| tf_owner := OMarked |>) s.
Definition zombie_count (t : nat) (x : mx_transfer) (s : tsys) : tsys :=
  set_x t (x <| tf_owner := OCounted |>) s <| ts_zombie_wait_count := ts_zombie_wait_count s + 1 |>.
Definition zombie_park (t : nat) (x : mx_transfer) (s : tsys) : tsys :=
  set_x t (x <| tf_owner := OZombie |>) s <| ts_zombie_list := ts_zombie_list s ++ [t] |>.

(** One entry of [zombie_list] moved to [to_cleanup]. *)
Definition zombie_collect (t : nat) (x : mx_transfer) (s : tsys) : tsys :=
  set_x t (x <| tf_owner := OCleanup |>) s
    <| ts_zombie_list := list_remove t (ts_zombie_list s) |>
    <| ts_to_cleanup := ts_to_cleanup s ++ [t] |>.

(** One iteration of [drain_zombie_list]. *)
Definition drain_zombie (t : nat) (x : mx_transfer) (s : tsys) : tsys :=
  let claimed := negb (tf_wait_claimed x) in
  let x := x <| tf_wait_claimed := true |> in
  let s := s <| ts_to_cleanup := list_remove t (ts_to_cleanup s) |> in
  let s := if claimed then s <| ts_wait_count := ts_wait_count s - 1 |> else s in
  let s := s <| ts_zombie_wait_count := ts_zombie_wait_count s - 1 |> in
  release_mx_transfer t x s.

(** ** Steps *)

Inductive tstep (s : tsys) : tsys → Prop :=
  | TsAlloc t id nc :
      ts_x s !! t = None → ts_ids s !! id = None → 0 ≤ id < MX_PING_ID →
      tstep s (alloc_mx_transfer t id nc s)
  | TsInitFail t x :
      ts_x s !! t = Some x → tf_owner x = OAlloc → tstep s (release_mx_transfer t x s)
  | TsQueue t x :
      ts_x s !! t = Some x → tf_owner x = OAlloc → tstep s (mx_transfer_queue t x s)
  | TsSubmit t x l :
      ts_sq_list s = t :: l → ts_x s !! t = Some x → ts_dma_reclaim_safe s = false →
      tstep s (submit_one t x s)
  | TsDevice t :
      t ∈ ts_hw s → tstep s (s <| ts_hw := ts_hw s ∖ {[t]} |> <| ts_cq := ts_cq s ++ [t] |>)
  | TsComplete t x l :
      ts_cq s = t :: l → ts_x s !! t = Some x →
      tstep s (complete_one (tf_id x) (s <| ts_cq := l |>))
  | TsDone t x :
      ts_x s !! t = Some x → tf_owner x = OWait ∨ tf_owner x = OLate → tf_done x = true →
      tstep s (release_mx_transfer t x s)
  | TsRecover t x s' :
      ts_x s !! t = Some x → tf_owner x = OWait → mx_transfer_remove_from_sq t s = (true, s') →
      tstep s (release_mx_transfer t x s')
  | TsLate t x :
      ts_x s !! t = Some x → tf_owner x = OWait → tf_no_completion x = false →
      mx_transfer_remove_from_sq t s = (false, s) →
      tstep s (set_x t (x <| tf_owner := OLate |>) s)
  | TsMark t x :
      ts_x s !! t = Some x → tf_owner x = OWait ∨ tf_owner x = OLate → tf_no_completion x = false →
      mx_transfer_remove_from_sq t s = (false, s) → tstep s (zombie_mark t x s)
  | TsCount t x :
      ts_x s !! t = Some x → tf_owner x = OMarked → tstep s (zombie_count t x s)
  | TsPark t x :
      ts_x s !! t = Some x → tf_owner x = OCounted → tstep s (zombie_park t x s)
  | TsCollect t x :
      ts_x s !! t = Some x → t ∈ ts_zombie_list s →
      tf_wait_claimed x = true ∨ ts_dma_reclaim_safe s = true → tstep s (zombie_collect t x s)
  | TsDrain t x :
      ts_x s !! t = Some x → t ∈ ts_to_cleanup s → tstep s (drain_zombie t x s)
  | TsReclaimSafe :
      tstep s (s <| ts_hw := ∅ |> <| ts_cq := [] |> <| ts_dma_reclaim_safe := true |>).

Definition ts_reachable (s : tsys) : Prop := rtc tstep ts0 s.

(** The part of [tstep] that the owner of transfer [t] runs by itself: a waiter that finds
    [done] set, a waiter past [zombie_mark] that goes on to park the transfer, and the
    cleaner, which collects a parked transfer once it is claimed and drains what it
    collected.  No device, no submit or complete loop, no timeout and no
    [dma_reclaim_safe] among them. *)
Inductive reap_step (t : nat) (s : tsys) : tsys → Prop :=
  | RpDone x :
      ts_x s !! t = Some x → tf_owner x = OWait ∨ tf_owner x = OLate → tf_done x = true →
      reap_step t s (release_mx_transfer t x s)
  | RpCount x :
      ts_x s !! t = Some x → tf_owner x = OMarked → reap_step t s (zombie_count t x s)
  | RpPark x :
      ts_x s !! t = Some x → tf_owner x = OCounted → reap_step t s (zombie_park t x s)
  | RpCollect x :
      ts_x s !! t = Some x → t ∈ ts_zombie_list s → tf_wait_claimed x = true →
      reap_step t s (zombie_collect t x s)
  | RpDrain x :
      ts_x s !! t = Some x → t ∈ ts_to_cleanup s → reap_step t s (drain_zombie t x s).

Lemma reap_step_tstep t s s' : reap_step t s s' → tstep s s'.
Proof.
  destruct 1 as [x Hx Ho Hd|x Hx Ho|x Hx Ho|x Hx Hz Hc|x Hx Hc].
  - by apply TsDone.
  - by apply TsCount.
  - by apply TsPark.
  - apply TsCollect; [done | done | by left].
  - by apply TsDrain.
Qed.

(** ** Invariant *)

Definition unclaimed (x : mx_transfer) : Z :=
  Z.b2z (tf_pushed x && negb (tf_no_completion x) && negb (tf_wait_claimed x)).

Definition parked (x : mx_transfer) : Z :=
  match tf_owner x with OCounted | OZombie | OCleanup => 1 | _ => 0 end.

(** The waiter still owns the transfer; it was pushed for sure. *)
Definition waiting (o : owner) : bool := match o with OAlloc | OWait | OLate => true | _ => false end.
Definition past_push (o : owner) : bool :=
  match o with OLate | OMarked | OCounted | OZombie | OCleanup => true | _ => false end.
Definition marked (o : owner) : bool :=
  match o with OMarked | OCounted | OZombie | OCleanup => true | _ => false end.
(** The owners a command in flight may have. *)
Definition in_flight (o : owner) : bool :=
  match o with OAlloc | OCleanup | OFreed => false | _ => true end.

(** One transfer against the lists. *)
Record xfer_ok (s : tsys) (t : nat) (x : mx_transfer) : Prop := {
  xo_id : 0 ≤ tf_id x < MX_PING_ID;
  xo_sq : t ∈ ts_sq_list s → tf_owner x = OWait ∧ tf_pushed x = false;
  xo_queued : tf_owner x = OWait → tf_pushed x = false → t ∈ ts_sq_list s;
  xo_hw : t ∈ ts_hw s → tf_pushed x = true ∧ tf_wait_claimed x = false ∧
    tf_no_completion x = false ∧ in_flight (tf_owner x) = true;
  xo_cq : t ∈ ts_cq s → tf_pushed x = true ∧ tf_wait_claimed x = false ∧
    tf_no_completion x = false ∧ in_flight (tf_owner x) = true;
  xo_fresh : tf_pushed x = false → tf_wait_claimed x = false ∧ tf_done x = false;
  xo_alloc : tf_owner x = OAlloc → tf_pushed x = false;
  xo_done : tf_done x = true → tf_wait_claimed x = true ∨ tf_no_completion x = true;
  xo_nc : tf_no_completion x = true → tf_wait_claimed x = false ∧ past_push (tf_owner x) = false;
  xo_ids : tf_wait_claimed x = false → tf_owner x ≠ OFreed → ts_ids s !! tf_id x = Some t;
  xo_zombie : t ∈ ts_zombie_list s ↔ tf_owner x = OZombie;
  xo_cleanup : t ∈ ts_to_cleanup s ↔ tf_owner x = OCleanup;
  xo_late : past_push (tf_owner x) = true → tf_pushed x = true;
  xo_mark : waiting (tf_owner x) = true → tf_is_zombie x = false;
  xo_marked : marked (tf_owner x) = true → tf_is_zombie x = true;
  xo_wake : tf_wait_claimed x = true → tf_is_zombie x = false → tf_done x = true;
  xo_collected : tf_owner x = OCleanup → tf_wait_claimed x = true ∨ ts_dma_reclaim_safe s = true;
  xo_freed : tf_owner x = OFreed → tf_pushed x = true →
    tf_wait_claimed x = true ∨ tf_no_completion x = true;
}.

Record ts_inv (s : tsys) : Prop := {
  ti_x t x : ts_x s !! t = Some x → xfer_ok s t x;
  ti_known t : t ∈ ts_sq_list s ∨ t ∈ ts_hw s ∨ t ∈ ts_cq s ∨ t ∈ ts_zombie_list s ∨ t ∈ ts_to_cleanup s →
    is_Some (ts_x s !! t);
  ti_ids id t : ts_ids s !! id = Some t →
    ∃ x, ts_x s !! t = Some x ∧ tf_id x = id ∧ tf_wait_claimed x = false ∧ tf_owner x ≠ OFreed;
  ti_cq : NoDup (ts_cq s);
  ti_hw t : t ∈ ts_hw s → t ∉ ts_cq s;
  ti_wait : ts_wait_count s = msum unclaimed (ts_x s);
  ti_zombies : ts_zombie_wait_count s = msum parked (ts_x s);
}.

(** ** Frame *)

Lemma elem_of_list_remove t u l : u ∈ list_remove t l ↔ u ≠ t ∧ u ∈ l.
Proof. unfold list_remove. by rewrite list_elem_of_filter. Qed.

(** A step that concerns transfer [t] only. *)
Record agree (t : nat) (s s' : tsys) : Prop := {
  ag_sq u : u ≠ t → u ∈ ts_sq_list s' ↔ u ∈ ts_sq_list s;
  ag_hw u : u ≠ t → u ∈ ts_hw s' ↔ u ∈ ts_hw s;
  ag_cq u : u ≠ t → u ∈ ts_cq s' ↔ u ∈ ts_cq s;
  ag_zombie u : u ≠ t → u ∈ ts_zombie_list s' ↔ u ∈ ts_zombie_list s;
  ag_cleanup u : u ≠ t → u ∈ ts_to_cleanup s' ↔ u ∈ ts_to_cleanup s;
  ag_ids u id : u ≠ t → ts_ids s' !! id = Some u ↔ ts_ids s !! id = Some u;
  ag_safe : ts_dma_reclaim_safe s' = ts_dma_reclaim_safe s;
}.

Lemma xfer_ok_frame t s s' u x : agree t s s' → u ≠ t → xfer_ok s u x → xfer_ok s' u x.
Proof.
  intros [A1 A2 A3 A4 A5 A6 A7] Hne []. constructor;
    rewrite ?(A1 u Hne), ?(A2 u Hne), ?(A3 u Hne), ?(A4 u Hne), ?(A5 u Hne), ?A7; try done.
  intros. apply A6; auto.
Qed.

Lemma ts_inv_step t s s' x x' :
  ts_inv s → ts_x s !! t = Some x → ts_x s' = <[t := x']> (ts_x s) → agree t s s' →
  xfer_ok s' t x' →
  (∀ id, ts_ids s' !! id = Some t → tf_id x' = id ∧ tf_wait_claimed x' = false ∧ tf_owner x' ≠ OFreed) →
  NoDup (ts_cq s') → (t ∈ ts_hw s' → t ∉ ts_cq s') →
  ts_wait_count s' = ts_wait_count s - unclaimed x + unclaimed x' →
  ts_zombie_wait_count s' = ts_zombie_wait_count s - parked x + parked x' →
  ts_inv s'.
Proof.
  intros [I1 I2 I3 I4 I5 I6 I7] Hx Ex Hag Hok Hids Hnd Hhw Ew Ez. pose proof Hag as [A1 A2 A3 A4 A5 A6 A7].
  constructor; rewrite ?Ex; try done.
  - intros u y [[<- <-]|[Hne Hu]]%lookup_insert_Some; [done|]. eapply xfer_ok_frame; eauto.
  - intros u Hu. apply lookup_insert_is_Some'. destruct (decide (u = t)) as [->|Hne]; [by left | right].
    apply I2. by rewrite <- (A1 u Hne), <- (A2 u Hne), <- (A3 u Hne), <- (A4 u Hne), <- (A5 u Hne).
  - intros id u Hu. destruct (decide (u = t)) as [->|Hne].
    + exists x'. rewrite lookup_insert_eq. split; [done | by apply Hids].
    + rewrite lookup_insert_ne by done. by apply I3, (A6 u id Hne).
  - intros u Hu. destruct (decide (u = t)) as [->|Hne]; [by apply Hhw|].
    rewrite (A3 u Hne). by apply I5, (A2 u Hne).
  - rewrite (msum_update _ _ t x) by done. lia.
  - rewrite (msum_update _ _ t x) by done. lia.
Qed.

Lemma agree_set_x t x s : agree t s (set_x t x s).
Proof. constructor; done. Qed.

Lemma agree_trans t a b c : agree t a b → agree t b c → agree t a c.
Proof.
  intros [A1 A2 A3 A4 A5 A6 A7] [B1 B2 B3 B4 B5 B6 B7].
  constructor; intros; rewrite ?B1, ?B2, ?B3, ?B4, ?B5, ?B6 by done; auto; congruence.
Qed.

(** The id of a released transfer. *)
Lemma id_free_agree t x s : ts_inv s → ts_x s !! t = Some x → agree t s (transfer_id_free t (tf_id x) s).
Proof.
  intros Hi Hx. unfold transfer_id_free. destruct (ts_ids s !! tf_id x) as [u|] eqn:Hu; [|by constructor].
  destruct (decide (u = t)) as [->|]; [|by constructor]. constructor; try done. cbn.
  intros u id Hne. rewrite lookup_delete_Some. split; [tauto|]. intros Hid. split; [|done]. congruence.
Qed.

Lemma id_free_none t x s id :
  ts_inv s → ts_x s !! t = Some x → ts_ids (transfer_id_free t (tf_id x) s) !! id ≠ Some t.
Proof.
  intros Hi Hx Hid. unfold transfer_id_free in Hid.
  assert (ts_ids s !! id = Some t → id = tf_id x) as Hown.
  { intros H. destruct (ti_ids s Hi id t H) as (y & Hy & <- & _). by simplify_eq. }
  destruct (ts_ids s !! tf_id x) as [u|] eqn:Hu; [destruct (decide (u = t)) as [->|]|].
  - cbn in Hid. apply lookup_delete_Some in Hid as [Hne Hid]. by apply Hne, eq_sym, Hown.
  - rewrite (Hown Hid) in Hid. congruence.
  - rewrite (Hown Hid) in Hid. congruence.
Qed.

Lemma id_free_same t x s :
  let s' := transfer_id_free t (tf_id x) s in
  ts_x s' = ts_x s ∧ ts_sq_list s' = ts_sq_list s ∧ ts_hw s' = ts_hw s ∧ ts_cq s' = ts_cq s ∧
  ts_zombie_list s' = ts_zombie_list s ∧ ts_to_cleanup s' = ts_to_cleanup s ∧
  ts_wait_count s' = ts_wait_count s ∧ ts_zombie_wait_count s' = ts_zombie_wait_count s ∧
  ts_dma_reclaim_safe s' = ts_dma_reclaim_safe s.
Proof. unfold transfer_id_free. by repeat case_match. Qed.

(** Freeing: [s1] and [x1] are the state and the transfer after the caller took it off
    its list. *)
Lemma xfer_release_inv t x s s1 x1 :
  ts_inv s → ts_x s !! t = Some x → agree t s s1 → ts_x s1 = ts_x s → ts_ids s1 = ts_ids s →
  ts_cq s1 = ts_cq s →
  t ∉ ts_sq_list s1 → t ∉ ts_hw s1 → t ∉ ts_cq s1 → t ∉ ts_zombie_list s1 → t ∉ ts_to_cleanup s1 →
  tf_id x1 = tf_id x → tf_pushed x1 = tf_pushed x → tf_no_completion x1 = tf_no_completion x →
  tf_done x1 = tf_done x → tf_is_zombie x1 = tf_is_zombie x →
  (tf_wait_claimed x = true → tf_wait_claimed x1 = true) →
  (tf_pushed x = true → tf_wait_claimed x1 = true ∨ tf_no_completion x = true) →
  (tf_pushed x = false → tf_wait_claimed x1 = false) →
  (tf_no_completion x = true → tf_wait_claimed x1 = false) →
  (tf_wait_claimed x1 = true → tf_is_zombie x = false → tf_done x = true) →
  ts_wait_count s1 = ts_wait_count s - unclaimed x →
  ts_zombie_wait_count s1 = ts_zombie_wait_count s - parked x →
  ts_inv (release_mx_transfer t x1 s1).
Proof.
  intros Hi Hx Hag Ex Eid Ecq N1 N2 N3 N4 N5 F1 F2 F3 F4 F5 C0 C1 C2 C3 C4 Ew Ez.
  pose proof (ti_x s Hi t x Hx) as Hok. pose proof (ti_cq s Hi).
  unfold release_mx_transfer. rewrite F1.
  destruct (id_free_same t x s1) as (G1 & G2 & G3 & G4 & G5 & G6 & G7 & G8 & G9).
  eapply (ts_inv_step t s _ x (x1 <| tf_owner := OFreed |>) Hi Hx); cbn.
  - by rewrite G1, Ex.
  - eapply agree_trans; [exact Hag|].
    constructor; cbn; rewrite ?G2, ?G3, ?G4, ?G5, ?G6, ?G9; try done.
    intros u id Hne. pose proof (ag_ids t s _ (id_free_agree t x s Hi Hx) u id Hne) as Hag'.
    unfold transfer_id_free in *. rewrite Eid. destruct (ts_ids s !! tf_id x); [|by rewrite Eid].
    destruct (decide _); [|by rewrite Eid]. cbn in *. exact Hag'.
  - destruct Hok. constructor; cbn; rewrite ?G2, ?G3, ?G4, ?G5, ?G6, ?G9, ?F1, ?F2, ?F3, ?F4, ?F5; try done;
      try tauto; try (intros; naive_solver).
  - intros id Hid. exfalso. eapply (id_free_none t x s id Hi Hx). revert Hid.
    unfold transfer_id_free. rewrite Eid. destruct (ts_ids s !! tf_id x); [|by rewrite Eid].
    destruct (decide _); [done | by rewrite Eid].
  - by rewrite G4, Ecq.
  - rewrite G3. done.
  - rewrite G7, Ew. enough (unclaimed (x1 <| tf_owner := OFreed |>) = 0) by lia.
    unfold unclaimed. cbn. rewrite F2, F3. destruct (tf_pushed x); [|done].
    destruct C1 as [E|E]; [done|..]; rewrite E; by rewrite ?andb_false_r.
  - rewrite G8, Ez. unfold parked. cbn. lia.
Qed.

(** ** Preservation *)

Lemma elem_of_snoc (u t : nat) l : u ∈ l ++ [t] ↔ u ∈ l ∨ u = t.
Proof. by rewrite elem_of_app, list_elem_of_singleton. Qed.

(** The fields of [xfer_ok] after a step on a transfer [x] with a known owner. *)
Ltac xfer_solve Hok :=
  destruct Hok; constructor; cbn in *;
  rewrite ?elem_of_snoc, ?elem_of_list_remove in *; intuition congruence.

Lemma alloc_inv s t id nc :
  ts_inv s → ts_x s !! t = None → ts_ids s !! id = None → 0 ≤ id < MX_PING_ID →
  ts_inv (alloc_mx_transfer t id nc s).
Proof.
  intros [I1 I2 I3 I4 I5 I6 I7] Hx Hid Hr.
  assert (t ∉ ts_sq_list s ∧ t ∉ ts_hw s ∧ t ∉ ts_cq s ∧ t ∉ ts_zombie_list s ∧ t ∉ ts_to_cleanup s) as Hno.
  { pose proof (I2 t) as Hk. rewrite Hx in Hk. split_and!; intros H; apply is_Some_None in Hk; tauto. }
  unfold alloc_mx_transfer, transfer_id_alloc. constructor; cbn; try done.
  - intros u y [[<- <-]|[Hne Hu]]%lookup_insert_Some.
    + constructor; cbn; try tauto; try done; try (by intuition). intros _ _. apply lookup_insert_eq.
    + destruct (I1 u y Hu). constructor; cbn; try done. intros Hc Ho.
      rewrite lookup_insert_ne; [by apply xo_ids0|]. intros E. specialize (xo_ids0 Hc Ho). congruence.
  - intros u Hu. apply lookup_insert_is_Some'. right. by apply I2.
  - intros i u [[<- <-]|[Hne Hu]]%lookup_insert_Some.
    + eexists. rewrite lookup_insert_eq. split; [done|]. done.
    + destruct (I3 i u Hu) as (y & Hy & Hrest). exists y. split; [|done].
      rewrite lookup_insert_ne; [done|]. intros <-. congruence.
  - rewrite msum_insert by done. cbn. lia.
  - rewrite msum_insert by done. cbn. lia.
Qed.

(** A transfer nobody has queued or pushed is on no list. *)
Lemma alloc_on_no_list s t x :
  xfer_ok s t x → tf_owner x = OAlloc →
  t ∉ ts_sq_list s ∧ t ∉ ts_hw s ∧ t ∉ ts_cq s ∧ t ∉ ts_zombie_list s ∧ t ∉ ts_to_cleanup s.
Proof. intros [] Ho. rewrite Ho in *. cbn in *. intuition congruence. Qed.

Lemma init_fail_inv s t x :
  ts_inv s → ts_x s !! t = Some x → tf_owner x = OAlloc → ts_inv (release_mx_transfer t x s).
Proof.
  intros Hi Hx Ho. pose proof (ti_x s Hi t x Hx) as Hok.
  destruct (alloc_on_no_list s t x Hok Ho) as (N1 & N2 & N3 & N4 & N5).
  pose proof (xo_alloc _ _ _ Hok Ho) as Hp. destruct (xo_fresh _ _ _ Hok Hp) as [Hc Hd].
  apply (xfer_release_inv t x s s x Hi Hx); try done; try congruence.
  - unfold unclaimed. rewrite Hp. cbn. lia.
  - unfold parked. rewrite Ho. lia.
Qed.

Lemma own_ids s t x id :
  ts_inv s → ts_x s !! t = Some x → ts_ids s !! id = Some t →
  tf_id x = id ∧ tf_wait_claimed x = false ∧ tf_owner x ≠ OFreed.
Proof. intros Hi Hx Hid. destruct (ti_ids s Hi id t Hid) as (y & Hy & ? & ? & ?). by simplify_eq. Qed.

Lemma queue_inv s t x :
  ts_inv s → ts_x s !! t = Some x → tf_owner x = OAlloc → ts_inv (mx_transfer_queue t x s).
Proof.
  intros Hi Hx Ho. pose proof (ti_x s Hi t x Hx) as Hok.
  destruct (alloc_on_no_list s t x Hok Ho) as (N1 & N2 & N3 & N4 & N5).
  eapply (ts_inv_step t s _ x _ Hi Hx); cbn; [reflexivity| | | | by apply Hi | done | | ].
  - constructor; cbn; try done. intros u Hne. rewrite elem_of_snoc. tauto.
  - destruct x as [? ? ? ? ? ? o]; cbn in Ho; subst o. xfer_solve Hok.
  - intros id Hid. cbn. pose proof (own_ids s t x id Hi Hx Hid). intuition congruence.
  - unfold unclaimed. cbn. lia.
  - unfold parked. cbn. rewrite Ho. lia.
Qed.

(** Steps of the waiter and the cleaner that only move the owner along. *)
Ltac owner_step Hi Hx Hok :=
  eapply (ts_inv_step _ _ _ _ _ Hi Hx); cbn;
    [ reflexivity
    | constructor; cbn; try done; intros; rewrite ?elem_of_snoc, ?elem_of_list_remove; tauto
    | xfer_solve Hok
    | intros ? ?Hid; pose proof (own_ids _ _ _ _ Hi Hx Hid); cbn in *; intuition congruence
    | by apply Hi
    | intros; eapply ti_hw; [exact Hi | done]
    | unfold unclaimed; cbn; lia
    | unfold parked; cbn; lia ].

Lemma not_in_sq s t s' : mx_transfer_remove_from_sq t s = (false, s') → t ∉ ts_sq_list s.
Proof. unfold mx_transfer_remove_from_sq. case_bool_decide; congruence. Qed.

Lemma late_inv s t x :
  ts_inv s → ts_x s !! t = Some x → tf_owner x = OWait → tf_no_completion x = false →
  t ∉ ts_sq_list s → ts_inv (set_x t (x <| tf_owner := OLate |>) s).
Proof.
  intros Hi Hx Ho Hnc Hsq. pose proof (ti_x s Hi t x Hx) as Hok.
  destruct x as [id nc z c d [|] o]; cbn in Ho, Hnc; subst o nc.
  - owner_step Hi Hx Hok.
  - by destruct Hsq; apply (xo_queued _ _ _ Hok).
Qed.

Lemma mark_inv s t x :
  ts_inv s → ts_x s !! t = Some x → tf_owner x = OWait ∨ tf_owner x = OLate →
  tf_no_completion x = false → t ∉ ts_sq_list s → ts_inv (zombie_mark t x s).
Proof.
  intros Hi Hx Ho Hnc Hsq. pose proof (ti_x s Hi t x Hx) as Hok. unfold zombie_mark.
  destruct x as [id nc z c d [|] o]; cbn in Ho, Hnc; subst nc.
  - destruct Ho; subst o; owner_step Hi Hx Hok.
  - destruct Ho; subst o; [by destruct Hsq; apply (xo_queued _ _ _ Hok)|].
    by pose proof (xo_late _ _ _ Hok eq_refl).
Qed.

Lemma count_inv s t x :
  ts_inv s → ts_x s !! t = Some x → tf_owner x = OMarked → ts_inv (zombie_count t x s).
Proof.
  intros Hi Hx Ho. pose proof (ti_x s Hi t x Hx) as Hok. unfold zombie_count.
  destruct x as [id nc z c d p o]; cbn in Ho; subst o. owner_step Hi Hx Hok.
Qed.

Lemma park_inv s t x :
  ts_inv s → ts_x s !! t = Some x → tf_owner x = OCounted → ts_inv (zombie_park t x s).
Proof.
  intros Hi Hx Ho. pose proof (ti_x s Hi t x Hx) as Hok. unfold zombie_park.
  destruct x as [id nc z c d p o]; cbn in Ho; subst o. owner_step Hi Hx Hok.
Qed.

Lemma collect_inv s t x :
  ts_inv s → ts_x s !! t = Some x → t ∈ ts_zombie_list s →
  tf_wait_claimed x = true ∨ ts_dma_reclaim_safe s = true →
  (ts_dma_reclaim_safe s = true → ts_hw s = ∅ ∧ ts_cq s = []) → ts_inv (zombie_collect t x s).
Proof.
  intros Hi Hx Hz Hc Hsafe. pose proof (ti_x s Hi t x Hx) as Hok. unfold zombie_collect.
  assert (tf_owner x = OZombie) as Ho by by apply (xo_zombie _ _ _ Hok).
  assert (t ∉ ts_hw s ∧ t ∉ ts_cq s) as [N1 N2].
  { destruct Hc as [Hc|Hc].
    - split; intros H; [apply (xo_hw _ _ _ Hok) in H | apply (xo_cq _ _ _ Hok) in H]; intuition congruence.
    - destruct (Hsafe Hc) as [-> ->]. split; set_solver. }
  destruct x as [id nc z c d p o]; cbn in Ho, Hc; subst o. owner_step Hi Hx Hok.
Qed.

Lemma submit_inv s t x l :
  ts_inv s → ts_sq_list s = t :: l → ts_x s !! t = Some x → ts_inv (submit_one t x s).
Proof.
  intros Hi Hsq Hx. pose proof (ti_x s Hi t x Hx) as Hok.
  assert (t ∈ ts_sq_list s) as Hin by (rewrite Hsq; set_solver).
  destruct (xo_sq _ _ _ Hok Hin) as [Ho Hp]. destruct (xo_fresh _ _ _ Hok Hp) as [Hc Hd].
  pose proof (xo_hw _ _ _ Hok) as Nhw. pose proof (xo_cq _ _ _ Hok) as Ncq.
  assert (t ∉ ts_cq s) as Ncq' by (intros H; apply Ncq in H; intuition congruence).
  unfold submit_one. cbn [tf_no_completion upd].
  destruct x as [id nc z c d p o]; cbn in *; subst o p c d. destruct nc; cbn.
  - eapply (ts_inv_step t s _ _ _ Hi Hx); cbn; [reflexivity| | | | by apply Hi | | | ].
    + constructor; cbn; try done. intros u Hne. rewrite elem_of_list_remove. tauto.
    + xfer_solve Hok.
    + intros id' Hid. pose proof (own_ids s t _ id' Hi Hx Hid) as Hy. cbn in *. intuition congruence.
    + intros H. apply Nhw in H. intuition congruence.
    + unfold unclaimed. cbn. lia.
    + unfold parked. cbn. lia.
  - eapply (ts_inv_step t s _ _ _ Hi Hx); cbn; [reflexivity| | | | by apply Hi | done | | ].
    + constructor; cbn; try done; intros u Hne; [rewrite elem_of_list_remove; tauto | set_solver].
    + destruct Hok; constructor; cbn in *; rewrite ?elem_of_list_remove; intuition congruence.
    + intros id' Hid. pose proof (own_ids s t _ id' Hi Hx Hid) as Hy. cbn in *. intuition congruence.
    + unfold unclaimed. cbn. lia.
    + unfold parked. cbn. lia.
Qed.

Lemma device_inv s t :
  ts_inv s → t ∈ ts_hw s → ts_inv (s <| ts_hw := ts_hw s ∖ {[t]} |> <| ts_cq := ts_cq s ++ [t] |>).
Proof.
  intros Hi Hhw. destruct (ti_known s Hi t) as [x Hx]; [tauto|]. pose proof (ti_x s Hi t x Hx) as Hok.
  destruct (xo_hw _ _ _ Hok Hhw) as (P1 & P2 & P3 & P4). pose proof (ti_hw s Hi t Hhw) as Hn.
  eapply (ts_inv_step t s _ x x Hi Hx); cbn.
  - by rewrite insert_id.
  - constructor; cbn; try done; intros u Hne; [set_solver | rewrite elem_of_snoc; tauto].
  - destruct Hok; constructor; cbn in *; rewrite ?elem_of_snoc; try done.
  - intros id. by apply own_ids.
  - apply list.NoDup_app. split_and!; [by apply Hi | set_solver | apply NoDup_singleton].
  - set_solver.
  - lia.
  - lia.
Qed.

(** The completion entry of [t] claims [t]. *)
Lemma claim_own s t x :
  ts_inv s → ts_x s !! t = Some x → t ∈ ts_cq s →
  transfer_id_claim_completion (tf_id x) s =
    Some (t, x <| tf_wait_claimed := true |>,
          set_x t (x <| tf_wait_claimed := true |>) s <| ts_ids := delete (tf_id x) (ts_ids s) |>).
Proof.
  intros Hi Hx Hcq. pose proof (ti_x s Hi t x Hx) as Hok.
  destruct (xo_cq _ _ _ Hok Hcq) as (_ & Hc & _ & Ho). unfold transfer_id_claim_completion.
  rewrite (xo_ids _ _ _ Hok Hc), Hx, Hc; [done|]. intros E. by rewrite E in Ho.
Qed.

Lemma complete_inv s t x l :
  ts_inv s → ts_cq s = t :: l → ts_x s !! t = Some x →
  ts_inv (complete_one (tf_id x) (s <| ts_cq := l |>)).
Proof.
  intros Hi Hcq Hx. pose proof (ti_x s Hi t x Hx) as Hok.
  assert (t ∈ ts_cq s) as Hin by (rewrite Hcq; set_solver).
  pose proof (claim_own s t x Hi Hx Hin) as Hclaim.
  destruct (xo_cq _ _ _ Hok Hin) as (P1 & P2 & P3 & P4).
  pose proof (ti_cq s Hi) as Hnd. rewrite Hcq in Hnd. apply list.NoDup_cons in Hnd as [Hnt Hnd].
  assert (t ∉ ts_hw s) as Nhw by (intros H; by apply (ti_hw s Hi t H)).
  assert (∀ id, ts_ids s !! id = Some t → id = tf_id x) as Hid.
  { intros id H. by destruct (own_ids s t x id Hi Hx H) as [? _]. }
  assert (ts_ids s !! tf_id x = Some t) as Hself.
  { apply (xo_ids _ _ _ Hok P2). intros E. by rewrite E in P4. }
  set (s0 := s <| ts_cq := l |>).
  assert (transfer_id_claim_completion (tf_id x) s0 = Some (t, x <| tf_wait_claimed := true |>,
    set_x t (x <| tf_wait_claimed := true |>) s0 <| ts_ids := delete (tf_id x) (ts_ids s) |>)) as Hcl.
  { unfold transfer_id_claim_completion in *. cbn. by rewrite Hself, Hx, P2. }
  unfold complete_one. rewrite Hcl. cbn [tf_is_zombie upd].
  assert (∀ u y, y = x <| tf_wait_claimed := true |> ∨
      (y = x <| tf_wait_claimed := true |> <| tf_done := true |> ∧ tf_is_zombie x = false) →
    (tf_is_zombie x = false → tf_done y = true) →
    u = (set_x t y s0 <| ts_ids := delete (tf_id x) (ts_ids s) |> <| ts_wait_count := ts_wait_count s - 1 |>) →
    ts_inv u) as Hgen.
  { intros u y Hy Hwake ->. eapply (ts_inv_step t s _ x y Hi Hx); cbn.
    - done.
    - constructor; cbn; try done.
      + intros u Hne. rewrite Hcq. set_solver.
      + intros u id Hne. rewrite lookup_delete_Some. split; [tauto|]. intros H. split; [|done]. congruence.
    - destruct x as [id nc z c d p o]; cbn in *; subst p c nc.
      destruct Hy as [->|[-> Hz]]; cbn in *; destruct Hok; constructor; cbn in *;
        destruct o; cbn in *; intuition congruence.
    - intros id [Hne H]%lookup_delete_Some. by destruct (Hne (eq_sym (Hid id H))).
    - done.
    - done.
    - unfold unclaimed. rewrite P1, P2, P3. destruct Hy as [->|[-> _]]; cbn; rewrite ?andb_false_r; cbn; lia.
    - unfold parked. destruct Hy as [->|[-> _]]; cbn; lia. }
  destruct (tf_is_zombie x) eqn:Hz.
  - by apply (Hgen _ (x <| tf_wait_claimed := true |>)); [left|..].
  - apply (Hgen _ (x <| tf_wait_claimed := true |> <| tf_done := true |>)); [by right | done |].
    unfold set_x. cbn. by rewrite insert_insert_eq.
Qed.

Lemma done_inv s t x :
  ts_inv s → ts_x s !! t = Some x → tf_owner x = OWait ∨ tf_owner x = OLate → tf_done x = true →
  ts_inv (release_mx_transfer t x s).
Proof.
  intros Hi Hx Ho Hd. pose proof (ti_x s Hi t x Hx) as Hok. pose proof (xo_done _ _ _ Hok Hd) as Hor.
  assert (tf_pushed x = true) as Hp.
  { destruct (tf_pushed x) eqn:E; [done|]. destruct (xo_fresh _ _ _ Hok E). congruence. }
  apply (xfer_release_inv t x s s x Hi Hx); try done; try tauto; try congruence.
  - intros H. destruct (xo_sq _ _ _ Hok H). congruence.
  - intros H. destruct (xo_hw _ _ _ Hok H) as (_ & ? & ? & _). destruct Hor; congruence.
  - intros H. destruct (xo_cq _ _ _ Hok H) as (_ & ? & ? & _). destruct Hor; congruence.
  - rewrite (xo_zombie _ _ _ Hok). destruct Ho; congruence.
  - rewrite (xo_cleanup _ _ _ Hok). destruct Ho; congruence.
  - intros H. by destruct (xo_nc _ _ _ Hok H).
  - unfold unclaimed. destruct Hor as [-> | ->]; rewrite ?andb_false_r; cbn; lia.
  - unfold parked. destruct Ho as [-> | ->]; lia.
Qed.

Lemma recover_inv s t x s' :
  ts_inv s → ts_x s !! t = Some x → tf_owner x = OWait →
  mx_transfer_remove_from_sq t s = (true, s') → ts_inv (release_mx_transfer t x s').
Proof.
  intros Hi Hx Ho Hr. pose proof (ti_x s Hi t x Hx) as Hok. unfold mx_transfer_remove_from_sq in Hr.
  case_bool_decide as Hin; simplify_eq. destruct (xo_sq _ _ _ Hok Hin) as [_ Hp].
  destruct (xo_fresh _ _ _ Hok Hp) as [Hc Hd].
  apply (xfer_release_inv t x s _ x Hi Hx); cbn; try done; try congruence.
  - constructor; cbn; try done. intros u Hne. rewrite elem_of_list_remove. tauto.
  - rewrite elem_of_list_remove. tauto.
  - intros H. destruct (xo_hw _ _ _ Hok H) as (? & _). congruence.
  - intros H. destruct (xo_cq _ _ _ Hok H) as (? & _). congruence.
  - rewrite (xo_zombie _ _ _ Hok). congruence.
  - rewrite (xo_cleanup _ _ _ Hok). congruence.
  - unfold unclaimed. rewrite Hp. cbn. lia.
  - unfold parked. rewrite Ho. lia.
Qed.

Lemma drain_inv s t x :
  ts_inv s → ts_x s !! t = Some x → t ∈ ts_to_cleanup s → ts_inv (drain_zombie t x s).
Proof.
  intros Hi Hx Hin. pose proof (ti_x s Hi t x Hx) as Hok.
  assert (tf_owner x = OCleanup) as Ho by by apply (xo_cleanup _ _ _ Hok).
  assert (tf_pushed x = true) as Hp by (apply (xo_late _ _ _ Hok); by rewrite Ho).
  assert (tf_no_completion x = false) as Hnc.
  { destruct (tf_no_completion x) eqn:E; [|done]. destruct (xo_nc _ _ _ Hok E) as [_ H]. by rewrite Ho in H. }
  assert (tf_is_zombie x = true) as Hz by (apply (xo_marked _ _ _ Hok); by rewrite Ho).
  assert (t ∉ ts_hw s ∧ t ∉ ts_cq s ∧ t ∉ ts_sq_list s ∧ t ∉ ts_zombie_list s) as (N1 & N2 & N3 & N4).
  { destruct Hok. rewrite Ho in *. cbn in *. intuition congruence. }
  unfold drain_zombie. cbv zeta.
  assert (∀ s1, s1 = s <| ts_to_cleanup := list_remove t (ts_to_cleanup s) |>
      <| ts_wait_count := ts_wait_count s - unclaimed x |>
      <| ts_zombie_wait_count := ts_zombie_wait_count s - 1 |> →
    ts_inv (release_mx_transfer t (x <| tf_wait_claimed := true |>) s1)) as Hgen.
  { intros s1 ->. apply (xfer_release_inv t x s); cbn; try done; try congruence.
    - constructor; cbn; try done. intros u Hne. rewrite elem_of_list_remove. tauto.
    - rewrite elem_of_list_remove. tauto.
    - by left.
    - unfold parked. by rewrite Ho. }
  unfold unclaimed in Hgen. rewrite Hp, Hnc in Hgen. cbn [negb andb] in Hgen.
  destruct (tf_wait_claimed x) eqn:Hc; cbn [negb]; apply Hgen; [|done].
  destruct s. unfold upd. cbn. f_equal. lia.
Qed.

Lemma reclaim_inv s : ts_inv s →
  ts_inv (s <| ts_hw := ∅ |> <| ts_cq := [] |> <| ts_dma_reclaim_safe := true |>).
Proof.
  intros [I1 I2 I3 I4 I5 I6 I7]. constructor; cbn; try done; try (by constructor).
  - intros t x Hx. destruct (I1 t x Hx). constructor; cbn; try done; set_solver.
  - intros t Ht. apply I2. set_solver.
Qed.

Lemma tstep_inv s s' : tstep s s' →
  ts_inv s ∧ (ts_dma_reclaim_safe s = true → ts_hw s = ∅ ∧ ts_cq s = []) →
  ts_inv s' ∧ (ts_dma_reclaim_safe s' = true → ts_hw s' = ∅ ∧ ts_cq s' = []).
Proof.
  intros Hs [Hi Hsafe]. split.
  - destruct Hs; eauto using alloc_inv, init_fail_inv, queue_inv, submit_inv, device_inv, complete_inv,
      done_inv, recover_inv, late_inv, mark_inv, count_inv, park_inv, collect_inv, drain_inv, reclaim_inv,
      not_in_sq.
  - destruct Hs; cbn; try done;
      try (unfold release_mx_transfer; match goal with |- context [transfer_id_free ?t (tf_id ?x) ?s] =>
        destruct (id_free_same t x s) as (_ & _ & E1 & E2 & _ & _ & _ & _ & E3) end;
        cbn; rewrite E1, E2, E3; try done).
    + unfold submit_one. case_match; cbn; congruence.
    + intros E. destruct (Hsafe E) as [E' _]. rewrite E' in *. set_solver.
    + assert (ts_dma_reclaim_safe (complete_one (tf_id x) (s <| ts_cq := l |>)) = ts_dma_reclaim_safe s) as ->.
      { unfold complete_one, transfer_id_claim_completion. by repeat (case_match; simplify_eq). }
      intros E. destruct (Hsafe E) as [_ E']. congruence.
    + unfold mx_transfer_remove_from_sq in *. by case_bool_decide; simplify_eq.
    + by destruct (tf_wait_claimed x).
Qed.

Lemma ts0_inv : ts_inv ts0.
Proof. constructor; cbn; try done; try (by constructor). intros t [?|[?|[?|[?|?]]]]; set_solver. Qed.

Lemma ts_reachable_safe s : ts_reachable s →
  ts_inv s ∧ (ts_dma_reclaim_safe s = true → ts_hw s = ∅ ∧ ts_cq s = []).
Proof.
  intros Hr. apply (rtc_ind_r (fun s => ts_inv s ∧ (ts_dma_reclaim_safe s = true → ts_hw s = ∅ ∧ ts_cq s = []))
    ts0) in Hr; [done | split; [apply ts0_inv | done] |].
  intros y z _ Hstep Hy. by eapply tstep_inv.
Qed.

Lemma ts_reachable_inv s : ts_reachable s → ts_inv s.
Proof. intros Hr. by apply ts_reachable_safe. Qed.

(** A transfer is queued once. *)
Lemma ts_sq_nodup s : ts_reachable s → NoDup (ts_sq_list s).
Proof.
  intros Hr. revert s Hr. apply (rtc_ind_r (fun s => NoDup (ts_sq_list s)) ts0); [constructor|]. intros s s' Hr Hst IH.
  apply ts_reachable_inv in Hr. destruct Hst as [| |t x Hx Ho|t x l Hsq|t|t x l|t x|t x s' Hx Ho Hrm| | | | | |t x|]; cbn; try done.
  all: try (unfold release_mx_transfer; cbn;
    match goal with |- context [transfer_id_free ?t (tf_id ?x) ?s] => destruct (id_free_same t x s) as (_ & -> & _) end).
  - done.
  - apply list.NoDup_app. split_and!; [done | | apply NoDup_singleton].
    intros u Hu ->%list_elem_of_singleton. by destruct (alloc_on_no_list s t x (ti_x s Hr t x Hx) Ho).
  - unfold submit_one. case_match; cbn; by apply list.NoDup_filter.
  - unfold complete_one, transfer_id_claim_completion. cbn. repeat (case_match; simplify_eq); done.
  - done.
  - unfold mx_transfer_remove_from_sq in Hrm. case_bool_decide; simplify_eq. cbn. by apply list.NoDup_filter.
  - cbn. by destruct (tf_wait_claimed x).
Qed.

(** The rest of the life of a claimed transfer, whoever owns it: at most [n] more steps. *)
Section freed.
Context (t : nat).

Local Notation live s :=
  (ts_inv s ∧ (ts_dma_reclaim_safe s = true → ts_hw s = ∅ ∧ ts_cq s = [])).

Definition gets_freed (n : nat) (s : tsys) : Prop :=
  ∃ s' x', bsteps (reap_step t) n s s' ∧ ts_x s' !! t = Some x' ∧ tf_owner x' = OFreed.

Lemma freed_step n s s' : reap_step t s s' → gets_freed n s' → gets_freed (S n) s.
Proof. intros Hs (s2 & x2 & Hr & H). exists s2, x2. split; [by eapply bsteps_l | done]. Qed.

Lemma freed_now s x : reap_step t s (release_mx_transfer t x s) → gets_freed 1 s.
Proof.
  intros Hs. eexists _, _. split; [by eapply bsteps_once|]. cbn. rewrite lookup_insert_eq. by split.
Qed.

Lemma freed_cleanup s x :
  live s → ts_x s !! t = Some x → tf_owner x = OCleanup → gets_freed 1 s.
Proof.
  intros [Hi _] Hx Ho. eexists _, _. split; [eapply bsteps_once, (RpDrain t s x); [done|]|].
  - by apply (xo_cleanup _ _ _ (ti_x s Hi t x Hx)).
  - unfold drain_zombie, release_mx_transfer. cbv zeta. cbn. rewrite lookup_insert_eq. by split.
Qed.

(** One step that moves the owner along, and the rest. *)
Lemma freed_along n s x s' :
  live s → reap_step t s s' → ts_x s' !! t = Some x → (live s' → ts_x s' !! t = Some x → gets_freed n s') →
  gets_freed (S n) s.
Proof.
  intros Hl Hs Hx Hn. eapply freed_step, Hn; [done | | done].
  by apply (tstep_inv _ _ (reap_step_tstep _ _ _ Hs)).
Qed.

Lemma freed_zombie s x :
  live s → ts_x s !! t = Some x → tf_wait_claimed x = true → tf_owner x = OZombie → gets_freed 2 s.
Proof.
  intros Hl Hx Hc Ho. eapply (freed_along 1); [done | eapply (RpCollect t s x) | apply lookup_insert_eq |].
  - done.
  - by apply (xo_zombie _ _ _ (ti_x s (proj1 Hl) t x Hx)).
  - done.
  - intros. by eapply freed_cleanup.
Qed.

Lemma freed_counted s x :
  live s → ts_x s !! t = Some x → tf_wait_claimed x = true → tf_owner x = OCounted → gets_freed 3 s.
Proof.
  intros Hl Hx Hc Ho. eapply (freed_along 2); [done | by eapply (RpPark t s x) | apply lookup_insert_eq |].
  intros. by eapply freed_zombie.
Qed.

Lemma freed_mark s x :
  live s → ts_x s !! t = Some x → tf_wait_claimed x = true → tf_owner x = OMarked → gets_freed 4 s.
Proof.
  intros Hl Hx Hc Ho. eapply (freed_along 3); [done | by eapply (RpCount t s x) | apply lookup_insert_eq |].
  intros. by eapply freed_counted.
Qed.

Lemma freed_weaken n m s : (n ≤ m)%nat → gets_freed n s → gets_freed m s.
Proof. intros Hnm (s' & x' & Hr & H). exists s', x'. split; [by eapply bsteps_weaken | done]. Qed.

Lemma freed_marked s x :
  live s → ts_x s !! t = Some x → tf_wait_claimed x = true → marked (tf_owner x) = true → gets_freed 4 s.
Proof.
  intros Hl Hx Hc Hm. destruct (tf_owner x) eqn:Ho; try done.
  - by eapply freed_mark.
  - apply (freed_weaken 3); [lia | by eapply freed_counted].
  - apply (freed_weaken 2); [lia | by eapply freed_zombie].
  - apply (freed_weaken 1); [lia | by eapply freed_cleanup].
Qed.
End freed.

(** Without a claimed completion these steps do not free a completing transfer, unless the
    reclaim was declared safe: the hypothesis of the theorem below is what makes them. *)
Lemma reap_needs_claim t s s' x :
  ts_reachable s → ts_dma_reclaim_safe s = false → ts_x s !! t = Some x →
  tf_wait_claimed x = false → tf_no_completion x = false → tf_owner x ≠ OFreed →
  rtc (reap_step t) s s' → ∃ x', ts_x s' !! t = Some x' ∧ tf_owner x' ≠ OFreed ∧ tf_wait_claimed x' = false.
Proof.
  intros Hr Hsafe Hx Hc Hnc Ho Hs. revert x Hr Hsafe Hx Hc Hnc Ho.
  induction Hs as [s|s s1 s' Hst Hs IH]; intros x Hr Hsafe Hx Hc Hnc Ho; [by eauto|].
  pose proof (rtc_r _ _ _ Hr (reap_step_tstep _ _ _ Hst)) as Hr1.
  pose proof (ti_x s (ts_reachable_inv s Hr) t x Hx) as Hok.
  destruct Hst as [y Hy Hoy Hd|y Hy Hoy|y Hy Hoy|y Hy Hz Hcy|y Hy Hcl]; simplify_eq.
  - destruct (xo_done _ _ _ Hok Hd); congruence.
  - eapply IH; [done | done | apply lookup_insert_eq | done..].
  - eapply IH; [done | done | apply lookup_insert_eq | done..].
  - congruence.
  - apply (xo_cleanup _ _ _ Hok) in Hcl. destruct (xo_collected _ _ _ Hok Hcl); congruence.
Qed.

(** ** Theorems *)

(** C2: DMA safety.  As long as the device owns a command, or its completion entry has
    not been taken, the transfer behind it is not freed: neither its waiter (done,
    recovered, timed out or interrupted at any moment) nor the zombie cleaner releases
    the descriptor lists, the pinned pages or the id.  The one exception is the final
    drain after queue deletion or disconnect ([dma_reclaim_safe]), when the device owns
    nothing any more. *)
Theorem dma_outlived_by_transfer s t x :
  ts_reachable s → ts_x s !! t = Some x → t ∈ ts_hw s ∨ t ∈ ts_cq s →
  tf_owner x ≠ OFreed ∧ tf_owner x ≠ OCleanup ∧ ts_ids s !! tf_id x = Some t ∧
  tf_wait_claimed x = false.
Proof.
  intros Hr%ts_reachable_inv Hx Hin. pose proof (ti_x s Hr t x Hx) as Hok.
  assert (tf_wait_claimed x = false ∧ in_flight (tf_owner x) = true) as [Hc Hf].
  { destruct Hin as [H|H]; [apply (xo_hw _ _ _ Hok) in H | apply (xo_cq _ _ _ Hok) in H]; tauto. }
  assert (tf_owner x ≠ OFreed) as Hof by (intros E; by rewrite E in Hf).
  split_and!; [done | intros E; by rewrite E in Hf | by apply (xo_ids _ _ _ Hok) | done].
Qed.

(** A completion reaches its own transfer.  When the complete thread pops the entry
    of a command, the id in it is not the ping id, fits the 16-bit field of the command,
    and claims exactly the transfer that was pushed with it, even when ids have been
    freed and reused meanwhile; no other transfer is in flight with the same id. *)
Theorem completion_reaches_transfer s t x l :
  ts_reachable s → ts_cq s = t :: l → ts_x s !! t = Some x →
  0 ≤ tf_id x < MX_PING_ID ∧ u16 (tf_id x) = tf_id x ∧
  (∃ y s', transfer_id_claim_completion (tf_id x) s = Some (t, y, s') ∧ tf_wait_claimed y = true ∧
     ts_ids s' !! tf_id x = None) ∧
  (∀ u y, u ∈ ts_hw s ∨ u ∈ ts_cq s → ts_x s !! u = Some y → tf_id y = tf_id x → u = t).
Proof.
  intros Hr%ts_reachable_inv Hcq Hx. pose proof (ti_x s Hr t x Hx) as Hok.
  assert (t ∈ ts_cq s) as Hin by (rewrite Hcq; set_solver).
  pose proof (xo_id _ _ _ Hok) as Hid. split_and!; try lia.
  - apply u16_id. change MX_PING_ID with 65535 in Hid. lia.
  - do 2 eexists. split; [by apply claim_own|]. split; [done|]. cbn. apply lookup_delete_eq.
  - assert (∀ u y, u ∈ ts_hw s ∨ u ∈ ts_cq s → ts_x s !! u = Some y → ts_ids s !! tf_id y = Some u) as Hkey.
    { intros u y Hu Hy. pose proof (ti_x s Hr u y Hy) as Hok'.
      assert (tf_wait_claimed y = false ∧ in_flight (tf_owner y) = true) as [Hc Hf].
      { destruct Hu as [H|H]; [apply (xo_hw _ _ _ Hok') in H | apply (xo_cq _ _ _ Hok') in H]; tauto. }
      apply (xo_ids _ _ _ Hok' Hc). intros E. by rewrite E in Hf. }
    intros u y Hu Hy E. pose proof (Hkey u y Hu Hy) as K1. pose proof (Hkey t x (or_intror Hin) Hx) as K2.
    rewrite E in K1. congruence.
Qed.

(** The counters of the queue, in every reachable state: [wait_count] is the number
    of pushed commands whose completion nobody has claimed, [zombie_wait_count] the
    number of transfers given up and not reclaimed yet; neither is ever negative. *)
Theorem wait_counters_exact s :
  ts_reachable s →
  ts_wait_count s = msum unclaimed (ts_x s) ∧ ts_zombie_wait_count s = msum parked (ts_x s) ∧
  0 ≤ ts_wait_count s ∧ 0 ≤ ts_zombie_wait_count s.
Proof.
  intros Hr%ts_reachable_inv. rewrite (ti_wait s Hr), (ti_zombies s Hr). split_and!; try done; apply msum_nonneg.
  - intros i x _. unfold unclaimed. destruct (_ && _); cbn; lia.
  - intros i x _. unfold parked. destruct (tf_owner x); lia.
Qed.

(** C22: No transfer is stranded.  Once the completion of a transfer has been claimed,
    at most four steps of its owner alone free it ([reap_step]: its waiter finds [done]
    set; or its waiter, past the zombie mark, parks it, and the cleaner collects it, since
    it is claimed, and drains it).  The device, the submit and complete loops, the
    timeouts and [dma_reclaim_safe] take no part. *)
Theorem claimed_transfer_is_freed s t x :
  ts_reachable s → ts_x s !! t = Some x → tf_wait_claimed x = true → tf_owner x ≠ OFreed →
  ∃ s' x', bsteps (reap_step t) 4 s s' ∧ ts_x s' !! t = Some x' ∧ tf_owner x' = OFreed.
Proof.
  intros HJ%ts_reachable_safe Hx Hc Hf. pose proof (ti_x s (proj1 HJ) t x Hx) as Hok.
  change (gets_freed t 4 s). destruct (marked (tf_owner x)) eqn:Hm; [by eapply freed_marked|].
  assert (tf_owner x ≠ OAlloc) as Ha.
  { intros E. destruct (xo_fresh _ _ _ Hok (xo_alloc _ _ _ Hok E)). congruence. }
  assert (tf_owner x = OWait ∨ tf_owner x = OLate) as Ho by (destruct (tf_owner x); tauto || done).
  apply (freed_weaken t 1); [lia|]. apply (freed_now t s x), RpDone; [done | done |].
  apply (xo_wake _ _ _ Hok Hc). apply (xo_mark _ _ _ Hok). by destruct Ho as [-> | ->].
Qed.

(** ** Examples *)

(** Transfer 0 with id 5 pushed, given up, and completed by the device. *)
Definition demo_x (o : owner) : mx_transfer := MkXfer 5 false (marked o) false false true o.

Definition demo_pushed : tsys :=
  let s := alloc_mx_transfer 0 5 false ts0 in
  let s := mx_transfer_queue 0 (MkXfer 5 false false false false false OAlloc) s in
  submit_one 0 (MkXfer 5 false false false false false OWait) s.

(** The device completes it. *)
Definition device_done (t : nat) (s : tsys) : tsys :=
  s <| ts_hw := ts_hw s ∖ {[t]} |> <| ts_cq := ts_cq s ++ [t] |>.
Definition demo_done : tsys := device_done 0 demo_pushed.
Definition demo_claimed : tsys := complete_one 5 (demo_done <| ts_cq := [] |>).

(** Or its waiter gives up first; then the device completes it, the completion is taken,
    and transfer 1 with id 6 is pushed. *)
Definition demo_given_up : tsys :=
  zombie_park 0 (demo_x OCounted) (zombie_count 0 (demo_x OMarked) (zombie_mark 0 (demo_x OWait) demo_pushed)).

Definition demo_reaped : tsys := complete_one 5 ((device_done 0 demo_given_up) <| ts_cq := [] |>).

Definition demo_masked : tsys :=
  let s := alloc_mx_transfer 1 6 false demo_reaped in
  let s := mx_transfer_queue 1 (MkXfer 6 false false false false false OAlloc) s in
  submit_one 1 (MkXfer 6 false false false false false OWait) s.

Lemma reach_step s s' : ts_reachable s → tstep s s' → ts_reachable s'.
Proof. intros. by eapply rtc_r. Qed.

Lemma demo_pushed_reachable : ts_reachable demo_pushed.
Proof.
  unfold demo_pushed. cbv zeta. eapply reach_step; [eapply reach_step; [eapply reach_step; [apply rtc_refl|]|]|].
  - apply (TsAlloc _ 0 5 false); [done | done | split; [lia | by vm_compute]].
  - by apply (TsQueue _ 0 (MkXfer 5 false false false false false OAlloc)).
  - by apply (TsSubmit _ 0 (MkXfer 5 false false false false false OWait) []).
Qed.

Lemma demo_done_reachable : ts_reachable demo_done.
Proof.
  eapply reach_step; [apply demo_pushed_reachable|]. apply TsDevice.
  apply elem_of_union_l. by apply elem_of_singleton.
Qed.

Lemma demo_claimed_reachable : ts_reachable demo_claimed.
Proof. eapply reach_step; [apply demo_done_reachable|]. by eapply (TsComplete _ 0 (demo_x OWait) []). Qed.

Lemma demo_given_up_reachable : ts_reachable demo_given_up.
Proof.
  unfold demo_given_up.
  eapply reach_step; [eapply reach_step; [eapply reach_step; [apply demo_pushed_reachable|]|]|].
  - apply (TsMark _ 0 (demo_x OWait)); [done | by left | done | done].
  - by apply (TsCount _ 0 (demo_x OMarked)).
  - by apply (TsPark _ 0 (demo_x OCounted)).
Qed.

Lemma demo_reaped_reachable : ts_reachable demo_reaped.
Proof.
  apply (reach_step (device_done 0 demo_given_up)).
  - apply (reach_step demo_given_up); [apply demo_given_up_reachable|]. apply (TsDevice _ 0).
    apply elem_of_union_l. by apply elem_of_singleton.
  - exact (TsComplete (device_done 0 demo_given_up) 0 (demo_x OZombie) [] eq_refl eq_refl).
Qed.

Lemma demo_masked_reachable : ts_reachable demo_masked.
Proof.
  unfold demo_masked. cbv zeta.
  eapply reach_step; [eapply reach_step; [eapply reach_step; [apply demo_reaped_reachable|]|]|].
  - apply (TsAlloc _ 1 6 false); [done | done | split; [lia | by vm_compute]].
  - by apply (TsQueue _ 1 (MkXfer 6 false false false false false OAlloc)).
  - by apply (TsSubmit _ 1 (MkXfer 6 false false false false false OWait) []).
Qed.

Lemma dma_outlived_by_transfer_witness :
  ts_ids demo_pushed !! 5 = Some 0%nat.
Proof.
  apply (dma_outlived_by_transfer demo_pushed 0 (demo_x OWait) demo_pushed_reachable).
  - done.
  - left. apply elem_of_union_l. by apply elem_of_singleton.
Defined.

Lemma completion_reaches_transfer_witness :
  ∃ y s', transfer_id_claim_completion 5 demo_done = Some (0%nat, y, s') ∧ tf_wait_claimed y = true.
Proof.
  destruct (completion_reaches_transfer demo_done 0 (demo_x OWait) [] demo_done_reachable eq_refl eq_refl)
    as (_ & _ & (y & s' & H1 & H2 & _) & _).
  exists y, s'. by split.
Defined.

Lemma wait_counters_exact_witness : ts_wait_count demo_pushed = msum unclaimed (ts_x demo_pushed).
Proof. apply (wait_counters_exact demo_pushed demo_pushed_reachable). Defined.

(** The waiter of the claimed transfer frees it; so does the cleaner when the waiter had
    given up before the completion was taken. *)
Lemma claimed_transfer_is_freed_witness :
  (∃ s' x', bsteps (reap_step 0) 4 demo_claimed s' ∧ ts_x s' !! 0%nat = Some x' ∧ tf_owner x' = OFreed) ∧
  (∃ s' x', bsteps (reap_step 0) 4 demo_reaped s' ∧ ts_x s' !! 0%nat = Some x' ∧ tf_owner x' = OFreed).
Proof.
  split.
  - by apply (claimed_transfer_is_freed demo_claimed 0 (MkXfer 5 false false true true true OWait)
      demo_claimed_reachable).
  - by apply (claimed_transfer_is_freed demo_reaped 0 (MkXfer 5 false true true false true OZombie)
      demo_reaped_reachable).
Defined.

(** A zombie leaves [wait_count] when its completion is claimed, not when it is
    drained, so until the cleaner runs it is subtracted from the live commands: there is
    a reachable state in which a command is in flight with a waiter, and the number of
    outstanding commands the watchdog and the complete thread compute is zero. *)
Theorem claimed_zombie_masks_live_command :
  ∃ s t x, ts_reachable s ∧ ts_x s !! t = Some x ∧ t ∈ ts_hw s ∧ tf_owner x = OWait ∧
    ts_wait_count s - ts_zombie_wait_count s = 0.
Proof.
  exists demo_masked, 1%nat, (MkXfer 6 false false false false true OWait).
  split; [apply demo_masked_reachable|]. split_and!; [done | | done | done].
  apply elem_of_union_l. by apply elem_of_singleton.
Qed.
