(* ===== verification/Split.v ===== *)
(** * Splitting a buffer into transfers (src/transfer.c)

    The size check and page count of a mapping, the largest SG segment, the number of
    splits and the splits themselves.  The theorems: a split is a partition of the
    buffer into nonempty, contiguous slices that meet on page boundaries, and the count
    the driver computes always satisfies what the split needs. *)

From S2P Require Import Prelude SgDesc.

Section paging.
(** [PAGE_SHIFT] of the kernel; [PAGE_MASK] clears the low bits. *)
Context (PAGE_SHIFT : Z).

Definition PAGE_SIZE : Z := 2 ^ PAGE_SHIFT.
Definition page_floor (a : Z) : Z := Z.shiftl (Z.shiftr a PAGE_SHIFT) PAGE_SHIFT.
Definition offset_in_page (a : Z) : Z := Z.land a (PAGE_SIZE - 1).

(** [(int)x] of a 32-bit or wider unsigned value. *)
Definition to_int (x : Z) : Z := let y := u32 x in if INT_MAX <? y then y - 2 ^ 32 else y.

(** [DIV_ROUND_UP] of two [size_t]. *)
Definition DIV_ROUND_UP_sz (n d : Z) : Z := u64 (n + d - 1) / d.

(** ** Mapping limits *)

(** [seg]: [dma_get_max_seg_size]; [map_max]: [dma_max_mapping_size]. *)
Definition mx_max_sg_segment (seg map_max : Z) : Z :=
  let limit := if nz map_max then Z.min seg map_max else seg in
  let limit := page_floor (Z.min limit U32_MAX) in
  if limit =? 0 then PAGE_SIZE else u32 limit.

(** The checks of [mx_sg_context_create] before anything is allocated: an errno or the
    number of pages to pin. *)
Definition sg_context_pages (user_addr total_size : Z) : Z + Z :=
  let offset := offset_in_page user_addr in
  RETURN (inl (- EINVAL)) WHEN
    ((total_size =? 0) || (INT_MAX / 8 * PAGE_SIZE - offset <? total_size)) ;;
  inr (DIV_ROUND_UP_sz (offset + total_size) PAGE_SIZE).

(** ** Number of splits *)

(** [page_size]: the DMA page of the queue version; the two module parameters. *)
Definition mx_parallel_count_for (page_size parallel_split_ratio parallel_count buf size : Z) : Z :=
  let first_page := Z.shiftr buf PAGE_SHIFT in
  let last_page := Z.shiftr (u64 (buf + size - 1)) PAGE_SHIFT in
  let nr_pages := Z.min (u64 (last_page - first_page + 1)) INT_MAX in
  if parallel_split_ratio =? 0 then
    Z.max (Z.min nr_pages (to_int parallel_count)) 1
  else
    let descs_per_list := to_int (page_size / 8) in
    let descs_per_split := to_int (u32 (descs_per_list * parallel_split_ratio) / 100) in
    let descs_per_split := if descs_per_split <? 1 then 1 else descs_per_split in
    let total_descs := DIV_ROUND_UP_sz size page_size in
    let raw_count := DIV_ROUND_UP_sz total_descs descs_per_split in
    let count := Z.min raw_count INT_MAX in
    let count := if count <? 1 then 1 else count in
    let count := Z.min count nr_pages in
    let count := Z.min count (to_int parallel_count) in
    Z.max count 1.

(** ** The splits *)

Record xfer_slice := MkSlice {
  sl_byte_offset : Z;
  sl_size : Z;
  sl_device_addr : Z;
}.

Fixpoint split_loop (n : nat) (user_addr cursor remaining device_addr q r : Z) : list xfer_slice :=
  match n with
  | O => []
  | S n =>
    let num := if 0 <? r then q + 1 else q in
    let end_addr := page_floor (u64 (cursor + num * PAGE_SIZE)) in
    let slice := Z.min (u64 (end_addr - cursor)) remaining in
    MkSlice (cursor - user_addr) slice device_addr ::
      split_loop n user_addr (cursor + slice) (remaining - slice) (u64 (device_addr + slice)) q (r - 1)
  end.

(** [array]: the [kcalloc] of the array; [alloc i]: the allocation of transfer [i].
    A failure releases everything and returns NULL. *)
Definition alloc_mx_transfers (array : bool) (alloc : nat → bool)
    (user_addr total_size pages_nr device_addr_base : Z) (count : nat) : option (list xfer_slice) :=
  RETURN None WHEN (negb array) ;;
  RETURN None WHEN (negb (forallb alloc (seq 0 count))) ;;
  let q := pages_nr / Z.of_nat count in
  let r := pages_nr mod Z.of_nat count in
  Some (split_loop count user_addr user_addr total_size device_addr_base q r).

(** ** Facts on pages *)

Hypothesis Hshift : 0 ≤ PAGE_SHIFT ≤ 20.

Lemma page_size_pos : 1 ≤ PAGE_SIZE ≤ 2 ^ 20.
Proof.
  unfold PAGE_SIZE. split; [|apply Z.pow_le_mono_r; lia].
  change 1 with (2 ^ 0). apply Z.pow_le_mono_r; lia.
Qed.

Lemma page_floor_spec a : page_floor a = a / PAGE_SIZE * PAGE_SIZE.
Proof. unfold page_floor, PAGE_SIZE. rewrite Z.shiftl_mul_pow2, Z.shiftr_div_pow2 by lia. done. Qed.

Lemma offset_spec a : offset_in_page a = a mod PAGE_SIZE.
Proof.
  unfold offset_in_page, PAGE_SIZE. rewrite <- Z.land_ones by lia. f_equal. rewrite Z.ones_equiv. lia.
Qed.

Lemma page_floor_add a n : page_floor (a + n * PAGE_SIZE) = page_floor a + n * PAGE_SIZE.
Proof. pose proof page_size_pos. rewrite !page_floor_spec, Z.div_add by lia. lia. Qed.

Lemma page_floor_bound a : page_floor a ≤ a < page_floor a + PAGE_SIZE.
Proof.
  pose proof page_size_pos. rewrite page_floor_spec.
  pose proof (Z.div_mod a PAGE_SIZE). pose proof (Z.mod_pos_bound a PAGE_SIZE). lia.
Qed.

Lemma page_floor_idem a : page_floor (page_floor a) = page_floor a.
Proof. pose proof page_size_pos. rewrite !page_floor_spec, Z.div_mul by lia. done. Qed.

(** The pages of [user_addr .. user_addr + total), counted two ways. *)
Lemma page_count_eq user_addr total :
  0 ≤ user_addr → 0 < total →
  DIV_ROUND_UP (user_addr mod PAGE_SIZE + total) PAGE_SIZE =
  (user_addr + total - 1) / PAGE_SIZE - user_addr / PAGE_SIZE + 1.
Proof.
  intros Hu Ht. pose proof page_size_pos. unfold DIV_ROUND_UP.
  replace (user_addr mod PAGE_SIZE + total + PAGE_SIZE - 1)
    with (user_addr + total - 1 + (1 - user_addr / PAGE_SIZE) * PAGE_SIZE)
    by (pose proof (Z.div_mod user_addr PAGE_SIZE); lia).
  rewrite Z.div_add by lia. lia.
Qed.

(** ** The loop *)

(** What the slices of a buffer from [off] on must be: contiguous, nonempty, ending at
    [total], each addressed at its own offset, and meeting on page boundaries. *)
Inductive slices (user_addr total dev : Z) : Z → list xfer_slice → Prop :=
  | slices_end off : off = total → slices user_addr total dev off []
  | slices_cons off n d l :
      0 < n → off + n ≤ total → d = u64 (dev + off) →
      (off + n = total ∨ page_floor (user_addr + off + n) = user_addr + off + n) →
      slices user_addr total dev (off + n) l →
      slices user_addr total dev off (MkSlice off n d :: l).

(** [n] more splits, [k] pages done, at most one page of the rest unaligned. *)
Lemma split_loop_slices n user_addr total dev pages cursor q r k :
  0 ≤ user_addr → 0 < total → user_addr + total + 2 * PAGE_SIZE ≤ 2 ^ 64 → 0 ≤ dev →
  pages = (user_addr + total - 1) / PAGE_SIZE - user_addr / PAGE_SIZE + 1 →
  1 ≤ q → 0 ≤ k → k + Z.of_nat n * q + Z.max 0 (Z.min r (Z.of_nat n)) = pages →
  (n ≠ O → user_addr ≤ cursor < user_addr + total) → (n = O → cursor = user_addr + total) →
  (n ≠ O → page_floor cursor = page_floor user_addr + k * PAGE_SIZE) →
  slices user_addr total dev (cursor - user_addr)
    (split_loop n user_addr cursor (user_addr + total - cursor) (u64 (dev + (cursor - user_addr))) q r).
Proof.
  intros Hu Ht Hw Hdev Hp Hq. pose proof page_size_pos as Hps.
  revert cursor r k. induction n as [|n IH]; intros cursor r k Hk Hsum Hc Hend Hfl.
  { cbn. apply slices_end. rewrite Hend by done. lia. }
  specialize (Hc ltac:(done)). specialize (Hfl ltac:(done)). clear Hend. cbn [split_loop].
  set (num := if 0 <? r then q + 1 else q).
  assert (1 ≤ num ∧ k + num + Z.of_nat n * q + Z.max 0 (Z.min (r - 1) (Z.of_nat n)) = pages) as [Hn Hsum'].
  { clear - Hq Hsum. rewrite Nat2Z.inj_succ, Z.mul_succ_l in Hsum. subst num.
    generalize dependent (Z.of_nat n * q). intros nq Hs. destruct (Z.ltb_spec 0 r); lia. }
  pose proof (page_floor_bound user_addr) as Fu. pose proof (page_floor_bound (user_addr + total - 1)) as Fe.
  pose proof (page_floor_bound cursor) as Fc.
  assert (page_floor (user_addr + total - 1) = page_floor user_addr + (pages - 1) * PAGE_SIZE) as Epages.
  { rewrite !page_floor_spec, Hp. lia. }
  assert (0 ≤ Z.of_nat n * q ∧ (n ≠ O → 1 ≤ Z.of_nat n * q)) as [Hnq Hnq1].
  { clear - Hq. split; [nia | intros; nia]. }
  assert (∀ a b, a ≤ b → a * PAGE_SIZE ≤ b * PAGE_SIZE) as Hmono
    by (intros; apply Z.mul_le_mono_nonneg_r; lia).
  set (e := page_floor user_addr + (k + num) * PAGE_SIZE).
  assert (page_floor cursor + num * PAGE_SIZE = e) as Ee by (unfold e; lia).
  pose proof (Hmono 1 num ltac:(lia)). pose proof (Hmono (k + num) pages ltac:(lia)).
  assert (cursor < e ∧ e ≤ page_floor (user_addr + total - 1) + PAGE_SIZE) as [He1 He2] by (unfold e in *; lia).
  rewrite (u64_id (cursor + num * PAGE_SIZE)) by (unfold ULLONG_MAX; lia).
  rewrite page_floor_add, Ee, (u64_id (e - cursor)) by (unfold ULLONG_MAX; lia).
  set (sl := Z.min (e - cursor) (user_addr + total - cursor)).
  assert (page_floor e = e) as Efl by (unfold e; by rewrite page_floor_add, page_floor_idem).
  replace (user_addr + total - cursor - sl) with (user_addr + total - (cursor + sl)) by lia.
  replace (u64 (u64 (dev + (cursor - user_addr)) + sl)) with (u64 (dev + (cursor + sl - user_addr)))
    by (unfold u64; rewrite Zplus_mod_idemp_l; f_equal; lia).
  assert (n ≠ O → e < user_addr + total) as Hmid.
  { intros Hn0. pose proof (Hmono (k + num) (pages - 1) ltac:(specialize (Hnq1 Hn0); lia)). unfold e. lia. }
  assert (n = O → user_addr + total ≤ e) as Hlast.
  { intros Hn0. assert (k + num = pages) as Ek by (rewrite Hn0 in Hsum'; lia). unfold e. rewrite Ek. lia. }
  apply slices_cons; [lia | lia | done | |].
  - destruct (decide (n = O)) as [Hn0|Hn0]; [left; specialize (Hlast Hn0); lia | right].
    specialize (Hmid Hn0). replace (user_addr + (cursor - user_addr) + sl) with e by lia. done.
  - replace (cursor - user_addr + sl) with (cursor + sl - user_addr) by lia. apply (IH _ _ (k + num)); try lia.
    + intros Hn0. specialize (Hmid Hn0). replace (cursor + sl) with e by lia. rewrite Efl. unfold e. lia.
Qed.

(** The whole buffer, in at most as many splits as it has pages. *)
Lemma split_all_slices user total dev pages count :
  0 ≤ user → 0 < total → user + total + 2 * PAGE_SIZE ≤ 2 ^ 64 → 0 ≤ dev ≤ ULLONG_MAX →
  pages = (user + total - 1) / PAGE_SIZE - user / PAGE_SIZE + 1 → (1 ≤ count)%nat → Z.of_nat count ≤ pages →
  slices user total dev 0
    (split_loop count user user total dev (pages / Z.of_nat count) (pages mod Z.of_nat count)).
Proof.
  intros Hu Ht Hw Hdev Hp Hc Hcp. set (c := Z.of_nat count) in *.
  pose proof (Z.div_mod pages c). pose proof (Z.mod_pos_bound pages c).
  assert (1 ≤ pages / c) by (apply Z.div_le_lower_bound; lia).
  assert (slices user total dev (user - user) (split_loop count user user (user + total - user)
    (u64 (dev + (user - user))) (pages / c) (pages mod c))) as Hs.
  { apply (split_loop_slices count user total dev pages user _ _ 0); try lia; try done. }
  rewrite Z.sub_diag, Z.add_0_r, u64_id in Hs by lia. by replace (user + total - user) with total in Hs by lia.
Qed.

Lemma split_loop_length n u c rem dev q r : length (split_loop n u c rem dev q r) = n.
Proof. revert c rem dev r. induction n; cbn; auto. Qed.

Lemma slices_sum u total dev off l :
  slices u total dev off l → off + foldr (fun sl acc => sl_size sl + acc) 0 l = total.
Proof. induction 1; cbn in *; lia. Qed.

Lemma slices_inside u total dev off l :
  slices u total dev off l → 0 ≤ off →
  Forall (fun sl => 0 ≤ sl_byte_offset sl ∧ 0 < sl_size sl ∧ sl_byte_offset sl + sl_size sl ≤ total ∧
                    sl_device_addr sl = u64 (dev + sl_byte_offset sl)) l.
Proof. induction 1; intros; constructor; cbn; [lia | apply IHslices; lia]. Qed.

Lemma context_pages_spec user total pages :
  0 ≤ user → 0 ≤ total → sg_context_pages user total = inr pages →
  0 < total ∧ pages = (user + total - 1) / PAGE_SIZE - user / PAGE_SIZE + 1 ∧
  1 ≤ pages ≤ INT_MAX / 8.
Proof.
  intros Hu Ht. unfold sg_context_pages. rewrite offset_spec. pose proof page_size_pos as Hps.
  pose proof (Z.mod_pos_bound user PAGE_SIZE). change (INT_MAX / 8) with 268435455.
  destruct (Z.eqb_spec total 0); cbn [orb]; [done|].
  destruct (Z.ltb_spec (268435455 * PAGE_SIZE - user mod PAGE_SIZE) total); [done|]. intros [= <-].
  assert (268435455 * PAGE_SIZE ≤ 268435455 * 2 ^ 20) by lia.
  unfold DIV_ROUND_UP_sz. rewrite u64_id by (unfold ULLONG_MAX; lia).
  change ((user mod PAGE_SIZE + total + PAGE_SIZE - 1) / PAGE_SIZE)
    with (DIV_ROUND_UP (user mod PAGE_SIZE + total) PAGE_SIZE).
  split_and!; [lia | apply page_count_eq; lia | |]; unfold DIV_ROUND_UP.
  - apply Z.div_le_lower_bound; lia.
  - enough ((user mod PAGE_SIZE + total + PAGE_SIZE - 1) / PAGE_SIZE < 268435456) by lia.
    apply Z.div_lt_upper_bound; lia.
Qed.

Lemma parallel_count_spec page_size ratio pc user total :
  0 ≤ user → 0 < total → user + total < 2 ^ 64 →
  1 ≤ mx_parallel_count_for page_size ratio pc user total ∧
  mx_parallel_count_for page_size ratio pc user total ≤
    (user + total - 1) / PAGE_SIZE - user / PAGE_SIZE + 1 ∧
  mx_parallel_count_for page_size ratio pc user total ≤ Z.max 1 (to_int pc).
Proof.
  intros Hu Ht Hw. unfold mx_parallel_count_for. pose proof page_size_pos as Hps.
  rewrite (u64_id (user + total - 1)) by (unfold ULLONG_MAX; lia). rewrite !Z.shiftr_div_pow2 by lia.
  change (2 ^ PAGE_SHIFT) with PAGE_SIZE.
  pose proof (Z.div_le_mono user (user + total - 1) PAGE_SIZE ltac:(lia) ltac:(lia)).
  pose proof (Z.div_pos user PAGE_SIZE ltac:(lia) ltac:(lia)).
  assert ((user + total - 1) / PAGE_SIZE ≤ user + total - 1)
    by (apply Z.div_le_upper_bound; nia).
  rewrite u64_id by (unfold ULLONG_MAX; lia). unfold INT_MAX. cbv zeta.
  destruct (ratio =? 0); lia.
Qed.

(** ** Theorems *)

(** C25: The split of a buffer.  For every user buffer that passes the size check and any
    setting of the module parameters, the splits the driver builds are a partition of
    the buffer: as many as computed, each nonempty, starting where the one before ends,
    the first at offset 0 and the last ending at the end of the buffer, every inner
    boundary on a page boundary of the user address, and each transfer addressed at
    its own offset in the device. *)
Theorem split_partitions_buffer page_size ratio pc user total pages dev l :
  0 ≤ user → 0 ≤ total → user + total + 2 * PAGE_SIZE ≤ 2 ^ 64 → 0 ≤ dev ≤ ULLONG_MAX →
  sg_context_pages user total = inr pages →
  let count := Z.to_nat (mx_parallel_count_for page_size ratio pc user total) in
  alloc_mx_transfers true (fun _ => true) user total pages dev count = Some l →
  slices user total dev 0 l ∧ length l = count ∧ (1 ≤ count)%nat ∧
  foldr (fun sl acc => sl_size sl + acc) 0 l = total.
Proof.
  intros Hu Ht Hw Hdev Hp count Hl.
  destruct (context_pages_spec user total pages Hu Ht Hp) as (Hpos & Epages & Hpb).
  pose proof page_size_pos as Hps.
  destruct (parallel_count_spec page_size ratio pc user total Hu Hpos ltac:(lia)) as (C1 & C2 & _).
  rewrite <- Epages in C2. set (c := mx_parallel_count_for page_size ratio pc user total) in *.
  unfold alloc_mx_transfers in Hl. cbn [negb] in Hl.
  rewrite (proj2 (forallb_forall (fun _ => true) (seq 0 count))) in Hl by done. cbn in Hl.
  apply (f_equal (default [])) in Hl. cbn in Hl. subst l.
  assert (Z.of_nat count = c) as Ec by lia. rewrite Ec.
  pose proof (split_all_slices user total dev pages count Hu Hpos Hw Hdev Epages ltac:(lia) ltac:(lia)) as Hs.
  rewrite Ec in Hs.
  split_and!; [exact Hs | apply split_loop_length | lia | by apply slices_sum in Hs].
Qed.

(** C26: Bounds of a mapping.  A size that passes the check of [mx_sg_context_create]
    pins exactly the pages the buffer touches, their number fits an [int] and the page
    array stays below [INT_MAX] bytes; the largest SG segment is a nonzero multiple of
    the page size that fits 32 bits, and it never exceeds a device limit of at least
    one page. *)
Theorem mapping_bounds user total pages seg map_max :
  0 ≤ user → 0 ≤ total → sg_context_pages user total = inr pages → 0 ≤ seg → 0 ≤ map_max →
  pages = (user + total - 1) / PAGE_SIZE - user / PAGE_SIZE + 1 ∧
  1 ≤ pages ≤ INT_MAX ∧ 8 * pages ≤ INT_MAX ∧
  mx_max_sg_segment seg map_max mod PAGE_SIZE = 0 ∧
  PAGE_SIZE ≤ mx_max_sg_segment seg map_max ≤ U32_MAX ∧
  (PAGE_SIZE ≤ seg → mx_max_sg_segment seg map_max ≤ seg) ∧
  (PAGE_SIZE ≤ map_max → mx_max_sg_segment seg map_max ≤ map_max).
Proof.
  intros Hu Ht Hp Hs Hm. destruct (context_pages_spec user total pages Hu Ht Hp) as (_ & E & Hb).
  pose proof page_size_pos as Hps. change (INT_MAX / 8) with 268435455 in Hb.
  assert (∃ lim, mx_max_sg_segment seg map_max = (if page_floor lim =? 0 then PAGE_SIZE else page_floor lim) ∧
    0 ≤ lim ≤ U32_MAX ∧ lim ≤ seg ∧ (map_max ≠ 0 → lim ≤ map_max)) as (lim & -> & Hl & Hl1 & Hl2).
  { unfold mx_max_sg_segment, nz. cbv zeta. eexists (Z.min (if negb (map_max =? 0) then Z.min seg map_max else seg) U32_MAX).
    assert (0 ≤ Z.min (if negb (map_max =? 0) then Z.min seg map_max else seg) U32_MAX ≤ U32_MAX) as Hr
      by (unfold U32_MAX; destruct (Z.eqb_spec map_max 0); cbn; lia).
    pose proof (page_floor_bound (Z.min (if negb (map_max =? 0) then Z.min seg map_max else seg) U32_MAX)).
    split; [|unfold U32_MAX in *; destruct (Z.eqb_spec map_max 0); cbn in *; lia].
    destruct (Z.eqb_spec (page_floor (Z.min (if negb (map_max =? 0) then Z.min seg map_max else seg) U32_MAX)) 0); [done|].
    apply u32_id. rewrite page_floor_spec in *. split; [|lia].
    apply Z.mul_nonneg_nonneg; [|lia]. apply Z.div_pos; lia. }
  pose proof (page_floor_bound lim) as Hfb.
  assert (0 ≤ page_floor lim) as Hf0.
  { rewrite page_floor_spec. apply Z.mul_nonneg_nonneg; [|lia]. apply Z.div_pos; lia. }
  assert (page_floor lim mod PAGE_SIZE = 0 ∧ (page_floor lim = 0 ∨ PAGE_SIZE ≤ page_floor lim)) as [Hmod Hge].
  { rewrite page_floor_spec in *. split; [apply Z.mod_mul; lia|].
    assert (lim / PAGE_SIZE = 0 ∨ 1 ≤ lim / PAGE_SIZE) as [->|?] by (pose proof (Z.div_pos lim PAGE_SIZE); lia); [by left|].
    right. nia. }
  unfold INT_MAX, U32_MAX in *.
  destruct (Z.eqb_spec (page_floor lim) 0) as [E0|E0];
    split_and!; try done; try lia; try (apply Z.mod_same; lia).
Qed.
End paging.

(** A buffer of four and a half pages from the middle of a page, three splits. *)
Lemma split_partitions_buffer_witness :
  length (default [] (alloc_mx_transfers 12 true (fun _ => true) 2048 18432 5 65536 3)) = 3%nat.
Proof.
  refine (proj1 (proj2 (split_partitions_buffer 12 ltac:(lia) 4096 0 3 2048 18432 5 65536 _
    ltac:(lia) ltac:(lia) ltac:(by vm_compute) ltac:(by vm_compute) ltac:(by vm_compute) ltac:(reflexivity)))).
Defined.

Lemma mapping_bounds_witness : mx_max_sg_segment 12 65536 10000 = 8192 ∧ 8 * 5 ≤ INT_MAX.
Proof.
  split; [reflexivity|].
  exact (proj1 (proj2 (proj2 (mapping_bounds 12 ltac:(lia) 2048 18432 5 65536 10000 ltac:(lia) ltac:(lia)
    ltac:(by vm_compute) ltac:(lia) ltac:(lia))))).
Defined.
