(* ===== verification/QueueV1.v ===== *)
(** * The version 1 queue (src/core_v1.c)

    Commands of four 64-bit words in a pair of hardware mailboxes.  A command is written
    and read in one piece, without wrapping around the end of the mailbox, and the free
    space is taken from the cached context word while that is known to be enough. *)

From S2P Require Import Prelude Uapi Bits Mbox LeaseSM LeaseTypes Lease BarMap Ioctl MboxFifo.

(** ** Types *)

(** [struct mx_command]: the header bit-fields share one word; [prp_entry1] and
    [doorbell_value] share the word of [host_addr]. *)
Record mx_command := MkCmd1 {
  c1_header : Z; c1_size : Z; c1_device_addr : Z; c1_host_addr : Z;
}.

#[export] Instance eta_cmd1 : Eta mx_command := fun r =>
  MkCmd1 (c1_header r) (c1_size r) (c1_device_addr r) (c1_host_addr r).

Definition cmd1_zero : mx_command := MkCmd1 0 0 0 0.

Definition hdr_magic (h : Z) : Z := bf_get 0 16 h.
Definition hdr_opcode (h : Z) : Z := bf_get 16 4 h.
Definition hdr_control (h : Z) : Z := bf_get 20 4 h.
Definition hdr_page_mode (h : Z) : Z := bf_get 24 2 h.
Definition hdr_id (h : Z) : Z := bf_get 26 16 h.
Definition hdr_subopcode (h : Z) : Z := bf_get 48 6 h.

Definition set_magic (v : Z) (c : mx_command) : mx_command := c <| c1_header := bf_set 0 16 v (c1_header c) |>.
Definition set_opcode (v : Z) (c : mx_command) : mx_command := c <| c1_header := bf_set 16 4 v (c1_header c) |>.
Definition set_page_mode (v : Z) (c : mx_command) : mx_command := c <| c1_header := bf_set 24 2 v (c1_header c) |>.
Definition set_id (v : Z) (c : mx_command) : mx_command := c <| c1_header := bf_set 26 16 v (c1_header c) |>.
Definition set_subopcode (v : Z) (c : mx_command) : mx_command := c <| c1_header := bf_set 48 6 v (c1_header c) |>.

(** The words of a command, in memory order. *)
Definition cmd_words (c : mx_command) : list Z := [c1_header c; c1_size c; c1_device_addr c; c1_host_addr c].

(** [sizeof(struct mx_command) / sizeof(uint64_t)]. *)
Definition data_count : Z := 4.

Record mx_queue_v1 := MkQ1 {
  q1_sq_mbox : mx_mbox;
  q1_cq_mbox : mx_mbox;
  q1_wait_count : Z;
  q1_lv_inflight : bool;
}.

#[export] Instance eta_q1 : Eta mx_queue_v1 := fun r =>
  MkQ1 (q1_sq_mbox r) (q1_cq_mbox r) (q1_wait_count r) (q1_lv_inflight r).

(** ** Queue helpers *)

(** [readq]: the context word the device shows if it is read. *)
Definition is_pushable (readq : Z) (queue : mx_queue_v1) : bool * mx_queue_v1 :=
  let mbox := q1_sq_mbox queue in
  RETURN (true, queue) WHEN (data_count * 2 <=? get_free_space mbox) ;;
  let mbox := mbox <| mb_ctx := readq |> in
  (data_count <=? get_free_space mbox, queue <| q1_sq_mbox := mbox |>).

Definition is_popable (readq : Z) (queue : mx_queue_v1) : bool * mx_queue_v1 :=
  RETURN (false, queue) WHEN ((q1_wait_count queue <=? 0) && negb (q1_lv_inflight queue)) ;;
  let mbox := (q1_cq_mbox queue) <| mb_ctx := readq |> in
  (data_count <=? get_pending_count mbox, queue <| q1_cq_mbox := mbox |>).

(** The two device accesses of a push or a pop: where the command is, and the context
    word published afterwards. *)
Record mbox_access := MkAcc { ac_data_addr : Z; ac_w_addr : Z; ac_ctx : Z }.

Definition push_mx_command (queue : mx_queue_v1) : mbox_access * mx_queue_v1 :=
  let mbox := q1_sq_mbox queue in
  let data_addr := mb_data_addr mbox + get_data_offset (mb_tail mbox) in
  let mbox := set_tail (get_next_index (mb_tail mbox) data_count (mb_depth mbox)) mbox in
  (MkAcc data_addr (w_ctx_addr mbox) (mb_ctx mbox), queue <| q1_sq_mbox := mbox |>).

(** [mem]: the mailbox memory; only the header and [host_addr] are read. *)
Definition pop_mx_command (mem : Z → Z) (queue : mx_queue_v1) : mx_command * mbox_access * mx_queue_v1 :=
  let mbox := q1_cq_mbox queue in
  let data_addr := mb_data_addr mbox + get_data_offset (mb_head mbox) in
  let comm := cmd1_zero <| c1_header := mem data_addr |> <| c1_host_addr := mem (data_addr + 24) |> in
  let mbox := set_head (get_next_index (mb_head mbox) data_count (mb_depth mbox)) mbox in
  (comm, MkAcc data_addr (w_ctx_addr mbox) (mb_ctx mbox), queue <| q1_cq_mbox := mbox |>).

(** Id, result, status. *)
Definition v1_pop_completion (mem : Z → Z) (queue : mx_queue_v1) : (Z * Z * Z) * mbox_access * mx_queue_v1 :=
  let '(comm, acc, queue) := pop_mx_command mem queue in
  ((hdr_id (c1_header comm), c1_host_addr comm, hdr_control (c1_header comm)), acc, queue).

Definition MAGIC_COMMAND : Z := 0x1234.

Definition build_ping_command_v1 : mx_command :=
  set_opcode IO_OPCODE_PING (set_id (Z.shiftl 1 16 - 1) (set_magic MAGIC_COMMAND cmd1_zero)).

(** ** Submission against a device that consumes words *)

(** The context word the device shows: its own head and the tail last published. *)
Definition sq_context (mbox : mx_mbox) (s : mbox_dev) (w : Z) : Prop :=
  ctx_head w = ring_enc (mb_depth mbox) (dv_head s) ∧ ctx_tail w = ring_enc (mb_depth mbox) (dv_tail s).

(** The device takes the tail of a context word written to the mailbox's own register, the
    one of its window with that encoding; a word written elsewhere does not reach it. *)
Definition sq_take_tail (mbox : mx_mbox) (s : mbox_dev) (acc : mbox_access) (tail : Z) : Prop :=
  if ac_w_addr acc =? w_ctx_addr mbox
  then dv_head s ≤ tail ≤ dv_head s + mb_depth mbox ∧ ctx_tail (ac_ctx acc) = ring_enc (mb_depth mbox) tail
  else tail = dv_tail s.

(** Any interleaving of the submit thread and the device. *)
Inductive v1_sq_session : mx_queue_v1 → mbox_dev → list mx_command → Prop :=
  | V1Start q s :
      sq_inv (q1_sq_mbox q) s [] 0 → dv_tail s = 0 → data_count ≤ mb_depth (q1_sq_mbox q) →
      v1_sq_session q s []
  | V1Consume q s cmds :
      v1_sq_session q s cmds → dv_head s < dv_tail s →
      v1_sq_session q (s <| dv_log := dv_log s ++ [dv_mem s (slot_addr (q1_sq_mbox q) (dv_head s))] |>
                         <| dv_head := dv_head s + 1 |>) cmds
  | V1Full q s cmds w q1 :
      v1_sq_session q s cmds → sq_context (q1_sq_mbox q) s w → is_pushable w q = (false, q1) →
      v1_sq_session q1 s cmds
  | V1Push q s cmds c w q1 acc q2 mem' tail :
      v1_sq_session q s cmds → sq_context (q1_sq_mbox q) s w → is_pushable w q = (true, q1) →
      push_mx_command q1 = (acc, q2) →
      mem_store (ac_data_addr acc) (cmd_words c) (dv_mem s) mem' →
      sq_take_tail (q1_sq_mbox q) s acc tail →
      v1_sq_session q2 (s <| dv_mem := mem' |> <| dv_tail := tail |>) (cmds ++ [c]).

Definition words_of (cmds : list mx_command) : list Z := cmds ≫= cmd_words.

Lemma words_of_length cmds : Z.of_nat (length (words_of cmds)) = 4 * Z.of_nat (length cmds).
Proof. unfold words_of. induction cmds as [|c cmds IH]; cbn; [done|]. lia. Qed.

Lemma words_of_snoc cmds c : words_of (cmds ++ [c]) = words_of cmds ++ cmd_words c.
Proof. unfold words_of. rewrite bind_app. cbn. done. Qed.

(** A mailbox that holds a command holds a whole number of them. *)
Lemma depth_multiple d : pow2_depth d → data_count ≤ d → ∃ m, d = 4 * m.
Proof.
  intros (k & Hk & ->) Hd. unfold data_count in Hd.
  assert (k = 0 ∨ k = 1 ∨ 2 ≤ k) as [->|[->|H2]] by lia; [cbn in Hd; lia..|].
  exists (2 ^ (k - 2)). change 4 with (2 ^ 2). rewrite <- Z.pow_add_r by lia. f_equal. lia.
Qed.

(** A command that starts at a multiple of four does not wrap. *)
Lemma command_run d n : pow2_depth d → data_count ≤ d → 0 ≤ n → 4 ≤ d - (4 * n) mod d.
Proof.
  intros Hd Hc Hn. destruct (depth_multiple d Hd Hc) as [m ->]. unfold data_count in Hc.
  rewrite Zmult_mod_distr_l. pose proof (Z.mod_pos_bound n m). lia.
Qed.

Record v1_sq_inv (q : mx_queue_v1) (s : mbox_dev) (cmds : list mx_command) (h : Z) : Prop := {
  v1_sq : sq_inv (q1_sq_mbox q) s (words_of cmds) h;
  v1_tail : dv_tail s = Z.of_nat (length (words_of cmds));
  v1_depth : data_count ≤ mb_depth (q1_sq_mbox q);
}.

(** What [is_pushable] finds is true of the device, and it keeps the invariant. *)
Lemma pushable_spec q s cmds h w b q1 :
  v1_sq_inv q s cmds h → sq_context (q1_sq_mbox q) s w → is_pushable w q = (b, q1) →
  same_geometry (q1_sq_mbox q) (q1_sq_mbox q1) ∧
  ∃ h1, v1_sq_inv q1 s cmds h1 ∧
    (b = true → 4 ≤ mb_depth (q1_sq_mbox q) - (Z.of_nat (length (words_of cmds)) - h1)) ∧
    (b = false → mb_depth (q1_sq_mbox q) - (Z.of_nat (length (words_of cmds)) - dv_head s) < 4).
Proof.
  intros [Hi Ht Hd] [Wh Wt]. unfold is_pushable. cbv zeta.
  set (mbox := q1_sq_mbox q) in *. set (t := Z.of_nat (length (words_of cmds))) in *.
  pose proof (ring_free _ _ _ (sq_ring _ _ _ _ Hi)) as Hf. fold t in Hf.
  destruct (Z.leb_spec (data_count * 2) (get_free_space mbox)) as [Hle|Hgt].
  { intros [= <- <-]. split; [done|]. exists h. unfold data_count in *. split_and!; [done | lia | done]. }
  set (mbox1 := mbox <| mb_ctx := w |>). intros [= <- <-]. split; [done|]. exists (dv_head s).
  destruct Hi as [R F O L SL]. fold t in O. destruct R as [Rd Rh Rt Ro Rb].
  assert (ring mbox1 (dv_head s) t) as R1.
  { constructor; cbn; try done; [by rewrite Ht in Wt | lia | fold t in Rb; fold mbox in Rb; lia]. }
  pose proof (ring_free _ _ _ R1) as Hf1. cbn in Hf1.
  split_and!.
  - constructor; [|done|done]. constructor; try done; lia.
  - rewrite Z.leb_le, Hf1. unfold data_count. done.
  - rewrite Z.leb_gt, Hf1. unfold data_count. done.
Qed.

Section push.
Context (q : mx_queue_v1) (s : mbox_dev) (cmds : list mx_command) (h : Z) (c : mx_command).
Hypothesis Hinv : v1_sq_inv q s cmds h.
Local Notation mbox := (q1_sq_mbox q).
Local Notation d := (mb_depth mbox).
Local Notation t := (Z.of_nat (length (words_of cmds))).
Hypothesis Hroom : 4 ≤ d - (t - h).

Lemma push_run : Z.of_nat (length (cmd_words c)) ≤ Z.min (d - (t - h)) (d - t mod d).
Proof.
  pose proof (ring_pow2 _ _ _ (sq_ring _ _ _ _ (v1_sq _ _ _ _ Hinv))) as Hp.
  cbn. rewrite words_of_length. pose proof (command_run d (Z.of_nat (length cmds)) Hp (v1_depth _ _ _ _ Hinv)).
  rewrite words_of_length in Hroom. lia.
Qed.

(** The command lies inside the mailbox memory. *)
Lemma push_in_bounds acc q2 :
  push_mx_command q = (acc, q2) →
  mb_data_addr mbox ≤ ac_data_addr acc ∧ ac_data_addr acc + 8 * data_count ≤ mb_data_addr mbox + 8 * d ∧
  same_geometry mbox (q1_sq_mbox q2).
Proof.
  pose proof (sq_ring _ _ _ _ (v1_sq _ _ _ _ Hinv)) as R. pose proof (ring_pow2 _ _ _ R) as Hp.
  pose proof push_run as Hr. cbn in Hr. pose proof (pow2_depth_range d Hp). pose proof (Z.mod_pos_bound t d).
  unfold push_mx_command. cbv zeta. intros [= <- <-]. cbn. split_and!; try done.
  - unfold get_data_offset. rewrite (ring_tail _ _ _ R), enc_index by done. lia.
  - unfold get_data_offset, data_count. rewrite (ring_tail _ _ _ R), enc_index by done. lia.
Qed.

Lemma push_spec acc q2 mem' tail :
  push_mx_command q = (acc, q2) → mem_store (ac_data_addr acc) (cmd_words c) (dv_mem s) mem' →
  dv_head s ≤ tail ≤ dv_head s + d → ctx_tail (ac_ctx acc) = ring_enc d tail →
  v1_sq_inv q2 (s <| dv_mem := mem' |> <| dv_tail := tail |>) (cmds ++ [c]) h.
Proof.
  destruct Hinv as [Hi Ht Hd]. pose proof (sq_ring _ _ _ _ Hi) as R.
  pose proof (sq_order _ _ _ _ Hi) as Ho. pose proof (ring_order _ _ _ R) as Hro.
  pose proof (ring_push _ _ _ R 4 ltac:(lia)) as R'.
  unfold push_mx_command. cbv zeta. intros [= <- <-] Hm Hw Htail. cbn in Hm, Htail.
  change (ctx_tail _) with (mb_tail (set_tail (get_next_index (mb_tail mbox) data_count d) mbox)) in Htail.
  unfold data_count in Htail. rewrite (ring_tail _ _ _ R') in Htail. cbn in Htail.
  assert (tail = t + 4) as ->.
  { symmetry. apply (enc_inj d (ring_pow2 _ _ _ R) _ _ (dv_head s)); [lia | lia | lia | done]. }
  assert (Z.of_nat (length (words_of (cmds ++ [c]))) = t + 4) as El.
  { rewrite words_of_snoc, length_app. cbn. lia. }
  constructor; cbn; [|lia|done].
  constructor; rewrite ?El; cbn; try done; try lia; [apply Hi | |].
  - rewrite words_of_snoc, take_app_le by lia. apply Hi.
  - intros n Hn. rewrite words_of_snoc.
    apply (batch_stored mbox s (words_of cmds) h (cmd_words c) mem' Hi push_run n Hm). cbn. lia.
Qed.
End push.

Lemma v1_sq_session_inv q s cmds : v1_sq_session q s cmds → ∃ h, v1_sq_inv q s cmds h.
Proof.
  induction 1 as [q s Hi Ht Hd|q s cmds _ [h [Hi Ht Hd]] Hlt|q s cmds w q1 _ [h Hi] Hw Hp|
    q s cmds c w q1 acc q2 mem' tail _ [h Hi] Hw Hp Hpush Hm Htl].
  - exists 0. by constructor.
  - exists h. constructor; cbn; try done. by apply sq_consume_inv.
  - destruct (pushable_spec _ _ _ _ _ _ _ Hi Hw Hp) as (_ & h1 & H1 & _). eauto.
  - destruct (pushable_spec _ _ _ _ _ _ _ Hi Hw Hp) as ((_ & Ew & _ & Eg) & h1 & H1 & Hr & _).
    unfold sq_take_tail in Htl. rewrite <- Eg, <- Ew in *.
    assert (ac_w_addr acc = w_ctx_addr (q1_sq_mbox q1)) as Ha.
    { unfold push_mx_command in Hpush. by injection Hpush as <- _. }
    rewrite Ha, Z.eqb_refl in Htl. exists h1. destruct Htl. eapply push_spec; eauto.
Qed.

(** C16: Submission in version 1.  Over any interleaving of pushes with a device that
    consumes words, in a mailbox that starts empty and holds at least one command: the
    device consumes exactly the words of the commands pushed, in order.  Whenever
    [is_pushable] says yes, from the cached context or from a fresh one, the four words
    of the next command lie inside the mailbox memory and overwrite none the device has
    not consumed; it says no only when less than one command fits. *)
Theorem v1_submission_fifo q s cmds w b q1 acc q2 :
  v1_sq_session q s cmds → sq_context (q1_sq_mbox q) s w →
  is_pushable w q = (b, q1) → push_mx_command q1 = (acc, q2) →
  let mbox := q1_sq_mbox q in
  let t := 4 * Z.of_nat (length cmds) in
  dv_log s = take (Z.to_nat (dv_head s)) (words_of cmds) ∧ 0 ≤ dv_head s ≤ t ∧
  (b = true →
     t + 4 - dv_head s ≤ mb_depth mbox ∧ mb_data_addr mbox ≤ ac_data_addr acc ∧
     ac_data_addr acc + 32 ≤ mb_data_addr mbox + 8 * mb_depth mbox ∧
     ac_data_addr acc = slot_addr mbox t) ∧
  (b = false → mb_depth mbox - (t - dv_head s) < 4).
Proof.
  intros [h Hi]%v1_sq_session_inv Hw Hp Hpush. cbv zeta. pose proof (v1_sq _ _ _ _ Hi) as Hs.
  pose proof (sq_order _ _ _ _ Hs) as Ho. pose proof (ring_order _ _ _ (sq_ring _ _ _ _ Hs)).
  destruct (pushable_spec _ _ _ _ _ _ _ Hi Hw Hp) as ((_ & _ & Ea & Ed) & h1 & H1 & Hy & Hn).
  rewrite words_of_length in *. split_and!; [apply Hs | lia | lia | | done].
  intros Hb. pose proof (Hy Hb) as Hr. rewrite <- Ed, <- Ea in *. rewrite <- words_of_length in Hr.
  pose proof (sq_order _ _ _ _ (v1_sq _ _ _ _ H1)). rewrite words_of_length in *.
  destruct (push_in_bounds q1 s cmds h1 cmd1_zero H1) with (acc := acc) (q2 := q2) as (B1 & B2 & _);
    [by rewrite words_of_length | done |].
  unfold data_count in B2. split_and!; try lia.
  pose proof (batch_addr _ _ _ _ (cmd_words cmd1_zero) (v1_sq _ _ _ _ H1)) as Hb0.
  unfold push_mx_command in Hpush. cbv zeta in Hpush. injection Hpush as <- _. cbn [ac_data_addr].
  specialize (Hb0 (push_run q1 s cmds h1 cmd1_zero H1 ltac:(by rewrite words_of_length)) 0 ltac:(cbn; lia)).
  rewrite words_of_length, Z.mul_0_r, !Z.add_0_r in Hb0. rewrite Hb0.
  unfold slot_addr. by rewrite Ed, Ea.
Qed.

(** ** Completion against a device that produces words *)

(** The context word of the completion mailbox: the tail of the device and the head last
    published. *)
Definition cq_context (mbox : mx_mbox) (s : mbox_dev) (w : Z) : Prop :=
  ctx_tail w = ring_enc (mb_depth mbox) (dv_tail s) ∧ ctx_head w = ring_enc (mb_depth mbox) (dv_head s).

(** The device takes the head of a context word written to the mailbox's own register. *)
Definition cq_take_head (mbox : mx_mbox) (s : mbox_dev) (acc : mbox_access) (head : Z) : Prop :=
  if ac_w_addr acc =? w_ctx_addr mbox
  then dv_head s ≤ head ≤ dv_tail s ∧ ctx_head (ac_ctx acc) = ring_enc (mb_depth mbox) head
  else head = dv_head s.

Inductive v1_cq_session : mx_queue_v1 → mbox_dev → list (Z * Z * Z) → Prop :=
  | V1CqStart q s :
      cq_base (q1_cq_mbox q) s 0 0 → dv_head s = 0 → data_count ≤ mb_depth (q1_cq_mbox q) →
      v1_cq_session q s []
  | V1Produce q s infos w :
      v1_cq_session q s infos → dv_tail s - dv_head s < mb_depth (q1_cq_mbox q) →
      v1_cq_session q
        (s <| dv_mem := fun a => if a =? slot_addr (q1_cq_mbox q) (dv_tail s) then w else dv_mem s a |>
           <| dv_log := dv_log s ++ [w] |> <| dv_tail := dv_tail s + 1 |>) infos
  | V1Count q s infos n f :
      v1_cq_session q s infos →
      v1_cq_session (q <| q1_wait_count := n |> <| q1_lv_inflight := f |>) s infos
  | V1None q s infos w q1 :
      v1_cq_session q s infos → cq_context (q1_cq_mbox q) s w → is_popable w q = (false, q1) →
      v1_cq_session q1 s infos
  | V1Pop q s infos w q1 info acc q2 head :
      v1_cq_session q s infos → cq_context (q1_cq_mbox q) s w → is_popable w q = (true, q1) →
      v1_pop_completion (dv_mem s) q1 = (info, acc, q2) →
      cq_take_head (q1_cq_mbox q) s acc head →
      v1_cq_session q2 (s <| dv_head := head |>) (infos ++ [info]).

(** The completion in words [4 i .. 4 i + 3] of what the device produced. *)
Definition info_at (log : list Z) (i : nat) : option (Z * Z * Z) :=
  match log !! (4 * i)%nat, log !! (4 * i + 3)%nat with
  | Some hd, Some res => Some (hdr_id hd, res, hdr_control hd)
  | _, _ => None
  end.

Record v1_cq_inv (q : mx_queue_v1) (s : mbox_dev) (infos : list (Z * Z * Z)) (t : Z) : Prop := {
  v1c_cq : cq_base (q1_cq_mbox q) s (4 * Z.of_nat (length infos)) t;
  v1c_head : dv_head s = 4 * Z.of_nat (length infos);
  v1c_depth : data_count ≤ mb_depth (q1_cq_mbox q);
  v1c_infos i info : infos !! i = Some info → info_at (dv_log s) i = Some info;
}.

Lemma info_at_app log k i info : info_at log i = Some info → info_at (log ++ k) i = Some info.
Proof.
  unfold info_at. destruct (log !! (4 * i)%nat) as [a|] eqn:Ea; [|done].
  destruct (log !! (4 * i + 3)%nat) as [b|] eqn:Eb; [|done]. by rewrite !(lookup_app_l_Some _ _ _ _ Ea), (lookup_app_l_Some _ _ _ _ Eb).
Qed.

(** The queue with the context word just read. *)
Lemma popable_spec q s infos t w b q1 :
  v1_cq_inv q s infos t → cq_context (q1_cq_mbox q) s w → is_popable w q = (b, q1) →
  same_geometry (q1_cq_mbox q) (q1_cq_mbox q1) ∧
  (∃ t1, v1_cq_inv q1 s infos t1 ∧ (b = true → t1 = dv_tail s ∧ 4 ≤ dv_tail s - dv_head s)) ∧
  (0 < q1_wait_count q ∨ q1_lv_inflight q = true → b = bool_decide (4 ≤ dv_tail s - dv_head s)).
Proof.
  intros Hi [Wt Wh]. unfold is_popable. cbv zeta.
  destruct ((q1_wait_count q <=? 0) && negb (q1_lv_inflight q)) eqn:Hg.
  { intros [= <- <-]. split_and!; [done | by exists t |]. intros Hw.
    apply andb_true_iff in Hg as [H1%Z.leb_le H2%negb_true_iff]. destruct Hw; [lia | congruence]. }
  destruct Hi as [[R F O Rm T SL] Hh Hd Hin]. destruct R as [Rd Rh Rt Ro Rb].
  set (mbox := q1_cq_mbox q) in *. set (mbox1 := mbox <| mb_ctx := w |>).
  assert (ring mbox1 (dv_head s) (dv_tail s)) as R1 by (constructor; cbn; try done; lia).
  pose proof (ring_pending _ _ _ R1) as Hp. intros [= <- <-]. split; [done|]. split.
  - exists (dv_tail s). split; [|rewrite Z.leb_le, Hp; done].
    constructor; try done. cbn. rewrite <- Hh. constructor; try done; lia.
  - intros _. rewrite Hp. unfold data_count. by case_bool_decide; [apply Z.leb_le | apply Z.leb_gt; lia].
Qed.

Lemma pop_spec q s infos info acc q2 :
  v1_cq_inv q s infos (dv_tail s) → 4 ≤ dv_tail s - dv_head s →
  v1_pop_completion (dv_mem s) q = (info, acc, q2) →
  info_at (dv_log s) (length infos) = Some info ∧
  (∀ head, dv_head s ≤ head ≤ dv_tail s → ctx_head (ac_ctx acc) = ring_enc (mb_depth (q1_cq_mbox q)) head →
     v1_cq_inv q2 (s <| dv_head := head |>) (infos ++ [info]) (dv_tail s)).
Proof.
  intros [Hi Hh Hd Hin] Hroom. unfold v1_pop_completion, pop_mx_command. cbv zeta. intros [= <- <- <-].
  cbn [ac_ctx c1_header c1_host_addr upd eta_cmd1]. set (mbox := q1_cq_mbox q) in *. set (d := mb_depth mbox) in *.
  destruct Hi as [R F O Rm T SL]. pose proof (ring_pow2 _ _ _ R) as Hp. pose proof (ring_order _ _ _ R) as Hro.
  set (n := Z.of_nat (length infos)) in *. pose proof (command_run d n Hp Hd ltac:(lia)) as Hrun.
  assert (∀ i, 0 ≤ i < 4 → dv_log s !! Z.to_nat (4 * n + i) =
    Some (dv_mem s (mb_data_addr mbox + get_data_offset (mb_head mbox) + 8 * i))) as Hword.
  { intros i Hib. rewrite SL by lia. do 2 f_equal. unfold slot_addr, get_data_offset. fold d.
    rewrite (ring_head _ _ _ R). fold d. rewrite enc_index, slot_run by (done || lia). lia. }
  pose proof (Hword 0 ltac:(lia)) as W0. pose proof (Hword 3 ltac:(lia)) as W3.
  rewrite Z.mul_0_r, !Z.add_0_r in W0.
  replace (Z.to_nat (4 * n)) with (4 * length infos)%nat in W0 by lia.
  replace (Z.to_nat (4 * n + 3)) with (4 * length infos + 3)%nat in W3 by lia.
  assert (info_at (dv_log s) (length infos) = Some
    (hdr_id (dv_mem s (mb_data_addr mbox + get_data_offset (mb_head mbox))),
     dv_mem s (mb_data_addr mbox + get_data_offset (mb_head mbox) + 24),
     hdr_control (dv_mem s (mb_data_addr mbox + get_data_offset (mb_head mbox))))) as Hinfo.
  { unfold info_at. by rewrite W0, W3. }
  split; [exact Hinfo|]. intros head Hb Hhd.
  pose proof (ring_pop _ _ _ R 4 ltac:(lia)) as R'.
  change (ctx_head _) with (mb_head (set_head (get_next_index (mb_head mbox) data_count d) mbox)) in Hhd.
  unfold data_count in Hhd. pose proof (ring_head _ _ _ R') as Hh'. fold d in Hh'. rewrite Hh' in Hhd. cbn in Hhd. fold d in Hhd.
  assert (head = 4 * n + 4) as ->.
  { symmetry. apply (enc_inj d Hp _ _ (4 * n)); [lia | lia | lia | done]. }
  assert (Z.of_nat (length (infos ++ [(hdr_id (dv_mem s (mb_data_addr mbox + get_data_offset (mb_head mbox))),
     dv_mem s (mb_data_addr mbox + get_data_offset (mb_head mbox) + 24),
     hdr_control (dv_mem s (mb_data_addr mbox + get_data_offset (mb_head mbox))))])) = n + 1) as El
    by (rewrite length_app; cbn; lia).
  constructor; rewrite ?El; cbn; [|lia|done|].
  - replace (4 * (n + 1)) with (4 * n + 4) by lia. constructor; cbn; try done; try lia.
    intros k Hk. apply SL. lia.
  - intros i info [Hl|[Hge Hl]]%lookup_app_Some; [by apply Hin|].
    destruct (i - length infos)%nat eqn:Ei; [|done]. cbn in Hl. simplify_eq.
    by replace i with (length infos) by lia.
Qed.

Lemma v1_cq_session_inv q s infos : v1_cq_session q s infos → ∃ t, v1_cq_inv q s infos t.
Proof.
  induction 1 as [q s Hi Ht Hd|q s infos w _ [t [Hi Hh Hd Hin]] Hlt|q s infos n f _ [t Hi]|
    q s infos w q1 _ [t Hi] Hw Hp|q s infos w q1 info acc q2 head _ [t Hi] Hw Hp Hpop Hhd].
  - exists 0. by constructor.
  - exists t. constructor; try done; [by apply cq_produce_inv|]. intros i info H. apply info_at_app. by apply Hin.
  - exists t. destruct Hi. by constructor.
  - destruct (popable_spec _ _ _ _ _ _ _ Hi Hw Hp) as (_ & (t1 & H1 & _) & _). eauto.
  - destruct (popable_spec _ _ _ _ _ _ _ Hi Hw Hp) as ((_ & Ew & _ & Eg) & (t1 & H1 & Hr) & _).
    destruct (Hr eq_refl) as [-> H4]. exists (dv_tail s). unfold cq_take_head in Hhd.
    assert (ac_w_addr acc = w_ctx_addr (q1_cq_mbox q)) as Ha.
    { unfold v1_pop_completion, pop_mx_command in Hpop. by injection Hpop as _ <- _. }
    rewrite Ha, Z.eqb_refl in Hhd. destruct Hhd.
    destruct (pop_spec _ _ _ _ _ _ H1 H4 Hpop) as [_ H']. apply H'; [done|]. by rewrite Eg.
Qed.

(** C17: Completion in version 1.  Over any interleaving of pops with a device that
    produces words one by one, in a mailbox that starts empty and holds at least one
    completion: the [i]-th completion the driver pops carries the id and the control
    field of the header, and the result, of the [i]-th group of four words the device
    produced; while a command or a probe is outstanding, [is_popable] says yes exactly
    when a whole completion is there. *)
Theorem v1_completion_fifo q s infos w b q1 :
  v1_cq_session q s infos → cq_context (q1_cq_mbox q) s w → is_popable w q = (b, q1) →
  (∀ i info, infos !! i = Some info → info_at (dv_log s) i = Some info) ∧
  dv_head s = 4 * Z.of_nat (length infos) ∧
  (0 < q1_wait_count q ∨ q1_lv_inflight q = true →
     b = bool_decide (4 ≤ Z.of_nat (length (dv_log s)) - 4 * Z.of_nat (length infos))) ∧
  (b = true → ∃ info acc q2, v1_pop_completion (dv_mem s) q1 = (info, acc, q2) ∧
     info_at (dv_log s) (length infos) = Some info).
Proof.
  intros [t Hi]%v1_cq_session_inv Hw Hp. pose proof (v1c_head _ _ _ _ Hi) as Hh.
  destruct (popable_spec _ _ _ _ _ _ _ Hi Hw Hp) as (_ & (t1 & H1 & Hr) & Hb).
  split_and!; [apply Hi | done | |].
  - intros Hg. rewrite (Hb Hg), (cq_tail _ _ _ _ (v1c_cq _ _ _ _ Hi)), Hh. done.
  - intros Ht. destruct (Hr Ht) as [-> H4].
    destruct (v1_pop_completion (dv_mem s) q1) as [[info acc] q2] eqn:Hpop. exists info, acc, q2.
    split; [done|]. by apply (pop_spec _ _ _ _ _ _ H1 H4 Hpop).
Qed.

(** ** Examples *)

Definition demo_q1 : mx_queue_v1 := MkQ1 demo_sq demo_sq 1 false.

(** One ping is pushed into it. *)
Definition demo_pushed : mx_queue_v1 := snd (push_mx_command demo_q1).
Definition demo_pushed_dev : mbox_dev :=
  demo_dev <| dv_mem := fun a => if a =? 8192 then c1_header build_ping_command_v1 else 0 |> <| dv_tail := 4 |>.

Lemma demo_pushed_session : v1_sq_session demo_pushed demo_pushed_dev [build_ping_command_v1].
Proof.
  apply (V1Push demo_q1 demo_dev [] build_ping_command_v1 (Z.shiftl 3 40) demo_q1
    (fst (push_mx_command demo_q1)) demo_pushed); [|by split|done|done| |].
  - apply V1Start; [exact demo_sq_inv | done | by vm_compute].
  - split.
    + intros i w Hi. do 4 (destruct i as [|i]; [vm_compute in Hi; simplify_eq; by vm_compute|]). done.
    + intros a Ha. cbn. rewrite (proj2 (Z.eqb_neq a 8192)); [done|].
      apply (Ha O). cbn. apply Nat.lt_0_succ.
  - unfold sq_take_tail. split; by vm_compute.
Qed.

(** The next command goes to slots 4 to 7, the last ones. *)
Lemma v1_submission_fifo_witness :
  ∃ b q1 acc q2, is_pushable (ctx_set_tail 4 (Z.shiftl 3 40)) demo_pushed = (b, q1) ∧
    push_mx_command q1 = (acc, q2) ∧ b = true ∧ ac_data_addr acc = 8192 + 32 ∧
    ac_data_addr acc + 32 ≤ 8192 + 64.
Proof.
  destruct (is_pushable (ctx_set_tail 4 (Z.shiftl 3 40)) demo_pushed) as [b q1] eqn:Hb.
  destruct (push_mx_command q1) as [acc q2] eqn:Hp. exists b, q1, acc, q2. split; [done|]. split; [done|].
  assert (b = true) as Et by (vm_compute in Hb; by injection Hb as <- _).
  destruct (v1_submission_fifo demo_pushed demo_pushed_dev _ (ctx_set_tail 4 (Z.shiftl 3 40)) b q1 acc q2
    demo_pushed_session ltac:(split; by vm_compute) Hb Hp) as (_ & _ & H & _).
  destruct (H Et) as (_ & _ & Hbnd & Ha). split; [done|]. split; [rewrite Ha; by vm_compute | exact Hbnd].
Defined.

(** The device produces one completion, word by word: id 5, result 9. *)
Definition produce (w : Z) (s : mbox_dev) : mbox_dev :=
  s <| dv_mem := fun a => if a =? slot_addr demo_sq (dv_tail s) then w else dv_mem s a |>
    <| dv_log := dv_log s ++ [w] |> <| dv_tail := dv_tail s + 1 |>.

Definition demo_produced : mbox_dev :=
  produce 9 (produce 0 (produce 0 (produce (Z.shiftl 5 26) demo_dev))).

Lemma demo_produced_session : v1_cq_session demo_q1 demo_produced [].
Proof.
  unfold demo_produced, produce.
  do 4 (apply (V1Produce demo_q1); [|by vm_compute]).
  apply V1CqStart; [|done | by vm_compute]. constructor; try done.
  - constructor; try done. by exists 3.
  - cbn. intros n Hn. lia.
Qed.

Lemma v1_completion_fifo_witness :
  ∃ info, info_at (dv_log demo_produced) 0 = Some info.
Proof.
  destruct (is_popable (bf_set 48 8 4 (Z.shiftl 3 40)) demo_q1) as [b q1] eqn:Hp.
  destruct (v1_completion_fifo demo_q1 demo_produced [] (bf_set 48 8 4 (Z.shiftl 3 40)) b q1 demo_produced_session)
    as (_ & _ & _ & H).
  - split; by vm_compute.
  - exact Hp.
  - destruct (H ltac:(by vm_compute in Hp; injection Hp as <- _)) as (info & _ & _ & _ & Hi). by exists info.
Defined.
