(* ===== verification/QueueV2.v ===== *)
(** * The version 2 queues (src/core_v2.c)

    Submission and completion rings in host memory with doorbells and a phase bit, the
    admin queue with its synchronous commands, and the creation, recovery and release of
    the I/O queue pair. *)

From S2P Require Import Prelude.

(** ** Types *)

(** [struct mx_command]; the queue ids and the depth of an admin command share the word
    of [device_addr]. *)
Record mx_command := MkCmd2 {
  c2_opcode : Z; c2_flags : Z; c2_command_id : Z; c2_prp_entry1 : Z; c2_prp_entry2 : Z;
  c2_device_addr : Z; c2_size : Z; c2_depth : Z; c2_cq_id : Z; c2_sq_id : Z;
}.

#[export] Instance eta_cmd2 : Eta mx_command := fun r =>
  MkCmd2 (c2_opcode r) (c2_flags r) (c2_command_id r) (c2_prp_entry1 r) (c2_prp_entry2 r)
    (c2_device_addr r) (c2_size r) (c2_depth r) (c2_cq_id r) (c2_sq_id r).

Definition cmd2_zero : mx_command := MkCmd2 0 0 0 0 0 0 0 0 0 0.

Record mx_completion := MkCqe {
  ce_result : Z; ce_sq_head : Z; ce_sq_id : Z; ce_command_id : Z; ce_status : Z;
}.

(** [q2_sqes], [q2_cqes]: the rings by slot.  [q2_sq_db], [q2_cq_db]: the values last
    written to the doorbells. *)
Record mx_queue_v2 := MkQ2 {
  q2_sqes : Z → mx_command;
  q2_cqes : Z → mx_completion;
  q2_depth : Z;
  q2_last_sq_tail : Z; q2_last_cq_head : Z;
  q2_sq_tail : Z; q2_sq_head : Z; q2_cq_head : Z; q2_cq_phase : Z;
  q2_admin_next_cid : Z; q2_admin_pending_cid : Z; q2_admin_pending_opcode : Z;
  q2_admin_pending : bool; q2_admin_desynced : bool;
  q2_hw_cq_created : bool; q2_hw_sq_created : bool; q2_hw_cq_id : Z; q2_hw_sq_id : Z;
  q2_wait_count : Z; q2_lv_inflight : bool;
  q2_sq_db : Z; q2_cq_db : Z;
  q2_qid : Z;
}.

#[export] Instance eta_q2 : Eta mx_queue_v2 := fun r =>
  MkQ2 (q2_sqes r) (q2_cqes r) (q2_depth r) (q2_last_sq_tail r) (q2_last_cq_head r) (q2_sq_tail r)
    (q2_sq_head r) (q2_cq_head r) (q2_cq_phase r) (q2_admin_next_cid r) (q2_admin_pending_cid r)
    (q2_admin_pending_opcode r) (q2_admin_pending r) (q2_admin_desynced r) (q2_hw_cq_created r)
    (q2_hw_sq_created r) (q2_hw_cq_id r) (q2_hw_sq_id r) (q2_wait_count r) (q2_lv_inflight r)
    (q2_sq_db r) (q2_cq_db r) (q2_qid r).

(** ** Queue helpers *)

Definition is_pushable (q : mx_queue_v2) : bool :=
  negb ((q2_sq_tail q + 1) mod q2_depth q =? q2_sq_head q).

Definition is_popable (q : mx_queue_v2) : bool :=
  RETURN false WHEN ((q2_wait_count q <=? 0) && negb (q2_lv_inflight q)) ;;
  Z.land (ce_status (q2_cqes q (q2_cq_head q))) 1 =? q2_cq_phase q.

Definition update_sq_doorbell (q : mx_queue_v2) : mx_queue_v2 :=
  let next_tail := q2_sq_tail q + 1 in
  q <| q2_sq_tail := if next_tail =? q2_depth q then 0 else u16 next_tail |>.

Definition update_cq_doorbell (q : mx_queue_v2) : mx_queue_v2 :=
  let next_head := q2_cq_head q + 1 in
  if next_head =? q2_depth q
  then q <| q2_cq_head := 0 |> <| q2_cq_phase := Z.lxor (q2_cq_phase q) 1 |>
  else q <| q2_cq_head := u16 next_head |>.

Definition push_mx_command (comm : mx_command) (q : mx_queue_v2) : mx_queue_v2 :=
  update_sq_doorbell
    (q <| q2_sqes := fun i => if i =? q2_sq_tail q then comm else q2_sqes q i |>).

Definition pop_mx_completion (q : mx_queue_v2) : mx_completion * mx_queue_v2 :=
  let cmpl := q2_cqes q (q2_cq_head q) in
  (cmpl, update_cq_doorbell (q <| q2_sq_head := ce_sq_head cmpl |>)).

Definition ring_sq_doorbell (q : mx_queue_v2) : mx_queue_v2 :=
  RETURN q WHEN (q2_last_sq_tail q =? q2_sq_tail q) ;;
  q <| q2_sq_db := q2_sq_tail q |> <| q2_last_sq_tail := q2_sq_tail q |>.

Definition ring_cq_doorbell (q : mx_queue_v2) : mx_queue_v2 :=
  RETURN q WHEN (q2_last_cq_head q =? q2_cq_head q) ;;
  q <| q2_cq_db := q2_cq_head q |> <| q2_last_cq_head := q2_cq_head q |>.

(** [info] of a completion: id, result, status. *)
Definition v2_pop_completion (q : mx_queue_v2) : (Z * Z * Z) * mx_queue_v2 :=
  let '(cmpl, q) := pop_mx_completion q in ((ce_command_id cmpl, ce_result cmpl, 0), q).

Definition IO_OPCODE_PING_v2 : Z := 11.
Definition build_ping_command_v2 : mx_command :=
  cmd2_zero <| c2_opcode := IO_OPCODE_PING_v2 |> <| c2_command_id := Z.shiftl 1 16 - 1 |>.

Definition cqe_zero : mx_completion := MkCqe 0 0 0 0 0.

(** The queue of [kzalloc] with rings of [depth] entries. *)
Definition queue_zero (depth : Z) : mx_queue_v2 :=
  MkQ2 (fun _ => cmd2_zero) (fun _ => cqe_zero) depth 0 0 0 0 0 0 0 0 0 false false false false 0 0 0 false 0 0 0.

(** Both rings are cleared; the doorbell is entry [qid] of the doorbell array. *)
Definition configure_queue (qid : Z) (q : mx_queue_v2) : mx_queue_v2 :=
  q <| q2_qid := qid |> <| q2_sq_tail := 0 |> <| q2_sq_head := 0 |> <| q2_cq_head := 0 |> <| q2_cq_phase := 1 |>
    <| q2_cqes := fun _ => cqe_zero |> <| q2_sqes := fun _ => cmd2_zero |>.

(** ** Storage *)

(** The addresses of the two rings, if allocated; [dma]: the coherent memory in use. *)
Record queue_storage := MkStorage { qs_depth : Z; qs_cqes : option Z; qs_sqes : option Z }.

(** [cq], [sq]: the answers of [dma_alloc_coherent]. *)
Definition alloc_queue (cq sq : option Z) (q_depth : Z) (dma : gset Z) : Z * queue_storage * gset Z :=
  match cq with
  | None => (- ENOMEM, MkStorage q_depth None None, dma)
  | Some c =>
    let dma := {[c]} ∪ dma in
    match sq with
    | None => (- ENOMEM, MkStorage q_depth None None, dma ∖ {[c]})
    | Some s => (0, MkStorage q_depth (Some c) (Some s), {[s]} ∪ dma)
    end
  end.

Definition dma_free (a : option Z) (dma : gset Z) : gset Z :=
  match a with Some a => dma ∖ {[a]} | None => dma end.

Definition free_queue_storage (s : queue_storage) (dma : gset Z) : queue_storage * gset Z :=
  (MkStorage (qs_depth s) None None, dma_free (qs_cqes s) (dma_free (qs_sqes s) dma)).

(** A failed allocation keeps nothing, a queue gives back what it took, and freeing twice
    frees once. *)
Lemma storage_balanced cq sq d dma ret s dma' :
  (∀ a, cq = Some a ∨ sq = Some a → a ∉ dma) → alloc_queue cq sq d dma = (ret, s, dma') →
  (ret ≠ 0 → dma' = dma) ∧ (free_queue_storage s dma').2 = dma ∧
  free_queue_storage (free_queue_storage s dma').1 (free_queue_storage s dma').2 = free_queue_storage s dma'.
Proof.
  unfold alloc_queue. intros Hf. destruct cq as [c|]; [|intros [= <- <- <-]; by split_and!].
  pose proof (Hf c (or_introl eq_refl)). destruct sq as [q|]; intros [= <- <- <-]; cbn.
  - pose proof (Hf q (or_intror eq_refl)). split_and!; [done | apply set_eq; set_solver | done].
  - split_and!; [intros _; apply set_eq; set_solver | apply set_eq; set_solver | done].
Qed.

(** ** The rings as queues *)

(** The phase bit of lap [n / d]. *)
Definition lap_phase (d n : Z) : Z := 1 - (n / d) mod 2.

(** [n] completions popped, [p] posted by the device: entry [i] of the posted ones not
    popped yet carries the phase of its lap, and the slot the device writes next still
    carries the other one. *)
Record cq_ring (q : mx_queue_v2) (posted : list mx_completion) (n : Z) : Prop := {
  cr_depth : 2 ≤ q2_depth q ≤ 65535;
  cr_head : q2_cq_head q = n mod q2_depth q;
  cr_phase : q2_cq_phase q = lap_phase (q2_depth q) n;
  cr_order : 0 ≤ n ≤ Z.of_nat (length posted);
  cr_room : Z.of_nat (length posted) - n ≤ q2_depth q;
  cr_entries i c : n ≤ i → posted !! Z.to_nat i = Some c →
    q2_cqes q (i mod q2_depth q) = c ∧ Z.land (ce_status c) 1 = lap_phase (q2_depth q) i;
  cr_stale i : Z.of_nat (length posted) ≤ i < n + q2_depth q →
    Z.land (ce_status (q2_cqes q (i mod q2_depth q))) 1 ≠ lap_phase (q2_depth q) i;
}.

(** The device posts its next completion, with the phase of its lap. *)
Definition device_post (c : mx_completion) (posted : list mx_completion) (q : mx_queue_v2) : mx_queue_v2 :=
  let k := Z.of_nat (length posted) mod q2_depth q in
  q <| q2_cqes := fun i => if i =? k then c else q2_cqes q i |>.

Section cq_ring_facts.
Context (q : mx_queue_v2) (posted : list mx_completion) (n : Z) (Hr : cq_ring q posted n).
Local Notation d := (q2_depth q).
Local Notation p := (Z.of_nat (length posted)).

Lemma lap_phase_range i : lap_phase d i = 0 ∨ lap_phase d i = 1.
Proof. unfold lap_phase. pose proof (Z.mod_pos_bound (i / d) 2). lia. Qed.

Lemma slot_inj2 i j : n ≤ i → i < j → j < n + d → i mod d ≠ j mod d.
Proof.
  intros Hi Hij Hj E. pose proof (cr_depth _ _ _ Hr). pose proof (Z.div_mod i d). pose proof (Z.div_mod j d).
  assert (j - i = d * (j / d - i / d)) by lia.
  assert (j / d - i / d ≤ 0 ∨ 1 ≤ j / d - i / d) as [?|?] by lia; nia.
Qed.

(** The next slot shows the expected phase exactly when an entry is there. *)
Lemma popable_iff :
  0 < q2_wait_count q ∨ q2_lv_inflight q = true → is_popable q = bool_decide (n < p).
Proof.
  intros Hw. unfold is_popable.
  assert ((q2_wait_count q <=? 0) && negb (q2_lv_inflight q) = false) as ->.
  { destruct Hw as [Hw| ->]; [|by rewrite andb_false_r]. by rewrite (proj2 (Z.leb_gt _ _)). }
  rewrite (cr_head _ _ _ Hr), (cr_phase _ _ _ Hr). pose proof (cr_order _ _ _ Hr). pose proof (cr_depth _ _ _ Hr).
  case_bool_decide as Hlt.
  - destruct (lookup_lt_is_Some_2 posted (Z.to_nat n)) as [c Hc]; [lia|].
    destruct (cr_entries _ _ _ Hr n c) as [-> ->]; [lia | done |]. apply Z.eqb_refl.
  - apply Z.eqb_neq, (cr_stale _ _ _ Hr n). lia.
Qed.

Lemma popable_posted : is_popable q = true → n < p.
Proof.
  intros Hpop. assert (0 < q2_wait_count q ∨ q2_lv_inflight q = true) as Hw.
  { unfold is_popable in Hpop. destruct (q2_lv_inflight q); [by right | left].
    destruct (Z.leb_spec (q2_wait_count q) 0); [done | lia]. }
  rewrite (popable_iff Hw) in Hpop. by apply bool_decide_eq_true in Hpop.
Qed.

(** One lap later the phase is the other one. *)
Lemma lap_phase_next : lap_phase d (n + d) ≠ lap_phase d n.
Proof.
  pose proof (cr_depth _ _ _ Hr). unfold lap_phase.
  replace (n + d) with (n + 1 * d) by lia. rewrite Z.div_add by lia.
  pose proof (Z.div_mod (n / d) 2). pose proof (Z.div_mod (n / d + 1) 2).
  pose proof (Z.mod_pos_bound (n / d) 2). pose proof (Z.mod_pos_bound (n / d + 1) 2). lia.
Qed.

Lemma next_slot :
  let q' := update_cq_doorbell q in
  q2_cq_head q' = (n + 1) mod d ∧ q2_cq_phase q' = lap_phase d (n + 1) ∧
  q2_cqes q' = q2_cqes q ∧ q2_depth q' = d.
Proof.
  pose proof (cr_depth _ _ _ Hr) as Hd. pose proof (Z.mod_pos_bound n d ltac:(lia)) as Hb.
  pose proof (Z.div_mod n d ltac:(lia)) as Hdm. unfold update_cq_doorbell. cbv zeta.
  rewrite (cr_head _ _ _ Hr), (cr_phase _ _ _ Hr).
  destruct (Z.eqb_spec (n mod d + 1) d) as [E|E]; cbn.
  - assert (n + 1 = (n / d + 1) * d) as En by lia.
    unfold lap_phase. rewrite En, Z.mod_mul, Z.div_mul by lia. split_and!; try done.
    pose proof (Z.mod_pos_bound (n / d) 2). pose proof (Z.mod_pos_bound (n / d + 1) 2).
    pose proof (Z.div_mod (n / d) 2). pose proof (Z.div_mod (n / d + 1) 2).
    assert ((n / d) mod 2 = 0 ∨ (n / d) mod 2 = 1) as [E2|E2] by lia; rewrite E2;
      [assert ((n / d + 1) mod 2 = 1) as -> by lia | assert ((n / d + 1) mod 2 = 0) as -> by lia]; done.
  - rewrite u16_id by lia.
    assert ((n + 1) / d = n / d ∧ (n + 1) mod d = n mod d + 1) as [E1 E2].
    { split; symmetry; [apply (Z.div_unique_pos _ d _ (n mod d + 1)) | apply (Z.mod_unique_pos _ d (n / d))]; lia. }
    rewrite (cr_phase _ _ _ Hr). unfold lap_phase. by rewrite E1, E2.
Qed.

Lemma pop_ring c :
  posted !! Z.to_nat n = Some c →
  ∃ q', pop_mx_completion q = (c, q') ∧ cq_ring q' posted (n + 1) ∧ q2_sq_head q' = ce_sq_head c.
Proof.
  intros Hc. pose proof (lookup_lt_Some _ _ _ Hc). pose proof (cr_order _ _ _ Hr) as Ho.
  pose proof (cr_depth _ _ _ Hr). destruct (cr_entries _ _ _ Hr n c) as [Ec Ep]; [lia | done |].
  unfold pop_mx_completion. cbv zeta. rewrite (cr_head _ _ _ Hr), Ec. eexists. split; [done|].
  destruct next_slot as (E1 & E2 & E3 & E4).
  assert (∀ h, let q1 := update_cq_doorbell (q <| q2_sq_head := h |>) in
    q2_cq_head q1 = q2_cq_head (update_cq_doorbell q) ∧ q2_cq_phase q1 = q2_cq_phase (update_cq_doorbell q) ∧
    q2_cqes q1 = q2_cqes q ∧ q2_depth q1 = d ∧ q2_sq_head q1 = h) as Hs.
  { intros h. unfold update_cq_doorbell. cbv zeta. cbn [q2_cq_head q2_depth upd]. by case_match. }
  destruct (Hs (ce_sq_head c)) as (S1 & S2 & S3 & S4 & S5). split; [|done].
  constructor; rewrite ?S1, ?S2, ?S3, ?S4; try done; try lia.
  - pose proof (cr_room _ _ _ Hr). lia.
  - intros i c' Hi. apply (cr_entries _ _ _ Hr). lia.
  - intros i Hi. destruct (decide (i = n + d)) as [->|Hne]; [|apply (cr_stale _ _ _ Hr); lia].
    replace ((n + d) mod d) with (n mod d) by (rewrite <- (Z.mod_add n 1 d) by lia; f_equal; lia).
    rewrite Ec, Ep. apply not_eq_sym, lap_phase_next.
Qed.

Lemma post_ring c :
  p - n < d → Z.land (ce_status c) 1 = lap_phase d p → cq_ring (device_post c posted q) (posted ++ [c]) n.
Proof.
  intros Hroom Hph. pose proof (cr_order _ _ _ Hr). pose proof (cr_depth _ _ _ Hr).
  unfold device_post. constructor; cbn; try done; try apply Hr.
  - rewrite length_app. cbn. lia.
  - rewrite length_app. cbn. lia.
  - intros i c' Hi Hc'. destruct (decide (i < p)) as [Hlt|Hge].
    + rewrite lookup_app_l in Hc' by lia. rewrite (proj2 (Z.eqb_neq _ _)); [by apply (cr_entries _ _ _ Hr)|].
      apply slot_inj2; lia.
    + pose proof (lookup_lt_Some _ _ _ Hc') as Hl. rewrite length_app in Hl. cbn in Hl.
      assert (i = p) as -> by lia. rewrite Nat2Z.id, lookup_app_r, Nat.sub_diag in Hc' by lia. cbn in Hc'.
      simplify_eq. rewrite Z.eqb_refl. done.
  - rewrite length_app. cbn. intros i Hi. rewrite (proj2 (Z.eqb_neq _ _)); [apply (cr_stale _ _ _ Hr); lia|].
    apply not_eq_sym, slot_inj2; lia.
Qed.
End cq_ring_facts.

Lemma configured_ring qid q : 2 ≤ q2_depth q ≤ 65535 → cq_ring (configure_queue qid q) [] 0.
Proof.
  intros Hd. constructor; cbn -[Z.div Z.modulo]; try done; try lia;
    intros; unfold lap_phase; rewrite Z.div_small by lia; done.
Qed.

(** Any interleaving of device posts and driver pops on a freshly configured queue. *)
Inductive cq_history : mx_queue_v2 → list mx_completion → list mx_completion → Prop :=
  | CqStart qid q : 2 ≤ q2_depth q ≤ 65535 → cq_history (configure_queue qid q) [] []
  | CqPost q posted popped c :
      cq_history q posted popped →
      Z.of_nat (length posted) - Z.of_nat (length popped) < q2_depth q →
      Z.land (ce_status c) 1 = lap_phase (q2_depth q) (Z.of_nat (length posted)) →
      cq_history (device_post c posted q) (posted ++ [c]) popped
  | CqPop q posted popped c q' :
      cq_history q posted popped → is_popable q = true → pop_mx_completion q = (c, q') →
      cq_history q' posted (popped ++ [c])
  | CqCount q posted popped w f :
      cq_history q posted popped →
      cq_history (q <| q2_wait_count := w |> <| q2_lv_inflight := f |>) posted popped.

Lemma cq_history_inv q posted popped :
  cq_history q posted popped → cq_ring q posted (Z.of_nat (length popped)) ∧ popped `prefix_of` posted.
Proof.
  induction 1 as [qid q Hd|q posted popped c _ [IH Hp] Hroom Hph|q posted popped c q' _ [IH Hp] Hpop He|
    q posted popped w f _ [IH Hp]].
  - split; [by apply configured_ring | done].
  - split; [by apply post_ring|]. destruct Hp as [k ->]. exists (k ++ [c]). by rewrite app_assoc.
  - pose proof (popable_posted _ _ _ IH Hpop).
    destruct (lookup_lt_is_Some_2 posted (length popped)) as [c' Hc']; [lia|].
    destruct (pop_ring _ _ _ IH c') as (q1 & E1 & Hr & _); [by rewrite Nat2Z.id|].
    rewrite E1 in He. injection He as <- <-. rewrite length_app, Nat2Z.inj_add. split; [exact Hr|].
    destruct Hp as [k ->]. rewrite lookup_app_r, Nat.sub_diag in Hc' by lia.
    destruct k as [|x k]; [done|]. cbn in Hc'. simplify_eq. exists k. by rewrite <- app_assoc.
  - split; [|done]. destruct IH. by constructor.
Qed.

(** The completion ring of version 2.  Over any interleaving of entries the device
    posts and entries the driver pops, across any number of laps: while a command or a
    probe is outstanding, the phase test sees an entry exactly when one has been posted
    and not popped, a pop returns exactly the next posted entry, and so the driver pops
    a prefix of what was posted, in order, without repeating or skipping an entry. *)
Theorem v2_completion_ring q posted popped :
  cq_history q posted popped →
  popped `prefix_of` posted ∧
  (0 < q2_wait_count q ∨ q2_lv_inflight q = true →
     is_popable q = bool_decide ((length popped < length posted)%nat)) ∧
  (∀ c, posted !! length popped = Some c → ∃ q', pop_mx_completion q = (c, q')).
Proof.
  intros [Hr Hp]%cq_history_inv. split_and!; [done | |].
  - intros Hw. rewrite (popable_iff _ _ _ Hr Hw). apply bool_decide_ext. lia.
  - intros c Hc. destruct (pop_ring _ _ _ Hr c) as (q' & E & _); [by rewrite Nat2Z.id | eauto].
Qed.

Definition demo_q2 (depth : Z) : mx_queue_v2 := (queue_zero depth) <| q2_wait_count := 1 |>.

(** One completion posted to a configured queue of four entries, seen and popped. *)
Lemma v2_completion_ring_witness :
  ∃ q', pop_mx_completion (device_post (MkCqe 0 1 0 9 1) [] (configure_queue 1 (demo_q2 4))) =
        (MkCqe 0 1 0 9 1, q').
Proof.
  apply (v2_completion_ring (device_post (MkCqe 0 1 0 9 1) [] (configure_queue 1 (demo_q2 4)))
    [MkCqe 0 1 0 9 1] []); [|done].
  apply (CqPost _ [] []); [apply CqStart; cbn; lia | cbn; lia | done].
Defined.

(** ** The submission ring *)

(** [sent]: commands pushed; [h]: how many of them the device has reported as consumed. *)
Record sq_ring2 (q : mx_queue_v2) (sent : list mx_command) (h : Z) : Prop := {
  s2_depth : 2 ≤ q2_depth q ≤ 65535;
  s2_tail : q2_sq_tail q = Z.of_nat (length sent) mod q2_depth q;
  s2_head : q2_sq_head q = h mod q2_depth q;
  s2_order : 0 ≤ h ≤ Z.of_nat (length sent);
  s2_room : Z.of_nat (length sent) - h ≤ q2_depth q - 1;
  s2_entries i c : h ≤ i → sent !! Z.to_nat i = Some c → q2_sqes q (i mod q2_depth q) = c;
}.

Section sq_ring_facts.
Context (q : mx_queue_v2) (sent : list mx_command) (h : Z) (Hr : sq_ring2 q sent h).
Local Notation d := (q2_depth q).
Local Notation t := (Z.of_nat (length sent)).

Lemma sq_slot_inj i j : i < j < i + d → i mod d ≠ j mod d.
Proof.
  intros Hij E. pose proof (s2_depth _ _ _ Hr). pose proof (Z.div_mod i d). pose proof (Z.div_mod j d).
  assert (j - i = d * (j / d - i / d)) by lia.
  assert (j / d - i / d ≤ 0 ∨ 1 ≤ j / d - i / d) as [?|?] by lia; nia.
Qed.

Lemma pushable_iff : is_pushable q = bool_decide (t - h < d - 1).
Proof.
  pose proof (s2_depth _ _ _ Hr). pose proof (s2_order _ _ _ Hr). pose proof (s2_room _ _ _ Hr).
  unfold is_pushable. rewrite (s2_tail _ _ _ Hr), (s2_head _ _ _ Hr), Z.add_mod_idemp_l by lia.
  case_bool_decide as Hlt; [apply negb_true_iff, Z.eqb_neq | apply negb_false_iff, Z.eqb_eq].
  - apply not_eq_sym, sq_slot_inj. lia.
  - replace (t + 1) with (h + 1 * d) by lia. by rewrite Z.mod_add by lia.
Qed.

Lemma push_ring2 c : t - h < d - 1 → sq_ring2 (push_mx_command c q) (sent ++ [c]) h.
Proof.
  intros Hroom. pose proof (s2_depth _ _ _ Hr). pose proof (s2_order _ _ _ Hr).
  pose proof (Z.mod_pos_bound t d ltac:(lia)) as Hb. pose proof (Z.div_mod t d ltac:(lia)) as Hdm.
  unfold push_mx_command, update_sq_doorbell. rewrite (s2_tail _ _ _ Hr).
  constructor; cbn [q2_sqes q2_depth q2_sq_tail q2_sq_head upd]; try apply Hr; try (rewrite length_app; cbn; lia).
  - rewrite length_app. cbn [length]. cbn -[Z.modulo].
    rewrite (s2_tail _ _ _ Hr). destruct (Z.eqb_spec (t mod d + 1) d) as [E|E].
    + replace (Z.of_nat (length sent + 1)) with ((t / d + 1) * d) by lia. by rewrite Z.mod_mul by lia.
    + rewrite u16_id by lia. replace (Z.of_nat (length sent + 1)) with (t + 1) by lia.
      apply (Z.mod_unique_pos _ d (t / d)); lia.
  - intros i c' Hi Hc'. cbn -[Z.modulo]. destruct (decide (i < t)) as [Hlt|Hge].
    + rewrite lookup_app_l in Hc' by lia. rewrite (proj2 (Z.eqb_neq _ _)); [by apply (s2_entries _ _ _ Hr)|].
      apply sq_slot_inj. lia.
    + pose proof (lookup_lt_Some _ _ _ Hc') as Hl. rewrite length_app in Hl. cbn in Hl.
      assert (i = t) as -> by lia. rewrite Nat2Z.id, lookup_app_r, Nat.sub_diag in Hc' by lia. cbn in Hc'.
      simplify_eq. by rewrite Z.eqb_refl.
Qed.
End sq_ring_facts.

(** The submission ring of version 2.  With [h] commands reported consumed, the queue
    is pushable exactly while fewer than [depth - 1] commands are outstanding; a push then
    stores the command behind the others, overwrites none of the outstanding ones, and
    the doorbell, rung after it, shows the device exactly the new tail. *)
Theorem v2_submission_ring q sent h c :
  sq_ring2 q sent h → is_pushable q = true →
  Z.of_nat (length sent) - h < q2_depth q - 1 ∧
  sq_ring2 (push_mx_command c q) (sent ++ [c]) h ∧
  (q2_last_sq_tail q = q2_sq_db q →
   let q' := ring_sq_doorbell (push_mx_command c q) in
   q2_sq_db q' = q2_sq_tail q' ∧ q2_last_sq_tail q' = q2_sq_db q').
Proof.
  intros Hr Hp. rewrite (pushable_iff _ _ _ Hr) in Hp. apply bool_decide_eq_true in Hp.
  split_and!; [done | by apply push_ring2 |].
  intros E. unfold ring_sq_doorbell. cbv zeta. case_match eqn:G; [|done].
  apply Z.eqb_eq in G. split; [|done]. by rewrite <- G.
Qed.

Lemma v2_submission_ring_witness :
  sq_ring2 (push_mx_command build_ping_command_v2 (configure_queue 1 (demo_q2 4))) [build_ping_command_v2] 0.
Proof.
  apply (v2_submission_ring (configure_queue 1 (demo_q2 4)) [] 0); [|done].
  constructor; cbn; try done; lia.
Defined.
