(* ===== verification/Threads.v ===== *)
(** * The handler threads of the I/O queue (src/core_common.c)

    Starting and stopping the submit and the complete thread. *)

From S2P Require Import Prelude.

(** [mx_pci_dev.submit_thread] and [complete_thread]: whether each is set. *)
Record queue_threads := MkThreads { submit_thread : bool; complete_thread : bool }.

#[export] Instance eta_threads : Eta queue_threads := fun r =>
  MkThreads (submit_thread r) (complete_thread r).

Definition no_threads : queue_threads := MkThreads false false.

(** [submit_run], [complete_run]: zero, or the error [kthread_run] returns. *)
Definition mx_start_io_queue (submit_run complete_run : Z) (t : queue_threads) : Z * queue_threads :=
  RETURN (submit_run, t <| submit_thread := false |>) WHEN (nz submit_run) ;;
  let t := t <| submit_thread := true |> in
  RETURN (complete_run, t <| submit_thread := false |> <| complete_thread := false |>)
    WHEN (nz complete_run) ;;
  (0, t <| complete_thread := true |>).

Definition mx_stop_queue_threads (t : queue_threads) : queue_threads :=
  t <| submit_thread := false |> <| complete_thread := false |>.

Lemma stop_threads t : mx_stop_queue_threads t = no_threads.
Proof. reflexivity. Qed.

Lemma start_threads s c ret t :
  mx_start_io_queue s c no_threads = (ret, t) →
  ret = 0 ∧ t = MkThreads true true ∨ ret ≠ 0 ∧ t = no_threads.
Proof.
  unfold mx_start_io_queue, nz. destruct (Z.eqb_spec s 0), (Z.eqb_spec c 0); cbn; intros [= <- <-]; auto.
Qed.
