(* ===== verification/AdminV2.v ===== *)
(** * The admin queue of version 2 (src/core_v2.c)

    Synchronous admin commands with their timeouts, the creation of the I/O queue pair,
    and its release and recovery.  The device is a parameter: [mem i] is the content of
    the admin completion ring when it is polled for the [i]-th time. *)

From S2P Require Import Prelude Threads QueueV2.

(** ** State *)

(** The admin queue ([ad_present]: [mx_pdev->admin_queue] is set), the I/O queue once
    allocated, the two flags of [mx_pci_dev] that decide whether DMA memory may be freed,
    and the handler threads. *)
Record admin_st := MkAd {
  ad_present : bool;
  ad_admin : mx_queue_v2;
  ad_io : option mx_queue_v2;
  ad_poisoned : bool;
  ad_dma_programmed : bool;
  ad_threads : queue_threads;
}.

#[export] Instance eta_ad : Eta admin_st := fun r =>
  MkAd (ad_present r) (ad_admin r) (ad_io r) (ad_poisoned r) (ad_dma_programmed r) (ad_threads r).

Definition ADMIN_OPCODE_CREATE_IO_CQ : Z := 0.
Definition ADMIN_OPCODE_DELETE_IO_CQ : Z := 1.
Definition ADMIN_OPCODE_CREATE_IO_SQ : Z := 2.
Definition ADMIN_OPCODE_DELETE_IO_SQ : Z := 3.
Definition ADMIN_TIMEOUT : nat := 500.

Definition cq_memory := nat → Z → mx_completion.

(** ** Admin commands *)

Definition record_admin_terminal (opcode result : Z) (st : admin_st) : admin_st :=
  match ad_io st with
  | None => st
  | Some io =>
    let io :=
      if opcode =? ADMIN_OPCODE_CREATE_IO_CQ then io <| q2_hw_cq_created := true |> <| q2_hw_cq_id := u16 result |>
      else if opcode =? ADMIN_OPCODE_CREATE_IO_SQ then io <| q2_hw_sq_created := true |> <| q2_hw_sq_id := u16 result |>
      else if opcode =? ADMIN_OPCODE_DELETE_IO_SQ then io <| q2_hw_sq_created := false |>
      else if opcode =? ADMIN_OPCODE_DELETE_IO_CQ then io <| q2_hw_cq_created := false |>
      else io in
    st <| ad_io := Some io |>
  end.

(** The first loop: nothing but this thread moves [sq_head] of the admin queue. *)
Fixpoint poll_pushable (n : nat) (q : mx_queue_v2) : bool :=
  match n with O => false | S n => if is_pushable q then true else poll_pushable n q end.

(** The second loop, from iteration [i] on: the matching completion, if one came. *)
Fixpoint admin_poll (mem : cq_memory) (cid : Z) (n i : nat) (q : mx_queue_v2)
    : option mx_completion * mx_queue_v2 :=
  match n with
  | O => (None, q)
  | S n =>
    let q := q <| q2_cqes := mem i |> in
    if is_popable q then
      let '(cmpl, q) := pop_mx_completion q in
      let q := ring_cq_doorbell q in
      if negb (ce_command_id cmpl =? cid) then admin_poll mem cid n (S i) q else (Some cmpl, q)
    else admin_poll mem cid n (S i) q
  end.

Definition next_cid (q : mx_queue_v2) : Z * mx_queue_v2 :=
  let cid := u16 (q2_admin_next_cid q + 1) in
  let cid := if cid =? 0 then u16 (cid + 1) else cid in
  (cid, q <| q2_admin_next_cid := cid |>).

(** [Some result]: the command completed. *)
Definition submit_sync_command (mem : cq_memory) (c : mx_command) (st : admin_st)
    : option Z * admin_st :=
  RETURN (None, st) WHEN (q2_admin_desynced (ad_admin st)) ;;
  let '(cid, q) := next_cid (ad_admin st) in
  let c := c <| c2_command_id := cid |> in
  let st := st <| ad_admin := q |> in
  RETURN (None, st) WHEN (negb (poll_pushable ADMIN_TIMEOUT q)) ;;
  let q := ring_sq_doorbell (push_mx_command c q) in
  let q := q <| q2_wait_count := q2_wait_count q + 1 |> <| q2_admin_pending := true |>
             <| q2_admin_pending_cid := cid |> <| q2_admin_pending_opcode := c2_opcode c |> in
  match admin_poll mem cid ADMIN_TIMEOUT 0 q with
  | (None, q) =>
    (None, st <| ad_admin := q <| q2_admin_desynced := true |> |> <| ad_poisoned := true |>)
  | (Some cmpl, q) =>
    let q := q <| q2_wait_count := q2_wait_count q - 1 |> <| q2_admin_pending := false |> in
    (Some (ce_result cmpl), record_admin_terminal (c2_opcode c) (ce_result cmpl) (st <| ad_admin := q |>))
  end.

Definition is_ok {A} (r : option A) : bool := match r with Some _ => true | None => false end.

Definition delete_io_sq (mem : cq_memory) (qid : Z) (st : admin_st) : bool * admin_st :=
  let '(r, st) := submit_sync_command mem
    (cmd2_zero <| c2_opcode := ADMIN_OPCODE_DELETE_IO_SQ |> <| c2_sq_id := qid |>) st in
  (is_ok r, st).

Definition delete_io_cq (mem : cq_memory) (qid : Z) (st : admin_st) : bool * admin_st :=
  let '(r, st) := submit_sync_command mem
    (cmd2_zero <| c2_opcode := ADMIN_OPCODE_DELETE_IO_CQ |> <| c2_cq_id := qid |>) st in
  (is_ok r, st).

(** ** Draining, recovery, release *)

(** The [while (admin_pending)] loop; [gone i]: the device is found disconnected on
    iteration [i]; [None]: still waiting after [fuel] iterations. *)
Fixpoint drain_loop (mem : cq_memory) (gone : nat → bool) (fuel i : nat) (st : admin_st)
    : option (Z * admin_st) :=
  let q := ad_admin st in
  if negb (q2_admin_pending q) then Some (0, st)
  else
    match fuel with
    | O => None
    | S fuel =>
      RETURN (Some (- ENODEV, st)) WHEN (gone i) ;;
      let q := q <| q2_cqes := mem i |> in
      if negb (is_popable q) then drain_loop mem gone fuel (S i) (st <| ad_admin := q |>)
      else
        let '(cmpl, q) := pop_mx_completion q in
        let q := ring_cq_doorbell q in
        if negb (ce_command_id cmpl =? q2_admin_pending_cid q)
        then drain_loop mem gone fuel (S i) (st <| ad_admin := q |>)
        else
          let q := q <| q2_wait_count := q2_wait_count q - 1 |> <| q2_admin_pending := false |> in
          drain_loop mem gone fuel (S i)
            (record_admin_terminal (q2_admin_pending_opcode q) (ce_result cmpl) (st <| ad_admin := q |>))
    end.

Definition drain_pending_admin (mem : cq_memory) (gone : nat → bool) (fuel : nat) (st : admin_st)
    : option (Z * admin_st) :=
  RETURN (Some (- EUCLEAN, st)) WHEN
    (q2_admin_desynced (ad_admin st) && negb (q2_admin_pending (ad_admin st))) ;;
  '(ret, st) ← drain_loop mem gone fuel 0 st;
  RETURN (Some (ret, st)) WHEN (nz ret) ;;
  Some (0, st <| ad_admin := (ad_admin st) <| q2_admin_desynced := false |> |>).

Definition disable_admin_queue (st : admin_st) : admin_st := st <| ad_dma_programmed := false |>.

Definition io_sq_created (st : admin_st) : bool :=
  match ad_io st with Some io => q2_hw_sq_created io | None => false end.
Definition io_cq_created (st : admin_st) : bool :=
  match ad_io st with Some io => q2_hw_cq_created io | None => false end.
Definition io_sq_id (st : admin_st) : Z := match ad_io st with Some io => q2_hw_sq_id io | None => 0 end.
Definition io_cq_id (st : admin_st) : Z := match ad_io st with Some io => q2_hw_cq_id io | None => 0 end.

(** [if (created && !delete(...))]: whether the queue is gone or was never there. *)
Definition unwind_sq (mem : cq_memory) (st : admin_st) : bool * admin_st :=
  if io_sq_created st then delete_io_sq mem (io_sq_id st) st else (true, st).
Definition unwind_cq (mem : cq_memory) (st : admin_st) : bool * admin_st :=
  if io_cq_created st then delete_io_cq mem (io_cq_id st) st else (true, st).

Definition recover_mx_queue (drain msq mcq : cq_memory) (gone : nat → bool) (fuel : nat) (st : admin_st)
    : option (Z * admin_st) :=
  RETURN (Some (0, st)) WHEN (negb (ad_present st)) ;;
  '(ret, st) ← drain_pending_admin drain gone fuel st;
  RETURN (Some (ret, st)) WHEN (nz ret) ;;
  let st := st <| ad_poisoned := false |> in
  match ad_io st with
  | None => Some (0, disable_admin_queue st)
  | Some _ =>
    let '(ok, st) := unwind_sq msq st in
    RETURN (Some (- EIO, st <| ad_poisoned := true |>)) WHEN (negb ok) ;;
    let '(ok, st) := unwind_cq mcq st in
    RETURN (Some (- EIO, st <| ad_poisoned := true |>)) WHEN (negb ok) ;;
    Some (0, disable_admin_queue st)
  end.

Definition release_io_queue (msq mcq : cq_memory) (st : admin_st) : Z * admin_st :=
  RETURN (0, st) WHEN (negb (ad_present st) || negb (is_ok (ad_io st))) ;;
  let st := st <| ad_threads := mx_stop_queue_threads (ad_threads st) |> in
  let '(ok, st) := unwind_sq msq st in
  let '(ok, st) := if ok then unwind_cq mcq st else (false, st) in
  let st := if ok then disable_admin_queue st else st in
  (if ok then 0 else - EIO, st).

(** ** Creation *)

(** Of [linux/nvme.h]. *)
Definition NVME_REG_DBS : Z := 4096.
Definition NVME_AQ_DEPTH : Z := 32.

Definition IO_QUEUE_DEPTH : Z := 256.

(** The unwinding at [out_delete]. *)
Definition out_delete (msq mcq : cq_memory) (ret : Z) (st : admin_st) : Z * admin_st :=
  let '(ok, st) := unwind_sq msq st in
  RETURN (ret, st <| ad_poisoned := true |>) WHEN (negb ok) ;;
  let '(ok, st) := unwind_cq mcq st in
  RETURN (ret, st <| ad_poisoned := true |>) WHEN (negb ok) ;;
  (ret, st).

Definition set_io (f : mx_queue_v2 → mx_queue_v2) (st : admin_st) : admin_st :=
  st <| ad_io := f <$> ad_io st |>.

(** [alloc]: the outcome of the allocations; [m1 .. m4]: the completion ring during the four possible commands; [submit_run],
    [complete_run]: the results of starting the threads. *)
Definition configure_io_queue (alloc cq_dma sq_dma : Z) (bar_mapped_size : Z) (m1 m2 m3 m4 : cq_memory)
    (submit_run complete_run : Z) (st : admin_st) : Z * admin_st :=
  RETURN (alloc, st) WHEN (nz alloc) ;;
  let st := st <| ad_io := Some (queue_zero IO_QUEUE_DEPTH) |> in
  let comm := cmd2_zero <| c2_opcode := ADMIN_OPCODE_CREATE_IO_CQ |> <| c2_prp_entry1 := cq_dma |>
                        <| c2_depth := IO_QUEUE_DEPTH |> in
  match submit_sync_command m1 comm st with
  | (None, st) => (- EIO, st)
  | (Some result, st) =>
    let cq_id := u16 result in
    let comm := comm <| c2_opcode := ADMIN_OPCODE_CREATE_IO_SQ |> <| c2_prp_entry1 := sq_dma |>
                     <| c2_cq_id := cq_id |> in
    match submit_sync_command m2 comm st with
    | (None, st) =>
      RETURN (- EIO, st) WHEN (q2_admin_desynced (ad_admin st)) ;;
      out_delete m3 m4 (- EIO) st
    | (Some result, st) =>
      let sq_id := u16 result in
      RETURN (out_delete m3 m4 (- EINVAL) st) WHEN (negb (cq_id =? sq_id)) ;;
      RETURN (out_delete m3 m4 (- EIO) st) WHEN (bar_mapped_size <? NVME_REG_DBS + (cq_id + 1) * 8) ;;
      let st := set_io (configure_queue cq_id) st in
      let '(start, th) := mx_start_io_queue submit_run complete_run (ad_threads st) in
      let st := st <| ad_threads := th |> in
      RETURN (out_delete m3 m4 start st) WHEN (nz start) ;;
      (0, st)
    end
  end.

(** The admin queue: the device knows host addresses from here on. *)
Definition configure_admin_queue (alloc : Z) (st : admin_st) : Z * admin_st :=
  RETURN (alloc, st) WHEN (nz alloc) ;;
  (0, st <| ad_present := true |> <| ad_dma_programmed := true |>
         <| ad_admin := configure_queue 0 (queue_zero NVME_AQ_DEPTH) |>).

(** The inputs of one initialisation. *)
Record init_env := MkInitEnv {
  ie_admin_alloc : Z; ie_io_alloc : Z; ie_cq_dma : Z; ie_sq_dma : Z; ie_bar_mapped_size : Z;
  ie_m1 : cq_memory; ie_m2 : cq_memory; ie_m3 : cq_memory; ie_m4 : cq_memory;
  ie_submit_run : Z; ie_complete_run : Z;
}.

Definition init_mx_queue (e : init_env) (st : admin_st) : Z * admin_st :=
  let '(ret, st) := configure_admin_queue (ie_admin_alloc e) st in
  RETURN (ret, st) WHEN (nz ret) ;;
  configure_io_queue (ie_io_alloc e) (ie_cq_dma e) (ie_sq_dma e) (ie_bar_mapped_size e)
    (ie_m1 e) (ie_m2 e) (ie_m3 e) (ie_m4 e) (ie_submit_run e) (ie_complete_run e) st.

Definition release_mx_queue (msq mcq : cq_memory) (st : admin_st) : Z * admin_st :=
  release_io_queue msq mcq st.

Definition free_mx_queue (st : admin_st) : admin_st :=
  st <| ad_io := None |> <| ad_present := false |>.

(** ** What polling leaves alone *)

(** The bookkeeping of the synchronous commands. *)
Definition ctl (q : mx_queue_v2) : Z * Z * Z * bool * bool * Z :=
  (q2_admin_next_cid q, q2_admin_pending_cid q, q2_admin_pending_opcode q, q2_admin_pending q,
   q2_admin_desynced q, q2_wait_count q).

Lemma ctl_pop q : ctl (ring_cq_doorbell (pop_mx_completion q).2) = ctl q.
Proof. unfold ctl, ring_cq_doorbell, pop_mx_completion, update_cq_doorbell. cbn. by repeat case_match. Qed.

Lemma ctl_push c q : ctl (ring_sq_doorbell (push_mx_command c q)) = ctl q.
Proof. unfold ctl, ring_sq_doorbell, push_mx_command, update_sq_doorbell. cbn. by repeat case_match. Qed.

Lemma admin_poll_spec mem cid n i q r q' :
  admin_poll mem cid n i q = (r, q') →
  ctl q' = ctl q ∧
  (∀ c, r = Some c → ce_command_id c = cid ∧ ∃ k h, (i ≤ k < i + n)%nat ∧ c = mem k h).
Proof.
  revert i q. induction n as [|n IH]; intros i q; cbn -[is_popable pop_mx_completion ring_cq_doorbell].
  - intros [= <- <-]. done.
  - destruct (is_popable _).
    + destruct (pop_mx_completion _) as [c q1] eqn:Hp.
      assert (ctl (ring_cq_doorbell q1) = ctl q) as Hc.
      { change q1 with (c, q1).2. rewrite <- Hp, ctl_pop. done. }
      destruct (Z.eqb_spec (ce_command_id c) cid) as [E|E]; cbn [negb].
      * intros [= <- <-]. split; [done|]. intros ? [= <-]. split; [done|].
        exists i, (q2_cq_head q). split; [lia|]. unfold pop_mx_completion in Hp. cbn in Hp. congruence.
      * intros [Hx Hy]%IH. split; [congruence|]. intros ? H. destruct (Hy _ H) as (? & k & h & ? & ?).
        split; [done|]. exists k, h. split; [lia | done].
    + intros [Hx Hy]%IH. split; [done|]. intros ? H. destruct (Hy _ H) as (? & k & h & ? & ?).
      split; [done|]. exists k, h. split; [lia | done].
Qed.

Lemma next_cid_spec q cid q' :
  next_cid q = (cid, q') →
  0 < cid < 65536 ∧ (0 ≤ q2_admin_next_cid q < 65536 → cid ≠ q2_admin_next_cid q) ∧
  q' = q <| q2_admin_next_cid := cid |>.
Proof.
  unfold next_cid. cbv zeta. intros [= <- <-]. set (n := q2_admin_next_cid q).
  assert (0 ≤ u16 (n + 1) < 65536) as Hb by (apply Z.mod_pos_bound; done).
  assert (0 ≤ n < 65536 → u16 (n + 1) ≠ n) as Hne.
  { intros Hn. destruct (decide (n = 65535)) as [->|]; [done|]. rewrite u16_id; lia. }
  destruct (Z.eqb_spec (u16 (n + 1)) 0) as [E|E]; [|split_and!; [lia | lia | done | done]].
  rewrite E. change (u16 (0 + 1)) with 1. split_and!; [lia | lia | | done].
  intros Hn F. by rewrite <- F in E.
Qed.

Lemma poll_pushable_iff q : poll_pushable ADMIN_TIMEOUT q = is_pushable q.
Proof.
  assert (∀ n, poll_pushable (S n) q = is_pushable q) as H; [|apply H].
  induction n as [|n IH]; cbn in *; by destruct (is_pushable q).
Qed.

Lemma terminal_frame op v st :
  let st' := record_admin_terminal op v st in
  ad_present st' = ad_present st ∧ ad_dma_programmed st' = ad_dma_programmed st ∧
  ad_poisoned st' = ad_poisoned st ∧ ad_admin st' = ad_admin st ∧
  (∀ st0, ad_io st0 = ad_io st → ad_io st' = ad_io (record_admin_terminal op v st0)).
Proof.
  unfold record_admin_terminal. cbv zeta. destruct (ad_io st) as [io|] eqn:E; split_and!; try done.
  - intros st0 ->. done.
  - intros st0 H. by rewrite H, E.
Qed.

(** Every outcome of a synchronous command. *)
Lemma submit_outcome mem c st r st' :
  submit_sync_command mem c st = (r, st') →
  ad_present st' = ad_present st ∧ ad_dma_programmed st' = ad_dma_programmed st ∧
  (q2_admin_desynced (ad_admin st) = true ∧ r = None ∧ st' = st ∨
   q2_admin_desynced (ad_admin st) = false ∧ ∃ cid, (next_cid (ad_admin st)).1 = cid ∧ 0 < cid < 65536 ∧
   (is_pushable (ad_admin st) = false ∧ r = None ∧
      st' = st <| ad_admin := (ad_admin st) <| q2_admin_next_cid := cid |> |> ∨
    is_pushable (ad_admin st) = true ∧ r = None ∧ ad_io st' = ad_io st ∧ ad_poisoned st' = true ∧
      ctl (ad_admin st') = (cid, cid, c2_opcode c, true, true, q2_wait_count (ad_admin st) + 1) ∨
    is_pushable (ad_admin st) = true ∧
      (∃ cmpl k h, r = Some (ce_result cmpl) ∧ ce_command_id cmpl = cid ∧
       (k < ADMIN_TIMEOUT)%nat ∧ cmpl = mem k h ∧
       ad_io st' = ad_io (record_admin_terminal (c2_opcode c) (ce_result cmpl) st)) ∧
      ad_poisoned st' = ad_poisoned st ∧
      ctl (ad_admin st') = (cid, cid, c2_opcode c, false, false, q2_wait_count (ad_admin st)))).
Proof.
  unfold submit_sync_command. destruct (q2_admin_desynced (ad_admin st)) eqn:Hd.
  { intros [= <- <-]. split_and!; [done | done | by left]. }
  destruct (next_cid (ad_admin st)) as [cid q] eqn:Hn. destruct (next_cid_spec _ _ _ Hn) as (Hc & _ & ->).
  cbv zeta. rewrite poll_pushable_iff. change (is_pushable (_ <| q2_admin_next_cid := cid |>)) with (is_pushable (ad_admin st)).
  destruct (is_pushable (ad_admin st)) eqn:Hp; cbn [negb]; last first.
  { intros [= <- <-]. split_and!; [done | done | right]. split; [done|]. exists cid. split; [done|]. split; [done | by left]. }
  set (q1 := ring_sq_doorbell (push_mx_command _ _)).
  assert (ctl q1 = (cid, q2_admin_pending_cid (ad_admin st), q2_admin_pending_opcode (ad_admin st),
    q2_admin_pending (ad_admin st), false, q2_wait_count (ad_admin st))) as Hq1.
  { unfold q1. rewrite ctl_push. unfold ctl. cbn. by rewrite Hd. }
  destruct (admin_poll _ _ _ _ _) as [[cmpl|] q2] eqn:Ha; apply admin_poll_spec in Ha as [Hctl Hr];
    unfold ctl in *; cbn in Hctl, Hq1; injection Hctl as A1 A2 A3 A4 A5 A6; injection Hq1 as B1 B2 B3 B4 B5 B6;
    intros [= <- <-].
  - match goal with |- context [record_admin_terminal ?o ?v ?s] =>
      destruct (terminal_frame o v s) as (F1 & F2 & F3 & F4 & F5) end.
    rewrite F1, F2, F3, F4, (F5 st) by done. cbn.
    split_and!; [done | done |]. right. split; [done|]. exists cid. split; [done|]. split; [done|].
    right. right. destruct (Hr cmpl eq_refl) as (? & k & h & ? & Hm).
    split_and!; [done | exists cmpl, k, h; split_and!; [done | done | lia | done | done] | done | congruence || f_equal].
    all: repeat f_equal; try congruence; lia.
  - cbn. split_and!; [done | done |]. right. split; [done|]. exists cid. split; [done|]. split; [done|].
    right. left. split_and!; [done | done | done | done |]. congruence.
Qed.

(** ** Invariant *)

(** What an admin command may assume about the queues when its late completion is
    recorded. *)
Definition cmd_ok (op : Z) (st : admin_st) : Prop :=
  (op = ADMIN_OPCODE_CREATE_IO_SQ ∨ op = ADMIN_OPCODE_DELETE_IO_SQ → io_cq_created st = true) ∧
  (op = ADMIN_OPCODE_DELETE_IO_CQ → io_sq_created st = false).

Record adm_inv (st : admin_st) : Prop := {
  ai_sync : q2_admin_desynced (ad_admin st) = q2_admin_pending (ad_admin st);
  ai_poison : q2_admin_pending (ad_admin st) = true → ad_poisoned st = true;
  ai_order : io_sq_created st = true → io_cq_created st = true;
  ai_pending : q2_admin_pending (ad_admin st) = true → cmd_ok (q2_admin_pending_opcode (ad_admin st)) st;
  ai_off : ad_dma_programmed st = false →
    q2_admin_pending (ad_admin st) = false ∧ io_cq_created st = false;
  ai_absent : ad_present st = false → ad_dma_programmed st = false;
}.

(** The device holds neither of the I/O queues, owes no admin completion, and no longer
    knows the address of the admin queue. *)
Definition disowned (st : admin_st) : Prop :=
  io_sq_created st = false ∧ io_cq_created st = false ∧
  q2_admin_pending (ad_admin st) = false ∧ ad_dma_programmed st = false.

Lemma inv_disowned st : adm_inv st → ad_dma_programmed st = false → disowned st.
Proof.
  intros Hi H. destruct (ai_off _ Hi H). split_and!; try done.
  destruct (io_sq_created st) eqn:E; [|done]. apply (ai_order _ Hi) in E. congruence.
Qed.

(** The flags after a recorded completion. *)
Lemma terminal_flags op v st :
  let st' := record_admin_terminal op v st in
  ad_io st ≠ None →
  io_cq_created st' = (if op =? ADMIN_OPCODE_CREATE_IO_CQ then true
                       else if op =? ADMIN_OPCODE_DELETE_IO_CQ then false else io_cq_created st) ∧
  io_sq_created st' = (if op =? ADMIN_OPCODE_CREATE_IO_SQ then true
                       else if op =? ADMIN_OPCODE_DELETE_IO_SQ then false else io_sq_created st).
Proof.
  unfold record_admin_terminal, io_cq_created, io_sq_created, ADMIN_OPCODE_CREATE_IO_CQ, ADMIN_OPCODE_DELETE_IO_CQ,
    ADMIN_OPCODE_CREATE_IO_SQ, ADMIN_OPCODE_DELETE_IO_SQ.
  cbv zeta. destruct (ad_io st) as [io|] eqn:E; [|done]. intros _. cbn.
  destruct (Z.eqb_spec op 0), (Z.eqb_spec op 1), (Z.eqb_spec op 2), (Z.eqb_spec op 3); cbn; try lia; done.
Qed.

Lemma terminal_order op v st :
  cmd_ok op st → (io_sq_created st = true → io_cq_created st = true) →
  io_sq_created (record_admin_terminal op v st) = true → io_cq_created (record_admin_terminal op v st) = true.
Proof.
  intros [H1 H2] Ho. destruct (ad_io st) as [io|] eqn:E.
  - destruct (terminal_flags op v st) as [-> ->]; [by rewrite E|].
    destruct (Z.eqb_spec op ADMIN_OPCODE_CREATE_IO_CQ) as [->|]; [done|].
    destruct (Z.eqb_spec op ADMIN_OPCODE_DELETE_IO_CQ) as [->|]; [cbn; rewrite H2; done|].
    destruct (Z.eqb_spec op ADMIN_OPCODE_CREATE_IO_SQ) as [->|]; [auto|].
    destruct (Z.eqb_spec op ADMIN_OPCODE_DELETE_IO_SQ) as [->|]; [done | auto].
  - unfold record_admin_terminal, io_sq_created. by rewrite E.
Qed.

(** An admin command keeps the invariant, whatever the device answers. *)
Lemma admin_submit_inv mem c st r st' :
  adm_inv st → ad_dma_programmed st = true → cmd_ok (c2_opcode c) st → ad_io st ≠ None →
  submit_sync_command mem c st = (r, st') →
  adm_inv st' ∧ ad_dma_programmed st' = true ∧ ad_io st' ≠ None ∧ ad_present st' = ad_present st ∧
  match r with
  | Some v => ad_io st' = ad_io (record_admin_terminal (c2_opcode c) v st) ∧
      q2_admin_pending (ad_admin st') = false ∧ ad_poisoned st' = ad_poisoned st
  | None => ad_io st' = ad_io st ∧
      (q2_admin_desynced (ad_admin st') = false → ad_poisoned st' = ad_poisoned st)
  end.
Proof.
  intros Hi Hp Hok Hio Hs. apply submit_outcome in Hs as (E1 & E2 & [(D & -> & ->)|(D & cid & _ & _ & H)]).
  { split_and!; done. }
  rewrite Hp in E2. assert (ad_present st = true) as Hpr.
  { destruct (ad_present st) eqn:E; [done|]. apply (ai_absent _ Hi) in E. congruence. }
  destruct H as [(P & -> & ->)|[(P & -> & I & Po & C)|(P & (cmpl & k & h & -> & Hid & Hk & Hm & I) & Po & C)]].
  - split_and!; try done. destruct Hi. constructor; done.
  - unfold ctl in C. simplify_eq. assert (io_cq_created st' = io_cq_created st) as Ec by (unfold io_cq_created; by rewrite I).
    assert (io_sq_created st' = io_sq_created st) as Es by (unfold io_sq_created; by rewrite I).
    split_and!; try done; try congruence. constructor; rewrite ?Ec, ?Es; try congruence; try apply Hi.
    intros _. unfold cmd_ok. rewrite Ec, Es. replace (q2_admin_pending_opcode (ad_admin st')) with (c2_opcode c). done.
  - unfold ctl in C. simplify_eq. set (v := ce_result _) in *.
    assert (io_cq_created st' = io_cq_created (record_admin_terminal (c2_opcode c) v st)) as Ec
      by (unfold io_cq_created; by rewrite I).
    assert (io_sq_created st' = io_sq_created (record_admin_terminal (c2_opcode c) v st)) as Es
      by (unfold io_sq_created; by rewrite I).
    assert (ad_io st' ≠ None) as Hn.
    { rewrite I. unfold record_admin_terminal. by destruct (ad_io st). }
    split_and!; try done. constructor; rewrite ?Ec, ?Es; try congruence.
    apply terminal_order; [done | apply Hi].
Qed.

(** The two conditional deletions, in a state with both queues. *)
Definition both_queues (st : admin_st) : Prop :=
  adm_inv st ∧ ad_io st ≠ None.

Lemma created_programmed st : adm_inv st → io_cq_created st = true → ad_dma_programmed st = true.
Proof. intros Hi H. destruct (ad_dma_programmed st) eqn:E; [done|]. destruct (ai_off _ Hi E). congruence. Qed.

Lemma unwind_sq_spec mem st ok st' :
  both_queues st → unwind_sq mem st = (ok, st') →
  both_queues st' ∧ ad_present st' = ad_present st ∧
  (ok = true → io_sq_created st' = false ∧ ad_poisoned st' = ad_poisoned st ∧
     (q2_admin_pending (ad_admin st) = false → q2_admin_pending (ad_admin st') = false)) ∧
  (io_sq_created st = false → ok = true ∧ st' = st).
Proof.
  intros (Hi & Hio). unfold unwind_sq. destruct (io_sq_created st) eqn:Hc; last first.
  { intros [= <- <-]. split_and!; done. }
  unfold delete_io_sq. destruct (submit_sync_command _ _ st) as [r s1] eqn:Hs. intros [= <- <-].
  apply admin_submit_inv in Hs as (H1 & H2 & H3 & H4 & H5); [|done|by apply created_programmed, (ai_order _ Hi)| |done].
  - split_and!; try done. destruct r as [v|]; [|done]. intros _. destruct H5 as (I & Hpe & Hpo).
    split_and!; try done. unfold io_sq_created. rewrite I.
    by apply (terminal_flags ADMIN_OPCODE_DELETE_IO_SQ v st).
  - split; cbn; [|done]. intros _. by apply (ai_order _ Hi).
Qed.

Lemma unwind_cq_spec mem st ok st' :
  both_queues st → io_sq_created st = false → unwind_cq mem st = (ok, st') →
  both_queues st' ∧ ad_present st' = ad_present st ∧ io_sq_created st' = false ∧
  (ok = true → io_cq_created st' = false ∧ ad_poisoned st' = ad_poisoned st ∧
     (q2_admin_pending (ad_admin st) = false → q2_admin_pending (ad_admin st') = false)).
Proof.
  intros (Hi & Hio) Hsq. unfold unwind_cq. destruct (io_cq_created st) eqn:Hc; last first.
  { intros [= <- <-]. split_and!; done. }
  unfold delete_io_cq. destruct (submit_sync_command _ _ st) as [r s1] eqn:Hs. intros [= <- <-].
  apply admin_submit_inv in Hs as (H1 & H2 & H3 & H4 & H5); [|done|by apply created_programmed| |done].
  - destruct r as [v|].
    + destruct H5 as (I & Hpe & Hpo).
      destruct (terminal_flags ADMIN_OPCODE_DELETE_IO_CQ v st Hio) as [Fc Fs].
      assert (io_sq_created s1 = false) as Es by (unfold io_sq_created; rewrite I; exact (eq_trans Fs Hsq)).
      assert (io_cq_created s1 = false) as Ec by (unfold io_cq_created; rewrite I; exact Fc).
      split_and!; done.
    + destruct H5 as [I _]. split_and!; try done. unfold io_sq_created. by rewrite I.
  - split; cbn; [|done]. intros [?|?]; done.
Qed.

Lemma disable_disowned st :
  adm_inv st → io_sq_created st = false → io_cq_created st = false →
  q2_admin_pending (ad_admin st) = false →
  adm_inv (disable_admin_queue st) ∧ disowned (disable_admin_queue st).
Proof.
  intros [] Hs Hc Hp. split; [|done].
  constructor; cbn in *; unfold io_sq_created, io_cq_created, cmd_ok in *; cbn; try done; congruence.
Qed.

(** Draining: between the completion and the end of the loop [admin_desynced] is stale. *)
Definition resync (st : admin_st) : admin_st :=
  st <| ad_admin := (ad_admin st) <| q2_admin_desynced := q2_admin_pending (ad_admin st) |> |>.

Lemma resync_id st : adm_inv st → resync st = st.
Proof. intros Hi. unfold resync. rewrite <- (ai_sync _ Hi). by destruct st as [? [] ? ? ? ?]. Qed.

Lemma resync_inv st q :
  adm_inv (resync st) → ctl q = ctl (ad_admin st) → adm_inv (resync (st <| ad_admin := q |>)).
Proof.
  intros [] C. unfold ctl in C. injection C as C1 C2 C3 C4 C5 C6.
  constructor; cbn in *; unfold cmd_ok, io_cq_created, io_sq_created in *; cbn in *; rewrite ?C3, ?C4; auto.
Qed.

(** What [drain_loop] returns. *)
Definition drained (st : admin_st) (ret : Z) (st' : admin_st) : Prop :=
  adm_inv (resync st') ∧ ad_dma_programmed st' = ad_dma_programmed st ∧ ad_present st' = ad_present st ∧
  (ad_io st ≠ None ↔ ad_io st' ≠ None) ∧ ad_poisoned st' = ad_poisoned st ∧
  (ret = 0 ∧ q2_admin_pending (ad_admin st') = false ∨
   ret = - ENODEV ∧ q2_admin_pending (ad_admin st') = true ∧ q2_admin_pending (ad_admin st) = true ∧
     q2_admin_desynced (ad_admin st') = q2_admin_desynced (ad_admin st)).

(** The awaited completion is recorded. *)
Lemma late_terminal_inv st q v :
  adm_inv (resync st) → q2_admin_pending (ad_admin st) = true → q2_admin_pending q = false →
  adm_inv (resync (record_admin_terminal (q2_admin_pending_opcode (ad_admin st)) v (st <| ad_admin := q |>))).
Proof.
  intros Hi Hp Hq. pose proof (ai_pending _ Hi Hp) as Hok. pose proof (ai_order _ Hi) as Ho.
  set (op := q2_admin_pending_opcode (ad_admin st)) in *. set (s0 := st <| ad_admin := q |>).
  pose proof (terminal_order op v s0 Hok Ho) as Hto.
  destruct (terminal_frame op v s0) as (F1 & F2 & F3 & F4 & _).
  set (s1 := record_admin_terminal op v s0) in *.
  assert (ad_dma_programmed st = true) as Hpr.
  { destruct (ad_dma_programmed st) eqn:E; [done|]. destruct (ai_off _ Hi E) as [E' _]. cbn in E'. congruence. }
  constructor; cbn; rewrite ?F1, ?F2, ?F3, ?F4; cbn; rewrite ?Hq; try done; try congruence.
  intros E. pose proof (ai_absent _ Hi E) as E'. cbn in E'. congruence.
Qed.

Lemma admin_drain_inv mem gone fuel i st ret st' :
  adm_inv (resync st) → drain_loop mem gone fuel i st = Some (ret, st') → drained st ret st'.
Proof.
  revert i st. induction fuel as [|fuel IH]; intros i st Hi;
    cbn -[is_popable pop_mx_completion ring_cq_doorbell record_admin_terminal];
    destruct (q2_admin_pending (ad_admin st)) eqn:Hp; cbn [negb].
  1: done.
  1,3: intros [= <- <-]; unfold drained; split_and!; try done; by left.
  destruct (gone i); [intros [= <- <-]; unfold drained; split_and!; try done; by right|].
  assert (∀ q, ctl q = ctl (ad_admin st) →
    drain_loop mem gone fuel (S i) (st <| ad_admin := q |>) = Some (ret, st') → drained st ret st') as Hstale.
  { intros q C H. apply IH in H; [|by apply resync_inv]. unfold ctl in C. injection C as C1 C2 C3 C4 C5 C6.
    unfold drained in *. cbn in H. rewrite C5, C4 in H. exact H. }
  destruct (is_popable _); cbn [negb]; last by apply Hstale.
  destruct (pop_mx_completion _) as [c q1] eqn:Hpop.
  assert (ctl (ring_cq_doorbell q1) = ctl (ad_admin st)) as Hc.
  { change q1 with (c, q1).2. rewrite <- Hpop, ctl_pop. done. }
  destruct (_ =? _); cbn [negb]; last by apply Hstale.
  clear Hstale. set (q2 := ring_cq_doorbell q1) in *. unfold ctl in Hc. injection Hc as C1 C2 C3 C4 C5 C6.
  cbn [q2_admin_pending_opcode upd]. rewrite C3.
  set (q3 := q2 <| q2_wait_count := _ |> <| q2_admin_pending := false |>).
  pose proof (late_terminal_inv st q3 (ce_result c) Hi Hp eq_refl) as Hi'.
  destruct (terminal_frame (q2_admin_pending_opcode (ad_admin st)) (ce_result c) (st <| ad_admin := q3 |>))
    as (F1 & F2 & F3 & F4 & _).
  assert (ad_io st ≠ None ↔ ad_io (record_admin_terminal (q2_admin_pending_opcode (ad_admin st)) (ce_result c)
    (st <| ad_admin := q3 |>)) ≠ None) as F5.
  { unfold record_admin_terminal. cbn. by destruct (ad_io st) eqn:E; cbn; rewrite ?E. }
  intros H. apply IH in H as (G1 & G2 & G3 & G4 & G5 & G6); [|exact Hi']. unfold drained.
  rewrite F1, F2, F3, F4 in *. rewrite F5. split_and!; try done. destruct G6 as [?|(? & ? & E & _)]; [by left | done].
Qed.

Lemma drain_pending_spec mem gone fuel st ret st' :
  adm_inv st → drain_pending_admin mem gone fuel st = Some (ret, st') →
  adm_inv st' ∧ ad_dma_programmed st' = ad_dma_programmed st ∧ ad_present st' = ad_present st ∧
  (ad_io st ≠ None ↔ ad_io st' ≠ None) ∧ ad_poisoned st' = ad_poisoned st ∧
  (ret = 0 ∧ q2_admin_pending (ad_admin st') = false ∨ ret = - ENODEV ∧ q2_admin_pending (ad_admin st') = true).
Proof.
  intros Hi. unfold drain_pending_admin. rewrite (ai_sync _ Hi), andb_negb_r.
  destruct (drain_loop _ _ _ _ _) as [[r s1]|] eqn:Hd; [|done]. cbn.
  apply admin_drain_inv in Hd as (G1 & G2 & G3 & G4 & G5 & G6); [|by rewrite resync_id].
  destruct G6 as [[-> Hp]|(-> & Hp & Hp0 & Hds)]; cbn; intros [= <- <-].
  - unfold resync in G1. rewrite Hp in G1. split_and!; try done. by left.
  - assert (resync s1 = s1) as E.
    { unfold resync. rewrite Hp, <- Hp0, <- (ai_sync _ Hi), <- Hds. by destruct s1 as [? [] ? ? ?]. }
    rewrite E in G1. split_and!; try done. by right.
Qed.

Lemma set_poisoned_inv st b :
  adm_inv st → (q2_admin_pending (ad_admin st) = true → b = true) → adm_inv (st <| ad_poisoned := b |>).
Proof. intros [] H. by constructor. Qed.

(** Recovery: whatever the device does, success means it was disowned and the poison
    lifted; failure leaves the device poisoned and the queue memory programmed. *)
Lemma recover_spec drain msq mcq gone fuel st ret st' :
  adm_inv st → recover_mx_queue drain msq mcq gone fuel st = Some (ret, st') →
  adm_inv st' ∧
  (ret = 0 → disowned st' ∧ (ad_present st = true → ad_poisoned st' = false)) ∧
  (ret ≠ 0 → ad_poisoned st = true → ad_poisoned st' = true).
Proof.
  intros Hi. unfold recover_mx_queue. destruct (ad_present st) eqn:Hpr; cbn [negb]; last first.
  { intros [= <- <-]. split_and!; try done. intros _. split; [|done].
    apply inv_disowned; [done|]. by apply (ai_absent _ Hi). }
  destruct (drain_pending_admin _ _ _ _) as [[r s1]|] eqn:Hd; [|done]. cbn [mbind option_bind].
  apply drain_pending_spec in Hd as (G1 & G2 & G3 & G4 & G5 & G6); [|done].
  destruct G6 as [[-> Hp]|[-> Hp]]; cbn [nz negb Z.eqb]; last first.
  { intros [= <- <-]. split_and!; try done. intros _ ?. congruence. }
  set (s2 := s1 <| ad_poisoned := false |>).
  assert (adm_inv s2) as Hi2 by (apply set_poisoned_inv; [done | congruence]).
  destruct (ad_io s2) as [io|] eqn:Hio; last first.
  { intros [= <- <-]. assert (io_sq_created s2 = false ∧ io_cq_created s2 = false) as [??]
      by (unfold io_sq_created, io_cq_created; by rewrite Hio).
    destruct (disable_disowned s2) as [??]; done. }
  destruct (unwind_sq msq s2) as [ok s3] eqn:Hu.
  apply unwind_sq_spec in Hu as ([Hi3 Hio3] & U2 & U3 & _); [|split; [done | by rewrite Hio]].
  destruct ok; cbn [negb]; last first.
  { intros [= <- <-]. split_and!; try done. by apply set_poisoned_inv. }
  destruct U3 as (U3 & U4 & U5); [done|]. destruct (unwind_cq mcq s3) as [ok s4] eqn:Hu.
  apply unwind_cq_spec in Hu as ([Hi4 Hio4] & V2 & V3 & V4); [|done|done].
  destruct ok; cbn [negb]; intros [= <- <-]; last first.
  { split_and!; try done. by apply set_poisoned_inv. }
  destruct V4 as (V4 & V5 & V6); [done|]. destruct (disable_disowned s4) as [??]; auto.
  split_and!; try done. cbn. intros _. split; [done|]. intros _. by rewrite V5, U4.
Qed.

Lemma set_threads_inv st t : adm_inv st → adm_inv (st <| ad_threads := t |>).
Proof. intros []. by constructor. Qed.

Lemma release_spec msq mcq st ret st' :
  adm_inv st → release_mx_queue msq mcq st = (ret, st') →
  ad_present st = true → ad_io st ≠ None → ad_poisoned st = false →
  adm_inv st' ∧ ad_present st' = true ∧ ad_io st' ≠ None ∧
  (ret = 0 → disowned st' ∧ ad_poisoned st' = false).
Proof.
  intros Hi Hr Hpr Hio Hpo. unfold release_mx_queue, release_io_queue in Hr. rewrite Hpr in Hr.
  assert (is_ok (ad_io st) = true) as E by by destruct (ad_io st). rewrite E in Hr. cbn [negb orb] in Hr.
  apply (set_threads_inv _ (mx_stop_queue_threads (ad_threads st))) in Hi. revert Hr Hi Hpr Hio Hpo. cbv zeta.
  set (s0 := st <| ad_threads := _ |>). intros Hr Hi Hpr Hio Hpo.
  change (ad_present s0 = true) in Hpr. change (ad_io s0 ≠ None) in Hio. change (ad_poisoned s0 = false) in Hpo. clearbody s0. clear E st. rename s0 into st.
  assert (q2_admin_pending (ad_admin st) = false) as Hpe.
  { destruct (q2_admin_pending (ad_admin st)) eqn:F; [|done]. apply (ai_poison _ Hi) in F. congruence. }
  destruct (unwind_sq msq st) as [ok s1] eqn:Hu.
  apply unwind_sq_spec in Hu as ([Hi1 Hio1] & U2 & U3 & _); [|done].
  destruct ok; [|injection Hr as <- <-; split_and!; try done; congruence].
  destruct U3 as (U3 & U4 & U5); [done|]. destruct (unwind_cq mcq s1) as [ok s2] eqn:Hu.
  apply unwind_cq_spec in Hu as ([Hi2 Hio2] & V2 & V3 & V4); [|done|done].
  destruct ok; injection Hr as <- <-; [|split_and!; try done; congruence].
  destruct V4 as (V4 & V5 & V6); [done|]. destruct (disable_disowned s2) as [??]; auto.
  split_and!; try done; cbn; try congruence. intros _. split; [done | congruence].
Qed.

(** ** Initialisation *)

Definition st_fresh (st : admin_st) : Prop :=
  ad_present st = false ∧ ad_io st = None ∧ ad_poisoned st = false ∧ ad_dma_programmed st = false ∧
  q2_admin_pending (ad_admin st) = false ∧ q2_admin_desynced (ad_admin st) = false.

Definition unused (st : admin_st) : Prop :=
  io_sq_created st = false ∧ io_cq_created st = false ∧ q2_admin_pending (ad_admin st) = false.

Lemma out_delete_spec msq mcq ret st r st' :
  both_queues st → out_delete msq mcq ret st = (r, st') →
  r = ret ∧ both_queues st' ∧ ad_present st' = ad_present st ∧ (ad_poisoned st' = false → unused st').
Proof.
  intros Hb. unfold out_delete. destruct (unwind_sq msq st) as [ok s1] eqn:Hu.
  apply unwind_sq_spec in Hu as ([Hi1 Hio1] & U2 & U3 & _); [|done].
  destruct ok; cbn [negb]; last first.
  { intros [= <- <-]. split_and!; try done. split; [|done]. by apply set_poisoned_inv. }
  destruct U3 as (U3 & U4 & U5); [done|]. destruct (unwind_cq mcq s1) as [ok s2] eqn:Hu.
  apply unwind_cq_spec in Hu as ([Hi2 Hio2] & V2 & V3 & V4); [|done|done].
  destruct ok; cbn [negb]; intros [= <- <-]; last first.
  { split_and!; try done; [|cbn; congruence]. split; [|done]. by apply set_poisoned_inv. }
  destruct V4 as (V4 & V5 & V6); [done|]. split_and!; try done; [congruence|]. intros E. split_and!; try done.
  destruct (q2_admin_pending (ad_admin s2)) eqn:F; [|done]. apply (ai_poison _ Hi2) in F. congruence.
Qed.

(** How [init_mx_queue] ends. *)
Record init_ok (bar_mapped_size : Z) (ret : Z) (st : admin_st) : Prop := {
  io_inv : adm_inv st;
  io_fail : ret ≠ 0 → ad_poisoned st = false → unused st;
  io_ready : ret = 0 → ad_present st = true ∧ ad_poisoned st = false ∧
    ∃ io, ad_io st = Some io ∧ q2_hw_sq_created io = true ∧ q2_hw_cq_created io = true ∧
      q2_hw_sq_id io = q2_hw_cq_id io ∧ q2_qid io = q2_hw_cq_id io ∧
      NVME_REG_DBS + (q2_qid io + 1) * 8 ≤ bar_mapped_size;
}.

Lemma configure_inv qid st : adm_inv st → adm_inv (set_io (configure_queue qid) st).
Proof.
  intros Hi. set (st' := set_io _ st).
  assert (io_sq_created st' = io_sq_created st) as Es by (unfold st', io_sq_created, set_io; cbn; by destruct (ad_io st)).
  assert (io_cq_created st' = io_cq_created st) as Ec by (unfold st', io_cq_created, set_io; cbn; by destruct (ad_io st)).
  destruct Hi. constructor; unfold cmd_ok in *; rewrite ?Es, ?Ec; done.
Qed.

Lemma configure_io_spec alloc cq sq bar m1 m2 m3 m4 srun crun st ret st' :
  adm_inv st → ad_io st = None → ad_present st = true → ad_dma_programmed st = true →
  ad_poisoned st = false →
  configure_io_queue alloc cq sq bar m1 m2 m3 m4 srun crun st = (ret, st') → init_ok bar ret st'.
Proof.
  intros Hi Hio Hpr Hpg Hpo. unfold configure_io_queue.
  assert (∀ s r, adm_inv s → ad_poisoned s = false → r ≠ 0 → io_sq_created s = false → io_cq_created s = false →
    init_ok bar r s) as Hfail.
  { intros s r Hs Hq Hr H1 H2. constructor; try done. intros _ _. split_and!; try done.
    destruct (q2_admin_pending (ad_admin s)) eqn:F; [|done]. apply (ai_poison _ Hs) in F. congruence. }
  destruct (nz alloc) eqn:Ha.
  { intros [= <- <-]. apply Hfail; try done; [|by unfold io_sq_created; rewrite Hio|by unfold io_cq_created; rewrite Hio].
    intros ->. done. }
  set (s0 := st <| ad_io := Some (queue_zero IO_QUEUE_DEPTH) |>).
  assert (adm_inv s0) as Hi0.
  { destruct Hi. constructor; cbn; try done; intros; try congruence. apply ai_poison0 in H. congruence. }
  destruct (submit_sync_command m1 _ s0) as [r s1] eqn:Hs1.
  apply admin_submit_inv in Hs1 as (I1 & P1 & N1 & A1 & R1); [|done|done|split; cbn; [intros [?|?]|]; done|done].
  destruct r as [v1|]; last first.
  { intros [= <- <-]. destruct R1 as [R1 R2].
    assert (io_sq_created s1 = false ∧ io_cq_created s1 = false) as [??]
      by (unfold io_sq_created, io_cq_created; by rewrite R1).
    constructor; try done. intros _ Hq. split_and!; try done.
    destruct (q2_admin_pending (ad_admin s1)) eqn:F; [|done]. apply (ai_poison _ I1) in F. congruence. }
  destruct R1 as (R1 & R2 & R3). cbn in R1, R3. rewrite Hpo in R3. change (ad_present s0) with (ad_present st) in A1.
  assert (∀ s e, both_queues s → e ≠ 0 → out_delete m3 m4 e s = (ret, st') → init_ok bar ret st') as Hout.
  { intros s e Hb He H. apply out_delete_spec in H as (-> & [Hi' _] & _ & Hu); [|done]. by constructor. }
  destruct (submit_sync_command m2 _ s1) as [r s2] eqn:Hs2.
  apply admin_submit_inv in Hs2 as (I2 & P2 & N2 & A2 & Q); [|done|done| |done]; last first.
  { split; cbn; [|done]. intros _. unfold io_cq_created. by rewrite R1. }
  destruct r as [v2|]; last first.
  { destruct (q2_admin_desynced (ad_admin s2)) eqn:D; [|by apply Hout].
    intros [= <- <-]. constructor; try done. intros _ E. rewrite (ai_sync _ I2) in D.
    apply (ai_poison _ I2) in D. congruence. }
  destruct Q as (Q1 & Q2 & Q3). cbn [c2_opcode upd] in Q1. unfold record_admin_terminal in Q1. rewrite R1 in Q1. cbn in Q1.
  destruct (Z.eqb_spec (u16 v1) (u16 v2)) as [E|E]; cbn [negb]; [|by apply Hout].
  destruct (Z.ltb_spec bar (NVME_REG_DBS + (u16 v1 + 1) * 8)) as [L|L]; [by apply Hout|].
  set (s3 := set_io (configure_queue (u16 v1)) s2).
  assert (both_queues s3) as Hb.
  { split; [by apply configure_inv | unfold s3, set_io; cbn; by rewrite Q1]. }
  destruct (mx_start_io_queue srun crun (ad_threads s3)) as [start th].
  assert (both_queues (s3 <| ad_threads := th |>)) as Hb' by (split; [apply set_threads_inv, Hb | apply Hb]).
  destruct (nz start) eqn:Hs; [apply Hout; [done | by intros ->]|].
  intros [= <- <-]. constructor; [apply Hb' | done |]. intros _. cbn.
  split_and!; [congruence | congruence |]. rewrite Q1. eexists. split; [done|].
  cbn. split_and!; done.
Qed.

Lemma init_spec e st ret st' :
  st_fresh st → init_mx_queue e st = (ret, st') → init_ok (ie_bar_mapped_size e) ret st'.
Proof.
  intros (F1 & F2 & F3 & F4 & F5 & F6). unfold init_mx_queue, configure_admin_queue.
  destruct (nz (ie_admin_alloc e)) eqn:Ha; [rewrite Ha|].
  - intros [= <- <-]. constructor; try (intros E; by rewrite E in Ha).
    + constructor; unfold io_sq_created, io_cq_created; rewrite ?F2; try done; congruence.
    + unfold unused, io_sq_created, io_cq_created. by rewrite F2.
  - cbn [nz negb Z.eqb]. apply configure_io_spec; try done.
    constructor; unfold io_sq_created, io_cq_created; cbn; rewrite ?F2; done.
Qed.

(** ** What the admin commands leave alone *)

(** The handler threads and whether each queue is allocated. *)
Definition frame (st : admin_st) : queue_threads * bool * bool :=
  (ad_threads st, ad_present st, is_ok (ad_io st)).

Lemma terminal_keeps op v st : frame (record_admin_terminal op v st) = frame st.
Proof. unfold record_admin_terminal, frame. destruct (ad_io st) eqn:E; cbn; by rewrite ?E. Qed.

Lemma submit_keeps mem c st r st' : submit_sync_command mem c st = (r, st') → frame st' = frame st.
Proof.
  unfold submit_sync_command. destruct (q2_admin_desynced _); [by intros [= <- <-]|].
  destruct (next_cid _) as [cid q]. cbv zeta. destruct (poll_pushable _ _); cbn [negb]; [|by intros [= <- <-]].
  destruct (admin_poll _ _ _ _ _) as [[cmpl|] q2]; intros [= <- <-]; [|done]. by rewrite terminal_keeps.
Qed.

Lemma unwind_sq_keeps mem st ok st' : unwind_sq mem st = (ok, st') → frame st' = frame st.
Proof.
  unfold unwind_sq, delete_io_sq. destruct (io_sq_created st); [|by intros [= <- <-]].
  destruct (submit_sync_command _ _ _) as [r s] eqn:E. intros [= <- <-]. by eapply submit_keeps.
Qed.

Lemma unwind_cq_keeps mem st ok st' : unwind_cq mem st = (ok, st') → frame st' = frame st.
Proof.
  unfold unwind_cq, delete_io_cq. destruct (io_cq_created st); [|by intros [= <- <-]].
  destruct (submit_sync_command _ _ _) as [r s] eqn:E. intros [= <- <-]. by eapply submit_keeps.
Qed.

Lemma drain_loop_keeps mem gone fuel i st ret st' :
  drain_loop mem gone fuel i st = Some (ret, st') → frame st' = frame st.
Proof.
  revert i st. induction fuel as [|f IH]; intros i st; cbn; destruct (q2_admin_pending _); cbn;
    try done; try (by intros [= <- <-]).
  destruct (gone i); [by intros [= <- <-]|]. destruct (is_popable _); cbn; [|by intros ->%IH].
  destruct (_ =? _); cbn; [|by intros ->%IH]. intros ->%IH. by rewrite terminal_keeps.
Qed.

Lemma recover_keeps drain msq mcq gone fuel st ret st' :
  recover_mx_queue drain msq mcq gone fuel st = Some (ret, st') → frame st' = frame st.
Proof.
  unfold recover_mx_queue, drain_pending_admin. destruct (ad_present st) eqn:P; cbn [negb]; [|by intros [= <- <-]].
  destruct (_ && _); [by intros [= <- <-]|]. destruct (drain_loop _ _ _ _ _) as [[r s]|] eqn:D; [|done].
  apply drain_loop_keeps in D. cbn [mbind option_bind]. destruct (nz r) eqn:R; cbn [mbind option_bind].
  { rewrite R. by intros [= <- <-]. }
  cbn [nz Z.eqb negb]. destruct (ad_io _); [|by intros [= <- <-]].
  destruct (unwind_sq _ _) as [ok s1] eqn:U; apply unwind_sq_keeps in U.
  destruct ok; cbn [negb]; [|intros [= <- <-]; by etrans].
  destruct (unwind_cq _ _) as [ok s2] eqn:V; apply unwind_cq_keeps in V.
  destruct ok; cbn [negb]; intros [= <- <-]; (etrans; [exact V|]; by etrans).
Qed.

Lemma release_stops msq mcq st ret st' :
  release_mx_queue msq mcq st = (ret, st') → ad_present st = true → ad_io st ≠ None →
  frame st' = (no_threads, true, true).
Proof.
  intros Hr Hp Hio. unfold release_mx_queue, release_io_queue in Hr. rewrite Hp in Hr.
  assert (is_ok (ad_io st) = true) as E by by destruct (ad_io st). rewrite E in Hr. cbn [negb orb] in Hr.
  cbv zeta in Hr. destruct (unwind_sq _ _) as [ok s1] eqn:U. apply unwind_sq_keeps in U.
  assert (frame s1 = (no_threads, true, true)) as F by (rewrite U; unfold frame; cbn; by rewrite Hp, E).
  destruct ok; [|injection Hr as <- <-; done]. destruct (unwind_cq _ _) as [ok s2] eqn:V. apply unwind_cq_keeps in V.
  rewrite F in V. destruct ok; by injection Hr as <- <-.
Qed.

Lemma out_delete_keeps msq mcq ret st r st' : out_delete msq mcq ret st = (r, st') → frame st' = frame st.
Proof.
  unfold out_delete. destruct (unwind_sq _ _) as [ok s1] eqn:U; apply unwind_sq_keeps in U.
  destruct ok; cbn [negb]; [|by intros [= <- <-]].
  destruct (unwind_cq _ _) as [ok s2] eqn:V; apply unwind_cq_keeps in V.
  destruct ok; cbn [negb]; intros [= <- <-]; (etrans; [exact V | done]).
Qed.

(** The threads run exactly when initialisation succeeds, and nothing is poisoned before
    the admin queue exists. *)
Lemma init_frame e st ret st' :
  st_fresh st → ad_threads st = no_threads → init_mx_queue e st = (ret, st') →
  (ret ≠ 0 → ad_threads st' = no_threads) ∧
  (ad_present st' = false → ad_poisoned st' = false ∧ ad_io st' = None).
Proof.
  intros (F1 & F2 & F3 & F4 & F5 & F6) Ht. unfold init_mx_queue, configure_admin_queue.
  destruct (nz (ie_admin_alloc e)) eqn:Ha; [rewrite Ha; by intros [= <- <-]|]. cbn [nz Z.eqb negb].
  set (s0 := st <| ad_present := _ |> <| ad_dma_programmed := _ |> <| ad_admin := _ |>).
  assert (∀ s r, frame s = (no_threads, true, true) → (r ≠ 0 → ad_threads s = no_threads) ∧
    (ad_present s = false → ad_poisoned s = false ∧ ad_io s = None)) as Hend.
  { intros s r [= E1 E2 _]. split; [done | congruence]. }
  unfold configure_io_queue. destruct (nz (ie_io_alloc e)); [by intros [= <- <-]|].
  destruct (submit_sync_command (ie_m1 e) _ _) as [r s1] eqn:Hs1. apply submit_keeps in Hs1. cbn in Hs1.
  assert (frame s1 = (no_threads, true, true)) as E1 by (rewrite Hs1; unfold frame; cbn; by rewrite Ht).
  destruct r as [v1|]; [|intros [= <- <-]; by apply Hend].
  destruct (submit_sync_command (ie_m2 e) _ _) as [r s2] eqn:Hs2. apply submit_keeps in Hs2. rewrite E1 in Hs2.
  assert (∀ s x, frame s = (no_threads, true, true) → out_delete (ie_m3 e) (ie_m4 e) x s = (ret, st') →
    (ret ≠ 0 → ad_threads st' = no_threads) ∧
    (ad_present st' = false → ad_poisoned st' = false ∧ ad_io st' = None)) as Hout.
  { intros s x Hs Ho%out_delete_keeps. apply Hend. by rewrite Ho. }
  destruct r as [v2|]; [|destruct (q2_admin_desynced (ad_admin s2)); [intros [= <- <-]; by apply Hend | by apply Hout]].
  destruct (_ =? _); cbn [negb]; [|by apply Hout]. destruct (_ <? _); [by apply Hout|]. cbv zeta.
  destruct (mx_start_io_queue _ _ _) as [start th] eqn:Hst.
  replace (ad_threads (set_io _ s2)) with no_threads in Hst by (symmetry; exact (f_equal (fun x => x.1.1) Hs2)).
  apply start_threads in Hst. injection Hs2 as G1 G2 G3. destruct Hst as [[-> ->]|[Hst ->]].
  - intros [= <- <-]. split; [done|]. cbn. congruence.
  - rewrite (proj2 (negb_true_iff _) (proj2 (Z.eqb_neq _ _) Hst) : nz start = true). apply Hout.
    unfold frame. cbn. rewrite G2. by destruct (ad_io s2).
Qed.

(** ** Late completions *)

(** The head of the completion ring shows an entry of the current lap. *)
Definition head_posted (mem : cq_memory) (i : nat) (q : mx_queue_v2) : bool :=
  Z.land (ce_status (mem i (q2_cq_head q))) 1 =? q2_cq_phase q.

Lemma popable_head mem i q :
  0 < q2_wait_count q → is_popable (q <| q2_cqes := mem i |>) = head_posted mem i q.
Proof. intros H. unfold is_popable. cbn. by rewrite (proj2 (Z.leb_gt _ _)). Qed.

Lemma drain_loop_reaches mem gone st n i fuel c :
  q2_admin_pending (ad_admin st) = true → 0 < q2_wait_count (ad_admin st) →
  (∀ j, (j ≤ i + n)%nat → gone j = false) →
  (∀ j, (i ≤ j < i + n)%nat → head_posted mem j (ad_admin st) = false) →
  head_posted mem (i + n) (ad_admin st) = true → mem (i + n)%nat (q2_cq_head (ad_admin st)) = c →
  ce_command_id c = q2_admin_pending_cid (ad_admin st) → (n < fuel)%nat →
  ∃ st', drain_loop mem gone fuel i st = Some (0, st') ∧ q2_admin_pending (ad_admin st') = false ∧
    ad_io st' = ad_io (record_admin_terminal (q2_admin_pending_opcode (ad_admin st)) (ce_result c) st).
Proof.
  revert i fuel st. induction n as [|n IH]; intros i fuel st Hp Hw Hg Hno Hyes Hc Hid Hf;
    (destruct fuel as [|fuel]; [lia|]);
    cbn -[is_popable pop_mx_completion ring_cq_doorbell record_admin_terminal];
    rewrite Hp, (Hg i), popable_head by (done || lia); cbn [negb].
  - rewrite Nat.add_0_r in *. rewrite Hyes. cbn [negb].
    destruct (pop_mx_completion _) as [c' q1] eqn:Hpop.
    assert (ctl (ring_cq_doorbell q1) = ctl (ad_admin st)) as Hctl.
    { change q1 with (c', q1).2. rewrite <- Hpop, ctl_pop. done. }
    assert (c' = c) as -> by (unfold pop_mx_completion in Hpop; cbn in Hpop; congruence).
    unfold ctl in Hctl. injection Hctl as C1 C2 C3 C4 C5 C6. rewrite C2, Hid, Z.eqb_refl. cbn [negb].
    set (s1 := record_admin_terminal _ _ _).
    destruct (terminal_frame (q2_admin_pending_opcode (ad_admin st)) (ce_result c)
      (st <| ad_admin := (ring_cq_doorbell q1) <| q2_wait_count := q2_wait_count (ring_cq_doorbell q1) - 1 |>
             <| q2_admin_pending := false |> |>)) as (_ & _ & _ & F4 & F5).
    assert (q2_admin_pending (ad_admin s1) = false) as Hs1.
    { unfold s1. cbn [q2_admin_pending_opcode upd]. rewrite C3. by rewrite F4. }
    exists s1. split_and!; [|done|].
    + destruct fuel; cbn; by rewrite Hs1.
    + unfold s1. cbn [q2_admin_pending_opcode upd]. rewrite C3. by apply F5.
  - rewrite (Hno i) by lia. cbn [negb].
    destruct (IH (S i) fuel (st <| ad_admin := (ad_admin st) <| q2_cqes := mem i |> |>)) as (st' & H1 & H2 & H3);
      cbn; try done; try lia.
    + intros j Hj. apply Hg. lia.
    + intros j Hj. apply Hno. lia.
    + by rewrite <- Nat.add_succ_r.
    + by rewrite <- Nat.add_succ_r.
    + exists st'. split_and!; try done. rewrite H3.
      apply (terminal_frame (q2_admin_pending_opcode (ad_admin st)) (ce_result c)
        (st <| ad_admin := (ad_admin st) <| q2_cqes := mem i |> |>)). done.
Qed.

(** ** Theorems *)

(** C18: Every outcome of a synchronous admin command.  A command that returns was answered
    by a completion carrying its own nonzero id within the polling budget; afterwards
    nothing is pending, [wait_count] is back, and the queue it created or deleted is
    recorded.  A command that fails without having been pushed changes nothing but the
    id counter.  A command that fails after the push is kept as pending with its id and
    opcode, the device is poisoned, and every later admin command is refused without
    touching the ring. *)
Theorem admin_command_outcome mem c st r st' :
  submit_sync_command mem c st = (r, st') → q2_admin_desynced (ad_admin st) = false →
  match r with
  | Some v =>
      ∃ cmpl k h, (k < ADMIN_TIMEOUT)%nat ∧ cmpl = mem k h ∧ ce_result cmpl = v ∧
      ce_command_id cmpl = q2_admin_next_cid (ad_admin st') ∧ 0 < ce_command_id cmpl < 65536 ∧
      q2_admin_pending (ad_admin st') = false ∧ q2_admin_desynced (ad_admin st') = false ∧
      q2_wait_count (ad_admin st') = q2_wait_count (ad_admin st) ∧ ad_poisoned st' = ad_poisoned st ∧
      ad_io st' = ad_io (record_admin_terminal (c2_opcode c) v st)
  | None =>
      is_pushable (ad_admin st) = false ∧
        st' = st <| ad_admin := (ad_admin st) <| q2_admin_next_cid := q2_admin_next_cid (ad_admin st') |> |> ∨
      q2_admin_pending (ad_admin st') = true ∧ q2_admin_pending_opcode (ad_admin st') = c2_opcode c ∧
      0 < q2_admin_pending_cid (ad_admin st') < 65536 ∧ ad_poisoned st' = true ∧ ad_io st' = ad_io st ∧
      (∀ mem' c', submit_sync_command mem' c' st' = (None, st'))
  end.
Proof.
  intros Hs Hd. apply submit_outcome in Hs as (_ & _ & [(D & _)|(_ & cid & _ & Hc & H)]); [congruence|].
  destruct H as [(P & -> & ->)|[(P & -> & I & Po & C)|(P & (cmpl & k & h & -> & Hid & Hk & Hm & I) & Po & C)]].
  - by left.
  - unfold ctl in C. injection C as C1 C2 C3 C4 C5 C6. right. rewrite C2, C4, C3. split_and!; try done; try lia.
    intros mem' c'. unfold submit_sync_command. by rewrite C5.
  - unfold ctl in C. injection C as C1 C2 C3 C4 C5 C6. exists cmpl, k, h. rewrite Hid, C1, C4, C5, C6, Po.
    split_and!; done || lia.
Qed.

(** C19: Initialisation of the version 2 queues on a fresh device, for every device
    behaviour.  Success: both I/O queues exist under one id, the doorbell of that id lies
    inside the mapped BAR, and the device is not poisoned.  Failure: unless the device is
    poisoned, it holds no I/O queue and owes no admin completion.  In every case a
    submission queue is never recorded without its completion queue. *)
Theorem v2_init_outcome e st ret st' :
  st_fresh st → init_mx_queue e st = (ret, st') →
  (io_sq_created st' = true → io_cq_created st' = true) ∧
  (ret ≠ 0 → ad_poisoned st' = false → unused st') ∧
  (ret = 0 → ad_present st' = true ∧ ad_poisoned st' = false ∧
    ∃ io, ad_io st' = Some io ∧ q2_hw_sq_created io = true ∧ q2_hw_cq_created io = true ∧
      q2_hw_sq_id io = q2_hw_cq_id io ∧ q2_qid io = q2_hw_cq_id io ∧
      NVME_REG_DBS + (q2_qid io + 1) * 8 ≤ ie_bar_mapped_size e).
Proof. intros Hf Hi. destruct (init_spec _ _ _ _ Hf Hi) as [Ha Hb Hc]. split_and!; try done. apply Ha. Qed.

(** C20: A timed-out admin command is not lost.  Once its completion shows up at the head
    of the admin ring, however late, and the device stays connected, the drain returns
    success, clears the pending command and records the queue it created or deleted. *)
Theorem late_admin_completion_drains mem gone st n fuel c :
  adm_inv st → q2_admin_pending (ad_admin st) = true → 0 < q2_wait_count (ad_admin st) →
  (∀ j, (j ≤ n)%nat → gone j = false) →
  (∀ j, (j < n)%nat → head_posted mem j (ad_admin st) = false) →
  head_posted mem n (ad_admin st) = true → mem n (q2_cq_head (ad_admin st)) = c →
  ce_command_id c = q2_admin_pending_cid (ad_admin st) → (n < fuel)%nat →
  ∃ st', drain_pending_admin mem gone fuel st = Some (0, st') ∧
    q2_admin_pending (ad_admin st') = false ∧ q2_admin_desynced (ad_admin st') = false ∧
    ad_io st' = ad_io (record_admin_terminal (q2_admin_pending_opcode (ad_admin st)) (ce_result c) st).
Proof.
  intros Hi Hp Hw Hg Hno Hyes Hc Hid Hf. unfold drain_pending_admin. rewrite (ai_sync _ Hi), andb_negb_r.
  destruct (drain_loop_reaches mem gone st n 0 fuel c) as (st' & -> & H1 & H2); try done.
  { intros j Hj. apply Hno. lia. }
  cbn. eexists. by split_and!.
Qed.

(** ** Examples *)

Definition st_none : admin_st := MkAd false (queue_zero 0) None false false no_threads.

(** A device that answers the [n]-th admin command of a session, at once, with queue id
    [v]: entry [n - 1] of the admin ring. *)
Definition answer (n v : Z) : cq_memory := fun _ h => if h =? n - 1 then MkCqe v n 0 n 1 else cqe_zero.

(** A device that never answers. *)
Definition silent : cq_memory := fun _ _ => cqe_zero.

Definition demo_init : init_env :=
  MkInitEnv 0 0 0x1000 0x2000 0x10000 (answer 1 5) (answer 2 5) silent silent 0 0.

(** The device does not answer the creation of the submission queue in time. *)
Definition demo_lost : admin_st :=
  (init_mx_queue (MkInitEnv 0 0 0x1000 0x2000 0x10000 (answer 1 5) silent silent silent 0 0) st_none).2.

Example demo_init_ready :
  let '(ret, st) := init_mx_queue demo_init st_none in
  ret = 0 ∧ io_sq_created st = true ∧ io_cq_id st = 5.
Proof. by vm_compute. Qed.

Lemma admin_command_outcome_witness :
  ∃ cmpl, ce_result cmpl = 5 ∧ ce_command_id cmpl = 1.
Proof.
  pose (st := (configure_admin_queue 0 st_none).2).
  pose (p := submit_sync_command (answer 1 5) cmd2_zero st).
  destruct (admin_command_outcome (answer 1 5) cmd2_zero st (Some 5) p.2) as (cmpl & k & h & H).
  - by vm_compute.
  - by vm_compute.
  - exists cmpl. destruct H as (_ & _ & -> & -> & _). split; by vm_compute.
Defined.

Lemma v2_init_outcome_witness :
  let st := (init_mx_queue demo_init st_none).2 in
  ∃ io, ad_io st = Some io ∧ NVME_REG_DBS + (q2_qid io + 1) * 8 ≤ 0x10000.
Proof.
  destruct (v2_init_outcome demo_init st_none 0 (init_mx_queue demo_init st_none).2) as (_ & _ & H).
  - by repeat split.
  - by vm_compute.
  - destruct (H eq_refl) as (_ & _ & io & H1 & _ & _ & _ & _ & H2). by exists io.
Defined.

Lemma late_admin_completion_drains_witness :
  ∃ st', drain_pending_admin (answer 2 5) (fun _ => false) 1 demo_lost = Some (0, st') ∧
    io_sq_created st' = true.
Proof.
  destruct (late_admin_completion_drains (answer 2 5) (fun _ => false) demo_lost 0 1 (MkCqe 5 2 0 2 1))
    as (st' & H1 & _ & _ & H2).
  - refine (io_inv 0x10000 _ _ (init_spec _ st_none _ demo_lost _ (surjective_pairing _))). by repeat split.
  - by vm_compute.
  - by vm_compute.
  - done.
  - lia.
  - by vm_compute.
  - by vm_compute.
  - by vm_compute.
  - lia.
  - exists st'. split; [exact H1|]. unfold io_sq_created. rewrite H2. by vm_compute.
Defined.
