(* ===== verification/Command.v ===== *)
(** * Commands of both versions (src/core_v1.c and src/core_v2.c, Transfer sections)

    How a slice of a mapped buffer becomes a command: one address (v1) or up to two
    addresses (v2) in the command itself, a descriptor list behind it when that is not
    enough; control and passthrough commands.  The theorem: the device, following the
    command, touches exactly the bytes of the slice. *)

From S2P Require Import Prelude Uapi Bits SgDesc SgWalk SgEmit Mbox LeaseSM LeaseTypes Lease BarMap Ioctl MboxFifo QueueV1 QueueV2.

(** The fields of a transfer a command is built from. *)
Record xfer_req := MkReq {
  xr_id : Z; xr_size : Z; xr_device_addr : Z; xr_sg_byte_offset : Z;
}.

(** The command, or an errno; the descriptor pages and their contents. *)
Definition cmd_result (C : Type) : Type := (Z + C) * desc_pages * desc_mem.

(** ** Version 1 *)

Definition MXDMA_PAGE_MODE_SINGLE : Z := 0.
Definition MXDMA_PAGE_MODE_MULTI : Z := 1.
Definition V1_SINGLE_DMA_SIZE : Z := Z.shiftl 1 10.
Definition V1_NUM_OF_DESC_PER_LIST : Z := V1_SINGLE_DMA_SIZE / 8.

Definition v1_alloc_mx_command (t : xfer_req) (opcode : Z) : QueueV1.mx_command :=
  let comm := set_opcode opcode (set_id (xr_id t) (set_magic MAGIC_COMMAND cmd1_zero)) in
  comm <| c1_size := xr_size t |> <| c1_device_addr := xr_device_addr t |>.

Definition v1_create_mx_command_sg (env : pool_env) (sgt : sg_table) (t : xfer_req) (opcode : Z)
    (pages : desc_pages) (mem : desc_mem) : option (cmd_result QueueV1.mx_command) :=
  let comm := v1_alloc_mx_command t opcode in
  match mx_sg_locate sgt (xr_sg_byte_offset t) with
  | None | Some ([], _) => Some (inl (- EINVAL), pages, mem)
  | Some ((e :: _) as sg, intra_off) =>
    let first_len := mx_prp_first_chunk_len e intra_off V1_SINGLE_DMA_SIZE in
    if xr_size t <=? first_len then
      let comm := (set_page_mode MXDMA_PAGE_MODE_SINGLE comm)
                    <| c1_host_addr := u64 (sg_dma_address e + intra_off) |> in
      RETURN (Some (inl (- EINVAL), pages, mem)) WHEN (c1_host_addr comm =? 0) ;;
      Some (inr comm, pages, mem)
    else
      match mx_get_total_desc_count sg intra_off (xr_size t) V1_SINGLE_DMA_SIZE with
      | inl ret => Some (inl ret, pages, mem)
      | inr desc_cnt =>
        let comm := set_page_mode MXDMA_PAGE_MODE_MULTI comm in
        r ← mx_desc_list_init env sgt (xr_sg_byte_offset t) (xr_size t) V1_SINGLE_DMA_SIZE
              V1_NUM_OF_DESC_PER_LIST false desc_cnt pages mem;
        RETURN (Some (inl (di_ret r), di_pages r, di_mem r)) WHEN (nz (di_ret r)) ;;
        Some (inr (comm <| c1_host_addr := di_ba r |>), di_pages r, di_mem r)
      end
  end.

(** [doorbell]: the 64-bit word at the user address, [None] when the copy faults. *)
Definition mx_fill_ctrl_doorbell (to_device : bool) (doorbell : option Z) : Z + option Z :=
  RETURN (inr None) WHEN (negb to_device) ;;
  match doorbell with None => inl (- EFAULT) | Some w => inr (Some w) end.

Definition v1_create_mx_command_ctrl (t : xfer_req) (opcode : Z) (to_device : bool) (doorbell : option Z)
    : Z + QueueV1.mx_command :=
  let comm := v1_alloc_mx_command t opcode in
  match mx_fill_ctrl_doorbell to_device doorbell with
  | inl ret => inl ret
  | inr None => inr comm
  | inr (Some w) => inr (comm <| c1_host_addr := w |>)
  end.

Definition create_mx_command_passthru (t : xfer_req) (subopcode : Z) : QueueV1.mx_command :=
  let comm := set_subopcode subopcode
    (set_id (xr_id t) (set_opcode IO_OPCODE_PASSTHRU (set_magic MAGIC_COMMAND cmd1_zero))) in
  comm <| c1_size := xr_size t |> <| c1_device_addr := xr_device_addr t |> <| c1_host_addr := 0 |>.

(** ** Version 2 *)

(** [SINGLE_DMA_SIZE] is [PAGE_SIZE]. *)
Definition V2_SINGLE_DMA_SIZE : Z := Z.shiftl 1 12.
Definition V2_NUM_OF_DESC_PER_LIST : Z := V2_SINGLE_DMA_SIZE / 8.

Definition v2_alloc_mx_command (t : xfer_req) (opcode : Z) : QueueV2.mx_command :=
  cmd2_zero <| c2_opcode := u8 opcode |> <| c2_command_id := u16 (xr_id t) |> <| c2_size := xr_size t |>
            <| c2_device_addr := xr_device_addr t |>.

(** The second entry of a slice of two chunks; [inl]: no next entry. *)
Definition second_prp (e : sg_entry) (rest : scatterlist) (intra_off prp_entry1 : Z) : Z + Z :=
  let first_len := mx_prp_first_chunk_len e intra_off V2_SINGLE_DMA_SIZE in
  if intra_off + first_len <? sg_dma_len e then inr (u64 (prp_entry1 + first_len))
  else match rest with [] => inl (- EINVAL) | next :: _ => inr (sg_dma_address next) end.

Definition v2_create_mx_command_sg (env : pool_env) (sgt : sg_table) (t : xfer_req) (opcode : Z)
    (pages : desc_pages) (mem : desc_mem) : option (cmd_result QueueV2.mx_command) :=
  let comm := v2_alloc_mx_command t opcode in
  match mx_sg_locate sgt (xr_sg_byte_offset t) with
  | None | Some ([], _) => Some (inl (- EINVAL), pages, mem)
  | Some ((e :: rest) as sg, intra_off) =>
    let comm := comm <| c2_prp_entry1 := u64 (sg_dma_address e + intra_off) |> in
    RETURN (Some (inl (- EINVAL), pages, mem)) WHEN (c2_prp_entry1 comm =? 0) ;;
    match mx_get_total_desc_count sg intra_off (xr_size t) V2_SINGLE_DMA_SIZE with
    | inl ret => Some (inl ret, pages, mem)
    | inr desc_cnt =>
      RETURN (Some (inl (- EINVAL), pages, mem)) WHEN (desc_cnt =? 0) ;;
      if desc_cnt =? 1 then Some (inr (comm <| c2_prp_entry2 := 0 |>), pages, mem)
      else if desc_cnt =? 2 then
        match second_prp e rest intra_off (c2_prp_entry1 comm) with
        | inl ret => Some (inl ret, pages, mem)
        | inr prp2 =>
          RETURN (Some (inl (- EINVAL), pages, mem)) WHEN (prp2 =? 0) ;;
          Some (inr (comm <| c2_prp_entry2 := prp2 |>), pages, mem)
        end
      else
        r ← mx_desc_list_init env sgt (xr_sg_byte_offset t) (xr_size t) V2_SINGLE_DMA_SIZE
              V2_NUM_OF_DESC_PER_LIST true (desc_cnt - 1) pages mem;
        RETURN (Some (inl (di_ret r), di_pages r, di_mem r)) WHEN (nz (di_ret r)) ;;
        Some (inr (comm <| c2_prp_entry2 := di_ba r |>), di_pages r, di_mem r)
    end
  end.

Definition v2_create_mx_command_ctrl (t : xfer_req) (opcode : Z) (to_device : bool) (doorbell : option Z)
    : Z + QueueV2.mx_command :=
  let comm := v2_alloc_mx_command t opcode in
  match mx_fill_ctrl_doorbell to_device doorbell with
  | inl ret => inl ret
  | inr None => inr comm
  | inr (Some w) => inr (comm <| c2_prp_entry1 := w |>)
  end.

(** ** What the device reads *)

(** A descriptor list is read up to the number of chunks the first address and the size
    call for. *)
Definition v1_dev_reads (mem : desc_mem) (comm : QueueV1.mx_command) : option (list Z) :=
  let size := c1_size comm in
  if hdr_page_mode (c1_header comm) =? MXDMA_PAGE_MODE_SINGLE then Some (addr_range (c1_host_addr comm) size)
  else
    d ← mem !! (c1_host_addr comm, 0);
    let n := chunks_of 10 d size in
    ds ← dev_read_list (S (Z.to_nat n)) V1_NUM_OF_DESC_PER_LIST mem (c1_host_addr comm) n;
    Some (dev_bytes V1_SINGLE_DMA_SIZE ds size).

Definition v2_dev_reads (mem : desc_mem) (comm : QueueV2.mx_command) : option (list Z) :=
  let size := c2_size comm in
  let prp1 := c2_prp_entry1 comm in
  let n := chunks_of 12 prp1 size in
  if n =? 1 then Some (dev_bytes V2_SINGLE_DMA_SIZE [prp1] size)
  else if n =? 2 then Some (dev_bytes V2_SINGLE_DMA_SIZE [prp1; c2_prp_entry2 comm] size)
  else
    ds ← dev_read_list (S (Z.to_nat (n - 1))) V2_NUM_OF_DESC_PER_LIST mem (c2_prp_entry2 comm) (n - 1);
    Some (dev_bytes V2_SINGLE_DMA_SIZE (prp1 :: ds) size).

(** The walk has as many chunks as its start and its size call for. *)
Lemma walk_chunks k a avail rest rem l :
  0 ≤ k ≤ 32 → prp_walk (2 ^ k) a avail rest rem l → Z.of_nat (length l) = chunks_of k a rem.
Proof.
  intros Hk. induction 1 as [a avail rest rem Hr Hc Ha | a avail rest rem l Ha Hr Hw IH
    | a avail e rest rem l Ha Hr Hok He Hw IH]; pose proof (mod_D_range k Hk a); cbn [length].
  - by rewrite chunks_of_small.
  - rewrite (chunks_of_step k Hk) by done. lia.
  - rewrite (chunks_of_step k Hk), Nat2Z.inj_succ, IH by lia. subst avail.
    unfold chunks_of. rewrite (next_boundary k Hk), He. lia.
Qed.

Lemma read_list_head fuel dpl mem ba n d ds :
  2 ≤ dpl → 0 < n → dev_read_list fuel dpl mem ba n = Some (d :: ds) → mem !! (ba, 0) = Some d.
Proof.
  assert (∀ c ds', (0 < c)%nat → dev_read_page mem ba 0 c = Some ds' → ∃ tl, mem !! (ba, 0) = Some (hd 0 ds') ∧ ds' = hd 0 ds' :: tl)
    as Hpage.
  { intros [|c] ds' Hc; [lia|]. cbn. destruct (mem !! (ba, 0)) as [x|]; [|done].
    destruct (dev_read_page mem ba (0 + 1) c) as [tl|]; [|done]. intros [= <-]. by exists tl. }
  intros Hd Hn. destruct fuel as [|f]; [done|]. cbn. destruct (Z.leb_spec n dpl).
  - intros H1. by destruct (Hpage (Z.to_nat n) _ ltac:(lia) H1) as (tl & -> & _).
  - destruct (dev_read_page mem ba 0 (Z.to_nat (dpl - 1))) as [ds1|] eqn:Hp; [|done].
    destruct (Hpage (Z.to_nat (dpl - 1)) _ ltac:(lia) Hp) as (tl & E & Eds). rewrite E.
    repeat case_match; try done. rewrite Eds. cbn. by intros [= -> _].
Qed.

Lemma locate_suffix sgt off sg intra : mx_sg_locate sgt off = Some (sg, intra) → sg `suffix_of` sgl sgt.
Proof.
  unfold mx_sg_locate. generalize 0. generalize (sgl sgt). intros l. generalize (nents sgt). induction l as [|e l IH]; intros n acc.
  - destruct n; discriminate.
  - destruct n as [|n]; [done|]. cbn. case_match; [intros [= <- _]; by exists []|].
    intros H1%IH. destruct H1 as [p ->]. by exists (e :: p).
Qed.

(** ** The slice of a transfer *)

Section slice.
Context (env : pool_env) (sgt : sg_table) (t : xfer_req) (pages : desc_pages) (mem : desc_mem).
Local Notation off := (xr_sg_byte_offset t).
Local Notation size := (xr_size t).
Hypothesis Hfresh : pool_fresh env (pool_out pages).
Hypothesis Hok : mapping_ok sgt.
Hypothesis Hoff : 0 ≤ off.
Hypothesis Hsize : 0 < size.
Hypothesis Hbound : off + size ≤ mapped_bytes sgt.

(** What locating and counting find. *)
Lemma slice_counted k : 0 ≤ k ≤ 32 →
  ∃ e rest intra, mx_sg_locate sgt off = Some (e :: rest, intra) ∧
    sg_ok e ∧ 0 ≤ intra < sg_dma_len e ∧ size ≤ ULLONG_MAX ∧
    ((prp_layout (2 ^ k) e intra rest size ∧
      ∃ l, prp_walk (2 ^ k) (sg_dma_address e + intra) (sg_dma_len e - intra) rest size l ∧
        mx_get_total_desc_count (e :: rest) intra size (2 ^ k) = inr (Z.of_nat (length l)) ∧
        dev_bytes (2 ^ k) l size = slice sgt off size) ∨
     (¬ prp_layout (2 ^ k) e intra rest size ∧
      mx_get_total_desc_count (e :: rest) intra size (2 ^ k) = inl (- EINVAL))).
Proof.
  intros Hk. pose proof Hok as [_ Htot].
  destruct (slice_located sgt off Hok ltac:(lia)) as (e & r1 & r2 & intra & Hloc & He & Hr1 & Hin & Hd).
  pose proof (located_bound sgt off e r1 intra size Hbound Hoff He Hin Hd).
  exists e, (r1 ++ r2), intra. unfold mapped_bytes in Hbound. split_and!; try done; try lia.
  unfold mx_get_total_desc_count. rewrite (proj2 (Z.eqb_neq size 0)) by lia.
  destruct (count_loop_spec k Hk r1 r2 e intra size 0) as [(Hl & l & Hw & ->)|[Hl ->]];
    try done; try lia; [left | by right].
  split; [done|]. exists l. split_and!; [done | done |]. by eapply walk_slice.
Qed.

(** Building the list behind the command. *)
Lemma slice_list k dpl skip e rest intra l :
  0 ≤ k ≤ 32 → 2 ≤ dpl → mx_sg_locate sgt off = Some (e :: rest, intra) → sg_ok e → 0 ≤ intra < sg_dma_len e →
  size ≤ ULLONG_MAX → prp_walk (2 ^ k) (sg_dma_address e + intra) (sg_dma_len e - intra) rest size l →
  let ds := if skip : bool then tail l else l in
  ds ≠ [] →
  ∃ r, mx_desc_list_init env sgt off size (2 ^ k) dpl skip (Z.of_nat (length ds)) pages mem = Some r ∧
    ((di_ret r = - ENOMEM ∧ pool_out (di_pages r) = pool_out pages ∧ di_mem r = mem) ∨
     (di_ret r = 0 ∧
      dev_read_list (S (length ds)) dpl (di_mem r) (di_ba r) (Z.of_nat (length ds)) = Some ds)).
Proof.
  intros Hk Hd Hloc He Hin Hs Hw ds Hne.
  destruct (desc_list_init_spec k dpl env sgt off size skip (Z.of_nat (length ds)) pages mem e rest intra l)
    as (r & Hr & [(H1 & H2 & H3)|(bas & H1 & _ & _ & H4)]); try done.
  - exists r. split; [done|]. left. by rewrite H2.
  - exists r. split; [done|]. by right.
Qed.

Lemma first_len_eq k e intra :
  0 ≤ k ≤ 32 → sg_ok e → 0 ≤ intra < sg_dma_len e →
  u64 (sg_dma_address e + intra) = sg_dma_address e + intra ∧
  mx_prp_first_chunk_len e intra (2 ^ k) =
    Z.min (2 ^ k - (sg_dma_address e + intra) mod 2 ^ k) (sg_dma_len e - intra).
Proof.
  intros Hk [? ? ?] Hin. assert (u64 (sg_dma_address e + intra) = sg_dma_address e + intra) as E by (apply u64_id; lia).
  split; [done|]. unfold mx_prp_first_chunk_len. rewrite E, chunk_len_at by done.
  rewrite u64_id; [done|]. lia.
Qed.
End slice.

(** No entry is mapped at bus address zero. *)
Definition nonzero_mapping (sgt : sg_table) : Prop := Forall (fun e => sg_dma_address e ≠ 0) (sgl sgt).

Lemma located_nonzero sgt off sg intra :
  nonzero_mapping sgt → mx_sg_locate sgt off = Some (sg, intra) → Forall (fun e => sg_dma_address e ≠ 0) sg.
Proof. intros Hn [p E]%locate_suffix. unfold nonzero_mapping in Hn. rewrite E in Hn. by apply Forall_app in Hn as [_ ?]. Qed.

(** The fields of a version 1 header. *)
Lemma v1_header_fields t opcode m :
  let h := c1_header (set_page_mode m (v1_alloc_mx_command t opcode)) in
  hdr_id h = u16 (xr_id t) ∧ hdr_page_mode h = m mod 4 ∧ hdr_opcode h = opcode mod 16 ∧
  hdr_magic h = MAGIC_COMMAND ∧ hdr_control h = 0 ∧ hdr_subopcode h = 0.
Proof.
  unfold v1_alloc_mx_command, set_page_mode, set_opcode, set_id, set_magic, hdr_id, hdr_page_mode, hdr_opcode,
    hdr_magic, hdr_control, hdr_subopcode. cbn [c1_header upd eta_cmd1 cmd1_zero].
  split_and!; repeat (rewrite bf_get_set_other by lia); rewrite ?bf_get_set_same by lia; done.
Qed.

(** The second entry of a walk of two chunks. *)
Lemma second_prp_spec e rest intra size b :
  sg_ok e → 0 ≤ intra < sg_dma_len e →
  prp_walk (2 ^ 12) (sg_dma_address e + intra) (sg_dma_len e - intra) rest size [sg_dma_address e + intra; b] →
  second_prp e rest intra (sg_dma_address e + intra) = inr b ∧
  (Forall (fun e => sg_dma_address e ≠ 0) (e :: rest) → b ≠ 0).
Proof.
  intros He Hin Hw. destruct (first_len_eq 12 e intra) as [Ea Ef]; [lia | done | done |].
  unfold second_prp. cbv zeta. change V2_SINGLE_DMA_SIZE with (2 ^ 12). rewrite Ef.
  set (a := sg_dma_address e + intra) in *. pose proof (mod_D_range 12 ltac:(lia) a). destruct He as [H1 H2 H3].
  inversion Hw as [|? ? ? ? ? Ha Hr Hw'|? ? e' rest' ? ? Ha Hr Hok Hm Hw']; subst.
  - destruct (walk_head 12 _ _ _ _ _ Hw') as [l' E]. injection E as Eb _.
    rewrite Z.min_l, (proj2 (Z.ltb_lt _ _)) by lia. rewrite u64_id by (subst a; lia).
    split; [by rewrite Eb|]. intros _. subst a. lia.
  - destruct (walk_head 12 _ _ _ _ _ Hw') as [l' E]. injection E as -> _.
    rewrite Z.min_l, (proj2 (Z.ltb_ge _ _)) by lia. split; [done|]. intros Hn.
    by apply Forall_inv_tail, Forall_inv in Hn.
Qed.

Section theorems.
Context (env : pool_env) (sgt : sg_table) (t : xfer_req) (opcode : Z) (pages : desc_pages) (mem : desc_mem).
Local Notation off := (xr_sg_byte_offset t).
Local Notation size := (xr_size t).

(** A request inside a well-formed mapping. *)
Definition request_ok : Prop :=
  pool_fresh env (pool_out pages) ∧ mapping_ok sgt ∧ 0 ≤ off ∧ 0 < size ∧ off + size ≤ mapped_bytes sgt.

(** A failure: out of memory, or a slice no descriptor list can express (or bus address
    zero); every page is back and no descriptor was written. *)
Definition clean_failure (k ret : Z) (pages' : desc_pages) (mem' : desc_mem) : Prop :=
  (ret = - ENOMEM ∨ ret = - EINVAL) ∧ pool_out pages' = pool_out pages ∧ mem' = mem ∧
  (ret = - EINVAL → nonzero_mapping sgt →
     ∃ e rest intra, mx_sg_locate sgt off = Some (e :: rest, intra) ∧ ¬ prp_layout (2 ^ k) e intra rest size).

(** C6: A version 1 command makes the device touch exactly its slice.  For every slice
    inside a mapping, building the command ends; it fails only for lack of memory or
    for a layout the hardware cannot express, leaking nothing; otherwise the header
    carries the 16-bit id, and the device, reading one range in single mode or the
    descriptor list in multi mode, touches the bytes of the slice, in order. *)
Theorem v1_command_reads_slice :
  request_ok →
  ∃ res pages' mem', v1_create_mx_command_sg env sgt t opcode pages mem = Some (res, pages', mem') ∧
    match res with
    | inl ret => clean_failure 10 ret pages' mem'
    | inr comm => hdr_id (c1_header comm) = u16 (xr_id t) ∧ c1_size comm = size ∧
        c1_device_addr comm = xr_device_addr t ∧ v1_dev_reads mem' comm = Some (slice sgt off size)
    end.
Proof.
  intros (Hf & Hok & Hoff & Hsize & Hb).
  destruct (slice_counted sgt t Hok Hoff Hsize Hb 10) as (e & rest & intra & Hloc & He & Hin & Hs & Hcnt); [lia|].
  destruct (first_len_eq 10 e intra) as [Ea Ef]; [lia | done | done |].
  unfold v1_create_mx_command_sg. cbv zeta. rewrite Hloc.
  change V1_SINGLE_DMA_SIZE with (2 ^ 10) in *. rewrite Ef, Ea.
  set (a := sg_dma_address e + intra) in *. pose proof (mod_D_range 10 ltac:(lia) a).
  destruct (Z.leb_spec size (Z.min (2 ^ 10 - a mod 2 ^ 10) (sg_dma_len e - intra))) as [Hle|Hgt].
  - cbn [c1_host_addr upd eta_cmd1].
    destruct (Z.eqb_spec a 0) as [E|E]; do 3 eexists; (split; [done|]).
    + split_and!; [by right | done | done |]. intros _ Hn.
      pose proof (Forall_inv (located_nonzero _ _ _ _ Hn Hloc)) as Hne. cbn in Hne. destruct He. subst a. lia.
    + destruct (v1_header_fields t opcode MXDMA_PAGE_MODE_SINGLE) as (F1 & F2 & _).
      split_and!; [exact F1 | done | done |]. unfold v1_dev_reads.
      cbn [c1_header c1_host_addr upd eta_cmd1] in *. rewrite F2. cbn [c1_size set_page_mode v1_alloc_mx_command upd eta_cmd1].
      change (MXDMA_PAGE_MODE_SINGLE mod 4 =? MXDMA_PAGE_MODE_SINGLE) with true. cbv iota.
      destruct Hcnt as [(_ & l & Hw & _ & Hsl)|[Hl _]]; [|destruct Hl; apply prp_layout_here; lia].
      rewrite <- Hsl. f_equal. pose proof (walk_chunks 10 _ _ _ _ _ ltac:(lia) Hw) as Hlen.
      destruct (walk_head 10 _ _ _ _ _ Hw) as [l' ->]. rewrite chunks_of_small in Hlen by lia.
      destruct l'; [|cbn in Hlen; lia]. cbn [dev_bytes dev_chunks]. rewrite app_nil_r, Z.min_r by lia. done.
  - destruct Hcnt as [(Hl & l & Hw & -> & Hsl)|[Hl ->]].
    + destruct (walk_head 10 _ _ _ _ _ Hw) as [l' El].
      destruct (slice_list env sgt t pages mem Hf 10 V1_NUM_OF_DESC_PER_LIST false e rest intra l)
        as (r & -> & Hr); [lia | by vm_compute | done | done | done | done | done | by subst l |].
      cbn [mbind option_bind]. destruct Hr as [(-> & Hp & Hm)|(-> & Hread)].
      * do 3 eexists. split; [done|]. split_and!; [by left | done | done | done].
      * do 3 eexists. split; [done|].
        destruct (v1_header_fields t opcode MXDMA_PAGE_MODE_MULTI) as (F1 & F2 & _).
        split_and!; [exact F1 | done | done |]. unfold v1_dev_reads.
        cbn [c1_header c1_host_addr upd eta_cmd1] in *. rewrite F2. cbn [c1_size set_page_mode v1_alloc_mx_command upd eta_cmd1].
        change (MXDMA_PAGE_MODE_MULTI mod 4 =? MXDMA_PAGE_MODE_SINGLE) with false. cbv iota.
        assert (di_mem r !! (di_ba r, 0) = Some a) as ->.
        { eapply (read_list_head _ V1_NUM_OF_DESC_PER_LIST _ _ _ a l');
            [by vm_compute | | rewrite <- El; exact Hread]. rewrite El. cbn. lia. }
        cbn [mbind option_bind]. fold a in Hw.
        rewrite <- (walk_chunks 10 _ _ _ _ _ ltac:(lia) Hw), Nat2Z.id, Hread. cbn [mbind option_bind].
        change V1_SINGLE_DMA_SIZE with (2 ^ 10). by rewrite Hsl.
    + do 3 eexists. split; [done|]. split_and!; [by right | done | done |]. intros _ _. eauto.
Qed.

(** C5: A version 2 command makes the device touch exactly its slice.  For every slice
    inside a mapping, building the command ends; it fails only for lack of memory or
    for a layout the hardware cannot express, leaking nothing; otherwise it carries the
    16-bit id, and the device, using the first entry, the second entry as an address or
    as the base of a descriptor list according to the number of chunks, touches the
    bytes of the slice, in order. *)
Theorem v2_command_reads_slice :
  request_ok →
  ∃ res pages' mem', v2_create_mx_command_sg env sgt t opcode pages mem = Some (res, pages', mem') ∧
    match res with
    | inl ret => clean_failure 12 ret pages' mem'
    | inr comm => c2_command_id comm = u16 (xr_id t) ∧ c2_size comm = size ∧
        c2_device_addr comm = xr_device_addr t ∧ v2_dev_reads mem' comm = Some (slice sgt off size)
    end.
Proof.
  intros (Hf & Hok & Hoff & Hsize & Hb).
  destruct (slice_counted sgt t Hok Hoff Hsize Hb 12) as (e & rest & intra & Hloc & He & Hin & Hs & Hcnt); [lia|].
  destruct (first_len_eq 12 e intra) as [Ea Ef]; [lia | done | done |].
  unfold v2_create_mx_command_sg. cbv zeta. rewrite Hloc.
  change V2_SINGLE_DMA_SIZE with (2 ^ 12) in *. cbn [c2_prp_entry1 upd eta_cmd2]. rewrite Ea.
  set (a := sg_dma_address e + intra) in *. pose proof (mod_D_range 12 ltac:(lia) a).
  destruct (Z.eqb_spec a 0) as [E|E].
  { do 3 eexists. split; [done|]. split_and!; [by right | done | done |]. intros _ Hn.
    pose proof (Forall_inv (located_nonzero _ _ _ _ Hn Hloc)) as Hne. cbn in Hne. destruct He. subst a. lia. }
  destruct Hcnt as [(Hl & l & Hw & -> & Hsl)|[Hl ->]]; last first.
  { do 3 eexists. split; [done|]. split_and!; [by right | done | done |]. intros _ _. eauto. }
  destruct (walk_head 12 _ _ _ _ _ Hw) as [l' El].
  pose proof (walk_chunks 12 _ _ _ _ _ ltac:(lia) Hw) as Hn.
  rewrite (proj2 (Z.eqb_neq (Z.of_nat (length l)) 0)) by (subst l; cbn; lia).
  destruct (Z.eqb_spec (Z.of_nat (length l)) 1) as [E1|E1].
  { do 3 eexists. split; [done|]. split_and!; try done. unfold v2_dev_reads.
    cbn [c2_prp_entry1 c2_size upd eta_cmd2 v2_alloc_mx_command cmd2_zero]. rewrite <- Hn, E1.
    change V2_SINGLE_DMA_SIZE with (2 ^ 12). subst l. destruct l'; [|cbn in E1; lia]. by rewrite <- Hsl. }
  destruct (Z.eqb_spec (Z.of_nat (length l)) 2) as [E2|E2].
  - subst l. destruct l' as [|b [|]]; [done | | cbn in E2; lia].
    destruct (second_prp_spec e rest intra size b He Hin Hw) as [Hp Hz]. fold a in Hp. rewrite Hp.
    destruct (Z.eqb_spec b 0) as [Eb|Eb]; do 3 eexists; (split; [done|]).
    + split_and!; [by right | done | done |]. intros _ Hnz.
      by destruct (Hz (located_nonzero _ _ _ _ Hnz Hloc)).
    + split_and!; try done. unfold v2_dev_reads.
      cbn [c2_prp_entry1 c2_prp_entry2 c2_size upd eta_cmd2 v2_alloc_mx_command cmd2_zero]. rewrite <- Hn.
      change V2_SINGLE_DMA_SIZE with (2 ^ 12). by rewrite <- Hsl.
  - destruct (slice_list env sgt t pages mem Hf 12 V2_NUM_OF_DESC_PER_LIST true e rest intra l)
      as (r & Hr0 & Hr); [lia | by vm_compute | done | done | done | done | done | |].
    { subst l. cbn. intros ->. by cbn in E1. }
    replace (Z.of_nat (length l) - 1) with (Z.of_nat (length (tail l))) by (subst l; cbn; lia).
    cbv iota in Hr0. rewrite Hr0. cbn [mbind option_bind]. destruct Hr as [(-> & Hp & Hm)|(-> & Hread)].
    + do 3 eexists. split; [done|]. split_and!; [by left | done | done | done].
    + do 3 eexists. split; [done|]. split_and!; try done. unfold v2_dev_reads.
      cbn [c2_prp_entry1 c2_prp_entry2 c2_size upd eta_cmd2 v2_alloc_mx_command cmd2_zero]. rewrite <- Hn.
      rewrite (proj2 (Z.eqb_neq _ 1)), (proj2 (Z.eqb_neq _ 2)) by done.
      replace (Z.of_nat (length l) - 1) with (Z.of_nat (length (tail l))) by (subst l; cbn; lia).
      rewrite Nat2Z.id, Hread. cbn [mbind option_bind]. change V2_SINGLE_DMA_SIZE with (2 ^ 12).
      rewrite <- Hsl. by subst l.
Qed.
End theorems.

Definition demo_req : xfer_req := MkReq 7 8000 0x4000 100.

Lemma demo_request_ok : request_ok demo_pool demo_sgt demo_req (MkPages ∅ None).
Proof. split_and!; [exact demo_pool_fresh | exact demo_sgt_ok | by vm_compute | by vm_compute | by vm_compute]. Qed.

Lemma v1_command_reads_slice_witness :
  ∃ res pages' mem',
    v1_create_mx_command_sg demo_pool demo_sgt demo_req 1 (MkPages ∅ None) ∅ = Some (res, pages', mem') ∧
    match res with
    | inl ret => clean_failure demo_sgt demo_req (MkPages ∅ None) ∅ 10 ret pages' mem'
    | inr comm => hdr_id (c1_header comm) = 7 ∧ c1_size comm = 8000 ∧ c1_device_addr comm = 0x4000 ∧
        v1_dev_reads mem' comm = Some (slice demo_sgt 100 8000)
    end.
Proof. exact (v1_command_reads_slice demo_pool demo_sgt demo_req 1 (MkPages ∅ None) ∅ demo_request_ok). Defined.

Lemma v2_command_reads_slice_witness :
  ∃ res pages' mem',
    v2_create_mx_command_sg demo_pool demo_sgt demo_req 1 (MkPages ∅ None) ∅ = Some (res, pages', mem') ∧
    match res with
    | inl ret => clean_failure demo_sgt demo_req (MkPages ∅ None) ∅ 12 ret pages' mem'
    | inr comm => c2_command_id comm = 7 ∧ c2_size comm = 8000 ∧ c2_device_addr comm = 0x4000 ∧
        v2_dev_reads mem' comm = Some (slice demo_sgt 100 8000)
    end.
Proof. exact (v2_command_reads_slice demo_pool demo_sgt demo_req 1 (MkPages ∅ None) ∅ demo_request_ok). Defined.
