(* ===== verification/PciConfig.v ===== *)
(** * The PCI function the driver borrows (src/init.c)

    Region and BAR mapping, enablement, read request size, bus mastering, MSI, the
    interrupt handler and the DMA parameters: what attaching changes of a [pci_dev] that
    belongs to another driver, and what teardown puts back. *)

From S2P Require Import Prelude.

(** ** State *)

(** The settings of a [struct pci_dev] and its [struct device] that the driver reads or
    writes; the interrupt handler, the region and the BAR mapping are this driver's own. *)
Record pci_cfg := MkCfg {
  pc_enabled : bool;
  pc_readrq : Z;
  pc_is_busmaster : bool;
  pc_msi : bool;
  pc_irq_handler : bool;
  pc_bar_region : bool;
  pc_bar_iomap : bool;
  pc_dma_mask : Z;
  pc_coherent_dma_mask : Z;
  pc_max_seg_size : Z;
  pc_min_align_mask : Z;
}.

#[export] Instance eta_cfg : Eta pci_cfg := fun r =>
  MkCfg (pc_enabled r) (pc_readrq r) (pc_is_busmaster r) (pc_msi r) (pc_irq_handler r)
    (pc_bar_region r) (pc_bar_iomap r) (pc_dma_mask r) (pc_coherent_dma_mask r)
    (pc_max_seg_size r) (pc_min_align_mask r).

(** The fields of [mx_pci_dev] that remember what was changed. *)
Record mx_pci := MkPci {
  pci : pci_cfg;
  bar : bool;
  bar_mapped_size : Z;
  bar_region_requested : bool;
  irq_requested : bool;
  msi_enabled_by_driver : bool;
  readrq_changed : bool;
  saved_readrq : Z;
  min_align_mask_changed : bool;
  saved_min_align_mask : Z;
  max_seg_size_changed : bool;
  saved_max_seg_size : Z;
  coherent_dma_mask_changed : bool;
  saved_coherent_dma_mask : Z;
  dma_mask_changed : bool;
  saved_dma_mask : Z;
  bus_master_enabled_by_driver : bool;
  pci_enabled_by_driver : bool;
}.

#[export] Instance eta_pci : Eta mx_pci := fun r =>
  MkPci (pci r) (bar r) (bar_mapped_size r) (bar_region_requested r) (irq_requested r)
    (msi_enabled_by_driver r) (readrq_changed r) (saved_readrq r) (min_align_mask_changed r)
    (saved_min_align_mask r) (max_seg_size_changed r) (saved_max_seg_size r)
    (coherent_dma_mask_changed r) (saved_coherent_dma_mask r) (dma_mask_changed r)
    (saved_dma_mask r) (bus_master_enabled_by_driver r) (pci_enabled_by_driver r).

(** As [kzalloc] leaves it, on a function configured as [c]. *)
Definition pci_zero (c : pci_cfg) : mx_pci :=
  MkPci c false 0 false false false false 0 false 0 false 0 false 0 false 0 false false.

(** What the PCI core, the DMA API and the interrupt core answer.  A setter that returns
    nonzero leaves the setting alone. *)
Record pci_core := MkCore {
  k_request_region : Z;
  k_resource_len : Z;
  k_iomap : bool;
  k_enable : Z;
  k_readrq_error : Z;
  k_set_readrq : Z → Z;
  k_enable_msi : Z;
  k_irq_vector : Z;
  k_request_irq : Z;
  k_set_dma_mask : Z → Z;
  k_set_coherent_mask : Z → Z;
  k_set_max_seg_size : Z → Z;
}.

Definition PAGE_SIZE : Z := 4096.
Definition SZ_1G : Z := 1073741824.
Definition DMA_BIT_MASK (n : Z) : Z := 2 ^ n - 1.

(** The setting [f] becomes [v]. *)
Notation "m <| 'cfg' f := v |>" := (m <| pci := (pci m) <| f := v |> |>)
  (at level 1, f at level 9, v at level 200, left associativity) : c_scope.

(** ** Attaching *)

Definition dev_map (k : pci_core) (m : mx_pci) : Z * mx_pci :=
  RETURN (k_request_region k, m) WHEN (nz (k_request_region k)) ;;
  let m := m <| cfg pc_bar_region := true |> <| bar_region_requested := true |> in
  let m := if k_iomap k then m <| cfg pc_bar_iomap := true |> <| bar := true |> else m in
  RETURN (- ENOMEM, m <| cfg pc_bar_region := false |> <| bar_region_requested := false |>)
    WHEN (negb (bar m)) ;;
  (0, m <| bar_mapped_size := k_resource_len k |>).

Definition pcie_get_readrq (k : pci_core) (m : mx_pci) : Z :=
  if k_readrq_error k <? 0 then k_readrq_error k else pc_readrq (pci m).

(** [if (pci_is_enabled(pdev) == false)]; [cxl]: not [CONFIG_WO_CXL]. *)
Definition init_enable (cxl : bool) (k : pci_core) (m : mx_pci) : Z * mx_pci :=
  RETURN (0, m) WHEN (pc_enabled (pci m)) ;;
  RETURN (- ENODEV, m) WHEN cxl ;;
  RETURN (k_enable k, m) WHEN (nz (k_enable k)) ;;
  (0, m <| cfg pc_enabled := true |> <| pci_enabled_by_driver := true |>).

Definition init_readrq (k : pci_core) (m : mx_pci) : Z * mx_pci :=
  let m := m <| saved_readrq := pcie_get_readrq k m |> in
  RETURN (saved_readrq m, m) WHEN (saved_readrq m <? 0) ;;
  RETURN (0, m) WHEN (saved_readrq m =? PAGE_SIZE) ;;
  RETURN (k_set_readrq k PAGE_SIZE, m) WHEN (nz (k_set_readrq k PAGE_SIZE)) ;;
  (0, m <| cfg pc_readrq := PAGE_SIZE |> <| readrq_changed := true |>).

Definition init_master (cxl : bool) (m : mx_pci) : Z * mx_pci :=
  RETURN (0, m) WHEN (pc_is_busmaster (pci m)) ;;
  RETURN (- ENODEV, m) WHEN cxl ;;
  (0, m <| cfg pc_is_busmaster := true |> <| bus_master_enabled_by_driver := true |>).

Definition init_msi (k : pci_core) (m : mx_pci) : Z * mx_pci :=
  RETURN (0, m) WHEN (pc_msi (pci m)) ;;
  RETURN (k_enable_msi k, m) WHEN (nz (k_enable_msi k)) ;;
  (0, m <| cfg pc_msi := true |> <| msi_enabled_by_driver := true |>).

Definition init_irq (k : pci_core) (m : mx_pci) : Z * mx_pci :=
  RETURN (- ENODEV, m) WHEN (k_irq_vector k <? 0) ;;
  RETURN (k_request_irq k, m) WHEN (nz (k_request_irq k)) ;;
  (0, m <| cfg pc_irq_handler := true |> <| irq_requested := true |>).

(** One stage after the other, up to the first that fails. *)
Definition and_then (f : mx_pci → Z * mx_pci) (r : Z * mx_pci) : Z * mx_pci :=
  if nz r.1 then r else f r.2.

Definition pci_device_init (cxl : bool) (k : pci_core) (m : mx_pci) : Z * mx_pci :=
  and_then (init_irq k) (and_then (init_msi k) (and_then (init_master cxl)
    (and_then (init_readrq k) (init_enable cxl k m)))).

(** [dma_set_mask], [dma_set_coherent_mask] and [dma_set_max_seg_size]. *)
Definition dma_set_mask (k : pci_core) (v : Z) (m : mx_pci) : Z * mx_pci :=
  if nz (k_set_dma_mask k v) then (k_set_dma_mask k v, m) else (0, m <| cfg pc_dma_mask := v |>).
Definition dma_set_coherent_mask (k : pci_core) (v : Z) (m : mx_pci) : Z * mx_pci :=
  if nz (k_set_coherent_mask k v) then (k_set_coherent_mask k v, m)
  else (0, m <| cfg pc_coherent_dma_mask := v |>).
Definition dma_set_max_seg_size (k : pci_core) (v : Z) (m : mx_pci) : Z * mx_pci :=
  if nz (k_set_max_seg_size k v) then (k_set_max_seg_size k v, m)
  else (0, m <| cfg pc_max_seg_size := v |>).
Definition pcie_set_readrq (k : pci_core) (v : Z) (m : mx_pci) : Z * mx_pci :=
  if nz (k_set_readrq k v) then (k_set_readrq k v, m) else (0, m <| cfg pc_readrq := v |>).

(** The widest mask the device takes: 48 bits, else 32. *)
Definition select_mask (k : pci_core) (m : mx_pci) : option Z * mx_pci :=
  let '(ret, m) := dma_set_mask k (DMA_BIT_MASK 48) m in
  RETURN (Some (DMA_BIT_MASK 48), m) WHEN (negb (nz ret)) ;;
  let '(ret, m) := dma_set_mask k (DMA_BIT_MASK 32) m in
  RETURN (Some (DMA_BIT_MASK 32), m) WHEN (negb (nz ret)) ;;
  (None, m).

Definition set_max_seg (k : pci_core) (m : mx_pci) : Z * mx_pci :=
  let m := m <| saved_max_seg_size := pc_max_seg_size (pci m) |> in
  RETURN (0, m) WHEN (negb (SZ_1G <? saved_max_seg_size m)) ;;
  let '(ret, m) := dma_set_max_seg_size k SZ_1G m in
  RETURN (ret, m) WHEN (nz ret) ;;
  (0, m <| max_seg_size_changed := true |>).

Definition set_min_align (m : mx_pci) : Z * mx_pci :=
  let m := m <| saved_min_align_mask := pc_min_align_mask (pci m) |> in
  let required := Z.lor (saved_min_align_mask m) (PAGE_SIZE - 1) in
  RETURN (0, m) WHEN (required =? saved_min_align_mask m) ;;
  (0, m <| cfg pc_min_align_mask := required |> <| min_align_mask_changed := true |>).

(** The branch without [CONFIG_WO_CXL]: every parameter is saved before it changes. *)
Definition set_dma_masks_cxl (k : pci_core) (m : mx_pci) : Z * mx_pci :=
  RETURN (- EINVAL, m) WHEN (pc_dma_mask (pci m) =? 0) ;;
  let m := m <| saved_dma_mask := pc_dma_mask (pci m) |>
             <| saved_coherent_dma_mask := pc_coherent_dma_mask (pci m) |> in
  match select_mask k m with
  | (None, m) => (- EINVAL, m)
  | (Some selected, m) =>
    let m := m <| dma_mask_changed := negb (selected =? saved_dma_mask m) |> in
    let '(ret, m) := dma_set_coherent_mask k selected m in
    RETURN (- EINVAL, m) WHEN (nz ret) ;;
    (0, m <| coherent_dma_mask_changed := negb (selected =? saved_coherent_dma_mask m) |>)
  end.

(** The branch with [CONFIG_WO_CXL]: the function is the driver's own. *)
Definition set_dma_standalone (k : pci_core) (m : mx_pci) : Z * mx_pci :=
  match select_mask k m with
  | (None, m) => (- EINVAL, m)
  | (Some selected, m) =>
    let '(ret, m) := dma_set_coherent_mask k selected m in
    RETURN (- EINVAL, m) WHEN (nz ret) ;;
    let '(_, m) := dma_set_max_seg_size k SZ_1G m in
    (0, m <| cfg pc_min_align_mask := PAGE_SIZE - 1 |>)
  end.

Definition set_dma_addressing (cxl : bool) (k : pci_core) (m : mx_pci) : Z * mx_pci :=
  if cxl then and_then set_min_align (and_then (set_max_seg k) (set_dma_masks_cxl k m))
  else set_dma_standalone k m.

(** ** Detaching *)

Definition dev_unmap (m : mx_pci) : mx_pci :=
  let m := if bar m then m <| cfg pc_bar_iomap := false |> <| bar := false |> else m in
  if bar_region_requested m
  then m <| cfg pc_bar_region := false |> <| bar_region_requested := false |> else m.

Definition exit_irq (m : mx_pci) : mx_pci :=
  if irq_requested m then m <| cfg pc_irq_handler := false |> <| irq_requested := false |> else m.
Definition exit_msi (m : mx_pci) : mx_pci :=
  if msi_enabled_by_driver m then m <| cfg pc_msi := false |> <| msi_enabled_by_driver := false |> else m.
Definition exit_readrq (k : pci_core) (m : mx_pci) : mx_pci :=
  if readrq_changed m then (pcie_set_readrq k (saved_readrq m) m).2 <| readrq_changed := false |> else m.
Definition exit_min_align (m : mx_pci) : mx_pci :=
  if min_align_mask_changed m
  then m <| cfg pc_min_align_mask := saved_min_align_mask m |> <| min_align_mask_changed := false |> else m.
Definition exit_max_seg (k : pci_core) (m : mx_pci) : mx_pci :=
  if max_seg_size_changed m
  then (dma_set_max_seg_size k (saved_max_seg_size m) m).2 <| max_seg_size_changed := false |> else m.
Definition exit_coherent (k : pci_core) (m : mx_pci) : mx_pci :=
  if coherent_dma_mask_changed m
  then (dma_set_coherent_mask k (saved_coherent_dma_mask m) m).2 <| coherent_dma_mask_changed := false |> else m.
Definition exit_dma_mask (k : pci_core) (m : mx_pci) : mx_pci :=
  if dma_mask_changed m then (dma_set_mask k (saved_dma_mask m) m).2 <| dma_mask_changed := false |> else m.
Definition exit_master (m : mx_pci) : mx_pci :=
  if bus_master_enabled_by_driver m
  then m <| cfg pc_is_busmaster := false |> <| bus_master_enabled_by_driver := false |> else m.
Definition exit_enable (m : mx_pci) : mx_pci :=
  if pci_enabled_by_driver m
  then m <| cfg pc_enabled := false |> <| pci_enabled_by_driver := false |> else m.

Definition pci_device_exit (k : pci_core) (m : mx_pci) : mx_pci :=
  exit_enable (exit_master (exit_dma_mask k (exit_coherent k (exit_max_seg k
    (exit_min_align (exit_readrq k (exit_msi (exit_irq m)))))))).

(** The stages of [create_mx_pdev] that configure the function, and the two calls of
    [destroy_mx_pdev] that undo them. *)
Definition pci_attach (cxl : bool) (k : pci_core) (m : mx_pci) : Z * mx_pci :=
  and_then (set_dma_addressing cxl k) (and_then (pci_device_init cxl k) (dev_map k m)).

Definition pci_detach (k : pci_core) (m : mx_pci) : mx_pci := pci_device_exit k (dev_unmap m).

(** ** Every change can be undone *)

(** A boolean setting of the original configuration [v0]: the driver turned it on, or it
    is as it was. *)
Definition undo_bool (ours cur v0 : bool) : Prop := if ours then v0 = false else cur = v0.
(** A numeric setting: its old value was saved, or it is as it was. *)
Definition undo_val (changed : bool) (saved cur v0 : Z) : Prop := if changed then saved = v0 else cur = v0.

Record restorable (cxl : bool) (c0 : pci_cfg) (m : mx_pci) : Prop := {
  rs_enable : undo_bool (pci_enabled_by_driver m) (pc_enabled (pci m)) (pc_enabled c0);
  rs_readrq : undo_val (readrq_changed m) (saved_readrq m) (pc_readrq (pci m)) (pc_readrq c0);
  rs_master : undo_bool (bus_master_enabled_by_driver m) (pc_is_busmaster (pci m)) (pc_is_busmaster c0);
  rs_msi : undo_bool (msi_enabled_by_driver m) (pc_msi (pci m)) (pc_msi c0);
  rs_irq : undo_bool (irq_requested m) (pc_irq_handler (pci m)) (pc_irq_handler c0);
  rs_region : undo_bool (bar_region_requested m) (pc_bar_region (pci m)) (pc_bar_region c0);
  rs_iomap : undo_bool (bar m) (pc_bar_iomap (pci m)) (pc_bar_iomap c0);
  rs_mask : cxl = true →
    undo_val (dma_mask_changed m) (saved_dma_mask m) (pc_dma_mask (pci m)) (pc_dma_mask c0);
  rs_coherent : cxl = true → undo_val (coherent_dma_mask_changed m) (saved_coherent_dma_mask m)
    (pc_coherent_dma_mask (pci m)) (pc_coherent_dma_mask c0);
  rs_seg : cxl = true → undo_val (max_seg_size_changed m) (saved_max_seg_size m)
    (pc_max_seg_size (pci m)) (pc_max_seg_size c0);
  rs_align : cxl = true → undo_val (min_align_mask_changed m) (saved_min_align_mask m)
    (pc_min_align_mask (pci m)) (pc_min_align_mask c0);
}.

(** The stages from [n] on have not run. *)
Record unchanged_from (n : nat) (m : mx_pci) : Prop := {
  uf_map : (n ≤ 0)%nat → bar_region_requested m = false ∧ bar m = false ∧
    pc_bar_region (pci m) = false ∧ pc_bar_iomap (pci m) = false;
  uf_enable : (n ≤ 1)%nat → pci_enabled_by_driver m = false;
  uf_readrq : (n ≤ 2)%nat → readrq_changed m = false;
  uf_master : (n ≤ 3)%nat → bus_master_enabled_by_driver m = false;
  uf_msi : (n ≤ 4)%nat → msi_enabled_by_driver m = false;
  uf_irq : (n ≤ 5)%nat → irq_requested m = false ∧ pc_irq_handler (pci m) = false;
  uf_masks : (n ≤ 6)%nat → dma_mask_changed m = false ∧ coherent_dma_mask_changed m = false;
  uf_seg : (n ≤ 7)%nat → max_seg_size_changed m = false;
  uf_align : (n ≤ 8)%nat → min_align_mask_changed m = false;
}.

(** The stages from [n] up to [n'], whatever their outcome, keep every change undoable. *)
Definition stage_ok (cxl : bool) (n n' : nat) (f : mx_pci → Z * mx_pci) : Prop :=
  ∀ c0 m, restorable cxl c0 m → unchanged_from n m →
    restorable cxl c0 (f m).2 ∧ unchanged_from n' (f m).2.

Ltac stage_cases :=
  intros [] [[] ? ? ? ? ? ? ? ? ? ? ? ? ? ? ? ? ?] [] []; unfold undo_bool, undo_val in *; cbn in *;
  repeat match goal with H : (?n ≤ ?k)%nat → _ |- _ => specialize (H ltac:(lia)) end;
  destruct_and?; subst.

(** Case analysis on the guards of the stage only. *)
Ltac stage_split :=
  repeat (match goal with
    | |- context [if ?c then _ else _] =>
      lazymatch c with context [if _ then _ else _] => fail | _ => destruct c eqn:? end
    end; cbn [negb nz fst snd] in *; try discriminate).

Ltac stage_done :=
  split; constructor; unfold undo_bool, undo_val; cbn in *; intros;
  repeat match goal with H : ?x = ?x → _ |- _ => specialize (H eq_refl) end;
  try match goal with H : (_ ≤ _)%nat |- _ => by (exfalso; clear - H; lia) end;
  first [done | by auto | by (split_if; breflect; subst) | by (breflect; subst) | congruence].

Lemma dev_map_stage cxl k : stage_ok cxl 0 1 (dev_map k).
Proof. stage_cases. unfold dev_map. stage_split; stage_done. Qed.

Lemma init_enable_stage cxl k : stage_ok cxl 1 2 (init_enable cxl k).
Proof. stage_cases. unfold init_enable. stage_split; stage_done. Qed.

Lemma init_readrq_stage cxl k : stage_ok cxl 2 3 (init_readrq k).
Proof. stage_cases. unfold init_readrq, pcie_get_readrq. stage_split; stage_done.
Qed.

Lemma init_master_stage cxl : stage_ok cxl 3 4 (init_master cxl).
Proof. stage_cases. unfold init_master. stage_split; stage_done. Qed.

Lemma init_msi_stage cxl k : stage_ok cxl 4 5 (init_msi k).
Proof. stage_cases. unfold init_msi. stage_split; stage_done. Qed.

Lemma init_irq_stage cxl k : stage_ok cxl 5 6 (init_irq k).
Proof. stage_cases. unfold init_irq. stage_split; stage_done. Qed.

Lemma masks_stage k : stage_ok true 6 7 (set_dma_masks_cxl k).
Proof.
  stage_cases. unfold set_dma_masks_cxl, select_mask, dma_set_mask, dma_set_coherent_mask.
  generalize (DMA_BIT_MASK 48) (DMA_BIT_MASK 32); intros. stage_split; stage_done.
Qed.

Lemma max_seg_stage k : stage_ok true 7 8 (set_max_seg k).
Proof. stage_cases. unfold set_max_seg, dma_set_max_seg_size. stage_split; stage_done. Qed.

Lemma min_align_stage : stage_ok true 8 9 set_min_align.
Proof. stage_cases. unfold set_min_align. stage_split; stage_done. Qed.

Lemma standalone_stage k : stage_ok false 6 7 (set_dma_standalone k).
Proof.
  stage_cases. unfold set_dma_standalone, select_mask, dma_set_mask, dma_set_coherent_mask, dma_set_max_seg_size.
  generalize (DMA_BIT_MASK 48) (DMA_BIT_MASK 32); intros. stage_split; stage_done.
Qed.

Lemma unchanged_weaken n n' m : (n ≤ n')%nat → unchanged_from n m → unchanged_from n' m.
Proof. intros ? []. constructor; intros; auto with lia. Qed.

Lemma and_then_ok cxl n n' n'' f g :
  (n' ≤ n'')%nat → stage_ok cxl n' n'' f → stage_ok cxl n n' g → stage_ok cxl n n'' (fun m => and_then f (g m)).
Proof.
  intros Hn Hf Hg c0 m Hr Hu. destruct (Hg c0 m Hr Hu) as [Hr' Hu']. unfold and_then.
  destruct (nz (g m).1); [split; [done | by eapply unchanged_weaken] | by apply Hf].
Qed.

Lemma pci_device_init_ok cxl k : stage_ok cxl 1 6 (pci_device_init cxl k).
Proof.
  apply (and_then_ok cxl 1 5); [lia | apply init_irq_stage |].
  apply (and_then_ok cxl 1 4); [lia | apply init_msi_stage |].
  apply (and_then_ok cxl 1 3); [lia | apply init_master_stage |].
  apply (and_then_ok cxl 1 2); [lia | apply init_readrq_stage | apply init_enable_stage].
Qed.

Lemma set_dma_addressing_ok cxl k : stage_ok cxl 6 9 (set_dma_addressing cxl k).
Proof.
  destruct cxl.
  - apply (and_then_ok true 6 8); [lia | apply min_align_stage |].
    apply (and_then_ok true 6 7); [lia | apply max_seg_stage | apply masks_stage].
  - intros c0 m Hr Hu. destruct (standalone_stage k c0 m Hr Hu). split; [done|].
    by apply (unchanged_weaken 7); [lia|].
Qed.

(** Attaching, however far it gets, changes nothing that cannot be put back. *)
Lemma pci_attach_restorable cxl k c0 :
  pc_irq_handler c0 = false → pc_bar_region c0 = false → pc_bar_iomap c0 = false →
  restorable cxl c0 (pci_attach cxl k (pci_zero c0)).2.
Proof.
  intros H1 H2 H3.
  assert (stage_ok cxl 0 9 (pci_attach cxl k)) as Hs.
  { apply (and_then_ok cxl 0 6); [lia | apply set_dma_addressing_ok |].
    apply (and_then_ok cxl 0 1); [lia | apply pci_device_init_ok | apply dev_map_stage]. }
  apply Hs; by constructor.
Qed.

(** ** Undoing it *)

(** The PCI core and the DMA API take back the settings they had. *)
Record accepts (k : pci_core) (c0 : pci_cfg) : Prop := {
  ac_readrq : k_set_readrq k (pc_readrq c0) = 0;
  ac_mask : k_set_dma_mask k (pc_dma_mask c0) = 0;
  ac_coherent : k_set_coherent_mask k (pc_coherent_dma_mask c0) = 0;
  ac_seg : k_set_max_seg_size k (pc_max_seg_size c0) = 0;
}.

(** The first [n] steps of the exit have run. *)
Record exited (n : nat) (m : mx_pci) : Prop := {
  ex_map : (1 ≤ n)%nat → bar m = false ∧ bar_region_requested m = false;
  ex_irq : (2 ≤ n)%nat → irq_requested m = false;
  ex_msi : (3 ≤ n)%nat → msi_enabled_by_driver m = false;
  ex_readrq : (4 ≤ n)%nat → readrq_changed m = false;
  ex_align : (5 ≤ n)%nat → min_align_mask_changed m = false;
  ex_seg : (6 ≤ n)%nat → max_seg_size_changed m = false;
  ex_coherent : (7 ≤ n)%nat → coherent_dma_mask_changed m = false;
  ex_mask : (8 ≤ n)%nat → dma_mask_changed m = false;
  ex_master : (9 ≤ n)%nat → bus_master_enabled_by_driver m = false;
  ex_enable : (10 ≤ n)%nat → pci_enabled_by_driver m = false;
}.

Definition exit_ok (k : pci_core) (n : nat) (f : mx_pci → mx_pci) : Prop :=
  ∀ cxl c0 m, accepts k c0 → restorable cxl c0 m → exited n m →
    restorable cxl c0 (f m) ∧ exited (S n) (f m).

Ltac exit_cases cxl :=
  intros cxl [] [[] ? ? ? ? ? ? ? ? ? ? ? ? ? ? ? ? ?] [] [] []; unfold undo_bool, undo_val in *; cbn in *;
  stage_split.

Ltac exit_done cxl :=
  repeat match goal with H : (?n ≤ ?k)%nat → _ |- _ => specialize (H ltac:(lia)) end;
  split; constructor; unfold undo_bool, undo_val; cbn in *; intros;
  try match goal with H : (_ ≤ _)%nat |- _ => by (exfalso; clear - H; lia) end;
  repeat match goal with H : cxl = true, J : cxl = true → _ |- _ => specialize (J H) end;
  repeat match goal with H : ?x = _, J : context [if ?x then _ else _] |- _ => rewrite H in J end;
  repeat match goal with H : ?x = _ |- context [if ?x then _ else _] => rewrite H end;
  first [done | by auto | congruence | breflect; congruence].

Lemma dev_unmap_exit k : exit_ok k 0 dev_unmap.
Proof. unfold dev_unmap. exit_cases cxl; exit_done cxl. Qed.

Lemma exit_irq_exit k : exit_ok k 1 exit_irq.
Proof. unfold exit_irq. exit_cases cxl; exit_done cxl. Qed.

Lemma exit_msi_exit k : exit_ok k 2 exit_msi.
Proof. unfold exit_msi. exit_cases cxl; exit_done cxl. Qed.

Lemma exit_readrq_exit k : exit_ok k 3 (exit_readrq k).
Proof. unfold exit_readrq, pcie_set_readrq. exit_cases cxl; exit_done cxl. Qed.

Lemma exit_min_align_exit k : exit_ok k 4 exit_min_align.
Proof. unfold exit_min_align. exit_cases cxl; exit_done cxl. Qed.

Lemma exit_max_seg_exit k : exit_ok k 5 (exit_max_seg k).
Proof. unfold exit_max_seg, dma_set_max_seg_size. exit_cases cxl; exit_done cxl. Qed.

Lemma exit_coherent_exit k : exit_ok k 6 (exit_coherent k).
Proof. unfold exit_coherent, dma_set_coherent_mask. exit_cases cxl; exit_done cxl. Qed.

Lemma exit_dma_mask_exit k : exit_ok k 7 (exit_dma_mask k).
Proof. unfold exit_dma_mask, dma_set_mask. exit_cases cxl; exit_done cxl. Qed.

Lemma exit_master_exit k : exit_ok k 8 exit_master.
Proof. unfold exit_master. exit_cases cxl; exit_done cxl. Qed.

Lemma exit_enable_exit k : exit_ok k 9 exit_enable.
Proof. unfold exit_enable. exit_cases cxl; exit_done cxl. Qed.

Lemma pci_detach_ok cxl k c0 m :
  accepts k c0 → restorable cxl c0 m →
  restorable cxl c0 (pci_detach k m) ∧ exited 10 (pci_detach k m).
Proof.
  intros Ha Hr. assert (exited 0 m) as He by (constructor; lia).
  assert (∀ n f m, exit_ok k n f → restorable cxl c0 m ∧ exited n m →
    restorable cxl c0 (f m) ∧ exited (S n) (f m)) as Hs by (intros ? ? ? Hf []; by apply Hf).
  unfold pci_detach, pci_device_exit.
  apply (Hs 9%nat exit_enable); [apply exit_enable_exit|].
  apply (Hs 8%nat exit_master); [apply exit_master_exit|].
  apply (Hs 7%nat (exit_dma_mask k)); [apply exit_dma_mask_exit|].
  apply (Hs 6%nat (exit_coherent k)); [apply exit_coherent_exit|].
  apply (Hs 5%nat (exit_max_seg k)); [apply exit_max_seg_exit|].
  apply (Hs 4%nat exit_min_align); [apply exit_min_align_exit|].
  apply (Hs 3%nat (exit_readrq k)); [apply exit_readrq_exit|].
  apply (Hs 2%nat exit_msi); [apply exit_msi_exit|].
  apply (Hs 1%nat exit_irq); [apply exit_irq_exit|].
  apply (Hs 0%nat dev_unmap); [apply dev_unmap_exit|].
  by split.
Qed.

Lemma exit_exited k m : exited 10 m → pci_device_exit k m = m.
Proof.
  intros []. unfold pci_device_exit.
  assert (exit_irq m = m) as -> by (unfold exit_irq; by rewrite ex_irq0 by lia).
  assert (exit_msi m = m) as -> by (unfold exit_msi; by rewrite ex_msi0 by lia).
  assert (exit_readrq k m = m) as -> by (unfold exit_readrq; by rewrite ex_readrq0 by lia).
  assert (exit_min_align m = m) as -> by (unfold exit_min_align; by rewrite ex_align0 by lia).
  assert (exit_max_seg k m = m) as -> by (unfold exit_max_seg; by rewrite ex_seg0 by lia).
  assert (exit_coherent k m = m) as -> by (unfold exit_coherent; by rewrite ex_coherent0 by lia).
  assert (exit_dma_mask k m = m) as -> by (unfold exit_dma_mask; by rewrite ex_mask0 by lia).
  assert (exit_master m = m) as -> by (unfold exit_master; by rewrite ex_master0 by lia).
  unfold exit_enable. by rewrite ex_enable0 by lia.
Qed.

Lemma detach_exited k m : exited 10 m → pci_detach k m = m.
Proof.
  intros He. unfold pci_detach, dev_unmap. destruct (ex_map _ _ He) as [Hb Hr]; [lia|].
  rewrite Hb. cbv zeta. rewrite Hr. by apply exit_exited.
Qed.

(** What a driver that shares the function sees of it: in the standalone build the DMA
    parameters belong to this driver and are left as set. *)
Definition foreign_config (cxl : bool) (c : pci_cfg) : pci_cfg :=
  if cxl then c
  else c <| pc_dma_mask := 0 |> <| pc_coherent_dma_mask := 0 |> <| pc_max_seg_size := 0 |>
         <| pc_min_align_mask := 0 |>.

Lemma restored_config cxl c0 m :
  restorable cxl c0 m → exited 10 m → foreign_config cxl (pci m) = foreign_config cxl c0.
Proof.
  intros [] []. repeat match goal with H : (?n ≤ ?k)%nat → _ |- _ => specialize (H ltac:(lia)) end.
  destruct_and?. unfold undo_bool, undo_val in *.
  repeat match goal with H : ?x = false, J : context [if ?x then _ else _] |- _ => rewrite H in J end.
  destruct (pci m), c0, cxl; cbn in *; subst; [|done]. f_equal; auto.
Qed.

(** C37: the PCI function is handed back as it was found.  However far attaching gets (a
    failed region request, BAR mapping, enable, read request size, MSI, interrupt or DMA
    mask included), unmapping and [pci_device_exit] leave the settings the function had:
    enablement, read request size, bus mastering, MSI and, under the CXL driver, both DMA
    masks, the segment size and the alignment mask; no handler, region or mapping of this
    driver stays; and nothing is left recorded that a second exit would undo again. *)
Theorem pci_settings_restored cxl k c0 :
  accepts k c0 → pc_irq_handler c0 = false → pc_bar_region c0 = false → pc_bar_iomap c0 = false →
  let m := pci_detach k (pci_attach cxl k (pci_zero c0)).2 in
  foreign_config cxl (pci m) = foreign_config cxl c0 ∧ pci_detach k m = m.
Proof.
  intros Ha H1 H2 H3.
  pose proof (pci_detach_ok cxl k c0 _ Ha (pci_attach_restorable cxl k c0 H1 H2 H3)) as [Hr He].
  split; [exact (restored_config _ _ _ Hr He) | exact (detach_exited _ _ He)].
Qed.

Definition demo_cfg : pci_cfg :=
  MkCfg true 512 true false false false false (DMA_BIT_MASK 64) (DMA_BIT_MASK 64) (4 * SZ_1G - 1) 0.
(** A platform whose bounce buffers only take 32-bit coherent memory. *)
Definition demo_core : pci_core :=
  MkCore 0 65536 true 0 0 (fun _ => 0) 0 7 0 (fun _ => 0)
    (fun v => if v =? DMA_BIT_MASK 48 then - EIO else 0) (fun _ => 0).

Lemma pci_settings_restored_witness :
  (pci_attach true demo_core (pci_zero demo_cfg)).1 = - EINVAL ∧
  pc_dma_mask (pci (pci_attach true demo_core (pci_zero demo_cfg)).2) = DMA_BIT_MASK 48 ∧
  let m := pci_detach demo_core (pci_attach true demo_core (pci_zero demo_cfg)).2 in
  foreign_config true (pci m) = foreign_config true demo_cfg ∧ pci_detach demo_core m = m.
Proof.
  split; [vm_compute; reflexivity|]. split; [vm_compute; reflexivity|].
  exact (pci_settings_restored true demo_core demo_cfg (Build_accepts demo_core demo_cfg eq_refl eq_refl eq_refl eq_refl)
    eq_refl eq_refl eq_refl).
Defined.
