(* ===== verification/QueueOps.v ===== *)
(** * The queue operations a device version registers (struct mx_operations)

    The interface through which init.c drives either queue implementation, the laws it
    relies on, and the two implementations: [register_mx_ops_v1] (src/core_v1.c) and
    [register_mx_ops_v2] (src/core_v2.c). *)

From S2P Require Import Prelude Threads Mbox QueueV1 QueueV2 AdminV2.

(** ** The interface *)

(** [Q]: the fields of [mx_pci_dev] that belong to the queues; [E]: what the device and
    the allocator answer during one call.  A call of [recover_queue] can wait for the
    device, [None]: it still waits. *)
Class QueueOps (Q E : Type) := {
  io_queue : Q → bool;
  reserved_hio_qid : Q → Z;
  threads : Q → queue_threads;
  protocol_poisoned : Q → bool;
  queue_dma_programmed : Q → bool;
  set_poisoned : Q → Q;
  set_threads : queue_threads → Q → Q;
  init_queue : E → Q → Z * Q;
  release_queue : E → Q → Z * Q;
  recover_queue : option (E → Q → option (Z * Q));
  free_queue : Q → Q;
}.

(** What init.c may assume.  [fresh]: as allocated; [owned]: there is something to poison;
    [ready]: initialised; [disowned]: the device knows no address of queue memory. *)
Class QueueLaws (Q E : Type) `{!QueueOps Q E} := {
  inv : Q → Prop;
  fresh : Q → Prop;
  owned : Q → Prop;
  ready : Q → Prop;
  disowned : Q → Prop;
  law_fresh q : fresh q → inv q ∧ threads q = no_threads ∧ protocol_poisoned q = false;
  law_init e q ret q' : fresh q → init_queue e q = (ret, q') →
    inv q' ∧ (ret = 0 → ready q' ∧ protocol_poisoned q' = false) ∧ (ret ≠ 0 → threads q' = no_threads);
  law_io q : inv q → io_queue q = true → owned q;
  law_ready q : inv q → ready q → owned q;
  law_off q : inv q → queue_dma_programmed q = false → disowned q;
  law_poison q : inv q → owned q →
    inv (set_poisoned q) ∧ owned (set_poisoned q) ∧ protocol_poisoned (set_poisoned q) = true ∧
    threads (set_poisoned q) = threads q ∧ (ready q → ready (set_poisoned q)) ∧
    (disowned q → disowned (set_poisoned q));
  law_threads t q : inv q →
    inv (set_threads t q) ∧ threads (set_threads t q) = t ∧
    protocol_poisoned (set_threads t q) = protocol_poisoned q ∧
    (ready q → ready (set_threads t q)) ∧ (disowned q → disowned (set_threads t q));
  law_release e q ret q' :
    inv q → ready q → protocol_poisoned q = false → release_queue e q = (ret, q') →
    inv q' ∧ ready q' ∧ threads q' = no_threads ∧
    (ret = 0 → disowned q' ∧ protocol_poisoned q' = false);
  law_recover f e q ret q' :
    recover_queue = Some f → inv q → f e q = Some (ret, q') →
    inv q' ∧ threads q' = threads q ∧ (ready q → ready q') ∧
    (ret = 0 → disowned q' ∧ protocol_poisoned q' = false) ∧
    (ret ≠ 0 → owned q' ∧ (protocol_poisoned q = true → protocol_poisoned q' = true));
  law_no_recover q : recover_queue (Q := Q) (E := E) = None → inv q → queue_dma_programmed q = false;
}.

(** ** Version 2 *)

(** One call of [init_queue], or one of [release_queue] or [recover_queue] with the
    contents of the admin completion ring while it runs. *)
Record v2_env := MkV2Env {
  ve_init : init_env;
  ve_drain : cq_memory; ve_sq : cq_memory; ve_cq : cq_memory;
  ve_gone : nat → bool; ve_fuel : nat;
}.

#[export] Instance v2_ops : QueueOps admin_st v2_env := {|
  io_queue q := is_ok (ad_io q);
  reserved_hio_qid _ := -1;
  threads := ad_threads;
  protocol_poisoned := ad_poisoned;
  queue_dma_programmed := ad_dma_programmed;
  set_poisoned q := q <| ad_poisoned := true |>;
  set_threads t q := q <| ad_threads := t |>;
  init_queue e q := init_mx_queue (ve_init e) q;
  release_queue e q := release_mx_queue (ve_sq e) (ve_cq e) q;
  recover_queue := Some (fun e q => recover_mx_queue (ve_drain e) (ve_sq e) (ve_cq e) (ve_gone e) (ve_fuel e) q);
  free_queue := free_mx_queue;
|}.

(** Nothing is poisoned or allocated before the admin queue. *)
Definition v2_inv (q : admin_st) : Prop :=
  adm_inv q ∧ (ad_present q = false → ad_poisoned q = false ∧ ad_io q = None).

Definition v2_ready (q : admin_st) : Prop := ad_present q = true ∧ ad_io q ≠ None.

Lemma is_ok_some {A} (o : option A) : is_ok o = true ↔ o ≠ None.
Proof. by destruct o. Qed.

Lemma frame_eq q q' :
  frame q' = frame q →
  ad_threads q' = ad_threads q ∧ ad_present q' = ad_present q ∧ (ad_io q' = None ↔ ad_io q = None).
Proof. intros [= -> -> H]. split_and!; try done. by destruct (ad_io q'), (ad_io q). Qed.

#[export] Program Instance v2_laws : QueueLaws admin_st v2_env := {|
  inv := v2_inv;
  fresh q := st_fresh q ∧ ad_threads q = no_threads;
  owned q := ad_present q = true;
  ready := v2_ready;
  disowned := AdminV2.disowned;
|}.
Next Obligation.
  intros q [Hf Ht]. destruct Hf as (F1 & F2 & F3 & F4 & F5 & F6). split_and!; try done.
  split; [|done]. constructor; unfold io_sq_created, io_cq_created; rewrite ?F2; try done; congruence.
Qed.
Next Obligation.
  intros e q ret q' [Hf Ht] Hi. cbn in *. destruct (init_spec _ _ _ _ Hf Hi) as [I1 _ I3].
  destruct (init_frame _ _ _ _ Hf Ht Hi) as [J1 J2]. split_and!; try done.
  intros Hr. destruct (I3 Hr) as (K1 & K2 & io & K3 & _). split; [|done]. split; [done | by rewrite K3].
Qed.
Next Obligation.
  intros q [_ Hq] Hio%is_ok_some. cbn. destruct (ad_present q) eqn:E; [done|]. by destruct (Hq eq_refl).
Qed.
Next Obligation. intros q _ [H _]. done. Qed.
Next Obligation. intros q [Hi _]. by apply inv_disowned. Qed.
Next Obligation.
  intros q [Hi Hq] Ho. cbn in *. split_and!; try done. split; [by apply set_poisoned_inv|]. cbn. congruence.
Qed.
Next Obligation.
  intros t q [Hi Hq]. cbn in *. split_and!; try done. split; [by apply set_threads_inv | done].
Qed.
Next Obligation.
  intros e q ret q' [Hi Hq] [Hp Hio] Hpo Hr. cbn in *.
  destruct (release_spec _ _ _ _ _ Hi Hr Hp Hio Hpo) as (R1 & R2 & R3 & R4).
  pose proof (release_stops _ _ _ _ _ Hr Hp Hio) as [= T _ _]. split_and!; try done.
  split; [done | congruence].
Qed.
Next Obligation.
  intros f e q ret q' [= <-] [Hi Hq] Hr.
  destruct (recover_spec _ _ _ _ _ _ _ _ Hi Hr) as (R1 & R2 & R3).
  destruct (frame_eq _ _ (recover_keeps _ _ _ _ _ _ _ _ Hr)) as (F1 & F2 & F3). cbn in *.
  destruct (ad_present q) eqn:E.
  - split; [split; [done | congruence]|]. split; [done|]. split.
    { intros [_ H]. split; [congruence | by rewrite F3]. }
    split; [intros H; destruct (R2 H); auto|]. intros H. split; [congruence | by apply R3].
  - unfold recover_mx_queue in Hr. rewrite E in Hr. injection Hr as <- <-. split_and!; try done.
    { split; [done|]. by rewrite E. } intros _. split; [by apply R2 | by apply Hq].
Qed.
Next Obligation. done. Qed.

(** ** Version 1 *)

Definition HMBOX_HIO_QID : Z := 48.
Definition HMBOX_RQ_OFFSET : Z := 4096.
Definition HIFC_MBOX_BAR_OFFSET : Z := 2 ^ 20.

(** The fields of [mx_pci_dev] version 1 uses; the two flags stay as [kzalloc] left them
    unless init.c poisons the device. *)
Record v1_st := MkV1 {
  v1_queue : option mx_queue_v1;
  v1_reserved_hio_qid : Z;
  v1_threads : queue_threads;
  v1_poisoned : bool;
  v1_dma_programmed : bool;
}.

#[export] Instance eta_v1 : Eta v1_st := fun r =>
  MkV1 (v1_queue r) (v1_reserved_hio_qid r) (v1_threads r) (v1_poisoned r) (v1_dma_programmed r).

(** [bar]: the mapped BAR; [readq]: what the device shows at an address of it. *)
Record v1_env := MkV1Env {
  vo_alloc : bool; vo_bar : Z; vo_readq : Z → Z; vo_submit_run : Z; vo_complete_run : Z;
}.

Definition v1_init_mx_queue (e : v1_env) (st : v1_st) : Z * v1_st :=
  RETURN (- ENOMEM, st) WHEN (negb (vo_alloc e)) ;;
  let st := st <| v1_reserved_hio_qid := HMBOX_HIO_QID |> in
  let ctx_addr := vo_bar e + HMBOX_HIO_QID * 8 in
  let ctx := vo_readq e ctx_addr in
  RETURN (- EINVAL, st) WHEN (ctx =? ULLONG_MAX) ;;
  let sq_mbox := mx_mbox_init ctx_addr (vo_bar e + HIFC_MBOX_BAR_OFFSET) ctx in
  let ctx_addr := ctx_addr + HMBOX_RQ_OFFSET in
  let ctx := vo_readq e ctx_addr in
  RETURN (- EINVAL, st) WHEN (ctx =? ULLONG_MAX) ;;
  let cq_mbox := mx_mbox_init ctx_addr (vo_bar e) ctx in
  let '(ret, th) := mx_start_io_queue (vo_submit_run e) (vo_complete_run e) (v1_threads st) in
  let st := st <| v1_threads := th |> in
  RETURN (ret, st) WHEN (nz ret) ;;
  (0, st <| v1_queue := Some (MkQ1 sq_mbox cq_mbox 0 false) |>).

Definition v1_release_mx_queue (st : v1_st) : Z * v1_st :=
  (0, st <| v1_threads := mx_stop_queue_threads (v1_threads st) |>).

Definition v1_free_mx_queue (st : v1_st) : v1_st := st <| v1_queue := None |>.

#[export] Instance v1_ops : QueueOps v1_st v1_env := {|
  io_queue q := is_ok (v1_queue q);
  reserved_hio_qid := v1_reserved_hio_qid;
  threads := v1_threads;
  protocol_poisoned := v1_poisoned;
  queue_dma_programmed := v1_dma_programmed;
  set_poisoned q := q <| v1_poisoned := true |>;
  set_threads t q := q <| v1_threads := t |>;
  init_queue := v1_init_mx_queue;
  release_queue _ q := v1_release_mx_queue q;
  recover_queue := None;
  free_queue := v1_free_mx_queue;
|}.

(** The device is never told an address outside a command. *)
#[export] Program Instance v1_laws : QueueLaws v1_st v1_env := {|
  inv q := v1_dma_programmed q = false;
  fresh q := v1_queue q = None ∧ v1_threads q = no_threads ∧ v1_poisoned q = false ∧ v1_dma_programmed q = false;
  owned q := v1_queue q ≠ None;
  ready q := v1_queue q ≠ None;
  disowned q := v1_dma_programmed q = false;
|}.
Next Obligation. by intros q (H1 & H2 & H3 & H4). Qed.
Next Obligation.
  intros e q ret q' (H1 & H2 & H3 & H4). cbn. unfold v1_init_mx_queue.
  destruct (vo_alloc e); cbn; [|by intros [= <- <-]].
  destruct (_ =? _); [by intros [= <- <-]|]. destruct (_ =? _); [by intros [= <- <-]|].
  destruct (mx_start_io_queue _ _ _) as [r th] eqn:Hs. cbn in Hs. rewrite H2 in Hs. apply start_threads in Hs as [[-> ->]|[Hr ->]].
  - by intros [= <- <-].
  - rewrite (proj2 (negb_true_iff _) (proj2 (Z.eqb_neq _ _) Hr) : nz r = true). by intros [= <- <-].
Qed.
Next Obligation. intros q _ H. by apply is_ok_some. Qed.
Next Obligation. done. Qed.
Next Obligation. done. Qed.
Next Obligation. done. Qed.
Next Obligation. done. Qed.
Next Obligation. by intros e q ret q' Hi Hr Hp [= <- <-]. Qed.
Next Obligation. done. Qed.
Next Obligation. done. Qed.
