(* ===== verification/Lifecycle.v ===== *)
(** * Creating and destroying a device (src/init.c)

    [create_mx_pdev] and [destroy_mx_pdev] over the queue interface of QueueOps: what is
    built in which order, what a failed attach undoes, and when teardown may free memory
    the device can still reach. *)

From S2P Require Import Prelude Threads Mbox LeaseTypes Lease BarMap PciConfig QueueV2 AdminV2 QueueOps.

Section device.
Context {Q E : Type} `{!QueueOps Q E}.

(** ** State *)

(** A character device: its [enabled] flag and the references on its [struct device]
    (one of probe, one per open file). *)
Record mx_char_dev := MkCdev { cd_enabled : bool; cd_refs : Z }.

#[export] Instance eta_cdev : Eta mx_char_dev := fun r => MkCdev (cd_enabled r) (cd_refs r).

(** [mx_pci_dev] as far as its lifecycle goes.  [pd_freed]: the queues as they were when
    [free_queue] freed their memory. *)
Record mx_pci_dev := MkPdev {
  pd_q : Q;
  pd_pci : mx_pci;
  pd_bar : bar_dev;
  pd_lease : mx_device_lease;
  pd_queues_initialized : bool;
  pd_teardown_started : bool;
  pd_dma_reclaim_safe : bool;
  pd_io_ref_dying : bool;
  pd_cdevs : list mx_char_dev;
  pd_cpu_latency_req : bool;
  pd_chrdev_region_allocated : bool;
  pd_async_wq : bool;
  pd_zombie_cleanup_thread : bool;
  pd_page_pool : bool;
  pd_attach_error : Z;
  pd_module_ref_held : bool;
  pd_pci_ref_held : bool;
  pd_pdev : bool;
  pd_freed : option Q;
}.

#[export] Instance eta_pdev : Eta mx_pci_dev := fun r =>
  MkPdev (pd_q r) (pd_pci r) (pd_bar r) (pd_lease r) (pd_queues_initialized r)
    (pd_teardown_started r) (pd_dma_reclaim_safe r) (pd_io_ref_dying r) (pd_cdevs r)
    (pd_cpu_latency_req r) (pd_chrdev_region_allocated r) (pd_async_wq r)
    (pd_zombie_cleanup_thread r) (pd_page_pool r) (pd_attach_error r) (pd_module_ref_held r)
    (pd_pci_ref_held r) (pd_pdev r) (pd_freed r).

(** ** Small operations *)

Definition mx_pdev_get (pd : mx_pci_dev) : mx_pci_dev :=
  pd <| pd_bar := (pd_bar pd) <| bd_pdev_ref := bd_pdev_ref (pd_bar pd) + 1 |> |>.
Definition mx_pdev_put (pd : mx_pci_dev) : mx_pci_dev :=
  pd <| pd_bar := (pd_bar pd) <| bd_pdev_ref := bd_pdev_ref (pd_bar pd) - 1 |> |>.

Definition mxdma_device_online (pd : mx_pci_dev) : mx_pci_dev :=
  pd <| pd_bar := (pd_bar pd) <| bd_enabled := true |> |>.
Definition mxdma_device_offline (pd : mx_pci_dev) : mx_pci_dev :=
  pd <| pd_bar := (pd_bar pd) <| bd_enabled := false |> |> <| pd_io_ref_dying := true |>.

(** [mx_stop_queue_threads] and [WRITE_ONCE(protocol_poisoned, true)]. *)
Definition stop_queue_threads (pd : mx_pci_dev) : mx_pci_dev :=
  pd <| pd_q := set_threads (mx_stop_queue_threads (threads (pd_q pd))) (pd_q pd) |>.
Definition poison (pd : mx_pci_dev) : mx_pci_dev := pd <| pd_q := set_poisoned (pd_q pd) |>.

(** The last reference on the [struct device] runs [mx_cdev_release]. *)
Definition put_device (c : mx_char_dev) (pd : mx_pci_dev) : mx_char_dev * mx_pci_dev :=
  let c := c <| cd_refs := cd_refs c - 1 |> in
  (c, if cd_refs c =? 0 then mx_pdev_put pd else pd).

(** [name], [add]: what [dev_set_name] and [cdev_device_add] return. *)
Definition create_mx_cdev (name add : Z) (pd : mx_pci_dev) : Z * mx_pci_dev :=
  let pd := mx_pdev_get pd in
  let c := MkCdev false 1 in
  let out_put (ret : Z) :=
    let '(c, pd) := put_device c pd in (ret, pd <| pd_cdevs := pd_cdevs pd ++ [c] |>) in
  RETURN (out_put name) WHEN (nz name) ;;
  RETURN (out_put add) WHEN (nz add) ;;
  (0, pd <| pd_cdevs := pd_cdevs pd ++ [c <| cd_enabled := true |>] |>).

Definition destroy_mx_cdev (c : mx_char_dev) (pd : mx_pci_dev) : mx_char_dev * mx_pci_dev :=
  RETURN (c, pd) WHEN (negb (cd_enabled c)) ;;
  put_device (c <| cd_enabled := false |>) pd.

(** The loop over the character devices. *)
Fixpoint destroy_cdevs (l : list mx_char_dev) (pd : mx_pci_dev) : list mx_char_dev * mx_pci_dev :=
  match l with
  | [] => ([], pd)
  | c :: l =>
    let '(c, pd) := destroy_mx_cdev c pd in
    let '(l, pd) := destroy_cdevs l pd in (c :: l, pd)
  end.

(** ** What teardown observes *)

(** The answers at tick [i]: the I/O queue has no command left ([ue_idle]); the PCI device
    is gone for good; no fops body and no nowait waiter is left; no PCI transaction is
    pending; and what one queue operation meets. *)
Record unbind_env := MkUnbind {
  ue_idle : nat → bool;
  ue_gone : nat → bool;
  ue_quiet : nat → bool;
  ue_settled : nat → bool;
  ue_queue : nat → E;
  ue_core : pci_core;
}.

Definition mxdma_io_queue_idle (e : unbind_env) (t : nat) (pd : mx_pci_dev) : bool :=
  negb (io_queue (pd_q pd)) || ue_idle e t.

(** The wait loops.  The result is the tick at which they end; [None]: the loop still
    waits after [fuel] rounds. *)
Fixpoint mxdma_drain_device_protocol (e : unbind_env) (fuel t : nat) (pd : mx_pci_dev) : option nat :=
  if mxdma_io_queue_idle e t pd then Some t
  else if ue_gone e t then Some t
  else match fuel with O => None | S fuel => mxdma_drain_device_protocol e fuel (S t) pd end.

Fixpoint mxdma_wait_io_quiesced (e : unbind_env) (fuel t : nat) : option nat :=
  if ue_quiet e t then Some t
  else match fuel with O => None | S fuel => mxdma_wait_io_quiesced e fuel (S t) end.

Fixpoint wait_pending_transaction (e : unbind_env) (fuel t : nat) : option nat :=
  if ue_settled e t then Some t
  else if ue_gone e t then Some t
  else match fuel with O => None | S fuel => wait_pending_transaction e fuel (S t) end.

(** [ops.recover_queue ? ops.recover_queue(mx_pdev) : -EOPNOTSUPP] *)
Definition recover_call (e : unbind_env) (t : nat) (q : Q) : option (Z * Q) :=
  match recover_queue with None => Some (- EOPNOTSUPP, q) | Some f => f (ue_queue e t) q end.

(** The loop that runs while the device is poisoned; the boolean: it was left because the
    device is gone. *)
Fixpoint recover_poisoned (e : unbind_env) (fuel t : nat) (q : Q) : option (bool * nat * Q) :=
  if negb (protocol_poisoned q) then Some (false, t, q)
  else if ue_gone e t then Some (true, t, q)
  else
    '(ret, q) ← recover_call e t q;
    if negb (nz ret) then Some (false, S t, q)
    else match fuel with O => None | S fuel => recover_poisoned e fuel (S t) q end.

(** [while (ret)] around a recovery, with the same boolean. *)
Fixpoint recover_retry (e : unbind_env) (fuel t : nat) (ret : Z) (q : Q) : option (bool * nat * Q) :=
  if negb (nz ret) then Some (false, t, q)
  else if ue_gone e t then Some (true, t, q)
  else match fuel with
    | O => None
    | S fuel => '(ret, q) ← recover_call e t q; recover_retry e fuel (S t) ret q
    end.

(** ** Stopping the protocol *)

(** A stage that may return from the whole function ([inl]). *)
Notation stage := (option ((Z * nat * mx_pci_dev) + (nat * mx_pci_dev))).

Definition next (x : stage) (k : nat → mx_pci_dev → stage) : stage :=
  match x with Some (inr (t, pd)) => k t pd | _ => x end.

(** Up to the poison loop. *)
Definition stop_entry (e : unbind_env) (fuel : nat) (actual : bool) (t : nat) (pd : mx_pci_dev) : stage :=
  let pd := pd <| pd_async_wq := false |> in
  if actual then
    t ← mxdma_drain_device_protocol e fuel t pd;
    if ue_gone e (S t) then Some (inl (0, S t, stop_queue_threads pd)) else Some (inr (S t, pd))
  else
    RETURN (Some (inl (- EBUSY, t, stop_queue_threads (poison pd))))
      WHEN (negb (mxdma_io_queue_idle e t pd)) ;;
    RETURN (Some (inl (- EUCLEAN, t, stop_queue_threads pd))) WHEN (protocol_poisoned (pd_q pd)) ;;
    Some (inr (t, pd)).

(** An admin command without a terminal completion. *)
Definition stop_poisoned (e : unbind_env) (fuel : nat) (actual : bool) (t : nat) (pd : mx_pci_dev) : stage :=
  RETURN (Some (inr (t, pd))) WHEN (negb actual) ;;
  '(gone, t, q) ← recover_poisoned e fuel t (pd_q pd);
  let pd := pd <| pd_q := q |> in
  if (gone : bool) then Some (inl (0, t, stop_queue_threads pd)) else Some (inr (t, pd)).

(** A queue pair that was only partly created. *)
Definition stop_partial (e : unbind_env) (fuel : nat) (actual : bool) (t : nat) (pd : mx_pci_dev) : stage :=
  RETURN (Some (inr (t, pd)))
    WHEN (pd_queues_initialized pd || negb (queue_dma_programmed (pd_q pd))) ;;
  '(ret, q) ← recover_call e t (pd_q pd);
  let pd := pd <| pd_q := q |> in
  RETURN (Some (inl (ret, t, poison pd))) WHEN (nz ret && negb actual) ;;
  '(gone, t, q) ← recover_retry e fuel (S t) ret (pd_q pd);
  let pd := pd <| pd_q := q |> in
  if (gone : bool) then Some (inl (0, t, pd)) else Some (inr (t, pd)).

(** A working queue pair. *)
Definition stop_release (e : unbind_env) (fuel : nat) (actual : bool) (t : nat) (pd : mx_pci_dev) : stage :=
  RETURN (Some (inr (t, stop_queue_threads pd))) WHEN (negb (pd_queues_initialized pd)) ;;
  let '(ret, q) := release_queue (ue_queue e t) (pd_q pd) in
  let pd := pd <| pd_q := q |> in
  RETURN (Some (inr (S t, pd <| pd_queues_initialized := false |>))) WHEN (negb (nz ret)) ;;
  let pd := poison pd in
  RETURN (Some (inl (ret, t, pd))) WHEN (negb actual) ;;
  '(gone, t, q) ← recover_retry e fuel (S t) ret (pd_q pd);
  let pd := pd <| pd_q := q |> in
  if (gone : bool) then Some (inl (0, t, pd))
  else Some (inr (t, pd <| pd_queues_initialized := false |>)).

Definition mxdma_stop_device_protocol (e : unbind_env) (fuel : nat) (actual : bool) (t : nat) (pd : mx_pci_dev)
    : option (Z * nat * mx_pci_dev) :=
  match
    next (next (next (stop_entry e fuel actual t pd) (stop_poisoned e fuel actual))
      (stop_partial e fuel actual)) (stop_release e fuel actual)
  with
  | None => None
  | Some (inl r) => Some r
  | Some (inr (t, pd)) => Some (if protocol_poisoned (pd_q pd) then - EIO else 0, t, pd)
  end.

Definition mxdma_fence_pci_unbind (e : unbind_env) (fuel t : nat) (pd : mx_pci_dev) : option (nat * mx_pci_dev) :=
  let pd := pd <| pd_pci := (pd_pci pd) <| pci := (pci (pd_pci pd)) <| pc_is_busmaster := false |> |> |> in
  t ← wait_pending_transaction e fuel t; Some (t, pd).

(** ** Destroying *)

(** From [mx_pdev->teardown_started = true] to [stop_protocol]. *)
Definition destroy_quiesce (e : unbind_env) (fuel : nat) (actual : bool) (t : nat) (pd : mx_pci_dev)
    : option (nat * mx_pci_dev) :=
  let pd := pd <| pd_teardown_started := true |> <| pd_lease := mx_lease_mark_removed (pd_lease pd) |> in
  let pd := mxdma_device_offline pd in
  t ← (if actual then mxdma_drain_device_protocol e fuel t pd else Some t);
  t ← mxdma_wait_io_quiesced e fuel t;
  let '(cdevs, pd) := destroy_cdevs (pd_cdevs pd) pd in
  let pd := pd <| pd_cdevs := cdevs |> in
  Some (t, pd <| pd_bar := mxdma_unmap_all_bar_vmas (pd_bar pd) |> <| pd_cpu_latency_req := false |>).

(** A repeated teardown of a poisoned device. *)
Definition destroy_again (e : unbind_env) (fuel t : nat) (pd : mx_pci_dev) : option (nat * mx_pci_dev) :=
  t ← mxdma_drain_device_protocol e fuel t pd;
  t ← mxdma_wait_io_quiesced e fuel t; Some (t, pd).

(** The releases after the protocol proof. *)
Definition destroy_release (e : unbind_env) (pd : mx_pci_dev) : mx_pci_dev :=
  pd <| pd_bar := mx_free_registered_mboxes (pd_bar pd) |> <| pd_page_pool := false |>
     <| pd_freed := Some (pd_q pd) |> <| pd_q := free_queue (pd_q pd) |>
     <| pd_pci := pci_detach (ue_core e) (pd_pci pd) |> <| pd_pdev := false |>.

(** From [stop_protocol] on. *)
Definition destroy_stop (e : unbind_env) (fuel : nat) (actual : bool) (t : nat) (pd : mx_pci_dev)
    : option (bool * nat * mx_pci_dev) :=
  '(ret, t, pd) ← mxdma_stop_device_protocol e fuel actual t pd;
  let safe := negb (nz ret) in
  '(t, pd) ← (if safe && actual then mxdma_fence_pci_unbind e fuel t pd else Some (t, pd));
  let pd := pd <| pd_dma_reclaim_safe := safe |> in
  let pd := if safe then pd <| pd_zombie_cleanup_thread := false |> else pd in
  let pd := pd <| pd_chrdev_region_allocated := false |> in
  RETURN (Some (false, t, pd <| pd_attach_error := - EUCLEAN |>)) WHEN (negb safe) ;;
  Some (true, t, destroy_release e pd).

Definition destroy_mx_pdev (e : unbind_env) (fuel : nat) (actual : bool) (t : nat) (pd : mx_pci_dev)
    : option (bool * nat * mx_pci_dev) :=
  if pd_teardown_started pd then
    RETURN (Some (true, t, pd)) WHEN (negb (protocol_poisoned (pd_q pd))) ;;
    RETURN (Some (false, t, pd)) WHEN (negb actual) ;;
    '(t, pd) ← destroy_again e fuel t pd;
    destroy_stop e fuel actual t pd
  else
    '(t, pd) ← destroy_quiesce e fuel actual t pd;
    destroy_stop e fuel actual t pd.

(** ** Creating *)

(** What the allocations and registrations answer. *)
Record create_env := MkCreate {
  ce_kzalloc : bool; ce_ref_init : Z; ce_bar_map : bool; ce_incarnation : Z;
  ce_chrdev : Z; ce_cxl : bool; ce_core : pci_core; ce_cfg : pci_cfg;
  ce_queue : E; ce_async_wq : bool; ce_zombie : Z; ce_page_pool : bool;
  ce_cdev : nat → Z * Z;
}.

Definition NUM_OF_MX_CDEV : nat := 3.

Fixpoint create_cdevs (answers : nat → Z * Z) (n type : nat) (pd : mx_pci_dev) : Z * mx_pci_dev :=
  match n with
  | O => (0, pd)
  | S n =>
    let '(ret, pd) := create_mx_cdev (answers type).1 (answers type).2 pd in
    RETURN (ret, pd) WHEN (nz ret) ;;
    create_cdevs answers n (S type) pd
  end.

(** The device as the prologue leaves it: one reference, nothing registered; [q0]: the
    queue fields of a zeroed device. *)
Definition pdev_new (ce : create_env) (q0 : Q) : mx_pci_dev :=
  MkPdev q0 (pci_zero (ce_cfg ce)) (MkBar false (-1) 0 ∅ ∅ 1 0 None 1) (mx_lease_init (ce_incarnation ce))
    false false false false [] false false false false false 0 false false true None.

(** From [register_mx_ops] on. *)
Definition create_stages (ce : create_env) (pd : mx_pci_dev) : Z * mx_pci_dev :=
  let pd := pd <| pd_cpu_latency_req := true |> in
  RETURN (ce_chrdev ce, pd) WHEN (nz (ce_chrdev ce)) ;;
  let pd := pd <| pd_chrdev_region_allocated := true |> in
  let '(ret, m) := pci_attach (ce_cxl ce) (ce_core ce) (pd_pci pd) in
  let pd := pd <| pd_pci := m |> <| pd_bar := (pd_bar pd) <| bd_bar_mapped_size := bar_mapped_size m |> |> in
  RETURN (ret, pd) WHEN (nz ret) ;;
  let '(ret, q) := init_queue (ce_queue ce) (pd_q pd) in
  let pd := pd <| pd_q := q |> <| pd_bar := (pd_bar pd) <| bd_reserved_hio_qid := reserved_hio_qid q |> |> in
  RETURN (ret, pd) WHEN (nz ret) ;;
  let pd := pd <| pd_queues_initialized := true |> in
  RETURN (- ENOMEM, pd) WHEN (negb (ce_async_wq ce)) ;;
  let pd := pd <| pd_async_wq := true |> in
  RETURN (ce_zombie ce, pd) WHEN (nz (ce_zombie ce)) ;;
  let pd := pd <| pd_zombie_cleanup_thread := true |> in
  RETURN (- ENOMEM, pd) WHEN (negb (ce_page_pool ce)) ;;
  let pd := pd <| pd_page_pool := true |> in
  let '(ret, pd) := create_cdevs (ce_cdev ce) NUM_OF_MX_CDEV 0 pd in
  RETURN (ret, pd) WHEN (nz ret) ;;
  (0, mxdma_device_online pd).

(** [revision_ok]: the PCI revision is one the driver knows. *)
Definition create_mx_pdev (ce : create_env) (revision_ok : bool) (q0 : Q) : Z * option mx_pci_dev :=
  RETURN (- EINVAL, None) WHEN (negb revision_ok) ;;
  RETURN (- ENOMEM, None) WHEN (negb (ce_kzalloc ce)) ;;
  RETURN (ce_ref_init ce, None) WHEN (nz (ce_ref_init ce)) ;;
  RETURN (- ENOMEM, None) WHEN (negb (ce_bar_map ce)) ;;
  let '(ret, pd) := create_stages ce (pdev_new ce q0) in (ret, Some pd).

(** ** The invariant *)

Context `{!QueueLaws Q E}.

(** The threads run only on initialised queues. *)
Record life_inv (pd : mx_pci_dev) : Prop := {
  li_q : inv (pd_q pd);
  li_ready : pd_queues_initialized pd = true → ready (pd_q pd);
  li_threads : pd_queues_initialized pd = false → threads (pd_q pd) = no_threads;
}.

(** What the device may still do when memory is freed: nothing, or it is gone. *)
Definition gone_seen (e : unbind_env) : Prop := ∃ i, ue_gone e i = true.
Definition idle_seen (e : unbind_env) (q : Q) : Prop := io_queue q = false ∨ ∃ i, ue_idle e i = true.
Definition quiet (e : unbind_env) (q0 q : Q) : Prop :=
  disowned q ∧ protocol_poisoned q = false ∧ idle_seen e q0.

(** Stopping the protocol touches the queues and the work queue only. *)
Definition kept (pd pd' : mx_pci_dev) : Prop :=
  ∃ q b, pd' = pd <| pd_async_wq := false |> <| pd_q := q |> <| pd_queues_initialized := b |>.

(** A return from the middle of [mxdma_stop_device_protocol]. *)
Record stopped (e : unbind_env) (actual : bool) (pd : mx_pci_dev) (ret : Z) (pd' : mx_pci_dev) : Prop := {
  st_inv : life_inv pd';
  st_kept : kept pd pd';
  st_threads : threads (pd_q pd') = no_threads;
  st_gone : ret = 0 → gone_seen e ∨ quiet e (pd_q pd) (pd_q pd');
  st_actual : actual = true → ret = 0;
  st_poison : ret ≠ 0 → protocol_poisoned (pd_q pd') = true;
}.

Lemma kept_q pd pd' q b :
  kept pd pd' → kept pd (pd' <| pd_q := q |> <| pd_queues_initialized := b |>).
Proof. intros (q' & b' & ->). by exists q, b. Qed.

Lemma kept_q' pd pd' q : kept pd pd' → kept pd (pd' <| pd_q := q |>).
Proof. intros (q' & b' & ->). by exists q, b'. Qed.

Lemma set_q_inv pd q :
  life_inv pd → inv q → threads q = threads (pd_q pd) → (ready (pd_q pd) → ready q) →
  life_inv (pd <| pd_q := q |>).
Proof. intros [I R T] Hi Ht Hr. constructor; cbn; [done | auto | intros; rewrite Ht; auto]. Qed.

Lemma stop_threads_inv pd :
  life_inv pd → life_inv (stop_queue_threads pd) ∧ threads (pd_q (stop_queue_threads pd)) = no_threads ∧
  protocol_poisoned (pd_q (stop_queue_threads pd)) = protocol_poisoned (pd_q pd) ∧
  (disowned (pd_q pd) → disowned (pd_q (stop_queue_threads pd))).
Proof.
  intros [I R T]. unfold stop_queue_threads. rewrite stop_threads.
  destruct (law_threads no_threads _ I) as (L1 & L2 & L3 & L4 & L5). cbn. split_and!; try done.
  constructor; cbn; auto.
Qed.

Lemma poison_inv pd :
  life_inv pd → owned (pd_q pd) →
  life_inv (poison pd) ∧ protocol_poisoned (pd_q (poison pd)) = true ∧
  threads (pd_q (poison pd)) = threads (pd_q pd).
Proof.
  intros Hl Ho. destruct (law_poison _ (li_q _ Hl) Ho) as (L1 & L2 & L3 & L4 & L5 & L6).
  split; [by apply set_q_inv | done].
Qed.

(** ** The loops *)

Lemma drain_ends e fuel t pd t' :
  mxdma_drain_device_protocol e fuel t pd = Some t' →
  gone_seen e ∨ idle_seen e (pd_q pd).
Proof.
  revert t. induction fuel as [|f IH]; intros t; cbn; unfold mxdma_io_queue_idle, gone_seen, idle_seen;
    destruct (io_queue (pd_q pd)) eqn:Hq, (ue_idle e t) eqn:Hi, (ue_gone e t) eqn:Hg; cbn; intros Hd; eauto.
  all: first [done | apply IH in Hd; unfold gone_seen, idle_seen in Hd; by rewrite Hq in Hd].
Qed.

Record recovered (q q' : Q) : Prop := {
  rc_inv : inv q';
  rc_threads : threads q' = threads q;
  rc_ready : ready q → ready q';
}.

#[local] Instance recovered_trans : Transitive recovered.
Proof. intros q1 q2 q3 [] []. constructor; auto; congruence. Qed.

Lemma recover_call_spec e t q ret q' :
  inv q → recover_call e t q = Some (ret, q') →
  recovered q q' ∧ (ret = 0 → disowned q' ∧ protocol_poisoned q' = false) ∧
  (ret ≠ 0 → queue_dma_programmed q = true → owned q').
Proof.
  intros Hi. unfold recover_call. destruct recover_queue as [f|] eqn:Hf.
  - intros Hc. destruct (law_recover _ _ _ _ _ Hf Hi Hc) as (L1 & L2 & L3 & L4 & L5).
    split; [by constructor|]. split; [done|]. intros. by apply L5.
  - intros [= <- <-]. split; [by constructor|]. split; [done|]. intros _. by rewrite law_no_recover.
Qed.

Lemma recover_poisoned_spec e fuel t q g t' q' :
  inv q → recover_poisoned e fuel t q = Some (g, t', q') →
  recovered q q' ∧ if g : bool then gone_seen e else protocol_poisoned q' = false.
Proof.
  assert (∀ q, inv q → recovered q q) as Hrefl by by constructor.
  revert t q. induction fuel as [|f IH]; intros t q Hi; cbn; destruct (protocol_poisoned q) eqn:Hp; cbn;
    try (intros [= <- <- <-]; split; [by apply Hrefl | done]);
    (destruct (ue_gone e t) eqn:Hg; [intros [= <- <- <-]; split; [by apply Hrefl | by exists t]|]);
    destruct (recover_call e t q) as [[ret q1]|] eqn:Hc; try done; cbn;
    destruct (recover_call_spec _ _ _ _ _ Hi Hc) as (R & Z0 & _);
    unfold nz; destruct (Z.eqb_spec ret 0) as [->|]; cbn; try done;
    try (intros [= <- <- <-]; split; [done | by apply Z0]).
  intros [R' H]%IH; [|apply R]. split; [by etrans | done].
Qed.

Lemma recover_retry_spec e fuel t ret q g t' q' :
  inv q → (ret = 0 → disowned q ∧ protocol_poisoned q = false) →
  recover_retry e fuel t ret q = Some (g, t', q') →
  recovered q q' ∧ if g : bool then gone_seen e else disowned q' ∧ protocol_poisoned q' = false.
Proof.
  assert (∀ q, inv q → recovered q q) as Hrefl by by constructor.
  revert t ret q. induction fuel as [|f IH]; intros t ret q Hi H0; cbn; unfold nz;
    (destruct (Z.eqb_spec ret 0) as [->|]; cbn; [intros [= <- <- <-]; split; auto|]);
    (destruct (ue_gone e t) eqn:Hg; [intros [= <- <- <-]; split; [by apply Hrefl | by exists t]|]); [done|].
  destruct (recover_call e t q) as [[ret' q1]|] eqn:Hc; [|done]. cbn.
  destruct (recover_call_spec _ _ _ _ _ Hi Hc) as (R & Z0 & _).
  intros [R' H]%IH; [|apply R | done]. split; [by etrans | done].
Qed.

(** ** The stages *)

Record going (e : unbind_env) (pd pd' : mx_pci_dev) : Prop := {
  go_inv : life_inv pd';
  go_kept : kept pd pd';
  go_idle : gone_seen e ∨ idle_seen e (pd_q pd);
}.

Definition stage_spec (e : unbind_env) (actual : bool) (pd : mx_pci_dev) (x : stage)
    (P : mx_pci_dev → Prop) : Prop :=
  match x with
  | None => True
  | Some (inl (ret, _, pd')) => stopped e actual pd ret pd'
  | Some (inr (_, pd')) => going e pd pd' ∧ P pd'
  end.

Lemma next_spec e actual pd x k (P P' : mx_pci_dev → Prop) :
  stage_spec e actual pd x P →
  (∀ t pd', going e pd pd' → P pd' → stage_spec e actual pd (k t pd') P') →
  stage_spec e actual pd (next x k) P'.
Proof. intros Hx Hk. destruct x as [[[[ret t] pd']|[t pd']]|]; cbn in *; [done | by apply Hk; destruct Hx | done]. Qed.

Lemma stop_entry_spec e fuel actual t pd :
  life_inv pd →
  stage_spec e actual pd (stop_entry e fuel actual t pd)
    (fun pd' => actual = false → protocol_poisoned (pd_q pd') = false).
Proof.
  intros Hl. set (pd1 := pd <| pd_async_wq := false |>).
  assert (life_inv pd1) as Hl1 by by destruct Hl.
  assert (∀ q, kept pd (pd1 <| pd_q := q |>)) as Hk by (intros q; by exists q, (pd_queues_initialized pd)).
  assert (kept pd pd1) as Hk1 by by exists (pd_q pd), (pd_queues_initialized pd).
  unfold stop_entry. fold pd1. cbv zeta. destruct actual.
  - destruct (mxdma_drain_device_protocol e fuel t pd1) as [t'|] eqn:Hd; [|done]. cbn.
    apply drain_ends in Hd. destruct (stop_threads_inv pd1 Hl1) as (S1 & S2 & S3 & S4).
    destruct (ue_gone e (S t')) eqn:Hg; cbn; [|by split].
    constructor; try done; [apply Hk | intros _; left; by exists (S t')].
  - destruct (mxdma_io_queue_idle e t pd1) eqn:Hi; cbn [negb]; last first.
    + assert (owned (pd_q pd1)) as Ho.
      { apply law_io; [apply Hl1|]. unfold mxdma_io_queue_idle in Hi. by destruct (io_queue (pd_q pd1)). }
      destruct (poison_inv pd1 Hl1 Ho) as (P1 & P2 & P3). destruct (stop_threads_inv _ P1) as (S1 & S2 & S3 & S4).
      constructor; try done; [apply Hk | by rewrite S3].
    + destruct (stop_threads_inv pd1 Hl1) as (S1 & S2 & S3 & S4).
      destruct (protocol_poisoned (pd_q pd1)) eqn:Hp.
      * constructor; try done. apply Hk.
      * split; [|done]. constructor; [done | done|]. right. unfold mxdma_io_queue_idle in Hi.
        apply orb_true_iff in Hi as [Hi%negb_true_iff|Hi]; [by left | right; by exists t].
Qed.

Lemma going_q e pd pd1 q :
  going e pd pd1 → recovered (pd_q pd1) q → going e pd (pd1 <| pd_q := q |>).
Proof.
  intros [I K G] [R1 R2 R3]. constructor; [by apply set_q_inv | by apply kept_q' | done].
Qed.

(** A device that is found gone is left with its threads stopped. *)
Lemma gone_stopped e actual pd pd' :
  going e pd pd' → gone_seen e → threads (pd_q pd') = no_threads → stopped e actual pd 0 pd'.
Proof. intros [I K _] G T. constructor; auto; done. Qed.

Lemma stop_poisoned_spec e fuel actual t pd pd1 :
  going e pd pd1 → (actual = false → protocol_poisoned (pd_q pd1) = false) →
  stage_spec e actual pd (stop_poisoned e fuel actual t pd1)
    (fun pd' => protocol_poisoned (pd_q pd') = false).
Proof.
  intros Hg Hp. unfold stop_poisoned. destruct actual; cbn [negb]; [|split; auto].
  destruct (recover_poisoned e fuel t (pd_q pd1)) as [[[g t'] q]|] eqn:Hr; [|done]. cbn.
  apply recover_poisoned_spec in Hr as [R H]; [|apply Hg]. pose proof (going_q _ _ _ _ Hg R) as Hg'.
  destruct g; [|by split]. destruct (stop_threads_inv _ (go_inv _ _ _ Hg')) as (S1 & S2 & S3 & S4).
  apply gone_stopped; [|done|done]. constructor; [done | apply kept_q', Hg' | apply Hg].
Qed.

Lemma stop_partial_spec e fuel actual t pd pd1 :
  going e pd pd1 → protocol_poisoned (pd_q pd1) = false →
  stage_spec e actual pd (stop_partial e fuel actual t pd1)
    (fun pd' => protocol_poisoned (pd_q pd') = false ∧
      (pd_queues_initialized pd' = false → disowned (pd_q pd'))).
Proof.
  intros Hg Hp. unfold stop_partial. destruct (pd_queues_initialized pd1) eqn:Hq; cbn [orb].
  { split; [done|]. split; [done | congruence]. }
  destruct (queue_dma_programmed (pd_q pd1)) eqn:Hd; cbn [negb]; last first.
  { split; [done|]. split; [done|]. intros _. by apply law_off; [apply Hg|]. }
  destruct (recover_call e t (pd_q pd1)) as [[ret q]|] eqn:Hr; [|done]. cbn [mbind option_bind]. cbv zeta.
  apply recover_call_spec in Hr as (R & Z0 & O); [|apply Hg]. pose proof (going_q _ _ _ _ Hg R) as Hg1.
  pose proof (li_threads _ (go_inv _ _ _ Hg1) Hq) as Ht.
  unfold nz. destruct (Z.eqb_spec ret 0) as [->|Hne], actual; cbn [negb andb].
  3: { clear O Z0. destruct (recover_retry e fuel (S t) ret _) as [[[g t'] q']|] eqn:Hr; [|done]. cbn.
       apply recover_retry_spec in Hr as [R' H]; [|apply R | done].
       pose proof (going_q _ _ _ _ Hg1 R') as Hg2. destruct g; [|by destruct H].
       apply gone_stopped; [done | done |]. cbn. by rewrite (rc_threads _ _ R'). }
  3: { destruct (poison_inv _ (go_inv _ _ _ Hg1) (O Hne Hd)) as (P1 & P2 & P3).
       constructor; try done; [apply kept_q', Hg1 | by rewrite P3]. }
  all: cbn; destruct fuel; cbn; (split; [done | split; [by apply Z0 | intros _; by apply Z0]]).
Qed.

Lemma stop_release_spec e fuel actual t pd pd1 :
  going e pd pd1 → protocol_poisoned (pd_q pd1) = false →
  (pd_queues_initialized pd1 = false → disowned (pd_q pd1)) →
  stage_spec e actual pd (stop_release e fuel actual t pd1)
    (fun pd' => threads (pd_q pd') = no_threads ∧ protocol_poisoned (pd_q pd') = false ∧ disowned (pd_q pd')).
Proof.
  intros Hg Hp Hdis. unfold stop_release. destruct (pd_queues_initialized pd1) eqn:Hq; cbn [negb]; last first.
  { destruct (stop_threads_inv pd1 (go_inv _ _ _ Hg)) as (S1 & S2 & S3 & S4). split; [|by rewrite S3; auto].
    constructor; [done | apply kept_q', Hg | apply Hg]. }
  destruct (release_queue (ue_queue e t) (pd_q pd1)) as [ret q] eqn:Hr.
  pose proof (li_ready _ (go_inv _ _ _ Hg) Hq) as Hrd.
  destruct (law_release _ _ _ _ (li_q _ (go_inv _ _ _ Hg)) Hrd Hp Hr) as (R1 & R2 & R3 & R4). cbv zeta.
  set (pd2 := pd1 <| pd_q := q |>). assert (life_inv pd2) as I2 by by constructor.
  assert (∀ pd3, kept pd pd3 → life_inv pd3 → threads (pd_q pd3) = no_threads →
    life_inv (pd3 <| pd_queues_initialized := false |>)) as Hoff.
  { intros pd3 _ [? ? ?] ?. by constructor. }
  assert (kept pd pd2) as K2 by apply kept_q', Hg.
  unfold nz. destruct (Z.eqb_spec ret 0) as [->|Hne]; cbn [negb].
  { destruct (R4 eq_refl) as [D P]. split; [|done]. constructor; [by apply Hoff | | apply Hg].
    destruct K2 as (q' & b & ->). by exists q', false. }
  destruct (poison_inv pd2 I2 (law_ready _ R1 R2)) as (P1 & P2 & P3).
  assert (going e pd (poison pd2)) as Hg3 by (constructor; [done | by apply kept_q' | apply Hg]).
  assert (threads (pd_q (poison pd2)) = no_threads) as T3 by by rewrite P3.
  destruct actual; cbn [negb]; [|constructor; try done; apply kept_q', K2].
  destruct (recover_retry e fuel (S t) ret _) as [[[g t'] q']|] eqn:Hc; [|done].
  apply recover_retry_spec in Hc as [R' H]; [|apply P1 | done].
  pose proof (going_q _ _ _ _ Hg3 R') as Hg4. cbn [mbind option_bind].
  assert (threads (pd_q ((poison pd2) <| pd_q := q' |>)) = no_threads) as T4 by (cbn; by rewrite (rc_threads _ _ R')).
  destruct g; [by apply gone_stopped|]. destruct H as [D P]. split; [|done].
  constructor; [apply (Hoff _ (go_kept _ _ _ Hg4)); [apply Hg4 | done] | | apply Hg].
  destruct (go_kept _ _ _ Hg4) as (q4 & b & E4). rewrite E4. by exists q4, false.
Qed.

(** Stopping the protocol: zero means that the threads are stopped and that the device
    cannot touch the queue memory; an error means that it is poisoned. *)
Lemma stop_protocol_spec e fuel actual t pd ret t' pd' :
  life_inv pd → mxdma_stop_device_protocol e fuel actual t pd = Some (ret, t', pd') →
  stopped e actual pd ret pd'.
Proof.
  intros Hl. unfold mxdma_stop_device_protocol.
  assert (stage_spec e actual pd (next (next (next (stop_entry e fuel actual t pd) (stop_poisoned e fuel actual))
      (stop_partial e fuel actual)) (stop_release e fuel actual))
    (fun pd' => threads (pd_q pd') = no_threads ∧ protocol_poisoned (pd_q pd') = false ∧ disowned (pd_q pd'))) as Hs.
  { eapply next_spec.
    - eapply next_spec; [|intros t1 pd1; apply stop_partial_spec].
      eapply next_spec; [|intros t1 pd1; apply stop_poisoned_spec]. by apply stop_entry_spec.
    - intros t1 pd1 H1 [H2 H3]. by apply stop_release_spec. }
  revert Hs. generalize (next (next (next (stop_entry e fuel actual t pd) (stop_poisoned e fuel actual))
      (stop_partial e fuel actual)) (stop_release e fuel actual)). intros x Hs.
  destruct x as [[[[r t1] pd1]|[t1 pd1]]|]; cbn in Hs; [|destruct Hs as [Hg (Ht & Hp & Hd)]|done].
  - by intros [= <- <- <-].
  - rewrite Hp. intros [= <- <- <-]. destruct Hg as [I K G]. constructor; try done. intros _.
    destruct G; [by left | by right].
Qed.

(** ** Teardown as a whole *)

(** A device that still owns its memory; a second teardown is only asked of a poisoned
    one. *)
Record live (pd : mx_pci_dev) : Prop := {
  lv_inv : life_inv pd;
  lv_freed : pd_freed pd = None;
  lv_retry : pd_teardown_started pd = true → protocol_poisoned (pd_q pd) = true;
}.

(** The memory and the registers the device may still use. *)
Definition retained (pd pd' : mx_pci_dev) : Prop :=
  pd_freed pd' = None ∧ pd_page_pool pd' = pd_page_pool pd ∧ pd_pci pd' = pd_pci pd ∧
  bd_sq_mbox_list (pd_bar pd') = bd_sq_mbox_list (pd_bar pd) ∧
  bd_cq_mbox_list (pd_bar pd') = bd_cq_mbox_list (pd_bar pd) ∧ pd_pdev pd' = pd_pdev pd.

(** No new file, ioctl, mapping or waiter gets in. *)
Definition closed (pd : mx_pci_dev) : Prop :=
  ls_removed (pd_lease pd) = true ∧ bd_enabled (pd_bar pd) = false ∧ pd_io_ref_dying pd = true ∧
  Forall (fun c => cd_enabled c = false) (pd_cdevs pd).

Lemma put_device_frame c pd c' pd' :
  put_device c pd = (c', pd') →
  cd_enabled c' = cd_enabled c ∧ ∃ r, pd' = pd <| pd_bar := (pd_bar pd) <| bd_pdev_ref := r |> |>.
Proof.
  unfold put_device. intros [= <- <-]. split; [done|]. case_match; [by eexists|].
  exists (bd_pdev_ref (pd_bar pd)). by destruct pd as [? ? [] ? ? ? ? ? ? ? ? ? ? ? ? ? ? ? ?].
Qed.

Lemma destroy_cdevs_frame l pd l' pd' :
  destroy_cdevs l pd = (l', pd') →
  Forall (fun c => cd_enabled c = false) l' ∧ ∃ r, pd' = pd <| pd_bar := (pd_bar pd) <| bd_pdev_ref := r |> |>.
Proof.
  revert pd l' pd'. induction l as [|c l IH]; intros pd l' pd'; cbn.
  { intros [= <- <-]. split; [done|]. exists (bd_pdev_ref (pd_bar pd)).
    by destruct pd as [? ? [] ? ? ? ? ? ? ? ? ? ? ? ? ? ? ? ?]. }
  destruct (destroy_mx_cdev c pd) as [c1 pd1] eqn:Hc, (destroy_cdevs l pd1) as [l1 pd2] eqn:Hl.
  intros [= <- <-]. apply IH in Hl as [Hf [r2 ->]]. unfold destroy_mx_cdev in Hc.
  destruct (cd_enabled c) eqn:He; cbn in Hc.
  - apply put_device_frame in Hc as [He1 [r1 ->]]. split; [by constructor | by exists r2].
  - injection Hc as <- <-. split; [by constructor | by exists r2].
Qed.

(** Closing the device leaves everything else in place. *)
Lemma destroy_quiesce_spec e fuel actual t pd t' pd' :
  live pd → destroy_quiesce e fuel actual t pd = Some (t', pd') →
  life_inv pd' ∧ closed pd' ∧ retained pd pd' ∧ pd_q pd' = pd_q pd ∧ pd_teardown_started pd' = true.
Proof.
  intros [I F _]. unfold destroy_quiesce. cbv zeta.
  destruct (if actual then _ else _) as [t1|]; [|done]. cbn [mbind option_bind].
  destruct (mxdma_wait_io_quiesced _ _ _) as [t2|]; [|done]. cbn [mbind option_bind].
  destruct (destroy_cdevs _ _) as [l pd1] eqn:Hd. apply destroy_cdevs_frame in Hd as [Hf [r ->]].
  intros [= <- <-]. destruct I. unfold closed, retained. cbn. split_and!; try done.
Qed.

Lemma destroy_stop_spec e fuel actual t pd r t' pd' :
  life_inv pd → closed pd → pd_freed pd = None → pd_teardown_started pd = true →
  destroy_stop e fuel actual t pd = Some (r, t', pd') →
  closed pd' ∧
  if r : bool then ∃ q, pd_freed pd' = Some q ∧ threads q = no_threads ∧ (gone_seen e ∨ quiet e (pd_q pd) q)
  else actual = false ∧ live pd' ∧ retained pd pd' ∧ protocol_poisoned (pd_q pd') = true.
Proof.
  intros I C F T. unfold destroy_stop.
  destruct (mxdma_stop_device_protocol _ _ _ _ _) as [[[ret t1] pd1]|] eqn:Hs; [|done]. cbn [mbind option_bind].
  apply stop_protocol_spec in Hs as [I1 (q & b & K) T1 G1 A1 P1]; [|done].
  unfold nz. destruct (Z.eqb_spec ret 0) as [->|Hne]; cbn [negb andb]; cbv zeta.
  - destruct (if actual then _ else _) as [[t2 pd2]|] eqn:Hfe; [|done]. cbn [mbind option_bind].
    intros [= <- <- <-].
    assert (pd_q pd2 = pd_q pd1 ∧ pd_bar pd2 = pd_bar pd1 ∧ pd_lease pd2 = pd_lease pd1 ∧
      pd_io_ref_dying pd2 = pd_io_ref_dying pd1 ∧ pd_cdevs pd2 = pd_cdevs pd1) as (E1 & E2 & E3 & E4 & E5).
    { destruct actual; [|by injection Hfe as <- <-]. unfold mxdma_fence_pci_unbind in Hfe.
      destruct (wait_pending_transaction _ _ _); [|done]. by injection Hfe as <- <-. }
    unfold closed in *. cbn. rewrite E1, E2, E3, E4, E5. split; [by subst pd1|]. exists (pd_q pd1). auto.
  - cbn [mbind option_bind]. intros [= <- <- <-]. split; [unfold closed in *; by subst pd1|]. cbn.
    assert (actual = false) as ->. { destruct actual; [|done]. by specialize (A1 eq_refl). }
    specialize (P1 Hne). split; [done|]. split; [|split; [|done]].
    + constructor; cbn; [by destruct I1 | by subst pd1 | done].
    + unfold retained. by subst pd1.
Qed.

(** One teardown, by its result. *)
Lemma destroy_spec e fuel actual t pd r t' pd' :
  live pd → (pd_teardown_started pd = true → closed pd) →
  destroy_mx_pdev e fuel actual t pd = Some (r, t', pd') →
  closed pd' ∧
  (r = true → ∃ q, pd_freed pd' = Some q ∧ threads q = no_threads ∧
     (gone_seen e ∨ quiet e (pd_q pd) q)) ∧
  (r = false → actual = false ∧ live pd' ∧ retained pd pd' ∧ protocol_poisoned (pd_q pd') = true).
Proof.
  intros L C. destruct (L) as [I F R]. unfold destroy_mx_pdev.
  destruct (pd_teardown_started pd) eqn:T.
  - rewrite (R eq_refl). cbn [negb]. specialize (C eq_refl). destruct actual; cbn [negb]; last first.
    { intros [= <- <- <-]. split_and!; try done. intros _. split_and!; try done. auto. }
    unfold destroy_again. destruct (mxdma_drain_device_protocol _ _ _ _) as [t1|]; [|done]. cbn [mbind option_bind].
    destruct (mxdma_wait_io_quiesced _ _ _) as [t2|]; [|done]. cbn [mbind option_bind].
    intros [C' H]%destroy_stop_spec; try done. split; [done|]. by destruct r.
  - destruct (destroy_quiesce _ _ _ _ _) as [[t1 pd1]|] eqn:Hq; [|done]. cbn [mbind option_bind].
    apply destroy_quiesce_spec in Hq as (I1 & C1 & K1 & Q1 & T1); [|done].
    intros [C' H]%destroy_stop_spec; try done; [|by destruct K1]. split; [done|]. rewrite Q1 in H.
    destruct r; [done|]. split; [done|]. intros _. destruct H as (H1 & H2 & H3 & H4). split_and!; try done.
    destruct K1 as (K0 & K1 & K2 & K3 & K4 & K5), H3 as (J0 & J1 & J2 & J3 & J4 & J5).
    unfold retained. split_and!; congruence.
Qed.

(** C29: teardown never frees memory the device can still use.  Whatever the device
    does, [destroy_mx_pdev] leaves the device closed to new opens, calls and mappings; if
    it returns true, the queues it freed were those of stopped threads, and either the
    PCI device was gone for good or no command was left and the device held neither queue
    nor the address of the admin queue; if it returns false, the call was not the real
    unbind, nothing was freed (queues, descriptor pool, mailboxes, BAR and PCI state are
    as before), and the device is poisoned, so that the unbind will try again. *)
Theorem teardown_frees_only_quiet e fuel actual t pd r t' pd' :
  live pd → (pd_teardown_started pd = true → closed pd) →
  destroy_mx_pdev e fuel actual t pd = Some (r, t', pd') →
  closed pd' ∧
  (r = true → ∃ q, pd_freed pd' = Some q ∧ threads q = no_threads ∧
     (gone_seen e ∨ quiet e (pd_q pd) q)) ∧
  (r = false → actual = false ∧ live pd' ∧ retained pd pd' ∧ protocol_poisoned (pd_q pd') = true).
Proof. apply destroy_spec. Qed.

(** ** Termination *)

(** From tick [n] on no fops body is left, and the device is either gone or has completed
    its commands and its PCI transactions. *)
Definition settles (e : unbind_env) (n : nat) : Prop :=
  ∀ i, (n ≤ i)%nat → ue_quiet e i = true ∧ (ue_gone e i = true ∨ ue_idle e i = true ∧ ue_settled e i = true).

(** The device is gone from tick [n] on, and a recovery notices. *)
Definition removed (e : unbind_env) (n : nat) : Prop :=
  (∀ i, (n ≤ i)%nat → ue_gone e i = true) ∧ ∀ i q, is_Some (recover_call e i q).

(** An initialised device that deletes its queues when asked. *)
Definition healthy (e : unbind_env) (pd : mx_pci_dev) : Prop :=
  pd_queues_initialized pd = true ∧ protocol_poisoned (pd_q pd) = false ∧
  ∀ i, (release_queue (ue_queue e i) (pd_q pd)).1 = 0.

Lemma drain_returns e n fuel t pd :
  settles e n → (n ≤ fuel + t)%nat → is_Some (mxdma_drain_device_protocol e fuel t pd).
Proof.
  intros Hs. revert t. induction fuel as [|f IH]; intros t Hn; cbn; unfold mxdma_io_queue_idle;
    destruct (io_queue (pd_q pd)), (ue_idle e t) eqn:Hi, (ue_gone e t) eqn:Hg; cbn; eauto;
    first [destruct (Hs t) as (_ & [?|(? & _)]); [lia | congruence ..] | apply IH; lia].
Qed.

Lemma quiesce_returns e n fuel t : settles e n → (n ≤ fuel + t)%nat → is_Some (mxdma_wait_io_quiesced e fuel t).
Proof.
  intros Hs. revert t. induction fuel as [|f IH]; intros t Hn; cbn; destruct (ue_quiet e t) eqn:Hq; eauto.
  - destruct (Hs t) as (? & _); [lia | congruence].
  - apply IH. lia.
Qed.

Lemma pending_returns e n fuel t : settles e n → (n ≤ fuel + t)%nat → is_Some (wait_pending_transaction e fuel t).
Proof.
  intros Hs. revert t. induction fuel as [|f IH]; intros t Hn; cbn; destruct (ue_settled e t) eqn:Hq, (ue_gone e t) eqn:Hg; eauto.
  - destruct (Hs t) as (_ & [?|(_ & ?)]); [lia | congruence ..].
  - apply IH. lia.
Qed.

Section returns.
Context (e : unbind_env) (n : nat) (Hs : settles e n).

Lemma recover_poisoned_returns fuel t q :
  removed e n → (n ≤ fuel + t)%nat → is_Some (recover_poisoned e fuel t q).
Proof.
  intros [Hg Hrec]. revert t q. induction fuel as [|f IH]; intros t q Hn; cbn; destruct (protocol_poisoned q); cbn; eauto.
  - rewrite Hg by lia. eauto.
  - destruct (ue_gone e t); [eauto|]. destruct (Hrec t q) as [[ret q'] ->]. cbn. case_match; [eauto|]. apply IH. lia.
Qed.

Lemma recover_retry_returns fuel t ret q :
  removed e n → (n ≤ fuel + t)%nat → is_Some (recover_retry e fuel t ret q).
Proof.
  intros [Hg Hrec]. revert t ret q. induction fuel as [|f IH]; intros t ret q Hn; cbn; destruct (nz ret); cbn; eauto.
  - rewrite Hg by lia. eauto.
  - destruct (ue_gone e t); [eauto|]. destruct (Hrec t q) as [[ret' q'] ->]. cbn. apply IH. lia.
Qed.

Lemma next_returns x k : is_Some x → (∀ t pd, x = Some (inr (t, pd)) → is_Some (k t pd)) → is_Some (next x k).
Proof. intros [[r|[t pd]] ->] Hk; cbn; eauto. Qed.

Lemma stop_entry_returns fuel actual t pd : (n ≤ fuel)%nat → is_Some (stop_entry e fuel actual t pd).
Proof.
  intros Hf. unfold stop_entry. destruct actual; [|cbn; by repeat case_match; eauto].
  destruct (drain_returns e n fuel t (pd <| pd_async_wq := false |>) Hs) as [t1 ->]; [lia|]. cbn.
  case_match; eauto.
Qed.

Lemma stop_removed_returns fuel actual t pd :
  removed e n → (n ≤ fuel)%nat → is_Some (mxdma_stop_device_protocol e fuel actual t pd).
Proof.
  intros Hr Hf. unfold mxdma_stop_device_protocol.
  cut (is_Some (next (next (next (stop_entry e fuel actual t pd) (stop_poisoned e fuel actual))
    (stop_partial e fuel actual)) (stop_release e fuel actual))).
  { intros [[[[r t1] pd1]|[t1 pd1]] ->]; eauto. }
  apply next_returns; [apply next_returns; [apply next_returns; [by apply stop_entry_returns|]|]|];
    intros t0 pd0 _; clear t pd; rename t0 into t, pd0 into pd.
  - unfold stop_poisoned. destruct actual; cbn; [|eauto].
    destruct (recover_poisoned_returns fuel t (pd_q pd) Hr) as [[[g t1] q] ->]; [lia|]. cbn. case_match; eauto.
  - unfold stop_partial. case_match; [eauto|]. destruct (proj2 Hr t (pd_q pd)) as [[ret q] ->]. cbn. case_match; [eauto|].
    destruct (recover_retry_returns fuel (S t) ret q Hr) as [[[g t1] q1] ->]; [lia|]. cbn. case_match; eauto.
  - unfold stop_release. case_match; [eauto|]. destruct (release_queue _ _) as [ret q]. cbv zeta.
    case_match; [eauto|]. case_match; [eauto|].
    destruct (recover_retry_returns fuel (S t) ret (pd_q (poison (pd <| pd_q := q |>))) Hr) as [[[g t1] q1] ->]; [lia|].
    cbn. case_match; eauto.
Qed.

Lemma stop_healthy_returns fuel actual t pd :
  healthy e pd → (n ≤ fuel)%nat → is_Some (mxdma_stop_device_protocol e fuel actual t pd).
Proof.
  intros (H1 & H2 & H3) Hf. unfold mxdma_stop_device_protocol.
  destruct (stop_entry_returns fuel actual t pd Hf) as [[[[r t1] pd1]|[t1 pd1]] He]; rewrite He; cbn; [eauto|].
  assert (pd1 = pd <| pd_async_wq := false |>) as ->.
  { revert He. unfold stop_entry. cbv zeta. destruct actual.
    - destruct (mxdma_drain_device_protocol _ _ _ _); [|done]. cbn. case_match; by intros [= _ <-].
    - case_match; [done|]. case_match; by intros [= _ <-]. }
  assert (stop_poisoned e fuel actual t1 (pd <| pd_async_wq := false |>) = Some (inr (t1, pd <| pd_async_wq := false |>))) as ->.
  { unfold stop_poisoned. destruct actual; cbn; [|done]. destruct fuel; cbn; by rewrite H2. }
  cbn. unfold stop_partial. cbn. rewrite H1. cbn. unfold stop_release. cbn. rewrite H1. cbn. specialize (H3 t1).
  destruct (release_queue _ _) as [ret q]. cbn in H3. subst ret. cbn. eauto.
Qed.

Lemma destroy_stop_returns fuel actual t pd :
  (n ≤ fuel)%nat → is_Some (mxdma_stop_device_protocol e fuel actual t pd) → is_Some (destroy_stop e fuel actual t pd).
Proof.
  intros Hf [[[ret t1] pd1] Hp]. unfold destroy_stop. rewrite Hp. cbn.
  assert (is_Some (if negb (nz ret) && actual then mxdma_fence_pci_unbind e fuel t1 pd1 else Some (t1, pd1))) as [[t2 pd2] ->].
  { case_match; [|eauto]. unfold mxdma_fence_pci_unbind.
    destruct (pending_returns e n fuel t1 Hs) as [t2 ->]; [lia | by eexists]. }
  cbn. case_match; eauto.
Qed.
End returns.

(** C30: the unbind returns.  Once the fops bodies have left and the device has either
    been removed for good, or is healthy and has completed its commands and its PCI
    transactions, every teardown comes to an end, its loops taking no more rounds than it
    took to get there; and the real unbind then frees the device, on whatever path. *)
Theorem unbind_returns e n fuel actual t pd :
  settles e n → removed e n ∨ healthy e pd → (n ≤ fuel)%nat →
  ∃ r t' pd', destroy_mx_pdev e fuel actual t pd = Some (r, t', pd') ∧
    (live pd → (pd_teardown_started pd = true → closed pd) → actual = true → r = true).
Proof.
  intros Hs Hrec Hf.
  assert (∀ t pd', pd_q pd' = pd_q pd → pd_queues_initialized pd' = pd_queues_initialized pd →
    is_Some (destroy_stop e fuel actual t pd')) as Hstop.
  { intros t1 pd1 Eq Ei. apply (destroy_stop_returns e n Hs); [done|].
    destruct Hrec as [Hr|(H1 & H2 & H3)]; [by apply (stop_removed_returns e n)|].
    apply (stop_healthy_returns e n); [done | | done]. unfold healthy. by rewrite Eq, Ei. }
  assert (is_Some (destroy_mx_pdev e fuel actual t pd)) as [[[r t'] pd'] Hd].
  { unfold destroy_mx_pdev. case_match.
    - case_match; [eauto|]. case_match; [eauto|]. unfold destroy_again.
      destruct (drain_returns e n fuel t pd Hs) as [t1 ->]; [lia|]. cbn.
      destruct (quiesce_returns e n fuel t1 Hs) as [t2 ->]; [lia|]. cbn. by apply Hstop.
    - unfold destroy_quiesce. cbv zeta. set (pd0 := mxdma_device_offline _).
      assert (is_Some (if actual then mxdma_drain_device_protocol e fuel t pd0 else Some t)) as [t1 ->].
      { destruct actual; [|eauto]. apply (drain_returns e n); [done | lia]. }
      cbn. destruct (quiesce_returns e n fuel t1 Hs) as [t2 ->]; [lia|]. cbn.
      destruct (destroy_cdevs _ _) as [l pd1] eqn:Hc. apply destroy_cdevs_frame in Hc as [_ [x ->]]. cbn. by apply Hstop. }
  exists r, t', pd'. split; [done|]. intros L C ->. destruct r; [done|].
  revert Hd. unfold destroy_mx_pdev. destruct (pd_teardown_started pd) eqn:T.
  - rewrite (lv_retry _ L T). cbn. destruct (destroy_again _ _ _ _) as [[t1 pd1]|] eqn:Ha; [|done]. cbn.
    assert (pd1 = pd) as ->.
    { revert Ha. unfold destroy_again. destruct (mxdma_drain_device_protocol _ _ _ _); [|done]. cbn.
      destruct (mxdma_wait_io_quiesced _ _ _); [|done]. by intros [= _ <-]. }
    intros [_ H]%destroy_stop_spec; [by destruct H | apply L | by apply C | apply L | done].
  - destruct (destroy_quiesce _ _ _ _ _) as [[t1 pd1]|] eqn:Hq; [|done]. cbn.
    apply destroy_quiesce_spec in Hq as (I1 & C1 & K1 & Q1 & T1); [|done].
    intros [_ H]%destroy_stop_spec; [by destruct H | done | done | apply K1 | done].
Qed.

(** ** Creation, and its undoing *)

(** No file is open: a live node holds its own reference, a dead one none. *)
Definition cdev_idle (c : mx_char_dev) : Prop := cd_refs c = Z.b2z (cd_enabled c).
Definition live_nodes (l : list mx_char_dev) : Z := foldr (fun c n => Z.b2z (cd_enabled c) + n) 0 l.

(** The device reference count: the attachment and one per live node. *)
Definition refs_idle (pd : mx_pci_dev) : Prop :=
  Forall cdev_idle (pd_cdevs pd) ∧ bd_pdev_ref (pd_bar pd) = 1 + live_nodes (pd_cdevs pd).

Lemma live_nodes_app l1 l2 : live_nodes (l1 ++ l2) = live_nodes l1 + live_nodes l2.
Proof. unfold live_nodes. induction l1 as [|c l IH]; cbn [app foldr]; [lia|]. rewrite IH. lia. Qed.

(** Creating nodes changes the node list and the reference count only. *)
Lemma create_mx_cdev_spec name add pd ret pd' :
  refs_idle pd → create_mx_cdev name add pd = (ret, pd') →
  refs_idle pd' ∧ (∃ l r, pd' = pd <| pd_bar := (pd_bar pd) <| bd_pdev_ref := r |> |> <| pd_cdevs := l |>) ∧
  (ret = 0 → live_nodes (pd_cdevs pd') = live_nodes (pd_cdevs pd) + 1).
Proof.
  intros [Hf Hr]. unfold create_mx_cdev, nz, put_device. cbn.
  destruct (Z.eqb_spec name 0), (Z.eqb_spec add 0); cbn; intros [= <- <-]; (split; [|split; [|try done]]);
    try (by eexists _, _).
  all: unfold refs_idle; cbn; rewrite ?live_nodes_app, ?Forall_app; cbn; repeat split; auto; try lia; by constructor.
Qed.

Lemma create_cdevs_spec answers n type pd ret pd' :
  refs_idle pd → create_cdevs answers n type pd = (ret, pd') →
  refs_idle pd' ∧ (∃ l r, pd' = pd <| pd_bar := (pd_bar pd) <| bd_pdev_ref := r |> |> <| pd_cdevs := l |>) ∧
  (ret = 0 → live_nodes (pd_cdevs pd') = live_nodes (pd_cdevs pd) + Z.of_nat n).
Proof.
  revert type pd. induction n as [|n IH]; intros type pd Hr.
  { intros [= <- <-]. split; [done|]. split; [|cbn; lia]. exists (pd_cdevs pd), (bd_pdev_ref (pd_bar pd)).
    by destruct pd as [? ? [] ? ? ? ? ? ? ? ? ? ? ? ? ? ? ? ?]. }
  cbn [create_cdevs]. destruct (create_mx_cdev _ _ _) as [r1 pd1] eqn:Hc.
  apply create_mx_cdev_spec in Hc as (R1 & (l1 & x1 & ->) & N1); [|done].
  unfold nz. destruct (Z.eqb_spec r1 0) as [->|Hne]; cbn [negb]; last first.
  { intros [= <- <-]. split; [done|]. split; [by eexists _, _ | done]. }
  intros (R2 & (l2 & x2 & ->) & N2)%IH; [|done]. split; [done|]. split; [by exists l2, x2|].
  intros Hz. rewrite (N2 Hz), (N1 eq_refl). lia.
Qed.

Lemma destroy_cdevs_refs l pd l' pd' :
  Forall cdev_idle l → destroy_cdevs l pd = (l', pd') →
  bd_pdev_ref (pd_bar pd') = bd_pdev_ref (pd_bar pd) - live_nodes l.
Proof.
  revert pd l' pd'. induction l as [|c l IH]; intros pd l' pd' Hf; cbn.
  { intros [= <- <-]. lia. }
  apply Forall_cons_1 in Hf as [Hc Hf]. unfold cdev_idle in Hc. unfold destroy_mx_cdev, put_device.
  destruct (cd_enabled c) eqn:He; cbn in *; rewrite ?Hc; fold (live_nodes l).
  - change (1 - 1 =? 0) with true. destruct (destroy_cdevs l (mx_pdev_put pd)) as [l1 pd1] eqn:Hl.
    intros [= <- <-]. apply IH in Hl; [|done]. rewrite Hl. cbn. lia.
  - destruct (destroy_cdevs l pd) as [l1 pd1] eqn:Hl. intros [= <- <-]. apply IH in Hl; [|done]. lia.
Qed.

(** What [create_mx_pdev] leaves behind, however far it got. *)
Record created (ce : create_env) (ret : Z) (pd : mx_pci_dev) : Prop := {
  cr_live : live pd;
  cr_started : pd_teardown_started pd = false;
  cr_refs : refs_idle pd;
  cr_pci : pd_pci pd = pci_zero (ce_cfg ce) ∨ pd_pci pd = (pci_attach (ce_cxl ce) (ce_core ce) (pci_zero (ce_cfg ce))).2;
  cr_ready : ret = 0 → pd_queues_initialized pd = true ∧ protocol_poisoned (pd_q pd) = false ∧
    pd_async_wq pd = true ∧ pd_zombie_cleanup_thread pd = true ∧ pd_page_pool pd = true ∧
    bd_enabled (pd_bar pd) = true ∧ live_nodes (pd_cdevs pd) = Z.of_nat NUM_OF_MX_CDEV;
}.

Lemma create_stages_spec ce q0 ret pd :
  fresh q0 → create_stages ce (pdev_new ce q0) = (ret, pd) → created ce ret pd.
Proof.
  intros Hf. destruct (law_fresh _ Hf) as (F1 & F2 & F3). unfold create_stages.
  assert (∀ pd r, r ≠ 0 → live pd → pd_teardown_started pd = false → refs_idle pd →
    pd_pci pd = pci_zero (ce_cfg ce) ∨ pd_pci pd = (pci_attach (ce_cxl ce) (ce_core ce) (pci_zero (ce_cfg ce))).2 →
    created ce r pd) as Hfail by by constructor.
  assert (∀ x, nz x = true → x ≠ 0) as Hnz by (intros x Hx ->; done).
  assert (∀ pd, pd_queues_initialized pd = false → pd_freed pd = None → pd_teardown_started pd = false →
    inv (pd_q pd) → threads (pd_q pd) = no_threads → live pd) as Hlive.
  { intros pd' H1 H2 H3 H4 H5. constructor; [constructor; try done; congruence | done | congruence]. }
  cbv zeta. destruct (nz (ce_chrdev ce)) eqn:E1.
  { intros [= <- <-]. apply Hfail; [auto | by apply Hlive | done | by split | by left]. }
  match goal with |- context [pci_attach _ _ ?x] => change x with (pci_zero (ce_cfg ce)) end.
  rewrite (surjective_pairing (pci_attach (ce_cxl ce) (ce_core ce) (pci_zero (ce_cfg ce)))) at 1.
  remember (pci_attach (ce_cxl ce) (ce_core ce) (pci_zero (ce_cfg ce))).2 as m eqn:Hm.
  set (r := (pci_attach _ _ _).1). clearbody r.
  destruct (nz r) eqn:E2.
  { intros [= <- <-]. apply Hfail; [auto | by apply Hlive | done | by split | by right]. }
  match goal with |- context [init_queue ?x ?y] => change y with q0 end.
  destruct (init_queue (ce_queue ce) q0) as [r1 q1] eqn:Hi.
  destruct (law_init _ _ _ _ Hf Hi) as (I1 & I2 & I3).
  destruct (nz r1) eqn:E3.
  { intros [= <- <-]. apply Hfail; [auto | apply Hlive; cbn; auto | done | by split | by right]. }
  assert (r1 = 0) as -> by (unfold nz in E3; destruct (Z.eqb_spec r1 0); done).
  destruct (I2 eq_refl) as [I4 I5].
  set (pd3 := _ <| pd_queues_initialized := true |>).
  assert (live pd3) as L3 by (constructor; cbn; [by constructor | done | done]).
  assert (refs_idle pd3) as R3 by by split.
  assert (pd_teardown_started pd3 = false ∧ pd_queues_initialized pd3 = true ∧ protocol_poisoned (pd_q pd3) = false ∧
    pd_pci pd3 = m) as (T3 & Q3 & P3 & M3) by done.
  assert (live_nodes (pd_cdevs pd3) = 0) as N3 by done.
  clearbody pd3. clear Hi Hlive.
  destruct (ce_async_wq ce); cbn [negb]; last first.
  { intros [= <- <-]. apply Hfail; auto. }
  assert (∀ pd', life_inv pd' → pd_freed pd' = None → pd_teardown_started pd' = false → live pd') as Hlive
    by (intros ???; constructor; congruence).
  destruct (nz (ce_zombie ce)) eqn:E4.
  { intros [= <- <-]. apply Hfail; [auto | | done | by destruct R3; split | by right]. destruct L3 as [[] ? ?]. by apply Hlive. }
  destruct (ce_page_pool ce); cbn [negb]; last first.
  { intros [= <- <-]. apply Hfail; [done | | done | by destruct R3; split | by right]. destruct L3 as [[] ? ?]. by apply Hlive. }
  set (pd4 := _ <| pd_page_pool := true |>).
  destruct (create_cdevs _ _ _ _) as [r2 pd5] eqn:Hc.
  apply create_cdevs_spec in Hc as (R5 & (l & x & ->) & N5); [|by destruct R3; split].
  set (pd5 := pd4 <| pd_bar := _ |> <| pd_cdevs := l |>). fold pd5 in R5, N5.
  assert (life_inv pd5) as L5 by by destruct L3 as [[] ? ?].
  destruct (nz r2) eqn:E5; intros [= <- <-].
  { apply Hfail; [auto | apply Hlive; [done | exact (lv_freed _ L3) | done] | done | done | by right]. }
  assert (r2 = 0) as -> by (unfold nz in E5; destruct (Z.eqb_spec r2 0); done).
  constructor; [|done | exact R5 | right; rewrite <- Hm; exact M3 |].
  - apply Hlive; [by destruct L5 | exact (lv_freed _ L3) | done].
  - intros _. split_and!; try done. change (live_nodes (pd_cdevs pd5) = Z.of_nat NUM_OF_MX_CDEV).
    rewrite (N5 eq_refl). change (pd_cdevs pd4) with (pd_cdevs pd3). by rewrite N3.
Qed.

(** Nothing of the device is left but the reference its caller holds. *)
Record undone (pd : mx_pci_dev) : Prop := {
  un_refs : bd_pdev_ref (pd_bar pd) = 1;
  un_nodes : Forall (fun c => cd_enabled c = false) (pd_cdevs pd);
  un_mboxes : bd_sq_mbox_list (pd_bar pd) = ∅ ∧ bd_cq_mbox_list (pd_bar pd) = ∅;
  un_pool : pd_page_pool pd = false;
  un_wq : pd_async_wq pd = false;
  un_thread : pd_zombie_cleanup_thread pd = false;
  un_chrdev : pd_chrdev_region_allocated pd = false;
  un_qos : pd_cpu_latency_req pd = false;
  un_queues : is_Some (pd_freed pd);
}.

Lemma destroy_undoes e fuel t pd t' pd' :
  live pd → pd_teardown_started pd = false → refs_idle pd →
  destroy_mx_pdev e fuel false t pd = Some (true, t', pd') →
  undone pd' ∧ pd_pci pd' = pci_detach (ue_core e) (pd_pci pd).
Proof.
  intros [I F _] T [R1 R2]. unfold destroy_mx_pdev. rewrite T. unfold destroy_quiesce. cbv zeta.
  cbn [mbind option_bind].
  destruct (mxdma_wait_io_quiesced _ _ _) as [t2|]; [|done]. cbn [mbind option_bind].
  destruct (destroy_cdevs _ _) as [l pd1] eqn:Hd. pose proof (destroy_cdevs_refs _ _ _ _ R1 Hd) as Hr.
  apply destroy_cdevs_frame in Hd as [Hf [r ->]]. cbn [mbind option_bind]. cbn in Hr.
  match goal with |- destroy_stop _ _ _ _ ?x = _ → _ => set (pd1 := x) end.
  assert (life_inv pd1) as I1 by (destruct I; by constructor).
  unfold destroy_stop. destruct (mxdma_stop_device_protocol _ _ _ _ _) as [[[ret t3] pd2]|] eqn:Hs; [|done].
  apply stop_protocol_spec in Hs as [_ (q & b & ->) _ _ _ _]; [|done].
  cbn [mbind option_bind]; cbv zeta; rewrite andb_false_r. cbn [mbind option_bind]. destruct (nz ret); cbn [negb]; [done|]. intros [= <- <-].
  split; [|done]. constructor; try done. cbn. lia.
Qed.

(** C31: a failed attach is undone.  Wherever [create_mx_pdev] fails, if its teardown is
    safe it returns the PCI function with the settings it was found with and leaves
    nothing behind: no node, mailbox, pool, work queue, thread, device number or latency
    request, the queues freed, and one reference, the attachment's own.  If it is not
    safe the device stays poisoned with everything retained.  And when [create_mx_pdev]
    succeeds the device is ready: queues initialised and not poisoned, threads, pool and
    the three nodes there, and online. *)
Theorem failed_attach_undone ce q0 ret pd e fuel t r t' pd' :
  fresh q0 → accepts (ue_core e) (ce_cfg ce) → ue_core e = ce_core ce →
  pc_irq_handler (ce_cfg ce) = false → pc_bar_region (ce_cfg ce) = false → pc_bar_iomap (ce_cfg ce) = false →
  create_mx_pdev ce true q0 = (ret, Some pd) →
  created ce ret pd ∧
  (destroy_mx_pdev e fuel false t pd = Some (r, t', pd') →
   if r : bool then undone pd' ∧ foreign_config (ce_cxl ce) (pci (pd_pci pd')) = foreign_config (ce_cxl ce) (ce_cfg ce)
   else protocol_poisoned (pd_q pd') = true ∧ retained pd pd').
Proof.
  intros Hf Ha Hk H1 H2 H3. unfold create_mx_pdev. cbn [negb].
  destruct (ce_kzalloc ce); cbn [negb]; [|done]. destruct (nz (ce_ref_init ce)); [done|].
  destruct (ce_bar_map ce); cbn [negb]; [|done]. destruct (create_stages _ _) as [ret1 pd1] eqn:Hc.
  intros [= <- <-]. apply create_stages_spec in Hc; [|done]. split; [done|]. destruct Hc as [L T R P _].
  intros Hd. destruct r.
  - apply destroy_undoes in Hd as [U E']; [|done..]. split; [done|]. rewrite E'.
    assert (restorable (ce_cxl ce) (ce_cfg ce) (pd_pci pd1)) as Hrs.
    { destruct P as [-> | ->]; [by constructor | by apply pci_attach_restorable]. }
    destruct (pci_detach_ok _ _ _ _ Ha Hrs) as [D1 D2]. by apply restored_config.
  - unfold destroy_mx_pdev in Hd. rewrite T in Hd.
    destruct (destroy_quiesce _ _ _ _ _) as [[t1 pd2]|] eqn:Hq; [|done].
    apply destroy_quiesce_spec in Hq as (I1 & C1 & K1 & Q1 & T1); [|done]. cbn [mbind option_bind] in Hd.
    apply destroy_stop_spec in Hd as (_ & _ & _ & K2 & Hp); [|done | done | apply K1 | done]. split; [done|].
    destruct K1 as (A0 & A1 & A2 & A3 & A4 & A5), K2 as (B0 & B1 & B2 & B3 & B4 & B5).
    unfold retained. split_and!; congruence.
Qed.

End device.

(** ** Concrete runs *)

Definition demo_create (q : init_env) : create_env (E := v2_env) :=
  MkCreate true 0 true 7 0 true (MkCore 0 65536 true 0 0 (fun _ => 0) 0 7 0 (fun _ => 0) (fun _ => 0) (fun _ => 0))
    demo_cfg (MkV2Env q silent silent silent (fun _ => false) 3) true 0 true (fun _ => (0, 0)).

(** A device that answers from tick 2 on: the late completion of the lost command, then
    the two deletions. *)
Definition demo_unbind : unbind_env (E := v2_env) :=
  MkUnbind (fun i => Nat.leb 2 i) (fun _ => false) (fun _ => true) (fun _ => true)
    (fun _ => MkV2Env demo_init (answer 2 5) (answer 3 0) (answer 4 0) (fun i => Nat.leb 2 i) 3)
    (ce_core (demo_create demo_init)).

Definition lost_init : init_env :=
  MkInitEnv 0 0 4096 8192 65536 (answer 1 5) silent silent silent 0 0.

Notation demo_lost_create := (create_stages (demo_create lost_init) (pdev_new (demo_create lost_init) st_none)).
Notation demo_unbound := (destroy_mx_pdev demo_unbind 5 true 0 demo_lost_create.2).

Lemma fresh_none : fresh st_none.
Proof. by repeat split. Qed.

Lemma demo_lost_created : created (demo_create lost_init) demo_lost_create.1 demo_lost_create.2.
Proof.
  by destruct (create_stages _ _) eqn:Hc; apply (create_stages_spec _ _ _ _ fresh_none Hc).
Qed.

Lemma teardown_frees_only_quiet_witness :
  match demo_unbound with
  | Some (r, _, pd') => r = true ∧ ∃ q, pd_freed pd' = Some q ∧ threads q = no_threads ∧
      (gone_seen demo_unbind ∨ quiet demo_unbind (pd_q demo_lost_create.2) q)
  | None => False
  end.
Proof.
  assert (option_map (fun x => x.1.1) demo_unbound = Some true) as Hr by (vm_compute; reflexivity).
  destruct demo_unbound as [[[r t'] pd']|] eqn:Hd; [|discriminate Hr]. injection Hr as ->. split; [reflexivity|].
  refine (proj1 (proj2 (teardown_frees_only_quiet demo_unbind 5 true 0 demo_lost_create.2 true t' pd'
    (cr_live _ _ _ demo_lost_created) _ Hd)) eq_refl).
  rewrite (cr_started _ _ _ demo_lost_created). discriminate.
Defined.

(** A device pulled out at tick 2, its lost command never completed. *)
Definition demo_removed : unbind_env (E := v2_env) :=
  MkUnbind (fun _ => false) (fun i => Nat.leb 2 i) (fun _ => true) (fun _ => false)
    (fun _ => MkV2Env demo_init silent silent silent (fun _ => true) 1) (ce_core (demo_create demo_init)).

Lemma recover_gone_returns q (m1 m2 m3 : cq_memory) :
  is_Some (recover_mx_queue m1 m2 m3 (fun _ => true) 1 q).
Proof.
  unfold recover_mx_queue, drain_pending_admin.
  repeat first [by eexists | progress cbn | case_match].
Qed.

Lemma unbind_returns_witness :
  ∃ r t' pd', destroy_mx_pdev demo_removed 2 true 0 demo_lost_create.2 = Some (r, t', pd') ∧ r = true.
Proof.
  assert (settles demo_removed 2) as Hs.
  { intros i Hi. split; [reflexivity|]. left. exact (proj2 (Nat.leb_le 2 i) Hi). }
  assert (removed demo_removed 2) as Hr.
  { split; [intros i Hi; exact (proj2 (Nat.leb_le 2 i) Hi) | intros i q; apply recover_gone_returns]. }
  destruct (unbind_returns demo_removed 2 2 true 0 demo_lost_create.2 Hs (or_introl Hr) (le_n 2))
    as (r & t' & pd' & Hd & Hl).
  exists r, t', pd'. split; [exact Hd|]. apply Hl; [apply (cr_live _ _ _ demo_lost_created) | | reflexivity].
  rewrite (cr_started _ _ _ demo_lost_created). discriminate.
Defined.

(** The page pool cannot be created: the queues exist already. *)
Definition demo_no_pool : create_env (E := v2_env) :=
  MkCreate true 0 true 7 0 true (ce_core (demo_create demo_init)) demo_cfg
    (MkV2Env (MkInitEnv 0 0 4096 8192 65536 (answer 1 5) (answer 2 5) silent silent 0 0)
       silent silent silent (fun _ => false) 3) true 0 false (fun _ => (0, 0)).
Notation demo_no_pool_pdev := (create_stages demo_no_pool (pdev_new demo_no_pool st_none)).

Lemma failed_attach_undone_witness :
  demo_no_pool_pdev.1 = - ENOMEM ∧
  match destroy_mx_pdev demo_unbind 5 false 2 demo_no_pool_pdev.2 with
  | Some (r, _, pd') => r = true ∧ undone pd'
  | None => False
  end.
Proof.
  split; [vm_compute; reflexivity|].
  assert (option_map (fun x => x.1.1) (destroy_mx_pdev demo_unbind 5 false 2 demo_no_pool_pdev.2) = Some true) as Hr
    by (vm_compute; reflexivity).
  destruct (destroy_mx_pdev demo_unbind 5 false 2 demo_no_pool_pdev.2) as [[[r t'] pd']|] eqn:Hd; [|discriminate Hr].
  injection Hr as ->. split; [reflexivity|].
  assert (accepts (ue_core demo_unbind) (ce_cfg demo_no_pool)) as Ha by (constructor; reflexivity).
  destruct (create_stages demo_no_pool (pdev_new demo_no_pool st_none)) as [ret pd] eqn:Hc.
  assert (create_mx_pdev demo_no_pool true st_none = (ret, Some pd)) as Hm.
  { unfold create_mx_pdev. rewrite Hc. reflexivity. }
  exact (proj1 (proj2 (failed_attach_undone demo_no_pool st_none ret pd demo_unbind 5 2 true t' pd'
    fresh_none Ha eq_refl eq_refl eq_refl eq_refl Hm) Hd)).
Defined.
