(* ===== verification/Fops.v ===== *)
(** * File operations (src/fops.c) and the fence of the teardown

    Opening a node, the prologue and epilogue of every file operation, the dispatch of
    ioctls, polling, and the interleaving of file operations with the teardown of
    src/init.c through [io_ref]. *)

From S2P Require Import Prelude Uapi LeaseSM LeaseTypes Lease BarMap Ioctl.

(** ** State *)

(** The fields of [mx_pci_dev] a file operation looks at before it runs.  [fd_io_ref]
    counts the references on [io_ref]; [fd_ref] is the [kref]. *)
Record fops_dev := MkFd {
  fd_io_ref : Z;
  fd_dying : bool;
  fd_removed : bool;
  fd_enabled : bool;
  fd_ref : Z;
  fd_event_count : Z;
}.

#[export] Instance eta_fd : Eta fops_dev := fun r =>
  MkFd (fd_io_ref r) (fd_dying r) (fd_removed r) (fd_enabled r) (fd_ref r) (fd_event_count r).

(** The pointers and magic numbers reached from a [struct file]. *)
Record file_view := MkFile {
  fv_ctx : bool; fv_ctx_magic : bool; fv_cdev_magic : bool; fv_pdev : bool; fv_pdev_magic : bool;
}.

(** ** Opening and closing *)

Definition mx_pdev_get_live (d : fops_dev) : bool * fops_dev :=
  RETURN (false, d) WHEN (fd_ref d =? 0) ;;
  let d := d <| fd_ref := fd_ref d + 1 |> in
  RETURN (false, d <| fd_ref := fd_ref d - 1 |>) WHEN (fd_removed d) ;;
  (true, d).

Definition mxdma_device_open (cdev_magic alloc : bool) (cdev : Z) (d : fops_dev)
    : Z * fops_dev * option mx_file_ctx :=
  RETURN (- EINVAL, d, None) WHEN (negb cdev_magic) ;;
  RETURN (- ENODEV, d, None) WHEN (fd_dying d) ;;
  let '(live, d) := mx_pdev_get_live d in
  RETURN (- ENODEV, d, None) WHEN (negb live) ;;
  RETURN (- ENOMEM, d <| fd_ref := fd_ref d - 1 |>, None) WHEN (negb alloc) ;;
  (0, d, Some (ctx_new cdev)).

(** The file drops its reference on the context; the last one frees it. *)
Definition mxdma_device_release (f : file_view) (ctx : mx_file_ctx) : Z * mx_file_ctx :=
  RETURN (- EINVAL, ctx) WHEN (negb (fv_ctx f) || negb (fv_ctx_magic f)) ;;
  (0, ctx <| cx_refs := cx_refs ctx - 1 |>).

(** ** Prologue and epilogue *)

Definition percpu_ref_tryget_live (d : fops_dev) : bool * fops_dev :=
  if fd_dying d then (false, d) else (true, d <| fd_io_ref := fd_io_ref d + 1 |>).
Definition percpu_ref_put (d : fops_dev) : fops_dev := d <| fd_io_ref := fd_io_ref d - 1 |>.

Definition prepare_file (f : file_view) : Z :=
  RETURN (- EINVAL) WHEN (negb (fv_ctx f) || negb (fv_ctx_magic f)) ;;
  RETURN (- EINVAL) WHEN (negb (fv_cdev_magic f)) ;;
  RETURN (- EINVAL) WHEN (negb (fv_pdev f)) ;;
  RETURN (- EINVAL) WHEN (negb (fv_pdev_magic f)) ;; 0.

(** The check after the reference is held. *)
Definition prepare_check (d : fops_dev) : Z * fops_dev :=
  RETURN (- ENODEV, percpu_ref_put d) WHEN (fd_removed d || negb (fd_enabled d)) ;; (0, d).

Definition mxdma_device_prepare (f : file_view) (d : fops_dev) : Z * fops_dev :=
  RETURN (prepare_file f, d) WHEN (nz (prepare_file f)) ;;
  let '(ok, d) := percpu_ref_tryget_live d in
  RETURN (- ENODEV, d) WHEN (negb ok) ;;
  prepare_check d.

Definition mxdma_device_finish (d : fops_dev) : fops_dev := percpu_ref_put d.

(** ** Ioctls *)

Section ioctl.
(** The lease ioctls and the device ioctls, run on the lease state of the file. *)
Variable mx_lease_ioctl : Z → lstate → Z * lstate.
Variable run_op : option ioctl_op → lstate → Z * lstate.

(** Between prologue and epilogue. *)
Definition ioctl_body (cmd : Z) (st : lstate) : Z * lstate :=
  if mx_lease_ioctl_cmd cmd then mx_lease_ioctl cmd st
  else if negb (mx_ioctl_is_direct_cmd cmd) then run_op (ioctl_to_device cmd) st
  else
    let '(ret, st) := mx_lease_direct_begin st in
    RETURN (ret, st) WHEN (nz ret) ;;
    let '(ret, st) := run_op (ioctl_to_device cmd) st in
    (ret, st <| l_ctx := mx_lease_direct_end (l_ctx st) |>).

Definition mxdma_device_ioctl (f : file_view) (cmd : Z) (d : fops_dev) (st : lstate) : Z * fops_dev * lstate :=
  let '(ret, d) := mxdma_device_prepare f d in
  RETURN (ret, d, st) WHEN (nz ret) ;;
  let '(ret, st) := ioctl_body cmd st in
  (ret, mxdma_device_finish d, st).

Definition ENOIOCTLCMD : Z := 515.

Definition mxdma_device_compat_ioctl (f : file_view) (cmd : Z) (d : fops_dev) (st : lstate) : Z * fops_dev * lstate :=
  RETURN (- ENOIOCTLCMD, d, st) WHEN (negb (mx_lease_ioctl_cmd cmd)) ;;
  mxdma_device_ioctl f cmd d st.
End ioctl.

(** ** Mapping the BAR *)

(** [map]: [mx_bar_mmap] on the device and the context. *)
Definition mxdma_bar_mmap (map : bar_dev → mx_file_ctx → Z * bar_dev * mx_file_ctx * option mx_bar_vma)
    (f : file_view) (d : fops_dev) (b : bar_dev) (st : lstate) : Z * fops_dev * bar_dev * lstate :=
  let '(ret, d) := mxdma_device_prepare f d in
  RETURN (ret, d, b, st) WHEN (nz ret) ;;
  let '(ret, st) := mx_lease_direct_begin st in
  RETURN (ret, mxdma_device_finish d, b, st) WHEN (nz ret) ;;
  let '(ret, b, ctx, _) := map b (l_ctx st) in
  (ret, mxdma_device_finish d, b, st <| l_ctx := mx_lease_direct_end ctx |>).

(** ** Polling *)

Definition EPOLLIN : Z := 1.
Definition EPOLLERR : Z := 8.
Definition EPOLLHUP : Z := 16.
Definition EPOLLRDNORM : Z := 64.

Definition msi_irq_handler (d : fops_dev) : fops_dev := d <| fd_event_count := fd_event_count d + 1 |>.

(** The decision after [poll_wait]; the count is read here and decremented in a second
    access. *)
Definition poll_mask (d : fops_dev) : Z :=
  if fd_dying d || fd_removed d then Z.lor EPOLLERR EPOLLHUP
  else if 0 <? fd_event_count d then Z.lor EPOLLIN EPOLLRDNORM else 0.
Definition poll_consume (d : fops_dev) : fops_dev := d <| fd_event_count := fd_event_count d - 1 |>.

Definition mxdma_device_poll (f : file_view) (d : fops_dev) : Z * fops_dev :=
  let '(ret, d) := mxdma_device_prepare f d in
  RETURN (if ret =? - ENODEV then Z.lor EPOLLERR EPOLLHUP else EPOLLERR, d) WHEN (nz ret) ;;
  let mask := poll_mask d in
  let d := if mask =? Z.lor EPOLLIN EPOLLRDNORM then poll_consume d else d in
  (mask, mxdma_device_finish d).

(** ** The bdf node *)

(** [scnprintf(bdf_str, 32, ...)] and [simple_read_from_buffer]: the bytes delivered from
    position [ppos] and the new position; [fault]: how many bytes could not be copied. *)
Definition mxdma_bdf_read {A} (bdf : list A) (newline : A) (f : file_view) (count ppos : Z) (fault : Z) (d : fops_dev)
    : Z * list A * Z * fops_dev :=
  let '(ret, d) := mxdma_device_prepare f d in
  RETURN (ret, [], ppos, d) WHEN (nz ret) ;;
  let bdf_str := take 31 (bdf ++ [newline]) in
  let available := Z.of_nat (length bdf_str) in
  RETURN (- EINVAL, [], ppos, mxdma_device_finish d) WHEN (ppos <? 0) ;;
  RETURN (0, [], ppos, mxdma_device_finish d) WHEN ((available <=? ppos) || (count =? 0)) ;;
  let count := Z.min count (available - ppos) in
  RETURN (- EFAULT, [], ppos, mxdma_device_finish d) WHEN (fault =? count) ;;
  let count := count - fault in
  (count, take (Z.to_nat count) (drop (Z.to_nat ppos) bdf_str), ppos + count, mxdma_device_finish d).

(** ** File operations against the teardown *)

(** The stages of [destroy_mx_pdev]: not started, [mx_lease_mark_removed], the two halves
    of [mxdma_device_offline], the end of [mxdma_wait_io_quiesced], and the releases. *)
Inductive teardown := TLive | TMarked | TDisabled | TKilled | TQuiesced | TFreed.

Definition stage_of (t : teardown) : nat :=
  match t with TLive => 0 | TMarked => 1 | TDisabled => 2 | TKilled => 3 | TQuiesced => 4 | TFreed => 5 end.

(** A file operation: it holds the reference; it passed the check; it is a poll that has
    seen an event. *)
Inductive fop := FGot | FBody | FPollSeen.

(** The device, the file operations in progress, the nowait waiters, and how far the
    teardown is. *)
Record fence := MkFence {
  fn_dev : fops_dev;
  fn_fops : gmap nat fop;
  fn_waiters : gset nat;
  fn_stage : teardown;
}.

#[export] Instance eta_fence : Eta fence := fun r =>
  MkFence (fn_dev r) (fn_fops r) (fn_waiters r) (fn_stage r).

(** Every step is one atomic access of one thread. *)
Inductive fence_step (w : fence) : fence → Prop :=
  | FsGet i d :
      fn_fops w !! i = None → percpu_ref_tryget_live (fn_dev w) = (true, d) →
      fence_step w (w <| fn_dev := d |> <| fn_fops := <[i := FGot]> (fn_fops w) |>)
  | FsRefuse i ret d :
      fn_fops w !! i = Some FGot → prepare_check (fn_dev w) = (ret, d) → ret ≠ 0 →
      fence_step w (w <| fn_dev := d |> <| fn_fops := delete i (fn_fops w) |>)
  | FsEnter i d :
      fn_fops w !! i = Some FGot → prepare_check (fn_dev w) = (0, d) →
      fence_step w (w <| fn_dev := d |> <| fn_fops := <[i := FBody]> (fn_fops w) |>)
  | FsFinish i :
      fn_fops w !! i = Some FBody →
      fence_step w (w <| fn_dev := mxdma_device_finish (fn_dev w) |> <| fn_fops := delete i (fn_fops w) |>)
  | FsSchedule i j :
      fn_fops w !! i = Some FBody → j ∉ fn_waiters w →
      fence_step w (w <| fn_dev := (fn_dev w) <| fd_io_ref := fd_io_ref (fn_dev w) + 1 |> |>
                      <| fn_waiters := {[j]} ∪ fn_waiters w |>)
  | FsWaited j :
      j ∈ fn_waiters w →
      fence_step w (w <| fn_dev := percpu_ref_put (fn_dev w) |> <| fn_waiters := fn_waiters w ∖ {[j]} |>)
  | FsPollRead i :
      fn_fops w !! i = Some FBody → poll_mask (fn_dev w) = Z.lor EPOLLIN EPOLLRDNORM →
      fence_step w (w <| fn_fops := <[i := FPollSeen]> (fn_fops w) |>)
  | FsPollConsume i :
      fn_fops w !! i = Some FPollSeen →
      fence_step w (w <| fn_dev := poll_consume (fn_dev w) |> <| fn_fops := <[i := FBody]> (fn_fops w) |>)
  | FsInterrupt : fence_step w (w <| fn_dev := msi_irq_handler (fn_dev w) |>)
  | FsMark :
      fn_stage w = TLive →
      fence_step w (w <| fn_dev := (fn_dev w) <| fd_removed := true |> |> <| fn_stage := TMarked |>)
  | FsDisable :
      fn_stage w = TMarked →
      fence_step w (w <| fn_dev := (fn_dev w) <| fd_enabled := false |> |> <| fn_stage := TDisabled |>)
  | FsKill :
      fn_stage w = TDisabled →
      fence_step w (w <| fn_dev := (fn_dev w) <| fd_dying := true |> |> <| fn_stage := TKilled |>)
  | FsQuiesced :
      fn_stage w = TKilled → fd_io_ref (fn_dev w) = 0 → fence_step w (w <| fn_stage := TQuiesced |>)
  | FsFree : fn_stage w = TQuiesced → fence_step w (w <| fn_stage := TFreed |>).

(** A device that has come online. *)
Definition fence0 : fence := MkFence (MkFd 0 false false true 4 0) ∅ ∅ TLive.

Record fence_inv (w : fence) : Prop := {
  fi_ref : fd_io_ref (fn_dev w) = Z.of_nat (size (fn_fops w)) + Z.of_nat (size (fn_waiters w));
  fi_removed : (1 ≤ stage_of (fn_stage w))%nat → fd_removed (fn_dev w) = true;
  fi_dying : (3 ≤ stage_of (fn_stage w))%nat → fd_dying (fn_dev w) = true;
  fi_quiet : (4 ≤ stage_of (fn_stage w))%nat → fn_fops w = ∅ ∧ fn_waiters w = ∅;
}.

Lemma lookup_size {A} (m : gmap nat A) i x : m !! i = Some x → m ≠ ∅ ∧ (0 < size m)%nat.
Proof.
  intros Hi. assert (m ≠ ∅) as Hm by (intros ->; done). split; [done|].
  apply Nat.neq_0_lt_0. by intros ?%map_size_empty_iff.
Qed.

Lemma fence_step_inv w w' : fence_inv w → fence_step w w' → fence_inv w'.
Proof.
  intros [R M D Q] Hs. destruct Hs.
  - unfold percpu_ref_tryget_live in *. destruct (fd_dying (fn_dev w)) eqn:E; simplify_eq.
    constructor; cbn; try done; [rewrite map_size_insert_None by done; lia | |];
      intros; by specialize (D ltac:(lia)).
  - unfold prepare_check in *. split_if; simplify_eq. destruct (lookup_size _ _ _ H) as [Hne Hsz].
    constructor; cbn; try done; [rewrite map_size_delete_Some by eauto; lia|].
    intros H4. by destruct (Q H4) as [E ?].
  - unfold prepare_check in *. split_if; simplify_eq.
    constructor; cbn; try done; [rewrite map_size_insert_Some by eauto; lia|].
    intros H4. destruct (Q H4) as [E ?]. by destruct (lookup_size _ _ _ H).
  - destruct (lookup_size _ _ _ H) as [Hne Hsz].
    constructor; cbn; try done; [rewrite map_size_delete_Some by eauto; lia|].
    intros H4. by destruct (Q H4) as [E ?].
  - constructor; cbn; try done; [rewrite size_union by set_solver; rewrite size_singleton; lia|].
    intros H4. destruct (Q H4) as [E ?]. by destruct (lookup_size _ _ _ H).
  - assert (size (fn_waiters w) = S (size (fn_waiters w ∖ {[j]}))) as Hz.
    { rewrite (union_difference_singleton_L j (fn_waiters w)) at 1 by done.
      rewrite size_union by set_solver. by rewrite size_singleton. }
    constructor; cbn; try done; [lia|]. intros H4. destruct (Q H4) as [-> ->]. by split; [|set_solver].
  - constructor; cbn; try done; [rewrite map_size_insert_Some by eauto; lia|].
    intros H4. destruct (Q H4) as [E ?]. by destruct (lookup_size _ _ _ H).
  - constructor; cbn; try done; [rewrite map_size_insert_Some by eauto; lia|].
    intros H4. destruct (Q H4) as [E ?]. by destruct (lookup_size _ _ _ H).
  - by constructor.
  - rewrite H in *. constructor; cbn; try done; intros; lia.
  - rewrite H in *. constructor; cbn; try done; intros; first [lia | apply M; cbn; lia].
  - rewrite H in *. constructor; cbn; try done; intros; first [lia | apply M; cbn; lia].
  - assert (fn_fops w = ∅ ∧ fn_waiters w = ∅) as HQ.
    { assert (size (fn_fops w) = 0%nat ∧ size (fn_waiters w) = 0%nat) as [H1 H2] by lia.
      split; [by apply map_size_empty_iff | by apply size_empty_iff, leibniz_equiv in H2]. }
    rewrite H in *. constructor; cbn; try done; intros; [apply M; cbn; lia | apply D; cbn; lia].
  - rewrite H in *. constructor; cbn; try done; intros; [apply M; cbn; lia | apply D; cbn; lia | apply Q; cbn; lia].
Qed.

Lemma fence_reachable w : rtc fence_step fence0 w → fence_inv w.
Proof.
  intros Hr. assert (fence_inv fence0) as Hi by (constructor; cbn; try done; intros; lia).
  induction Hr as [|w1 w2 w3 H12 _ IH]; [done|]. apply IH. by eapply fence_step_inv.
Qed.

(** ** Properties *)

Lemma direct_cmd_handler cmd : mx_ioctl_is_direct_cmd cmd = is_some (ioctl_to_device cmd).
Proof.
  unfold mx_ioctl_is_direct_cmd, ioctl_to_device.
  repeat (match goal with |- context [if ?x =? ?y then _ else _] => destruct (x =? y) end; [by rewrite ?orb_true_r|]).
  done.
Qed.

Lemma lease_cmd_not_direct cmd : mx_lease_ioctl_cmd cmd = true → mx_ioctl_is_direct_cmd cmd = false.
Proof.
  unfold mx_lease_ioctl_cmd. rewrite !orb_true_iff.
  intros [[[[[H|H]|H]|H]|H]|H]; apply Z.eqb_eq in H; subst; by vm_compute.
Qed.

Lemma finish_prepare d : mxdma_device_finish (d <| fd_io_ref := fd_io_ref d + 1 |>) = d.
Proof. destruct d. unfold mxdma_device_finish, percpu_ref_put. cbn. by rewrite Z.add_simpl_r. Qed.

Lemma prepare_outcome f d ret d' :
  mxdma_device_prepare f d = (ret, d') →
  ret ≠ 0 ∧ d' = d ∨
  ret = 0 ∧ prepare_file f = 0 ∧ fd_dying d = false ∧ fd_removed d = false ∧ fd_enabled d = true ∧
    d' = d <| fd_io_ref := fd_io_ref d + 1 |>.
Proof.
  unfold mxdma_device_prepare, percpu_ref_tryget_live, prepare_check, nz.
  destruct (Z.eqb_spec (prepare_file f) 0) as [E|E]; cbn; [|intros [= <- <-]; by left].
  destruct (fd_dying d) eqn:Hd; cbn; [intros [= <- <-]; by left|].
  destruct (fd_removed d) eqn:Hr; cbn.
  { intros [= <- <-]. left. split; [done|]. apply finish_prepare. }
  destruct (fd_enabled d) eqn:He; cbn; intros [= <- <-]; [by right|].
  left. split; [done|]. apply finish_prepare.
Qed.

(** C34: the dispatch of ioctls.  Every call gives its [io_ref] reference back.  A command
    runs a device handler exactly when the lease check classifies it as direct, never
    when it is a lease command; the handler runs only on a file that
    [mx_lease_direct_begin] admitted, and the direct call is given up after it; a
    refused file gets the refusal and the device is not touched; an unknown command
    takes no direct access; and the 32-bit entry lets through lease commands only. *)
Theorem ioctl_dispatch lease run f cmd d st ret d' st' :
  mxdma_device_ioctl lease run f cmd d st = (ret, d', st') →
  d' = d ∧
  (ret = (mxdma_device_prepare f d).1 ∧ ret ≠ 0 ∧ st' = st ∨
   (mxdma_device_prepare f d).1 = 0 ∧
   ((mx_lease_ioctl_cmd cmd = true ∧ ioctl_to_device cmd = None ∧ (ret, st') = lease cmd st) ∨
    (mx_lease_ioctl_cmd cmd = false ∧ ioctl_to_device cmd = None ∧ (ret, st') = run None st) ∨
    (mx_lease_ioctl_cmd cmd = false ∧ ∃ op, ioctl_to_device cmd = Some op ∧
      ((mx_lease_direct_begin st).1 = ret ∧ ret ≠ 0 ∧ st' = (mx_lease_direct_begin st).2 ∨
       (mx_lease_direct_begin st).1 = 0 ∧ ∃ st1, run (Some op) (mx_lease_direct_begin st).2 = (ret, st1) ∧
         st' = st1 <| l_ctx := mx_lease_direct_end (l_ctx st1) |>)))) ∧
  (mx_lease_ioctl_cmd cmd = false → mxdma_device_compat_ioctl lease run f cmd d st = (- ENOIOCTLCMD, d, st)).
Proof.
  intros Hio.
  assert (mx_lease_ioctl_cmd cmd = false → mxdma_device_compat_ioctl lease run f cmd d st = (- ENOIOCTLCMD, d, st)) as Hc
    by (intros E; unfold mxdma_device_compat_ioctl; by rewrite E).
  revert Hio. unfold mxdma_device_ioctl. destruct (mxdma_device_prepare f d) as [r d1] eqn:Hp.
  destruct (prepare_outcome _ _ _ _ Hp) as [[Hr ->]|(-> & _ & _ & _ & _ & ->)]; cbn [fst].
  { unfold nz. rewrite (proj2 (Z.eqb_neq _ _) Hr). cbn [negb]. intros [= <- <- <-]. split; [done|]. split; [by left | done]. }
  cbn [nz Z.eqb negb]. destruct (ioctl_body _ _ _ _) as [r2 st2] eqn:Hb.
  intros [= <- <- <-]. rewrite finish_prepare. split; [done|]. split; [|done]. right. split; [done|].
  revert Hb. unfold ioctl_body. destruct (mx_lease_ioctl_cmd cmd) eqn:Hl.
  { intros Hb. left. apply lease_cmd_not_direct in Hl. rewrite direct_cmd_handler in Hl.
    by destruct (ioctl_to_device cmd). }
  rewrite direct_cmd_handler. destruct (ioctl_to_device cmd) as [op|]; cbn [is_some negb]; [|intros Hb; by right; left].
  right. right. split; [done|]. exists op. split; [done|].
  destruct (mx_lease_direct_begin st) as [r3 st3]. cbn [fst snd]. revert Hb. unfold nz.
  destruct (Z.eqb_spec r3 0) as [->|Hne]; cbn [negb]; [|intros [= <- <-]; auto].
  destruct (run (Some op) st3) as [r4 st4]. intros [= <- <-]. right. split; [done|]. eauto.
Qed.

(** C33: the fence of the teardown.  In every interleaving of file operations, nowait
    waiters, interrupts and the steps of the teardown, once [mxdma_wait_io_quiesced] has
    returned no file operation or waiter is left and none can start, so nothing uses the
    queues and mailboxes when they are freed; once the device is marked removed no
    operation passes the check; and [io_ref] counts exactly the operations and waiters. *)
Theorem fence_excludes_fops w :
  rtc fence_step fence0 w →
  fd_io_ref (fn_dev w) = Z.of_nat (size (fn_fops w)) + Z.of_nat (size (fn_waiters w)) ∧
  (fn_stage w = TQuiesced ∨ fn_stage w = TFreed →
    fn_fops w = ∅ ∧ fn_waiters w = ∅ ∧
    ∀ w', rtc fence_step w w' → fn_fops w' = ∅ ∧ fn_waiters w' = ∅) ∧
  (fn_stage w ≠ TLive → ∀ w' i, fence_step w w' → fn_fops w' !! i = Some FBody →
    ∃ o, fn_fops w !! i = Some o ∧ o ≠ FGot).
Proof.
  intros Hr. destruct (fence_reachable w Hr) as [R M D Q].
  assert (∀ w w', rtc fence_step w w' → (4 ≤ stage_of (fn_stage w))%nat → (4 ≤ stage_of (fn_stage w'))%nat) as Hmono.
  { intros w1 w2. induction 1 as [|w1 w2 w3 Hs _ IH]; [done|]. intros H4. apply IH.
    destruct Hs; cbn; try done; try (rewrite H in H4; cbn in H4; lia). }
  split; [done|]. split.
  - intros Hst. assert (4 ≤ stage_of (fn_stage w))%nat as H4 by (destruct Hst as [-> | ->]; cbn; lia).
    destruct (Q H4) as [Q1 Q2]. split; [done|]. split; [done|]. intros w' Hw.
    assert (rtc fence_step fence0 w') as Hr' by by etrans.
    apply (fi_quiet _ (fence_reachable w' Hr')). exact (Hmono _ _ Hw H4).
  - intros Hst w' i Hs Hb.
    assert (fd_removed (fn_dev w) = true) as Hrm by (apply M; destruct (fn_stage w); cbn; try done; lia).
    destruct Hs; cbn in Hb; try (by exists FBody); try (destruct (decide (i = i0)) as [->|Hne];
      [rewrite ?lookup_insert_eq, ?lookup_delete_eq in Hb | rewrite ?lookup_insert_ne, ?lookup_delete_ne in Hb by done;
       by exists FBody]); try done.
    + unfold prepare_check in H0. by rewrite Hrm in H0.
    + by exists FPollSeen.
Qed.

Definition demo_file : file_view := MkFile true true true true true.

Lemma ioctl_dispatch_witness :
  let st := MkLs (mx_lease_init 7) (ctx_new 0) (fun _ => 0) in
  let run := fun (o : option ioctl_op) (s : lstate) => (if is_some o then 5 else - EINVAL, s) in
  let d := MkFd 0 false false true 4 0 in
  (mxdma_device_ioctl (fun _ s => (0, s)) run demo_file MX_IOCTL_SEND_CMDS d st).1 = (5, d).
Proof.
  cbv zeta. destruct (mxdma_device_ioctl _ _ _ _ _ _) as [[ret d'] st'] eqn:Hio.
  pose proof (ioctl_dispatch _ _ _ _ _ _ _ _ _ Hio) as [-> _].
  assert (ret = 5) as ->; [|reflexivity]. change ret with (ret, MkFd 0 false false true 4 0, st').1.1.
  rewrite <- Hio. vm_compute. reflexivity.
Defined.

(** A body, its check, and the kill of the teardown after it left. *)
Definition demo_fenced : fence := MkFence (MkFd 0 true true false 4 0) ∅ ∅ TQuiesced.

Lemma demo_fenced_reachable : rtc fence_step fence0 demo_fenced.
Proof.
  eapply rtc_l; [apply (FsGet fence0 0%nat (MkFd 1 false false true 4 0)); vm_compute; reflexivity|].
  eapply rtc_l; [eapply (FsEnter _ 0%nat); vm_compute; reflexivity|].
  eapply rtc_l; [apply FsMark; vm_compute; reflexivity|].
  eapply rtc_l; [eapply (FsFinish _ 0%nat); vm_compute; reflexivity|].
  eapply rtc_l; [apply FsDisable; vm_compute; reflexivity|].
  eapply rtc_l; [apply FsKill; vm_compute; reflexivity|].
  eapply rtc_l; [apply FsQuiesced; vm_compute; reflexivity|].
  vm_compute. apply rtc_refl.
Qed.

Lemma fence_excludes_fops_witness : fn_fops demo_fenced = ∅.
Proof.
  exact (proj1 (proj1 (proj2 (fence_excludes_fops demo_fenced demo_fenced_reachable)) (or_introl eq_refl))).
Defined.

(** Polls can lose an event.  The event count is read and decremented in two
    accesses, so two polls that both see one interrupt both report it and leave the
    count at minus one: the next interrupt brings it to zero, and a poll then finds no
    event and sleeps, although that interrupt was reported to nobody. *)
Theorem poll_loses_event :
  ∃ w, rtc fence_step fence0 w ∧ fn_stage w = TLive ∧ fd_event_count (fn_dev w) = -1 ∧
    poll_mask (msi_irq_handler (fn_dev w)) = 0.
Proof.
  exists (MkFence (MkFd 2 false false true 4 (-1)) (<[1%nat := FBody]> (<[0%nat := FBody]> ∅)) ∅ TLive).
  split; [|by vm_compute].
  eapply rtc_l; [eapply (FsGet _ 0%nat); vm_compute; reflexivity|].
  eapply rtc_l; [eapply (FsGet _ 1%nat); vm_compute; reflexivity|].
  eapply rtc_l; [eapply (FsEnter _ 0%nat); vm_compute; reflexivity|].
  eapply rtc_l; [eapply (FsEnter _ 1%nat); vm_compute; reflexivity|].
  eapply rtc_l; [apply FsInterrupt|].
  eapply rtc_l; [apply (FsPollRead _ 0%nat); vm_compute; reflexivity|].
  eapply rtc_l; [apply (FsPollRead _ 1%nat); vm_compute; reflexivity|].
  eapply rtc_l; [apply (FsPollConsume _ 0%nat); vm_compute; reflexivity|].
  eapply rtc_l; [apply (FsPollConsume _ 1%nat); vm_compute; reflexivity|].
  vm_compute. apply rtc_refl.
Qed.
