(* ===== verification/Liveness.v ===== *)
(** * Transport liveness (src/core_common.c, src/init.c, src/transfer.c)

    The watchdog of the submit thread, what a completion does to it, the hold on
    submissions while a probe is out, the sysfs switch, the backoff of the poll loops, and
    the timed wait of a transfer that consults the verdict. *)

From S2P Require Import Prelude.

(** ** State *)

Definition MX_LIVENESS_UNKNOWN : Z := 0.
Definition MX_LIVENESS_ALIVE : Z := 1.
Definition MX_LIVENESS_SUSPECT : Z := 2.
Definition MX_LIVENESS_DEAD : Z := 3.

(** The liveness fields of [struct mx_queue] and the two counters the watchdog reads. *)
Record lv_queue := MkLv {
  lv_health : Z;
  lv_inflight : Z;
  lv_sent_ns : Z;
  lv_progress_jiffies : Z;
  lv_rtt_ns : Z;
  lv_wait_count : Z;
  lv_zombie_wait_count : Z;
}.

#[export] Instance eta_lv : Eta lv_queue := fun r =>
  MkLv (lv_health r) (lv_inflight r) (lv_sent_ns r) (lv_progress_jiffies r) (lv_rtt_ns r)
    (lv_wait_count r) (lv_zombie_wait_count r).

(** The sysfs parameters, any 32-bit values. *)
Record lv_params := MkParams {
  liveness_enable : bool; liveness_stall_ms : Z; liveness_dead_ms : Z; liveness_max_mult : Z;
}.

(** ** Time *)

Definition NSEC_PER_MSEC : Z := 1000000.
(** [time_after(a, b)] on unsigned longs. *)
Definition time_after (a b : Z) : bool := 2 ^ 63 <=? u64 (b - a).
Definition time_before (a b : Z) : bool := time_after b a.
(** Of the kernel, for a tick rate that divides 1000. *)
Definition jiffies_to_msecs (HZ j : Z) : Z := u32 (1000 / HZ * j).
Definition MAX_JIFFY_OFFSET : Z := 2 ^ 62 - 2.
Definition msecs_to_jiffies (HZ ms : Z) : Z :=
  if 2 ^ 31 <=? ms then MAX_JIFFY_OFFSET else (ms * HZ + 999) / 1000.

Definition mx_liveness_stalled_ms (HZ now : Z) (q : lv_queue) : Z :=
  if time_after now (lv_progress_jiffies q) then jiffies_to_msecs HZ (u64 (now - lv_progress_jiffies q)) else 0.

(** ** Completions *)

(** The writes of one completion, each of them atomic; [ns]: the clock when a pong is
    taken. *)
Inductive lv_write :=
  | LwProgress (now : Z)
  | LwAlive
  | LwPong (ns : Z)
  | LwResume
  | LwClaimed.

Definition lv_apply (w : lv_write) (q : lv_queue) : lv_queue :=
  match w with
  | LwProgress now => q <| lv_progress_jiffies := now |>
  | LwAlive => q <| lv_health := MX_LIVENESS_ALIVE |>
  | LwPong ns =>
    let q' := q <| lv_inflight := 0 |> in
    if lv_inflight q =? 1 then q' <| lv_rtt_ns := u64 (ns - lv_sent_ns q) |> else q'
  | LwResume => q <| lv_inflight := 0 |>
  | LwClaimed => q <| lv_wait_count := lv_wait_count q - 1 |>
  end.

Definition lv_run (l : list lv_write) (q : lv_queue) : lv_queue := fold_left (fun q w => lv_apply w q) l q.

(** What [mx_complete_handler] writes for one popped entry; [claimed]: a transfer was
    found under its id. *)
Definition lv_completion (ping claimed : bool) (now ns : Z) : list lv_write :=
  [LwProgress now; LwAlive] ++
  (if ping then [LwPong ns] else LwResume :: (if claimed then [LwClaimed] else [])).

(** ** The watchdog *)

(** The clocks and the queue as the [k]-th access of one run meets them; [wg_between k]:
    what the complete thread writes before that access. *)
Record wd_env := MkWd {
  wg_HZ : Z;
  wg_ns : nat → Z;
  wg_jiffies : nat → Z;
  wg_pushable : bool;
  wg_between : nat → list lv_write;
}.

Definition clamp (v lo hi : Z) : Z := Z.min (Z.max v lo) hi.
Definition dead_ms_of (p : lv_params) : Z := Z.max (liveness_dead_ms p) 2.
Definition stall_ms_of (p : lv_params) : Z := clamp (liveness_stall_ms p) 1 (dead_ms_of p - 1).

Definition cmpxchg_health (old new : Z) (q : lv_queue) : lv_queue :=
  if lv_health q =? old then q <| lv_health := new |> else q.

(** [lv_sent_ns = now] and the push of the ping. *)
Definition push_ping (ns : Z) (q : lv_queue) : lv_queue := q <| lv_sent_ns := ns |>.

(** The run without a probe out; the boolean: a ping was pushed. *)
Definition watchdog_idle (p : lv_params) (e : wd_env) (outstanding : Z) (q : lv_queue) : lv_queue * bool :=
  RETURN (q, false) WHEN (outstanding <=? 0) ;;
  let q := lv_run (wg_between e 3) q in
  let stalled_ms := mx_liveness_stalled_ms (wg_HZ e) (wg_jiffies e 3) q in
  let q := lv_run (wg_between e 4) q in
  let inflight := lv_inflight q in
  let q := lv_run (wg_between e 5) q in
  let again := mx_liveness_stalled_ms (wg_HZ e) (wg_jiffies e 5) q in
  let q := lv_run (wg_between e 6) q in
  let q := if (dead_ms_of p <? stalled_ms) && (inflight =? 0) && (dead_ms_of p <? again)
           then q <| lv_health := MX_LIVENESS_DEAD |> else q in
  let q := lv_run (wg_between e 7) q in
  RETURN (q, false) WHEN (negb (stall_ms_of p <? stalled_ms) || negb (lv_inflight q =? 0) || negb (wg_pushable e)) ;;
  let q := lv_run (wg_between e 8) q in
  RETURN (q, false) WHEN (negb (lv_inflight q =? 0)) ;;
  let q := lv_run (wg_between e 9) (q <| lv_inflight := 1 |>) in
  let q := cmpxchg_health MX_LIVENESS_ALIVE MX_LIVENESS_SUSPECT q in
  let q := lv_run (wg_between e 10) q in
  (push_ping (wg_ns e 10) q, true).

Definition mx_liveness_watchdog (p : lv_params) (e : wd_env) (q : lv_queue) : lv_queue * bool :=
  let q := lv_run (wg_between e 0) q in
  let outstanding := lv_wait_count q - lv_zombie_wait_count q in
  let q := lv_run (wg_between e 1) q in
  let pong_wait_ns := u64 (wg_ns e 1 - lv_sent_ns q) in
  let q := lv_run (wg_between e 2) q in
  if nz (lv_inflight q) && (dead_ms_of p * NSEC_PER_MSEC <? pong_wait_ns) then
    let q := lv_run (wg_between e 3) q in
    let q := cmpxchg_health MX_LIVENESS_SUSPECT MX_LIVENESS_DEAD q in
    RETURN (q, false) WHEN (negb (wg_pushable e)) ;;
    let q := lv_run (wg_between e 4) q in
    (push_ping (wg_ns e 4) q, true)
  else watchdog_idle p e outstanding q.

(** ** The hold on submissions *)

(** One pass of the submit thread over [sq_list]: how many of the [n] queued commands are
    pushed.  [pushable i] and the writes before it are those of the [i]-th command. *)
Fixpoint submit_pass (lv_on : bool) (pushable : nat → bool) (between : nat → list lv_write) (now : nat → Z)
    (no_completion : nat → bool) (n i : nat) (q : lv_queue) : nat * lv_queue :=
  match n with
  | O => (O, q)
  | S n =>
    let q := lv_run (between i) q in
    RETURN (O, q) WHEN (lv_on && nz (lv_inflight q)) ;;
    RETURN (O, q) WHEN (negb (pushable i)) ;;
    let q :=
      if no_completion i then q
      else
        let q := q <| lv_wait_count := lv_wait_count q + 1 |> in
        if lv_wait_count q - lv_zombie_wait_count q <=? 1 then q <| lv_progress_jiffies := now i |> else q in
    let '(k, q) := submit_pass lv_on pushable between now no_completion n (S i) q in
    (S k, q)
  end.

(** ** The sysfs switch *)

(** [liveness_enable_store] after parsing, under [sq_lock]. *)
Definition liveness_enable_store (val : bool) (now : Z) (p : lv_params) (q : option lv_queue)
    : lv_params * option lv_queue :=
  let p := MkParams val (liveness_stall_ms p) (liveness_dead_ms p) (liveness_max_mult p) in
  match q with
  | None => (p, None)
  | Some q =>
    let q := q <| lv_inflight := 0 |> <| lv_rtt_ns := 0 |> in
    (p, Some (if val then q <| lv_progress_jiffies := now |> <| lv_health := MX_LIVENESS_ALIVE |>
              else q <| lv_health := MX_LIVENESS_UNKNOWN |>))
  end.

Definition health_show (p : lv_params) (q : option lv_queue) : Z :=
  match q with
  | Some q => if liveness_enable p then lv_health q else MX_LIVENESS_UNKNOWN
  | None => MX_LIVENESS_UNKNOWN
  end.

Definition rtt_ns_show (p : lv_params) (q : option lv_queue) : Z :=
  match q with
  | Some q => if liveness_enable p then lv_rtt_ns q else 0
  | None => 0
  end.

(** ** Backoff *)

Definition BACKOFF_SPIN_ITERS : Z := 100.
Definition BACKOFF_BASE_SLEEP_US : Z := 125.
Definition BACKOFF_MAX_SLEEP_US : Z := 16000.
Definition BACKOFF_TICKS_PER_LEVEL : Z := 4.

(** The new count, and the range slept ([None]: only [cond_resched]). *)
Definition poll_backoff (idle_count : Z) : Z * option (Z * Z) :=
  let count := Z.min (u32 (idle_count + 1)) 255 in
  RETURN (count, None) WHEN (count <=? BACKOFF_SPIN_ITERS) ;;
  let shift := Z.min ((count - BACKOFF_SPIN_ITERS - 1) / BACKOFF_TICKS_PER_LEVEL) 7 in
  let sleep_us := Z.min (Z.shiftl BACKOFF_BASE_SLEEP_US shift) BACKOFF_MAX_SLEEP_US in
  (count, Some (sleep_us, sleep_us + Z.max 100 (Z.shiftr sleep_us 3))).

(** ** The wait of a transfer *)

Definition LIVENESS_WAIT_CHUNK_MIN_MSEC : Z := 50.
Definition LIVENESS_MAX_MULT_CEIL : Z := 1000.

(** The [i]-th timed wait: its result, the clock after it and the verdict read then. *)
Record wait_env := MkWait { we_left : nat → Z; we_jiffies : nat → Z; we_dead : nat → bool }.

Definition wait_mult (p : lv_params) : Z :=
  if liveness_enable p then clamp (liveness_max_mult p) 1 LIVENESS_MAX_MULT_CEIL else 1.
Definition wait_chunk_ms (p : lv_params) (timeout_ms : Z) : Z :=
  if liveness_enable p then Z.max (Z.min (liveness_stall_ms p) timeout_ms) LIVENESS_WAIT_CHUNK_MIN_MSEC
  else timeout_ms.

(** The loop; the result is [left_time] and the number of waits, [None]: still waiting. *)
Fixpoint wait_loop (lv_on : bool) (e : wait_env) (hard_deadline : Z) (fuel i : nat) : option (Z * nat) :=
  match fuel with
  | O => None
  | S fuel =>
    let left_time := we_left e i in
    RETURN (Some (left_time, S i)) WHEN (nz left_time) ;;
    RETURN (Some (left_time, S i)) WHEN (negb lv_on) ;;
    RETURN (Some (left_time, S i)) WHEN (we_dead e i) ;;
    RETURN (Some (left_time, S i)) WHEN (negb (time_before (we_jiffies e i) hard_deadline)) ;;
    wait_loop lv_on e hard_deadline fuel (S i)
  end.

Definition transfer_wait_loop (HZ timeout_ms : Z) (p : lv_params) (e : wait_env) (now : Z) (fuel : nat) : option (Z * nat) :=
  wait_loop (liveness_enable p) e (u64 (now + msecs_to_jiffies HZ timeout_ms * wait_mult p)) fuel 0.

(** How the wait ends: the four exits of [mx_transfer_wait] with what they return.
    [dead]: the verdict read after the loop; [recovered]: the transfer was still queued;
    [late]: it completed within the extra second. *)
Inductive wait_exit := WaitCompleted | WaitRecovered | WaitLate | WaitZombie.

Definition transfer_wait_exit (lv_on dead recovered late : bool) (left_time size : Z) : wait_exit * Z :=
  RETURN (WaitCompleted, size) WHEN (0 <? left_time) ;;
  let dead := lv_on && dead in
  let fail_ret := if dead then - EIO else if left_time =? 0 then - ETIMEDOUT else - EINTR in
  RETURN (WaitRecovered, fail_ret) WHEN recovered ;;
  RETURN (WaitLate, size) WHEN (negb dead && late) ;;
  (WaitZombie, fail_ret).

(** ** Lemmas *)

(** The state the [k]-th access meets. *)
Definition before (e : wd_env) (k : nat) (q : lv_queue) : lv_queue :=
  lv_run (mjoin (wg_between e <$> seq 0 (S k))) q.

Lemma lv_run_app l1 l2 q : lv_run (l1 ++ l2) q = lv_run l2 (lv_run l1 q).
Proof. apply fold_left_app. Qed.

Lemma lv_run_nil q : lv_run [] q = q.
Proof. done. Qed.

Lemma before_S e k q : before e (S k) q = lv_run (wg_between e (S k)) (before e k q).
Proof.
  unfold before. rewrite (seq_S (S k)), fmap_app, join_app, lv_run_app. cbn [fmap list_fmap mjoin list_join].
  by rewrite app_nil_r.
Qed.

Lemma before_0 e q : before e 0 q = lv_run (wg_between e 0) q.
Proof. unfold before. cbn. by rewrite app_nil_r. Qed.

(** The complete thread never condemns. *)
Lemma lv_run_not_dead l q : lv_health q ≠ MX_LIVENESS_DEAD → lv_health (lv_run l q) ≠ MX_LIVENESS_DEAD.
Proof.
  revert q. induction l as [|w l IH]; intros q Hq; [done|]. apply IH. destruct w; cbn; try done. by case_match.
Qed.

Lemma lv_run_dead l q : lv_health (lv_run l q) = MX_LIVENESS_DEAD → lv_health q = MX_LIVENESS_DEAD.
Proof.
  intros H. destruct (decide (lv_health q = MX_LIVENESS_DEAD)) as [|Hn]; [done|]. by apply (lv_run_not_dead l) in Hn.
Qed.

Lemma params_sane p : 1 ≤ stall_ms_of p < dead_ms_of p.
Proof. unfold stall_ms_of, dead_ms_of, clamp. lia. Qed.

Lemma watchdog_idle_dead p e out q q' pinged :
  lv_health q ≠ MX_LIVENESS_DEAD → watchdog_idle p e out q = (q', pinged) → lv_health q' = MX_LIVENESS_DEAD →
  let at3 := lv_run (wg_between e 3) q in
  let at4 := lv_run (wg_between e 4) at3 in
  let at5 := lv_run (wg_between e 5) at4 in
  0 < out ∧ lv_inflight at4 = 0 ∧
  dead_ms_of p < mx_liveness_stalled_ms (wg_HZ e) (wg_jiffies e 3) at3 ∧
  dead_ms_of p < mx_liveness_stalled_ms (wg_HZ e) (wg_jiffies e 5) at5.
Proof.
  intros Hq Hw Hd at3 at4 at5. revert Hw. unfold watchdog_idle. cbv zeta. fold at3 at4 at5.
  destruct (Z.leb_spec out 0); [by intros [= <- <-]|].
  set (st4 := mx_liveness_stalled_ms _ _ at3). set (st6 := mx_liveness_stalled_ms _ _ at5).
  destruct (_ && _ && _) eqn:Hc.
  { intros _. breflect. auto. }
  set (at7 := lv_run (wg_between e 7) _).
  assert (lv_health at7 ≠ MX_LIVENESS_DEAD) as H8 by by do 5 apply lv_run_not_dead.
  case_match; [by intros [= <- <-]|]. case_match.
  { intros [= <- <-]. by apply lv_run_dead in Hd. }
  intros [= <- <-]. cbn [lv_health push_ping upd] in Hd. exfalso. revert Hd. apply lv_run_not_dead.
  unfold cmpxchg_health. case_match; [done|]. by apply lv_run_not_dead, lv_run_not_dead.
Qed.

Lemma stalled_fresh HZ now q :
  lv_progress_jiffies q = now → mx_liveness_stalled_ms HZ now q = 0.
Proof.
  intros <-. unfold mx_liveness_stalled_ms, time_after. rewrite Z.sub_diag. by vm_compute (2 ^ 63 <=? u64 0).
Qed.

Lemma completion_effect ping claimed now ns q :
  let q' := lv_run (lv_completion ping claimed now ns) q in
  lv_health q' = MX_LIVENESS_ALIVE ∧ lv_inflight q' = 0 ∧ lv_progress_jiffies q' = now ∧
  lv_wait_count q' = lv_wait_count q - Z.b2z (negb ping && claimed) ∧
  lv_rtt_ns q' = (if ping && (lv_inflight q =? 1) then u64 (ns - lv_sent_ns q) else lv_rtt_ns q).
Proof.
  unfold lv_run, lv_completion. destruct ping, claimed; cbn; try (case_match; cbn); split_and!; try done; lia.
Qed.

Lemma submit_pass_all pushable now nc n i q lv_on :
  (∀ j, pushable j = true) → lv_inflight q = 0 → ∃ q', submit_pass lv_on pushable (fun _ => []) now nc n i q = (n, q').
Proof.
  intros Hp. revert i q. induction n as [|n IH]; intros i q Hi; [by eexists|]. cbn [submit_pass].
  change (lv_run [] q) with q. rewrite Hi, Hp, andb_false_r. cbn [negb]. cbv zeta.
  set (q1 := if nc i then q else _).
  assert (lv_inflight q1 = 0) as H1 by (unfold q1; by repeat case_match).
  destruct (IH (S i) q1 H1) as [q' ->]. by eexists.
Qed.

(** C35: the watchdog condemns only a silent device.  Whatever the complete thread writes
    between its accesses and whatever values sysfs holds (they are read as
    1 <= stall < dead), a run of the watchdog turns the verdict to DEAD only if a probe was
    out past the dead budget and no completion had resolved it (the verdict was still
    SUSPECT), or live commands were outstanding, no probe was out, and two readings of the
    clock both found no completion for longer than the dead budget. *)
Theorem watchdog_condemns_only_silent p e q q' pinged :
  lv_health q ≠ MX_LIVENESS_DEAD → mx_liveness_watchdog p e q = (q', pinged) →
  lv_health q' = MX_LIVENESS_DEAD →
  1 ≤ stall_ms_of p < dead_ms_of p ∧
  ((lv_inflight (before e 2 q) ≠ 0 ∧ lv_health (before e 3 q) = MX_LIVENESS_SUSPECT ∧
    dead_ms_of p * NSEC_PER_MSEC < u64 (wg_ns e 1 - lv_sent_ns (before e 1 q))) ∨
   (0 < lv_wait_count (before e 0 q) - lv_zombie_wait_count (before e 0 q) ∧
    lv_inflight (before e 4 q) = 0 ∧
    dead_ms_of p < mx_liveness_stalled_ms (wg_HZ e) (wg_jiffies e 3) (before e 3 q) ∧
    dead_ms_of p < mx_liveness_stalled_ms (wg_HZ e) (wg_jiffies e 5) (before e 5 q))).
Proof.
  intros Hq Hw Hd. split; [apply params_sane|]. revert Hw. unfold mx_liveness_watchdog. cbv zeta.
  rewrite <- before_0, <- !before_S.
  assert (∀ k, lv_health (before e k q) ≠ MX_LIVENESS_DEAD) as Hb by (intros k; by apply lv_run_not_dead).
  destruct (_ && _) eqn:Hc.
  - intros Hw. left. apply andb_true_iff in Hc as [Hc1 Hc2]. apply negb_true_iff, Z.eqb_neq in Hc1.
    apply Z.ltb_lt in Hc2. split; [done|]. split; [|done].
    assert (lv_health (cmpxchg_health MX_LIVENESS_SUSPECT MX_LIVENESS_DEAD (before e 3 q)) = MX_LIVENESS_DEAD) as Hx.
    { case_match; injection Hw as <- <-; [done|]. by apply lv_run_dead in Hd. }
    unfold cmpxchg_health in Hx. case_match; [by apply Z.eqb_eq | by destruct (Hb 3%nat)].
  - intros Hw. right. destruct (watchdog_idle_dead _ _ _ _ _ _ (Hb 2%nat) Hw Hd) as (W1 & W2 & W3 & W4).
    by rewrite <- !before_S in *.
Qed.

(** Every completion restores the transport.  Whatever the verdict was, after the
    writes of one completion (of a command, of a pong, or of an unknown id) the verdict is
    ALIVE, no probe is out and the stall clock is reset, so that submissions held before
    go through: with a probe out the submit thread pushes nothing, and after the
    completion it pushes all that the queue takes; a watchdog run at that moment neither
    condemns nor probes. *)
Theorem completion_lifts_hold ping claimed now ns q pushable now' nc n i :
  (∀ j, pushable j = true) →
  let q' := lv_run (lv_completion ping claimed now ns) q in
  lv_health q' = MX_LIVENESS_ALIVE ∧ lv_inflight q' = 0 ∧
  (lv_inflight q ≠ 0 → submit_pass true pushable (fun _ => []) now' nc n i q = (0%nat, q)) ∧
  (∃ q'', submit_pass true pushable (fun _ => []) now' nc n i q' = (n, q'')) ∧
  (∀ p e, wg_between e = (fun _ => []) → wg_jiffies e = (fun _ => now) →
     mx_liveness_watchdog p e q' = (q', false)).
Proof.
  intros Hp q'. destruct (completion_effect ping claimed now ns q) as (E1 & E2 & E3 & E4 & E5). fold q' in E1, E2, E3.
  split_and!; try done.
  - intros Hi. destruct n; [done|]. cbn [submit_pass]. change (lv_run [] q) with q. unfold nz.
    by rewrite (proj2 (Z.eqb_neq _ _) Hi).
  - by apply submit_pass_all.
  - intros p e Hb Hj. unfold mx_liveness_watchdog. rewrite Hb. cbv beta zeta. rewrite !lv_run_nil.
    rewrite E2. cbn [nz Z.eqb negb andb]. unfold watchdog_idle. rewrite Hb, Hj. cbv beta zeta. rewrite !lv_run_nil.
    destruct (_ <=? 0); [done|]. rewrite (stalled_fresh _ _ _ E3).
    pose proof (params_sane p). rewrite (proj2 (Z.ltb_ge (dead_ms_of p) 0)) by lia. cbn [andb].
    by rewrite (proj2 (Z.ltb_ge (stall_ms_of p) 0)) by lia.
Qed.

(** The backoff of the poll loops: the count stays a byte, the first hundred idle rounds
    do not sleep, after that the sleep is between 125 us and 16 ms and the range given to
    the timer is not empty. *)
Lemma backoff_bounded c :
  0 ≤ c ≤ U32_MAX →
  let '(c', sleep) := poll_backoff c in
  0 ≤ c' ≤ 255 ∧
  match sleep with
  | None => c' ≤ 100
  | Some (lo, hi) => 100 < c' ∧ BACKOFF_BASE_SLEEP_US ≤ lo ≤ BACKOFF_MAX_SLEEP_US ∧ lo + 100 ≤ hi ≤ 18000
  end.
Proof.
  intros Hc. unfold poll_backoff, BACKOFF_SPIN_ITERS, BACKOFF_TICKS_PER_LEVEL, BACKOFF_BASE_SLEEP_US,
    BACKOFF_MAX_SLEEP_US. set (n := Z.min (u32 (c + 1)) 255).
  assert (0 ≤ n ≤ 255) as Hn by (pose proof (u32_range (c + 1)); lia). cbv zeta.
  destruct (Z.leb_spec n 100); [lia|]. rewrite Z.shiftl_mul_pow2 by (apply Z.min_glb; [apply Z.div_pos; lia | lia]).
  rewrite Z.shiftr_div_pow2 by lia. set (sh := Z.min ((n - 100 - 1) / 4) 7).
  assert (0 ≤ sh ≤ 7) as Hs by (unfold sh; pose proof (Z.div_pos (n - 100 - 1) 4); lia).
  assert (1 ≤ 2 ^ sh ≤ 128) as Hp.
  { split; [apply (Z.pow_le_mono_r 2 0); lia | change 128 with (2 ^ 7); apply Z.pow_le_mono_r; lia]. }
  set (x := Z.min (125 * 2 ^ sh) 16000). assert (125 ≤ x ≤ 16000) as Hx by lia.
  assert (0 ≤ x / 2 ^ 3 ≤ 2000) as Hd.
  { split; [apply Z.div_pos; lia | apply Z.div_le_upper_bound; lia]. }
  lia.
Qed.

(** ** The bound on the wait *)

(** The clock when the [i]-th wait starts. *)
Definition wait_start (e : wait_env) (now : Z) (i : nat) : Z :=
  match i with O => now | S i => we_jiffies e i end.

(** Each of the first [n] timed waits lasts its time if it returns zero. *)
Definition waits_last (e : wait_env) (now chunk : Z) (n : nat) : Prop :=
  ∀ i, (i < n)%nat → wait_start e now i ≤ we_jiffies e i < 2 ^ 63 ∧
    (we_left e i = 0 → wait_start e now i + chunk ≤ we_jiffies e i).

Lemma time_before_lt a b : 0 ≤ a < 2 ^ 63 → 0 ≤ b < 2 ^ 63 → time_before a b = (a <? b).
Proof.
  intros Ha Hb. unfold time_before, time_after, u64. destruct (Z.ltb_spec a b).
  - rewrite <- (Z_mod_plus_full _ 1), Z.mod_small by lia. apply Z.leb_le. lia.
  - rewrite Z.mod_small by lia. apply Z.leb_gt. lia.
Qed.

Lemma wait_start_lower e now chunk i :
  waits_last e now chunk i → (∀ j, (j < i)%nat → we_left e j = 0) → now + Z.of_nat i * chunk ≤ wait_start e now i.
Proof.
  intros Hw. induction i as [|i IH]; intros Hz; [cbn; lia|].
  destruct (Hw i ltac:(lia)) as [_ Hl]. specialize (Hl (Hz i ltac:(lia))).
  specialize (IH ltac:(intros ??; apply Hw; lia) ltac:(intros; apply Hz; lia)).
  cbn [wait_start]. nia.
Qed.

(** Where the loop stops: after a wait that did not time out, with the watchdog off, with
    the transport dead, or past the deadline; and at none of the waits before. *)
Record wait_stop (lv_on : bool) (e : wait_env) (now deadline : Z) (i n : nat) : Prop := {
  wt_begun : n = 1%nat ∨ wait_start e now (n - 1) < deadline;
  wt_reason : we_left e (n - 1) ≠ 0 ∨ lv_on = false ∨ we_dead e (n - 1) = true ∨
    deadline ≤ we_jiffies e (n - 1);
  wt_before j : (i ≤ j < n - 1)%nat →
    lv_on = true ∧ we_left e j = 0 ∧ we_dead e j = false ∧ we_jiffies e j < deadline;
}.

Lemma wait_loop_returns lv_on e now chunk deadline fuel i :
  waits_last e now chunk (fuel + i) → 0 < chunk → 0 ≤ now → 0 ≤ deadline < 2 ^ 63 →
  (∀ j, (j < i)%nat → we_left e j = 0) → (i = 0%nat ∨ wait_start e now i < deadline) →
  deadline - now < (Z.of_nat fuel + Z.of_nat i) * chunk → (0 < fuel)%nat →
  ∃ left n, wait_loop lv_on e deadline fuel i = Some (left, n) ∧ (i < n ≤ fuel + i)%nat ∧
    left = we_left e (n - 1) ∧ wait_stop lv_on e now deadline i n.
Proof.
  intros Hw Hc Hn Hdl. revert i Hw. induction fuel as [|f IH]; intros i Hw Hz Hi Hf Hpos; [lia|]. cbn [wait_loop]. cbv zeta.
  assert (we_left e i ≠ 0 ∨ lv_on = false ∨ we_dead e i = true ∨ deadline ≤ we_jiffies e i →
    (i < S i ≤ S f + i)%nat ∧ we_left e i = we_left e (S i - 1) ∧ wait_stop lv_on e now deadline i (S i)) as Hstop.
  { intros Hr. split_and!; [lia | lia | f_equal; lia |].
    constructor; replace (S i - 1)%nat with i by lia; [destruct Hi; [left; lia | by right] | done | lia]. }
  unfold nz. destruct (Z.eqb_spec (we_left e i) 0) as [Hl0|Hl]; cbn [negb]; [|exists (we_left e i), (S i); auto].
  destruct lv_on; cbn [negb]; [|exists (we_left e i), (S i); auto].
  destruct (we_dead e i) eqn:Hd; [exists (we_left e i), (S i); split; [done|]; apply Hstop; auto|].
  destruct (Hw i ltac:(lia)) as [[H1 H2] H3]. specialize (H3 Hl0).
  pose proof (wait_start_lower e now chunk i ltac:(intros ??; apply Hw; lia) Hz).
  rewrite time_before_lt; [|nia | done].
  destruct (Z.ltb_spec (we_jiffies e i) deadline) as [Hlt|]; cbn [negb];
    [|exists (we_left e i), (S i); split; [done|]; apply Hstop; auto].
  clear Hstop. destruct (IH (S i)) as (l & n & E1 & E2 & E3 & [S1 S2 S3]).
  - intros j Hj. apply Hw. lia.
  - intros j Hj. destruct (decide (j = i)) as [->|]; [done | apply Hz; lia].
  - by right.
  - nia.
  - destruct f; [|lia]. exfalso. nia.
  - exists l, n. split_and!; [done | lia | lia | done |]. constructor; [done | done |].
    intros j Hj. destruct (decide (j = i)) as [->|]; [done | apply S3; lia].
Qed.

Lemma msecs_to_jiffies_pos HZ ms : 0 < HZ → 0 < ms → 0 < msecs_to_jiffies HZ ms.
Proof.
  intros. unfold msecs_to_jiffies, MAX_JIFFY_OFFSET. case_match; [lia|]. apply Z.div_str_pos. nia.
Qed.

(** With waits of exactly [chunk] the clock is a multiple of it. *)
Lemma wait_start_exact e now chunk fuel n :
  (∀ i, (i < fuel)%nat → we_jiffies e i = wait_start e now i + chunk) → (n ≤ fuel)%nat →
  wait_start e now n = now + Z.of_nat n * chunk.
Proof.
  intros He. induction n as [|n IH]; intros Hn; [cbn; lia|].
  cbn [wait_start]. rewrite He, IH by lia. lia.
Qed.

(** C36: the wait of a transfer is bounded, and by how much.  With the watchdog off it is
    one wait of [timeout_ms].  With it on, whatever the sysfs parameters and however the
    device behaves, the loop of waits of one chunk (at least 50 ms) ends: it stops after
    the first wait that the completion or a signal ended, that found the transport dead,
    or that ended at or past the ceiling of [timeout_ms] times the multiplier (1 to
    1000).  The ceiling is only looked at between two waits, so what is bounded by it is
    the beginning of the last wait; the end of the wait is bounded by the ceiling plus
    one chunk (plus the [slack] by which the timer of one wait may be late).  That is not
    slop: when nothing ends the waits, the loop takes the ceiling rounded up to whole
    chunks, which is past the ceiling unless the chunk divides it. *)
Theorem transfer_wait_bounded HZ timeout_ms p e now fuel :
  0 < HZ ≤ 1000 → 0 < timeout_ms < 2 ^ 31 → 0 ≤ now < 2 ^ 62 →
  let chunk := msecs_to_jiffies HZ (wait_chunk_ms p timeout_ms) in
  let span := msecs_to_jiffies HZ timeout_ms * wait_mult p in
  waits_last e now chunk fuel → span / chunk + 1 < Z.of_nat fuel →
  ∃ left n, transfer_wait_loop HZ timeout_ms p e now fuel = Some (left, n) ∧
    (1 ≤ n)%nat ∧ left = we_left e (n - 1) ∧ 1 ≤ wait_mult p ≤ 1000 ∧
    (n = 1%nat ∨ wait_start e now (n - 1) < now + span) ∧
    (liveness_enable p = false → n = 1%nat ∧ chunk = msecs_to_jiffies HZ timeout_ms) ∧
    (liveness_enable p = true → 50 ≤ wait_chunk_ms p timeout_ms) ∧
    wait_stop (liveness_enable p) e now (now + span) 0 n ∧
    (∀ slack, (∀ i, (i < fuel)%nat → we_jiffies e i ≤ wait_start e now i + chunk + slack) →
       we_jiffies e (n - 1) < now + span + chunk + slack) ∧
    (liveness_enable p = true →
     (∀ i, (i < fuel)%nat → we_left e i = 0 ∧ we_dead e i = false ∧
        we_jiffies e i = wait_start e now i + chunk) →
     we_jiffies e (n - 1) = now + Z.of_nat n * chunk ∧ span ≤ Z.of_nat n * chunk < span + chunk).
Proof.
  intros HHZ Ht Hn chunk span Hw Hf.
  assert (1 ≤ wait_mult p ≤ 1000) as Hm.
  { unfold wait_mult, clamp, LIVENESS_MAX_MULT_CEIL. case_match; lia. }
  assert (0 < wait_chunk_ms p timeout_ms) as Hcm by (unfold wait_chunk_ms, LIVENESS_WAIT_CHUNK_MIN_MSEC; case_match; lia).
  assert (0 < chunk) as Hc by (apply msecs_to_jiffies_pos; lia).
  assert (0 < msecs_to_jiffies HZ timeout_ms < 2 ^ 31 + 1) as Hj.
  { split; [apply msecs_to_jiffies_pos; lia|]. unfold msecs_to_jiffies.
    rewrite (proj2 (Z.leb_gt _ _)) by lia. apply Z.div_lt_upper_bound; nia. }
  assert (0 < span < 2 ^ 62) as Hs by (unfold span; nia).
  assert (span < (Z.of_nat fuel) * chunk) as Hfu.
  { pose proof (Z.div_mod span chunk ltac:(lia)). pose proof (Z.mod_pos_bound span chunk Hc). nia. }
  unfold transfer_wait_loop. fold span. rewrite u64_id by (unfold ULLONG_MAX; lia).
  destruct (wait_loop_returns (liveness_enable p) e now chunk (now + span) fuel 0) as (l & n & E1 & E2 & E3 & E4);
    [by rewrite Nat.add_0_r | done | lia | lia | lia | by left | lia | |].
  { destruct fuel; [|lia]. pose proof (Z.div_pos span chunk). lia. }
  exists l, n. pose proof (wt_begun _ _ _ _ _ _ E4) as Hb. split_and!; try done; try lia.
  - intros Hoff. split; [|unfold chunk, wait_chunk_ms; by rewrite Hoff].
    destruct (decide (n = 1%nat)); [done|]. destruct (wt_before _ _ _ _ _ _ E4 0%nat) as [? _]; [lia | congruence].
  - intros Hon. unfold wait_chunk_ms, LIVENESS_WAIT_CHUNK_MIN_MSEC. rewrite Hon. lia.
  - intros slack Hsl. specialize (Hsl (n - 1)%nat ltac:(lia)). destruct Hb as [->|Hb]; [|lia]. cbn in Hsl |- *. lia.
  - intros Hon Hex. pose proof (wait_start_exact e now chunk fuel (n - 1)
      (fun i Hi => proj2 (proj2 (Hex i Hi))) ltac:(lia)) as Hst.
    destruct (Hex (n - 1)%nat ltac:(lia)) as (X1 & X2 & X3). rewrite X3, Hst.
    destruct (wt_reason _ _ _ _ _ _ E4) as [?|[?|[?|Hge]]]; [congruence..|].
    rewrite X3, Hst in Hge. rewrite Hst in Hb.
    assert (Z.of_nat n * chunk = Z.of_nat (n - 1) * chunk + chunk) as -> by (replace n with (S (n - 1)) at 1 by lia; lia).
    destruct Hb as [->|Hb]; [cbn in *; lia|]. lia.
Qed.

Definition demo_params : lv_params := MkParams true 1000 5000 10.
Definition demo_suspect : lv_queue := MkLv MX_LIVENESS_SUSPECT 1 0 0 0 1 0.
(** Six seconds after the ping. *)
Definition demo_wd : wd_env := MkWd 1000 (fun _ => 6000000000) (fun _ => 6000) true (fun _ => []).

Lemma watchdog_condemns_only_silent_witness :
  lv_health (mx_liveness_watchdog demo_params demo_wd demo_suspect).1 = MX_LIVENESS_DEAD ∧
  lv_inflight (before demo_wd 2 demo_suspect) ≠ 0.
Proof.
  split; [reflexivity|].
  assert (lv_health demo_suspect ≠ MX_LIVENESS_DEAD) as H0 by discriminate.
  destruct (watchdog_condemns_only_silent demo_params demo_wd demo_suspect
    (demo_suspect <| lv_health := MX_LIVENESS_DEAD |> <| lv_sent_ns := 6000000000 |>) true H0 eq_refl eq_refl)
    as [_ [[H _]|(_ & H & _)]]; [exact H|]. discriminate H.
Defined.

Lemma completion_lifts_hold_witness :
  let q := lv_run (lv_completion false true 7000 0) demo_suspect in
  lv_health q = MX_LIVENESS_ALIVE ∧
  (submit_pass true (fun _ => true) (fun _ => []) (fun _ => 7000) (fun _ => false) 3 0 demo_suspect).1 = 0%nat ∧
  ∃ q', submit_pass true (fun _ => true) (fun _ => []) (fun _ => 7000) (fun _ => false) 3 0 q = (3%nat, q').
Proof.
  cbv zeta. destruct (completion_lifts_hold false true 7000 0 demo_suspect (fun _ => true) (fun _ => 7000) (fun _ => false)
    3 0 (fun _ => eq_refl)) as (H1 & _ & H3 & H4 & _).
  split; [exact H1|]. split; [|exact H4]. rewrite H3; [reflexivity | discriminate].
Defined.

(** A transport that answers its probes but never completes the transfer. *)
Definition demo_wait : wait_env :=
  MkWait (fun _ => 0) (fun i => 1000 * (Z.of_nat i + 1)) (fun _ => false).

(** The module parameters at 60 s, a stall time of 45 s and no multiplier: the ceiling is
    60 s. *)
Definition demo_slow_params : lv_params := MkParams true 45000 120000 1.
Definition demo_slow : wait_env :=
  MkWait (fun _ => 0) (fun i => 45000 * (Z.of_nat i + 1)) (fun _ => false).

(** The first wait ends within its ceiling of 30 s; the second begins before its ceiling
    of 60 s and ends at 90 s. *)
Lemma transfer_wait_bounded_witness :
  (∃ left n, transfer_wait_loop 1000 3000 demo_params demo_wait 0 40 = Some (left, n) ∧
    (n = 1%nat ∨ wait_start demo_wait 0 (n - 1) < 30000)) ∧
  (∃ left n, transfer_wait_loop 1000 60000 demo_slow_params demo_slow 0 4 = Some (left, n) ∧
    we_jiffies demo_slow (n - 1) = 90000).
Proof.
  split.
  - destruct (transfer_wait_bounded 1000 3000 demo_params demo_wait 0 40) as (l & n & H1 & _ & _ & _ & H2 & _);
      [lia | lia | lia | | vm_compute; reflexivity |].
    + intros i Hi. cbn [demo_wait we_left we_jiffies]. change (msecs_to_jiffies _ _) with 1000.
      destruct i; cbn [wait_start demo_wait we_jiffies]; split; lia.
    + exists l, n. split; [exact H1 | exact H2].
  - assert (∀ i, wait_start demo_slow 0 i = 45000 * Z.of_nat i) as Hst.
    { intros [|i]; cbn [wait_start demo_slow we_jiffies]; lia. }
    destruct (transfer_wait_bounded 1000 60000 demo_slow_params demo_slow 0 4)
      as (l & n & H1 & _ & _ & _ & _ & _ & _ & _ & _ & H2);
      [lia | lia | lia | | vm_compute; reflexivity |].
    + intros i Hi. change (msecs_to_jiffies _ _) with 45000. rewrite Hst.
      cbn [demo_slow we_left we_jiffies]. split; lia.
    + exists l, n. split; [exact H1|].
      change (msecs_to_jiffies _ _ * _) with 60000 in H2. change (msecs_to_jiffies _ _) with 45000 in H2.
      destruct H2 as [-> Hb]; [reflexivity | | lia].
      intros i Hi. rewrite Hst. cbn [demo_slow we_left we_dead we_jiffies]. split_and!; [done | done | lia].
Defined.
