(* ===== verification/Submit.v ===== *)
(** * Submitting transfers (src/transfer.c)

    The shared SG context of a user buffer, allocating the split transfers, building their
    commands, queueing them, waiting for them or leaving them to the work queue, and giving
    everything back on every path.  Every resource the driver takes is counted, so that a
    path that forgets to give one back, or gives it back twice, shows in the books. *)

From S2P Require Import Prelude Split Liveness.

(** ** State *)

Inductive dma_data_direction := DMA_BIDIRECTIONAL | DMA_TO_DEVICE | DMA_FROM_DEVICE | DMA_NONE.
#[export] Instance dma_data_direction_eq_dec : EqDecision dma_data_direction.
Proof. solve_decision. Defined.

(** What the driver takes from the kernel: contexts, pinned pages, pinned pages the device
    may write and that are not marked dirty yet, entries mapped for DMA, SG tables, page
    arrays; transfers, ids, lease references, descriptor pages, heap commands; arrays of
    transfers. *)
Inductive resource :=
  | RContext | RPinned | RUndirtied | RMapped | RTable | RPages
  | RTransfer | RId | RLease | RDesc | RCommand | RVector.
Definition resource_id (r : resource) : nat :=
  match r with
  | RContext => 0 | RPinned => 1 | RUndirtied => 2 | RMapped => 3 | RTable => 4 | RPages => 5
  | RTransfer => 6 | RId => 7 | RLease => 8 | RDesc => 9 | RCommand => 10 | RVector => 11
  end.
Definition is_resource (r r' : resource) : bool := Nat.eqb (resource_id r) (resource_id r').

Record mx_sg_context := MkSc {
  sc_refcount : Z;
  sc_dir : dma_data_direction;
  sc_user_addr : Z;
  sc_total_size : Z;
  sc_pages_nr : Z;
  sc_pages_heap : bool;
  sc_table : bool;
  sc_orig_nents : Z;
  sc_nents : Z;
}.
#[export] Instance eta_sc : Eta mx_sg_context := fun r =>
  MkSc (sc_refcount r) (sc_dir r) (sc_user_addr r) (sc_total_size r) (sc_pages_nr r) (sc_pages_heap r)
    (sc_table r) (sc_orig_nents r) (sc_nents r).

(** [sx_command]: the command, [Some true] when it is on the heap rather than in
    [cmd_inline]; [sx_desc]: pages of the descriptor list; [sx_lease]: [owner_ctx] is set. *)
Record mx_transfer := MkSx {
  sx_ctx : option nat;
  sx_byte_offset : Z;
  sx_size : Z;
  sx_device_addr : Z;
  sx_dir : dma_data_direction;
  sx_is_sg : bool;
  sx_no_completion : bool;
  sx_command : option bool;
  sx_desc : Z;
  sx_lease : bool;
}.
#[export] Instance eta_sx : Eta mx_transfer := fun r =>
  MkSx (sx_ctx r) (sx_byte_offset r) (sx_size r) (sx_device_addr r) (sx_dir r) (sx_is_sg r) (sx_no_completion r)
    (sx_command r) (sx_desc r) (sx_lease r).

(** Live objects by address, the lists they are on, the references on [io_ref] taken for
    works, the resources in use; [su_fault]: freed memory was used, or a transfer was freed
    on a list. *)
Record sub := MkSub {
  su_fresh : nat;
  su_x : gmap nat mx_transfer;
  su_ctx : gmap nat mx_sg_context;
  su_sq : list nat;
  su_work : list nat;
  su_zombies : list nat;
  su_io_ref : Z;
  su_usage : resource → Z;
  su_fault : bool;
}.
#[export] Instance eta_sub : Eta sub := fun r =>
  MkSub (su_fresh r) (su_x r) (su_ctx r) (su_sq r) (su_work r) (su_zombies r) (su_io_ref r) (su_usage r) (su_fault r).

Definition sub0 : sub := MkSub 0 ∅ ∅ [] [] [] 0 (fun _ => 0) false.

Definition charge (r : resource) (n : Z) (s : sub) : sub :=
  s <| su_usage := fun r' => if is_resource r r' then su_usage s r' + n else su_usage s r' |>.
Definition faulted (s : sub) : sub := s <| su_fault := true |>.
Definition list_remove (t : nat) (l : list nat) : list nat := filter (fun u => u ≠ t) l.
Definition set_x (t : nat) (x : mx_transfer) (s : sub) : sub := s <| su_x := <[t := x]> (su_x s) |>.
Definition set_ctx (c : nat) (k : mx_sg_context) (s : sub) : sub := s <| su_ctx := <[c := k]> (su_ctx s) |>.

(** ** The SG context *)

Definition mx_sg_context_release (c : nat) (k : mx_sg_context) (s : sub) : sub :=
  let s := if nz (sc_nents k) then charge RMapped (- sc_orig_nents k) s else s in
  let s := if bool_decide (sc_dir k ≠ DMA_TO_DEVICE) then charge RUndirtied (- sc_pages_nr k) s else s in
  let s := if 0 <? sc_pages_nr k then charge RPinned (- sc_pages_nr k) s else s in
  let s := if sc_table k then charge RTable (-1) s else s in
  let s := if sc_pages_heap k then charge RPages (-1) s else s in
  charge RContext (-1) (s <| su_ctx := delete c (su_ctx s) |>).

Definition mx_sg_context_put (c : nat) (s : sub) : sub :=
  match su_ctx s !! c with
  | None => faulted s
  | Some k =>
    let k := k <| sc_refcount := sc_refcount k - 1 |> in
    if sc_refcount k =? 0 then mx_sg_context_release c k s else set_ctx c k s
  end.

Definition mx_sg_context_get (c : nat) (s : sub) : sub :=
  match su_ctx s !! c with
  | None => faulted s
  | Some k => set_ctx c (k <| sc_refcount := sc_refcount k + 1 |>) s
  end.

(** The answers of the kernel to one creation: [ce_pinned] pages pinned or an error,
    [ce_table] the result of the table allocation and its entries, [ce_map] the entries
    mapped. *)
Record ctx_env := MkCe {
  ce_ctx : bool; ce_pages : bool; ce_pinned : Z; ce_table : Z; ce_table_nents : Z; ce_map : Z;
}.

Definition MX_PAGES_INLINE_NR : Z := 1.

Definition writes_memory (dir : dma_data_direction) : bool :=
  bool_decide (dir = DMA_FROM_DEVICE) || bool_decide (dir = DMA_BIDIRECTIONAL).

(** The pages: [ctx->pages_nr] is set to what was pinned, also when that is too few. *)
Definition pin_pages (e : ctx_env) (pages_nr : Z) (c : nat) (k : mx_sg_context) (s : sub)
    : Z * mx_sg_context * sub :=
  let heap := negb (pages_nr <=? MX_PAGES_INLINE_NR) in
  RETURN (- ENOMEM, k, s) WHEN (heap && negb (ce_pages e)) ;;
  let k := k <| sc_pages_heap := heap |> in
  let s := if heap then charge RPages 1 s else s in
  let pinned := Z.min (ce_pinned e) pages_nr in
  let k := if 0 <? pinned then k <| sc_pages_nr := to_int pinned |> else k in
  let s := if 0 <? pinned then charge RPinned pinned s else s in
  let s := if (0 <? pinned) && writes_memory (sc_dir k) then charge RUndirtied pinned s else s in
  RETURN (if pinned <? 0 then pinned else - EFAULT, k, set_ctx c k s) WHEN (negb (pinned =? pages_nr)) ;;
  (0, k, set_ctx c k s).

(** The SG table and its mapping.  A failed table allocation leaves no table. *)
Definition map_pages (e : ctx_env) (pages_nr : Z) (c : nat) (k : mx_sg_context) (s : sub)
    : Z * mx_sg_context * sub :=
  let inlined := pages_nr <=? MX_PAGES_INLINE_NR in
  RETURN (ce_table e, k, s) WHEN (negb inlined && nz (ce_table e)) ;;
  let k := if inlined then k <| sc_orig_nents := pages_nr |>
           else k <| sc_table := true |> <| sc_orig_nents := ce_table_nents e |> in
  let s := if inlined then s else charge RTable 1 s in
  let k := k <| sc_nents := ce_map e |> in
  RETURN (- EIO, k, set_ctx c k s) WHEN (ce_map e =? 0) ;;
  (0, k, set_ctx c k (charge RMapped (sc_orig_nents k) s)).

Section submit.
Context (PAGE_SHIFT : Z) (Hshift : 0 ≤ PAGE_SHIFT ≤ 20).

(** [inl]: the error pointer; [inr]: the context, with one reference for the caller. *)
Definition mx_sg_context_create (e : ctx_env) (user_addr total_size : Z) (dir : dma_data_direction) (s : sub)
    : (Z + nat) * sub :=
  match sg_context_pages PAGE_SHIFT user_addr total_size with
  | inl err => (inl err, s)
  | inr pages_nr =>
    RETURN (inl (- ENOMEM), s) WHEN (negb (ce_ctx e)) ;;
    let c := su_fresh s in
    let k := MkSc 1 dir user_addr total_size 0 false false 0 0 in
    let s := charge RContext 1 (set_ctx c k (s <| su_fresh := S c |>)) in
    let '(ret, k, s) := pin_pages e pages_nr c k s in
    RETURN (inl ret, mx_sg_context_put c s) WHEN (nz ret) ;;
    let '(ret, k, s) := map_pages e pages_nr c k s in
    RETURN (inl ret, mx_sg_context_put c s) WHEN (nz ret) ;;
    (inr c, s)
  end.

(** ** Transfers *)

(** [cache], [id]: the slab and the id allocator give one. *)
Definition alloc_mx_transfer (cache id : bool) (size device_addr : Z) (dir : dma_data_direction) (s : sub)
    : option nat * sub :=
  RETURN (None, s) WHEN (negb cache) ;;
  let s := charge RTransfer 1 s in
  RETURN (None, charge RTransfer (-1) s) WHEN (negb id) ;;
  let t := su_fresh s in
  let x := MkSx None 0 size device_addr dir false false None 0 false in
  (Some t, charge RId 1 (set_x t x (s <| su_fresh := S t |>))).

Definition alloc_mx_transfer_sg (cache id : bool) (c : nat) (byte_offset slice_size device_addr : Z) (s : sub)
    : option nat * sub :=
  match su_ctx s !! c with
  | None => (None, faulted s)
  | Some k =>
    let '(o, s) := alloc_mx_transfer cache id slice_size device_addr (sc_dir k) s in
    match o with
    | None => (None, s)
    | Some t =>
      match su_x s !! t with
      | None => (None, faulted s)
      | Some x => (Some t, set_x t (x <| sx_ctx := Some c |> <| sx_byte_offset := byte_offset |>) (mx_sg_context_get c s))
      end
    end
  end.

Definition desc_list_free (t : nat) (s : sub) : sub :=
  match su_x s !! t with
  | None => faulted s
  | Some x => set_x t (x <| sx_desc := 0 |>) (charge RDesc (- sx_desc x) s)
  end.

Definition free_mx_transfer (t : nat) (x : mx_transfer) (s : sub) : sub :=
  let s := if bool_decide (sx_command x = Some true) then charge RCommand (-1) s else s in
  let s := if bool_decide (t ∈ su_sq s) then faulted s else s in
  charge RTransfer (-1) (s <| su_x := delete t (su_x s) |>).

Definition release_mx_transfer (t : nat) (s : sub) : sub :=
  match su_x s !! t with
  | None => faulted s
  | Some x =>
    let s := match sx_ctx x with Some c => mx_sg_context_put c s | None => s end in
    let s := charge RId (-1) s in
    let s := if sx_lease x then charge RLease (-1) s else s in
    free_mx_transfer t x s
  end.

Definition mx_transfer_destroy_sg (t : nat) (s : sub) : sub := release_mx_transfer t (desc_list_free t s).

(** [copied]: what [copy_to_user] returns. *)
Definition mx_transfer_destroy_ctrl (copied : Z) (t : nat) (s : sub) : Z * sub :=
  match su_x s !! t with
  | None => (0, faulted s)
  | Some x => (if bool_decide (sx_dir x = DMA_FROM_DEVICE) then copied else 0, release_mx_transfer t s)
  end.

Definition mx_transfer_teardown_done (copied : Z) (t : nat) (s : sub) : Z * sub :=
  match su_x s !! t with
  | None => (0, faulted s)
  | Some x =>
    (sx_size x, if sx_is_sg x then mx_transfer_destroy_sg t s else (mx_transfer_destroy_ctrl copied t s).2)
  end.

Definition mx_transfer_teardown_recovered (t : nat) (s : sub) : sub :=
  match su_x s !! t with
  | None => faulted s
  | Some x => if sx_is_sg x then mx_transfer_destroy_sg t s else release_mx_transfer t s
  end.

(** ** Queueing and waiting *)

Definition mx_transfer_queue (t : nat) (s : sub) : sub := s <| su_sq := su_sq s ++ [t] |>.
Definition mx_transfer_queue_parallel (ts : list nat) (s : sub) : sub := s <| su_sq := su_sq s ++ ts |>.
Definition mx_transfer_remove_from_sq (t : nat) (s : sub) : bool * sub :=
  if bool_decide (t ∈ su_sq s) then (true, s <| su_sq := list_remove t (su_sq s) |>) else (false, s).
Definition zombie_park (t : nat) (s : sub) : sub := s <| su_zombies := su_zombies s ++ [t] |>.

(** One zombie of the list of the cleaner (its counters are in the model of the queue). *)
Definition drain_zombie (t : nat) (s : sub) : sub :=
  match su_x s !! t with
  | None => faulted s
  | Some x =>
    let s := s <| su_zombies := list_remove t (su_zombies s) |> <| su_work := list_remove t (su_work s) |> in
    release_mx_transfer t (if sx_is_sg x then desc_list_free t s else s)
  end.

Definition drain_zombie_list (l : list nat) (s : sub) : sub :=
  fold_left (fun s t => if bool_decide (t ∈ su_zombies s) then drain_zombie t s else s) l s.

(** What happens during one wait: the zombies the cleaner drains, whether the submit thread
    takes the transfer off [sq_list], and the answers the wait gets.  A transfer still on
    [sq_list] is not completed. *)
Record wait_result := MkWr {
  wr_drained : list nat; wr_pushed : bool; wr_left : Z; wr_lv_on : bool; wr_dead : bool; wr_late : bool; wr_copied : Z;
}.

Definition during_wait (w : wait_result) (t : nat) (s : sub) : Z * sub :=
  let s := drain_zombie_list (wr_drained w) s in
  if wr_pushed w then (wr_left w, s <| su_sq := list_remove t (su_sq s) |>)
  else (if bool_decide (t ∈ su_sq s) then Z.min (wr_left w) 0 else wr_left w, s).

Definition mx_transfer_wait (w : wait_result) (t : nat) (s : sub) : Z * sub :=
  let '(left_time, s) := during_wait w t s in
  let '(found, s1) := mx_transfer_remove_from_sq t s in
  let '(exit, fail_ret) := transfer_wait_exit (wr_lv_on w) (wr_dead w) found (wr_late w) left_time 0 in
  match exit with
  | WaitCompleted => mx_transfer_teardown_done (wr_copied w) t s
  | WaitRecovered => (fail_ret, mx_transfer_teardown_recovered t s1)
  | WaitLate => mx_transfer_teardown_done (wr_copied w) t s1
  | WaitZombie => (fail_ret, zombie_park t s1)
  end.

(** A work that starts is no longer pending. *)
Definition mx_transfer_wait_work (w : wait_result) (t : nat) (s : sub) : sub :=
  let s := s <| su_work := list_remove t (su_work s) |> in
  let '(_, s) := mx_transfer_wait w t s in
  s <| su_io_ref := su_io_ref s - 1 |>.

Definition mx_transfer_schedule_wait (t : nat) (s : sub) : sub :=
  if bool_decide (t ∈ su_work s) then s <| su_io_ref := su_io_ref s - 1 |>
  else s <| su_work := su_work s ++ [t] |>.

(** ** Submission *)

(** The answers to [mx_transfer_init_sg]: the lease, the pages the descriptor list of the
    command took, and the command ([inl]: NULL, 0, or an error pointer; [inr]: whether it
    is on the heap). *)
Record init_env := MkIe { ie_lease : Z; ie_desc : Z; ie_command : Z + bool }.

Definition init_command (is_sg : bool) (i : init_env) (t : nat) (s : sub) : Z * sub :=
  match su_x s !! t with
  | None => (0, faulted s)
  | Some x =>
    RETURN (ie_lease i, s) WHEN (nz (ie_lease i)) ;;
    let x := x <| sx_lease := true |> in
    let s := charge RLease 1 s in
    let x := if is_sg then x <| sx_desc := ie_desc i |> else x in
    let s := if is_sg then charge RDesc (ie_desc i) s else s in
    match ie_command i with
    | inl err => (if err =? 0 then - ENOMEM else err, set_x t (x <| sx_command := None |>) s)
    | inr heap =>
      let s := if heap then charge RCommand 1 s else s in
      (0, set_x t (x <| sx_command := Some heap |> <| sx_is_sg := is_sg |>) s)
    end
  end.
Definition mx_transfer_init_sg := init_command true.
Definition mx_transfer_init_ctrl := init_command false.

Definition nowait_one (t : nat) (size : Z) (s : sub) : Z * sub :=
  let s := s <| su_io_ref := su_io_ref s + 1 |> in
  (size, mx_transfer_schedule_wait t s).

Definition mx_transfer_submit_sg_one (i : init_env) (w : wait_result) (t : nat) (nowait : bool) (s : sub) : Z * sub :=
  match su_x s !! t with
  | None => (0, faulted s)
  | Some x =>
    let '(ret, s) := mx_transfer_init_sg i t s in
    RETURN (ret, mx_transfer_destroy_sg t s) WHEN (ret <? 0) ;;
    let s := mx_transfer_queue t s in
    RETURN (nowait_one t (sx_size x) s) WHEN nowait ;;
    mx_transfer_wait w t s
  end.

Definition mx_transfer_submit_ctrl (i : init_env) (w : wait_result) (t : nat) (nowait : bool) (s : sub) : Z * sub :=
  match su_x s !! t with
  | None => (0, faulted s)
  | Some x =>
    let '(ret, s) := mx_transfer_init_ctrl i t s in
    RETURN (ret, release_mx_transfer t s) WHEN (ret <? 0) ;;
    let s := mx_transfer_queue t s in
    RETURN (nowait_one t (sx_size x) s) WHEN nowait ;;
    mx_transfer_wait w t s
  end.

Definition size_of (s : sub) (t : nat) : Z := match su_x s !! t with Some x => sx_size x | None => 0 end.

(** The initialisation loop, until one fails: its result and the sizes so far. *)
Fixpoint init_all (ie : nat → init_env) (i : nat) (ts : list nat) (total : Z) (s : sub) : Z * Z * sub :=
  match ts with
  | [] => (0, total, s)
  | t :: ts =>
    let '(ret, s) := mx_transfer_init_sg (ie i) t s in
    RETURN (ret, total, s) WHEN (ret <? 0) ;;
    init_all ie (S i) ts (total + size_of s t) s
  end.

(** The wait loop: the bytes transferred and the last error. *)
Fixpoint wait_all (wr : nat → wait_result) (i : nat) (ts : list nat) (transferred err : Z) (s : sub) : Z * Z * sub :=
  match ts with
  | [] => (transferred, err, s)
  | t :: ts =>
    let '(r, s) := mx_transfer_wait (wr i) t s in
    if r <? 0 then wait_all wr (S i) ts transferred r s else wait_all wr (S i) ts (transferred + r) err s
  end.

Definition destroy_all (ts : list nat) (s : sub) : sub := fold_left (fun s t => mx_transfer_destroy_sg t s) ts s.
Definition release_all (ts : list nat) (s : sub) : sub := fold_left (fun s t => release_mx_transfer t s) ts s.
Definition schedule_all (ts : list nat) (s : sub) : sub := fold_left (fun s t => mx_transfer_schedule_wait t s) ts s.

Definition mx_transfer_submit_sg_parallel (ie : nat → init_env) (wr : nat → wait_result) (ts : list nat)
    (nowait : bool) (s : sub) : Z * sub :=
  let '(ret, total_size, s) := init_all ie 0 ts 0 s in
  RETURN (ret, charge RVector (-1) (destroy_all ts s)) WHEN (ret <? 0) ;;
  let s := mx_transfer_queue_parallel ts s in
  if nowait then
    let s := s <| su_io_ref := su_io_ref s + Z.of_nat (length ts) |> in
    (total_size, charge RVector (-1) (schedule_all ts s))
  else
    let '(transferred, err, s) := wait_all wr 0 ts 0 0 s in
    (if nz err then err else transferred, charge RVector (-1) s).

(** The splits, each with its context reference; a failure releases those made. *)
Fixpoint alloc_loop (cache id : nat → bool) (c : nat) (i : nat) (l : list xfer_slice) (made : list nat) (s : sub)
    : option (list nat) * sub :=
  match l with
  | [] => (Some made, s)
  | sl :: l =>
    let '(o, s) := alloc_mx_transfer_sg (cache i) (id i) c (sl_byte_offset sl) (sl_size sl) (sl_device_addr sl) s in
    match o with
    | None => (None, charge RVector (-1) (release_all made s))
    | Some t => alloc_loop cache id c (S i) l (made ++ [t]) s
    end
  end.

(** The answers to one submission. *)
Record sub_env := MkEnv {
  en_ctx : ctx_env;
  en_array : bool; en_cache : nat → bool; en_id : nat → bool;
  en_init : nat → init_env;
  en_wait : nat → wait_result;
}.

Definition alloc_mx_transfers (e : sub_env) (c : nat) (device_addr_base : Z) (count : nat) (s : sub)
    : option (list nat) * sub :=
  match su_ctx s !! c with
  | None => (None, faulted s)
  | Some k =>
    RETURN (None, s) WHEN (negb (en_array e)) ;;
    let s := charge RVector 1 s in
    let q := sc_pages_nr k / Z.of_nat count in
    let r := sc_pages_nr k mod Z.of_nat count in
    alloc_loop (en_cache e) (en_id e) c 0
      (split_loop PAGE_SHIFT count (sc_user_addr k) (sc_user_addr k) (sc_total_size k) device_addr_base q r) [] s
  end.

Definition mx_transfer_submit_sg_split (e : sub_env) (buf size device_addr : Z) (dir : dma_data_direction)
    (count : nat) (nowait : bool) (s : sub) : Z * sub :=
  let '(sg_ctx, s) := mx_sg_context_create (en_ctx e) buf size dir s in
  match sg_ctx with
  | inl err => (err, s)
  | inr c =>
    if bool_decide (count = 1%nat) then
      let '(o, s) := alloc_mx_transfer_sg (en_cache e 0%nat) (en_id e 0%nat) c 0 size device_addr s in
      let s := mx_sg_context_put c s in
      match o with
      | None => (- ENOMEM, s)
      | Some t => mx_transfer_submit_sg_one (en_init e 0%nat) (en_wait e 0%nat) t nowait s
      end
    else
      let '(o, s) := alloc_mx_transfers e c device_addr count s in
      let s := mx_sg_context_put c s in
      match o with
      | None => (- ENOMEM, s)
      | Some ts => mx_transfer_submit_sg_parallel (en_init e) (en_wait e) ts nowait s
      end
  end.

(** ** Entry points *)

Definition read_data_from_device (e : sub_env) (user_addr size fpos : Z) (s : sub) : Z * sub :=
  mx_transfer_submit_sg_split e user_addr size fpos DMA_FROM_DEVICE 1 false s.
Definition write_data_to_device (e : sub_env) (user_addr size fpos : Z) (nowait : bool) (s : sub) : Z * sub :=
  mx_transfer_submit_sg_split e user_addr size fpos DMA_TO_DEVICE 1 nowait s.

(** The module parameters and the DMA page size of the queue. *)
Record split_params := MkSp { sp_page_size : Z; sp_ratio : Z; sp_count : Z }.
Definition split_count (p : split_params) (buf size : Z) : nat :=
  Z.to_nat (mx_parallel_count_for PAGE_SHIFT (sp_page_size p) (sp_ratio p) (sp_count p) buf size).

Definition read_data_from_device_parallel (e : sub_env) (p : split_params) (buf size fpos : Z) (s : sub) : Z * sub :=
  mx_transfer_submit_sg_split e buf size fpos DMA_FROM_DEVICE (split_count p buf size) false s.
Definition write_data_to_device_parallel (e : sub_env) (p : split_params) (buf size fpos : Z) (nowait : bool) (s : sub)
    : Z * sub :=
  mx_transfer_submit_sg_split e buf size fpos DMA_TO_DEVICE (split_count p buf size) nowait s.

Definition ctrl_transfer (e : sub_env) (size fpos : Z) (dir : dma_data_direction) (nowait : bool) (s : sub) : Z * sub :=
  let '(o, s) := alloc_mx_transfer (en_cache e 0%nat) (en_id e 0%nat) size fpos dir s in
  match o with
  | None => (- ENOMEM, s)
  | Some t => mx_transfer_submit_ctrl (en_init e 0%nat) (en_wait e 0%nat) t nowait s
  end.
Definition read_ctrl_from_device (e : sub_env) (size fpos : Z) (s : sub) : Z * sub :=
  ctrl_transfer e size fpos DMA_FROM_DEVICE false s.
Definition write_ctrl_to_device (e : sub_env) (size fpos : Z) (nowait : bool) (s : sub) : Z * sub :=
  ctrl_transfer e size fpos DMA_TO_DEVICE nowait s.

Definition submit_protocol_transfer (e : sub_env) (buf size : Z) (s : sub) : Z * sub :=
  mx_transfer_submit_sg_split e buf size 0 DMA_BIDIRECTIONAL 1 false s.

(** From the queueing of a passthrough command on. *)
Definition passthru_wait (w : wait_result) (t : nat) (no_completion : bool) (s : sub) : Z * sub :=
  let '(left_time, s) := during_wait w t (mx_transfer_queue t s) in
  RETURN (0, release_mx_transfer t s) WHEN (0 <? left_time) ;;
  let ret := if left_time =? 0 then - ETIMEDOUT else - EINTR in
  let '(found, s) := mx_transfer_remove_from_sq t s in
  RETURN (ret, release_mx_transfer t s) WHEN (no_completion || found) ;;
  (ret, zombie_park t s).

(** [supported]: the version has passthrough commands. *)
Definition submit_passthru_command (supported : bool) (e : sub_env) (device_addr size : Z) (no_completion : bool) (s : sub)
    : Z * sub :=
  RETURN (- EOPNOTSUPP, s) WHEN (negb supported) ;;
  let '(o, s) := alloc_mx_transfer (en_cache e 0%nat) (en_id e 0%nat) size device_addr DMA_NONE s in
  match o with
  | None => (- ENOMEM, s)
  | Some t =>
    let '(ret, s) := init_command false (en_init e 0%nat) t s in
    RETURN (if nz (ie_lease (en_init e 0%nat)) then ret else - ENOMEM, release_mx_transfer t s) WHEN (nz ret) ;;
    match su_x s !! t with
    | None => (0, faulted s)
    | Some x => passthru_wait (en_wait e 0%nat) t no_completion (set_x t (x <| sx_no_completion := no_completion |>) s)
    end
  end.

Inductive sub_call :=
  | CallReadData (user size fpos : Z)
  | CallWriteData (user size fpos : Z) (nowait : bool)
  | CallReadParallel (p : split_params) (user size fpos : Z)
  | CallWriteParallel (p : split_params) (user size fpos : Z) (nowait : bool)
  | CallReadCtrl (size fpos : Z)
  | CallWriteCtrl (size fpos : Z) (nowait : bool)
  | CallProtocol (user size : Z)
  | CallPassthru (supported : bool) (device_addr size : Z) (no_completion : bool).

Definition run_call (e : sub_env) (c : sub_call) : sub → Z * sub :=
  match c with
  | CallReadData user size fpos => read_data_from_device e user size fpos
  | CallWriteData user size fpos nowait => write_data_to_device e user size fpos nowait
  | CallReadParallel p user size fpos => read_data_from_device_parallel e p user size fpos
  | CallWriteParallel p user size fpos nowait => write_data_to_device_parallel e p user size fpos nowait
  | CallReadCtrl size fpos => read_ctrl_from_device e size fpos
  | CallWriteCtrl size fpos nowait => write_ctrl_to_device e size fpos nowait
  | CallProtocol user size => submit_protocol_transfer e user size
  | CallPassthru supported dev size nc => submit_passthru_command supported e dev size nc
  end.

(** Addresses and sizes are unsigned, errors are not positive. *)
Definition call_ok (c : sub_call) : Prop :=
  match c with
  | CallReadData user size _ | CallWriteData user size _ _ | CallReadParallel _ user size _
  | CallWriteParallel _ user size _ _ | CallProtocol user size => 0 ≤ user ∧ 0 ≤ size
  | CallReadCtrl size _ | CallWriteCtrl size _ _ | CallPassthru _ _ size _ => 0 ≤ size
  end.
Definition init_ok (i : init_env) : Prop := ie_lease i ≤ 0 ∧ match ie_command i with inl err => err ≤ 0 | inr _ => True end.
Definition env_ok (e : sub_env) : Prop := ce_table (en_ctx e) ≤ 0 ∧ ∀ i, init_ok (en_init e i).

(** A submission, the run of a queued work, a pass of the zombie cleaner, the push of a
    queued transfer by the submit thread. *)
Inductive sub_step (s : sub) : sub → Prop :=
  | SsCall e c ret s' : env_ok e → call_ok c → run_call e c s = (ret, s') → sub_step s s'
  | SsWork w t : t ∈ su_work s → sub_step s (mx_transfer_wait_work w t s)
  | SsDrain l : sub_step s (drain_zombie_list l s)
  | SsPush t : sub_step s (s <| su_sq := list_remove t (su_sq s) |>).

(** ** The books *)

Definition sc_uses (k : mx_sg_context) (r : resource) : Z :=
  match r with
  | RContext => 1
  | RPinned => sc_pages_nr k
  | RUndirtied => if bool_decide (sc_dir k = DMA_TO_DEVICE) then 0 else sc_pages_nr k
  | RMapped => if nz (sc_nents k) then sc_orig_nents k else 0
  | RTable => Z.b2z (sc_table k)
  | RPages => Z.b2z (sc_pages_heap k)
  | _ => 0
  end.

Definition sx_uses (x : mx_transfer) (r : resource) : Z :=
  match r with
  | RTransfer | RId => 1
  | RLease => Z.b2z (sx_lease x)
  | RDesc => sx_desc x
  | RCommand => Z.b2z (bool_decide (sx_command x = Some true))
  | _ => 0
  end.

Definition attached_to (c : nat) (x : mx_transfer) : Z := Z.b2z (bool_decide (sx_ctx x = Some c)).

(** What the running call holds: its reference on a context, its transfers, its references
    on [io_ref], its arrays; [ca_plain]: its transfers have a descriptor list only if they
    are SG transfers. *)
Record caller := MkCaller { ca_ctx : option nat; ca_cur : list nat; ca_io : Z; ca_vec : Z; ca_plain : bool }.

Record sub_inv (q : caller) (s : sub) : Prop := {
  iv_fault : su_fault s = false;
  iv_fresh : ∀ i, is_Some (su_x s !! i) ∨ is_Some (su_ctx s !! i) → (i < su_fresh s)%nat;
  iv_owned : ∀ t, is_Some (su_x s !! t) ↔ t ∈ ca_cur q ++ su_work s ++ su_zombies s;
  iv_nodup : NoDup (ca_cur q ++ su_work s ++ su_zombies s);
  iv_sq : ∀ t, t ∈ su_sq s → t ∈ ca_cur q ++ su_work s;
  iv_plain : ∀ t x, su_x s !! t = Some x → ca_plain q = true ∨ t ∉ ca_cur q → sx_is_sg x = false → sx_desc x = 0;
  iv_refs : ∀ c k, su_ctx s !! c = Some k →
    sc_refcount k = msum (attached_to c) (su_x s) + Z.b2z (bool_decide (ca_ctx q = Some c)) ∧
    0 < sc_refcount k ∧ 0 ≤ sc_pages_nr k;
  iv_attached : ∀ t x c, su_x s !! t = Some x → sx_ctx x = Some c → is_Some (su_ctx s !! c);
  iv_held : ∀ c, ca_ctx q = Some c → is_Some (su_ctx s !! c);
  iv_usage : ∀ r, su_usage s r =
    msum (fun k => sc_uses k r) (su_ctx s) + msum (fun x => sx_uses x r) (su_x s) +
    (if is_resource r RVector then ca_vec q else 0);
  iv_io : su_io_ref s = Z.of_nat (length (su_work s)) + ca_io q;
}.

(** Everything but the objects and the books. *)
Definition core (s : sub) := (su_fresh s, su_sq s, su_work s, su_zombies s, su_io_ref s, su_fault s).

(** ** Resources and contexts *)

Lemma charge_core r n s : core (charge r n s) = core s.
Proof. done. Qed.

(** Follows the conditionals of an operation, then compares the books resource by resource. *)
Ltac books r := repeat (case_match; breflect); destruct r; cbn in *; try done; try lia.

Lemma ctx_release_effect c k s :
  0 ≤ sc_pages_nr k →
  let s' := mx_sg_context_release c k s in
  core s' = core s ∧ su_ctx s' = delete c (su_ctx s) ∧ su_x s' = su_x s ∧
  ∀ r, su_usage s' r = su_usage s r - sc_uses k r.
Proof.
  intros Hp s'. split_and!; [by unfold s', mx_sg_context_release; repeat case_match.. |].
  intros r. unfold s', mx_sg_context_release, sc_uses. destruct (sc_table k), (sc_pages_heap k); books r.
Qed.

(** Giving a reference back: the context stays with one reference less, or goes with
    everything it holds. *)
Lemma ctx_put_effect c k s :
  su_ctx s !! c = Some k → 0 ≤ sc_pages_nr k →
  let s' := mx_sg_context_put c s in
  core s' = core s ∧ su_x s' = su_x s ∧
  (∀ c', su_ctx s' !! c' =
    if decide (c' = c) then if sc_refcount k =? 1 then None else Some (k <| sc_refcount := sc_refcount k - 1 |>)
    else su_ctx s !! c') ∧
  (∀ r, su_usage s' r - msum (fun k => sc_uses k r) (su_ctx s') = su_usage s r - msum (fun k => sc_uses k r) (su_ctx s)).
Proof.
  intros Hc Hp s'. unfold s', mx_sg_context_put. rewrite Hc. cbv zeta. cbn [sc_refcount upd].
  destruct (Z.eqb_spec (sc_refcount k - 1) 0) as [E|E].
  - set (k' := k <| sc_refcount := _ |>). destruct (ctx_release_effect c k' s Hp) as (H1 & H2 & H3 & H4).
    split_and!; [done | done | |].
    + intros c'. rewrite H2. case_decide; subst; [|by rewrite lookup_delete_ne].
      rewrite lookup_delete_eq. by rewrite (proj2 (Z.eqb_eq _ _)) by lia.
    + intros r. rewrite H4, H2. rewrite (msum_delete _ (su_ctx s) c k Hc). change (sc_uses k' r) with (sc_uses k r). lia.
  - split_and!; [done | done | |].
    + intros c'. cbn. case_decide; subst; [|by rewrite lookup_insert_ne].
      rewrite lookup_insert_eq. by rewrite (proj2 (Z.eqb_neq _ _)) by lia.
    + intros r. cbn. rewrite (msum_update _ _ _ k _ Hc). change (sc_uses (upd _ k) r) with (sc_uses k r). lia.
Qed.

(** ** Releasing a transfer *)

Definition ctx_refs (x : mx_transfer) (m : gmap nat mx_sg_context) (c : nat) : option mx_sg_context :=
  if decide (sx_ctx x = Some c) then
    k ← m !! c; if sc_refcount k =? 1 then None else Some (k <| sc_refcount := sc_refcount k - 1 |>)
  else m !! c.

Lemma release_effect t x s :
  su_x s !! t = Some x → t ∉ su_sq s → sx_desc x = 0 →
  (∀ c, sx_ctx x = Some c → ∃ k, su_ctx s !! c = Some k ∧ 0 ≤ sc_pages_nr k) →
  let s' := release_mx_transfer t s in
  core s' = core s ∧ su_x s' = delete t (su_x s) ∧ (∀ c, su_ctx s' !! c = ctx_refs x (su_ctx s) c) ∧
  (∀ r, su_usage s' r - msum (fun k => sc_uses k r) (su_ctx s') =
    su_usage s r - msum (fun k => sc_uses k r) (su_ctx s) - sx_uses x r).
Proof.
  intros Hx Hsq Hd Hc s'. unfold s', release_mx_transfer. rewrite Hx.
  set (s1 := match sx_ctx x with Some c => mx_sg_context_put c s | None => s end).
  assert (core s1 = core s ∧ su_x s1 = su_x s ∧ (∀ c, su_ctx s1 !! c = ctx_refs x (su_ctx s) c) ∧
    (∀ r, su_usage s1 r - msum (fun k => sc_uses k r) (su_ctx s1) =
      su_usage s r - msum (fun k => sc_uses k r) (su_ctx s))) as (H1 & H2 & H3 & H4).
  { unfold s1, ctx_refs. destruct (sx_ctx x) as [c|]; [|done].
    destruct (Hc c eq_refl) as (k & Hk & Hp). destruct (ctx_put_effect c k s Hk Hp) as (P1 & P2 & P3 & P4).
    split_and!; [done | done | | done]. intros c'. rewrite P3. case_decide; subst; [|by rewrite decide_False by congruence].
    rewrite decide_True by done. by rewrite Hk. }
  clearbody s1. assert (su_sq s1 = su_sq s) as Hq by (by injection H1).
  unfold free_mx_transfer. rewrite (bool_decide_eq_false_2 (t ∈ _)) by (destruct (sx_lease x); case_match; cbn; by rewrite Hq).
  split_and!; [by repeat case_match | by repeat case_match; cbn; rewrite H2 | intros c; rewrite <- H3; by repeat case_match |].
  intros r. specialize (H4 r). unfold sx_uses.
  destruct (sx_lease x); repeat (case_match; breflect); destruct r; cbn in *; try lia; try done.
Qed.

Lemma attached_nonneg c x : 0 ≤ attached_to c x.
Proof. unfold attached_to. by case_bool_decide. Qed.

(** The transfer at the head of what the caller holds goes. *)
Lemma release_x_inv c l io vec p t x s :
  sub_inv (MkCaller c (t :: l) io vec p) s → su_x s !! t = Some x → t ∉ su_sq s → sx_desc x = 0 →
  sub_inv (MkCaller c l io vec p) (release_mx_transfer t s) ∧
  core (release_mx_transfer t s) = core s ∧ su_x (release_mx_transfer t s) = delete t (su_x s).
Proof.
  intros [I1 I2 I3 I4 I5 Ip I6 I7 I8 I9 I10] Hx Hsq Hd. cbn in *.
  destruct (release_effect t x s Hx Hsq Hd) as (H1 & H2 & H3 & H4).
  { intros c' Hc'. destruct (I7 t x c' Hx Hc') as [k Hk]. exists k. by destruct (I6 c' k Hk) as (_ & _ & ?). }
  set (s' := release_mx_transfer t s) in *. clearbody s'. split; [|done].
  injection H1 as E1 E2 E3 E4 E5 E6. 
  assert (t ∉ l ++ su_work s ++ su_zombies s ∧ NoDup (l ++ su_work s ++ su_zombies s)) as [Hn Hnd] by by inversion_clear I4.
  assert (∀ u, u ∈ l ++ su_work s ++ su_zombies s → u ≠ t) as Hne by (intros u Hu ->; done).
  constructor; cbn; rewrite ?E1, ?E2, ?E3, ?E4, ?E5, ?E6, ?H2; try done.
  - intros i. rewrite H3. unfold ctx_refs. intros [[y Hy]|[k Hk]].
    + apply I2. left. apply lookup_delete_Some in Hy as [_ Hy]. by eexists.
    + apply I2. right. revert Hk. case_decide; [|by eexists]. destruct (su_ctx s !! i); [by eexists | done].
  - intros u. destruct (decide (u = t)) as [->|Hu].
    + rewrite lookup_delete_eq. split; [by intros [??] | done].
    + rewrite lookup_delete_ne by done. rewrite I3. set_solver.
  - intros u Hu. assert (u ≠ t) by set_solver. set_solver.
  - intros u y Hy. apply lookup_delete_Some in Hy as [Hu Hy]. intros Hp. apply (Ip u y Hy).
    destruct Hp; [by left | right]. set_solver.
  - intros c' k'. rewrite H3. unfold ctx_refs. intros Hk. case_decide as Hc.
    + destruct (su_ctx s !! c') as [k|] eqn:Hk0; cbn in Hk; [|done]. destruct (I6 _ _ Hk0) as (R1 & R2 & R3).
      revert Hk. rewrite (msum_delete _ (su_x s) t x Hx) in R1. unfold attached_to at 1 in R1.
      rewrite bool_decide_eq_true_2 in R1 by done. destruct (Z.eqb_spec (sc_refcount k) 1); [done|]. intros [= <-]. cbn in *. lia.
    + destruct (I6 _ _ Hk) as (R1 & R2 & R3). rewrite (msum_delete _ (su_x s) t x Hx) in R1. unfold attached_to at 1 in R1.
      rewrite bool_decide_eq_false_2 in R1 by done. cbn in *. lia.
  - intros u y c' Hy Hc. apply lookup_delete_Some in Hy as [Hu Hy]. destruct (I7 u y c' Hy Hc) as [k Hk].
    rewrite H3. unfold ctx_refs. rewrite Hk. case_decide as Hxc; [|done]. cbn.
    destruct (I6 _ _ Hk) as (R1 & _). destruct (Z.eqb_spec (sc_refcount k) 1); [exfalso | done].
    assert (attached_to c' x + attached_to c' y ≤ msum (attached_to c') (su_x s)) as Ha
      by (apply (msum_lookup2 _ _ t u); try done; intros; apply attached_nonneg).
    unfold attached_to in Ha at 1 2. rewrite !bool_decide_eq_true_2 in Ha by done. cbn in Ha.
    destruct (bool_decide (c = Some c')); cbn in R1; lia.
  - intros c' ->. destruct (I8 c' eq_refl) as [k Hk]. rewrite H3. unfold ctx_refs. rewrite Hk. case_decide as Hxc; [|done].
    cbn. destruct (I6 _ _ Hk) as (R1 & _). destruct (Z.eqb_spec (sc_refcount k) 1); [exfalso | done].
    assert (attached_to c' x ≤ msum (attached_to c') (su_x s)) as Ha
      by (apply (msum_lookup _ _ t); try done; intros; apply attached_nonneg).
    unfold attached_to in Ha at 1. rewrite bool_decide_eq_true_2 in Ha, R1 by done. cbn in Ha, R1. lia.
  - intros r. specialize (H4 r). rewrite I9 in H4. rewrite (msum_delete _ (su_x s) t x Hx) in H4. lia.
Qed.

(** A transfer of the caller changes, but not its context. *)
Lemma update_inv q p' t x x' s s' :
  sub_inv q s → t ∈ ca_cur q → su_x s !! t = Some x → sx_ctx x' = sx_ctx x →
  (p' = true → ca_plain q = true ∧ (sx_is_sg x' = false → sx_desc x' = 0)) →
  core s' = core s → su_x s' = <[t := x']> (su_x s) → su_ctx s' = su_ctx s →
  (∀ r, su_usage s' r = su_usage s r + sx_uses x' r - sx_uses x r) →
  sub_inv (MkCaller (ca_ctx q) (ca_cur q) (ca_io q) (ca_vec q) p') s'.
Proof.
  intros [I1 I2 I3 I4 I5 Ip I6 I7 I8 I9 I10] Ht Hx Hc Hp' H1 H2 H3 H4. injection H1 as E1 E2 E3 E4 E5 E6.
  assert (∀ c, msum (attached_to c) (su_x s') = msum (attached_to c) (su_x s)) as Ha.
  { intros c. rewrite H2, (msum_update _ _ _ x _ Hx). unfold attached_to. rewrite Hc. lia. }
  assert (∀ u, is_Some (su_x s' !! u) ↔ is_Some (su_x s !! u)) as Hs.
  { intros u. rewrite H2. destruct (decide (u = t)) as [->|]; [rewrite lookup_insert_eq, Hx | by rewrite lookup_insert_ne].
    split; by eexists. }
  constructor; cbn; rewrite ?E1, ?E2, ?E3, ?E4, ?E5, ?E6; try done.
  - intros i. rewrite Hs, H3. apply I2.
  - intros u. rewrite Hs. apply I3.
  - intros u y. rewrite H2. destruct (decide (u = t)) as [->|Hu].
    + rewrite lookup_insert_eq. intros [= <-] [Hp|?]; [by apply Hp' | done].
    + rewrite lookup_insert_ne by done. intros Hy Hp. apply (Ip u y Hy). destruct Hp as [Hp|]; [left; by apply Hp' | by right].
  - intros c k Hk. rewrite Ha. apply I6. by rewrite <- H3.
  - intros u y c. rewrite H2, H3. destruct (decide (u = t)) as [->|Hu].
    + rewrite lookup_insert_eq. intros [= <-]. rewrite Hc. intros Hxc. by apply (I7 t x).
    + rewrite lookup_insert_ne by done. apply (I7 u).
  - intros c Hq. rewrite H3. by apply I8.
  - intros r. rewrite H4, I9, H2, H3, (msum_update _ _ _ x _ Hx). lia.
Qed.

(** Only the lists change. *)
Lemma lists_inv q q' s s' :
  sub_inv q s → su_fresh s' = su_fresh s → su_fault s' = su_fault s → su_x s' = su_x s → su_ctx s' = su_ctx s →
  (∀ r, su_usage s' r + (if is_resource r RVector then ca_vec q else 0) =
        su_usage s r + (if is_resource r RVector then ca_vec q' else 0)) →
  su_io_ref s' - Z.of_nat (length (su_work s')) - ca_io q' = su_io_ref s - Z.of_nat (length (su_work s)) - ca_io q →
  ca_ctx q' = ca_ctx q →
  (ca_plain q = true ∨ ca_cur q' = ca_cur q ∧ ca_plain q' = ca_plain q) →
  ca_cur q' ++ su_work s' ++ su_zombies s' ≡ₚ ca_cur q ++ su_work s ++ su_zombies s →
  (∀ t, t ∈ su_sq s' → t ∈ ca_cur q' ++ su_work s') →
  sub_inv q' s'.
Proof.
  intros [I1 I2 I3 I4 I5 Ip I6 I7 I8 I9 I10] E1 E2 E3 E4 E5 E6 E7 E8 Hperm Hsq.
  constructor; rewrite ?E1, ?E2, ?E3, ?E4, ?E7; try done.
  - intros t. by rewrite I3, Hperm.
  - by rewrite Hperm.
  - intros t x Hx Hp. apply (Ip t x Hx). destruct E8 as [?|[<- <-]]; [by left | done].
  - intros r. specialize (E5 r). rewrite I9 in E5. lia.
  - lia.
Qed.

Lemma owned_x q s t : sub_inv q s → t ∈ ca_cur q ++ su_work s ++ su_zombies s → ∃ x, su_x s !! t = Some x.
Proof. intros Hi Ht. by apply (iv_owned _ _ Hi) in Ht as [x ?]; exists x. Qed.

Lemma list_remove_not t l : t ∉ l → list_remove t l = l.
Proof.
  unfold list_remove. induction l as [|u l IH]; [done|]. intros Ht. rewrite filter_cons.
  case_decide; [by rewrite IH by set_solver | set_solver].
Qed.
Lemma list_remove_perm t l : NoDup l → t ∈ l → l ≡ₚ t :: list_remove t l.
Proof.
  intros Hn Ht. induction l as [|u l IH]; [set_solver|]. inversion_clear Hn. unfold list_remove. rewrite filter_cons.
  case_decide as Hu.
  - rewrite Permutation_swap. f_equiv. apply IH; [done | set_solver].
  - assert (u = t) as -> by (by destruct (decide (u = t))). f_equiv. fold (list_remove t l). by rewrite list_remove_not.
Qed.
Lemma elem_of_remove t u l : u ∈ list_remove t l ↔ u ≠ t ∧ u ∈ l.
Proof. unfold list_remove. by rewrite list_elem_of_filter. Qed.

(** Freeing a transfer with its descriptor list. *)
Lemma destroy_inv c l io vec p t s :
  sub_inv (MkCaller c (t :: l) io vec p) s → t ∉ su_sq s →
  sub_inv (MkCaller c l io vec p) (mx_transfer_destroy_sg t s) ∧
  core (mx_transfer_destroy_sg t s) = core s ∧ su_x (mx_transfer_destroy_sg t s) = delete t (su_x s).
Proof.
  intros Hi Ht. destruct (owned_x _ _ t Hi) as [x Hx]; [set_solver|]. unfold mx_transfer_destroy_sg, desc_list_free. rewrite Hx.
  set (s1 := set_x t _ _).
  assert (sub_inv (MkCaller c (t :: l) io vec p) s1) as Hi1.
  { eapply (update_inv _ p t x (x <| sx_desc := 0 |>) s s1 Hi); try done; [set_solver|].
    intros r. unfold s1, sx_uses. destruct r; cbn; lia. }
  destruct (release_x_inv _ _ _ _ _ t (x <| sx_desc := 0 |>) s1 Hi1) as (H1 & H2 & H3); try done.
  { unfold s1. cbn. by rewrite lookup_insert_eq. }
  split_and!; [done | by rewrite H2 |]. rewrite H3. unfold s1. cbn. by rewrite delete_insert_eq.
Qed.

Lemma release_plain_inv c l io vec t s :
  sub_inv (MkCaller c (t :: l) io vec true) s → t ∉ su_sq s → (∀ x, su_x s !! t = Some x → sx_is_sg x = false) →
  sub_inv (MkCaller c l io vec true) (release_mx_transfer t s) ∧
  core (release_mx_transfer t s) = core s ∧ su_x (release_mx_transfer t s) = delete t (su_x s).
Proof.
  intros Hi Ht Hsg. destruct (owned_x _ _ t Hi) as [x Hx]; [set_solver|].
  eapply release_x_inv; try done. eapply (iv_plain _ _ Hi t x Hx); [by left | by apply Hsg].
Qed.

(** Either way of freeing a transfer that is on no list. *)
Lemma teardown_inv c l io vec t x s s' :
  sub_inv (MkCaller c (t :: l) io vec true) s → t ∉ su_sq s → su_x s !! t = Some x →
  s' = (if sx_is_sg x then mx_transfer_destroy_sg t s else release_mx_transfer t s) →
  sub_inv (MkCaller c l io vec true) s' ∧ core s' = core s ∧ su_x s' = delete t (su_x s).
Proof.
  intros Hi Ht Hx ->. destruct (sx_is_sg x) eqn:Hsg; [by apply destroy_inv|].
  apply release_plain_inv; [done | done |]. intros y. rewrite Hx. by intros [= <-].
Qed.

Lemma teardown_done_eq cp t x s :
  su_x s !! t = Some x →
  mx_transfer_teardown_done cp t s =
    (sx_size x, if sx_is_sg x then mx_transfer_destroy_sg t s else release_mx_transfer t s).
Proof. intros Hx. unfold mx_transfer_teardown_done, mx_transfer_destroy_ctrl. by rewrite Hx. Qed.

Lemma disjoint_owned q s t :
  sub_inv q s →
  (t ∈ su_zombies s → t ∉ ca_cur q ∧ t ∉ su_work s ∧ t ∉ su_sq s) ∧
  (t ∈ su_work s → t ∉ ca_cur q ∧ t ∉ su_zombies s).
Proof.
  intros Hi. pose proof (iv_nodup _ _ Hi) as Hn. apply list.NoDup_app in Hn as (_ & H1 & Hn).
  apply list.NoDup_app in Hn as (_ & H2 & _).
  assert (t ∈ su_zombies s → t ∉ ca_cur q ∧ t ∉ su_work s) as Hz.
  { intros Hz. split; [intros Hc; apply (H1 t Hc); set_solver | intros Hw; by apply (H2 t Hw)]. }
  split.
  - intros Ht. destruct (Hz Ht) as [? ?]. split_and!; [done | done |]. intros Hsq. apply (iv_sq _ _ Hi) in Hsq. set_solver.
  - intros Hw. split; [intros Hc; apply (H1 t Hc); set_solver | by apply H2].
Qed.

Lemma drain_zombie_inv c l io vec t s :
  sub_inv (MkCaller c l io vec true) s → t ∈ su_zombies s →
  let s' := drain_zombie t s in
  sub_inv (MkCaller c l io vec true) s' ∧ su_x s' = delete t (su_x s) ∧ t ∉ l ∧
  su_sq s' = su_sq s ∧ su_work s' = su_work s ∧ su_zombies s' = list_remove t (su_zombies s).
Proof.
  intros Hi Ht s'. destruct (proj1 (disjoint_owned _ _ t Hi) Ht) as (Hl & Hw & Hsq). cbn in Hl.
  destruct (owned_x _ _ t Hi) as [x Hx]; [set_solver|]. unfold s', drain_zombie. rewrite Hx, (list_remove_not _ _ Hw).
  set (s1 := s <| su_zombies := _ |> <| su_work := _ |>).
  assert (sub_inv (MkCaller c (t :: l) io vec true) s1) as Hi1.
  { pose proof (iv_nodup _ _ Hi) as Hn. apply (lists_inv _ _ s _ Hi); try done; [by left | |].
    - cbn. symmetry. etrans; [do 2 apply Permutation_app_head; apply (list_remove_perm t); [|done]|].
      + by apply list.NoDup_app in Hn as (_ & _ & (_ & _ & Hn)%list.NoDup_app).
      + rewrite <- !Permutation_middle. done.
    - intros u Hu. apply (iv_sq _ _ Hi) in Hu. set_solver. }
  destruct (teardown_inv c l io vec t x s1 _ Hi1 Hsq Hx eq_refl) as (H1 & H2 & H3).
  assert (release_mx_transfer t (if sx_is_sg x then desc_list_free t s1 else s1) =
    if sx_is_sg x then mx_transfer_destroy_sg t s1 else release_mx_transfer t s1) as -> by by destruct (sx_is_sg x).
  injection H2 as E1 E2 E3 E4 E5 E6. by split_and!.
Qed.

(** What the cleaner drains while a call runs is not the call's. *)
Lemma drain_list_inv c l io vec zs s :
  sub_inv (MkCaller c l io vec true) s →
  let s' := drain_zombie_list zs s in
  sub_inv (MkCaller c l io vec true) s' ∧ (∀ u, u ∈ l → su_x s' !! u = su_x s !! u) ∧
  su_sq s' = su_sq s ∧ su_work s' = su_work s ∧ (∀ u, u ∈ su_zombies s' → u ∈ su_zombies s).
Proof.
  revert s. induction zs as [|t zs IH]; intros s Hi; [done|]. cbn [drain_zombie_list fold_left].
  case_bool_decide as Ht; [|by apply IH].
  destruct (drain_zombie_inv c l io vec t s Hi Ht) as (H1 & H2 & H3 & H4 & H5 & H6).
  destruct (IH _ H1) as (K1 & K2 & K3 & K4 & K5). split_and!; [done | | by etrans | by etrans |].
  - intros u Hu. etrans; [by apply K2|]. rewrite H2. apply lookup_delete_ne. by intros ->.
  - intros u Hu. apply K5 in Hu. rewrite H6 in Hu. by apply elem_of_remove in Hu as [_ ?].
Qed.

Lemma sq_remove_inv q t s : sub_inv q s → sub_inv q (s <| su_sq := list_remove t (su_sq s) |>).
Proof.
  intros Hi. apply (lists_inv q q s _ Hi); try done; [by right|]. cbn. intros u Hu.
  apply elem_of_remove in Hu as [_ Hu]. by apply (iv_sq _ _ Hi).
Qed.

Lemma sq_append_inv q ts s : sub_inv q s → (∀ t, t ∈ ts → t ∈ ca_cur q) → sub_inv q (mx_transfer_queue_parallel ts s).
Proof.
  intros Hi Ht. apply (lists_inv q q s _ Hi); try done; [by right|]. cbn. intros u Hu.
  apply elem_of_app in Hu as [Hu|Hu]; [by apply (iv_sq _ _ Hi) | apply Ht in Hu; set_solver].
Qed.

Lemma during_wait_inv c l io vec t w s :
  sub_inv (MkCaller c l io vec true) s →
  let '(left_time, s') := during_wait w t s in
  sub_inv (MkCaller c l io vec true) s' ∧ (∀ u, u ∈ l → su_x s' !! u = su_x s !! u) ∧ (0 < left_time → t ∉ su_sq s') ∧
  (∀ u, u ∈ su_zombies s' → u ∈ su_zombies s).
Proof.
  intros Hi. unfold during_wait. destruct (drain_list_inv c l io vec (wr_drained w) s Hi) as (H1 & H2 & H3 & H4 & H5).
  destruct (wr_pushed w); cbn.
  - split_and!; [by apply sq_remove_inv | done | | done]. intros _ Hu. by apply elem_of_remove in Hu as [? _].
  - case_bool_decide; split_and!; try done. lia.
Qed.

(** A wait frees the transfer or parks it as a zombie; in the second case it fails. *)
Lemma wait_inv c l io vec t x w s :
  sub_inv (MkCaller c (t :: l) io vec true) s → su_x s !! t = Some x →
  let '(r, s') := mx_transfer_wait w t s in
  sub_inv (MkCaller c l io vec true) s' ∧ (∀ u, u ∈ l → su_x s' !! u = su_x s !! u) ∧
  (r < 0 ∨ r = sx_size x ∧ ∀ u, u ∈ su_zombies s' → u ∈ su_zombies s).
Proof.
  intros Hi Hx. unfold mx_transfer_wait. pose proof (during_wait_inv c (t :: l) io vec t w s Hi) as Hw.
  destruct (during_wait w t s) as [lt s1]. destruct Hw as (H1 & H2 & H3 & H4).
  assert (su_x s1 !! t = Some x) as Hx1 by (rewrite H2; [done | set_solver]).
  assert (∀ u, u ∈ l → u ≠ t) as Hne.
  { intros u Hu ->. pose proof (iv_nodup _ _ Hi) as Hn. cbn in Hn. inversion_clear Hn. set_solver. }
  assert (∀ s2 s3, sub_inv (MkCaller c (t :: l) io vec true) s2 → t ∉ su_sq s2 → su_x s2 = su_x s1 →
    su_zombies s2 = su_zombies s1 →
    s3 = (if sx_is_sg x then mx_transfer_destroy_sg t s2 else release_mx_transfer t s2) →
    sub_inv (MkCaller c l io vec true) s3 ∧ (∀ u, u ∈ l → su_x s3 !! u = su_x s !! u) ∧
    ∀ u, u ∈ su_zombies s3 → u ∈ su_zombies s) as Htd.
  { intros s2 s3 Hi2 Hsq Hx2 Hz2 ->. rewrite <- Hx2 in Hx1.
    destruct (teardown_inv c l io vec t x s2 _ Hi2 Hsq Hx1 eq_refl) as (T1 & T2 & T3). injection T2 as _ _ _ E4 _ _.
    split_and!; [done | |].
    - intros u Hu. rewrite T3, lookup_delete_ne by (symmetry; by apply Hne). rewrite Hx2. apply H2. set_solver.
    - intros u Hu. rewrite E4, Hz2 in Hu. by apply H4. }
  unfold mx_transfer_remove_from_sq, transfer_wait_exit.
  destruct (Z.ltb_spec 0 lt) as [Hl|Hl].
  { destruct (bool_decide (t ∈ su_sq s1)); cbn [fst snd]; rewrite (teardown_done_eq _ t x) by done;
      (destruct (Htd s1 _ H1 (H3 Hl) eq_refl eq_refl eq_refl) as (T1 & T2 & T3); split_and!; [done | done | by right]). }
  assert ((if wr_lv_on w && wr_dead w then - EIO else if lt =? 0 then - ETIMEDOUT else - EINTR) < 0) as Hneg
    by (errno; repeat case_match; lia).
  case_bool_decide as Hsq.
  { unfold mx_transfer_teardown_recovered. cbn [su_x upd]. rewrite Hx1.
    set (s2 := s1 <| su_sq := _ |>). assert (t ∉ su_sq s2) as Hs2 by (intros Hu; by apply elem_of_remove in Hu as [? _]).
    destruct (Htd s2 _ (sq_remove_inv _ t s1 H1) Hs2 eq_refl eq_refl eq_refl) as (T1 & T2 & T3).
    split_and!; [done | done | by left]. }
  destruct (negb (wr_lv_on w && wr_dead w) && wr_late w).
  { rewrite (teardown_done_eq _ t x) by done.
    destruct (Htd s1 _ H1 Hsq eq_refl eq_refl eq_refl) as (T1 & T2 & T3). split_and!; [done | done | by right]. }
  split_and!; [| | by left].
  - apply (lists_inv _ _ s1 _ H1); try done; [by left | cbn; solve_Permutation |].
    intros u Hu. pose proof (iv_sq _ _ H1 u Hu) as Hc. assert (u ≠ t) by (by intros ->). cbn in *. set_solver.
  - intros u Hu. apply H2. set_solver.
Qed.

(** ** Creating the context *)

Lemma ctx_update_inv q c k k' s s' :
  sub_inv q s → su_ctx s !! c = Some k → sc_refcount k' = sc_refcount k → 0 ≤ sc_pages_nr k' →
  core s' = core s → su_x s' = su_x s → su_ctx s' = <[c := k']> (su_ctx s) →
  (∀ r, su_usage s' r = su_usage s r + sc_uses k' r - sc_uses k r) →
  sub_inv q s'.
Proof.
  intros [I1 I2 I3 I4 I5 Ip I6 I7 I8 I9 I10] Hk Hr Hp H1 H2 H3 H4. injection H1 as E1 E2 E3 E4 E5 E6.
  assert (∀ i, is_Some (su_ctx s' !! i) ↔ is_Some (su_ctx s !! i)) as Hs.
  { intros i. rewrite H3. destruct (decide (i = c)) as [->|]; [rewrite lookup_insert_eq, Hk | by rewrite lookup_insert_ne].
    split; by eexists. }
  constructor; rewrite ?E1, ?E2, ?E3, ?E4, ?E5, ?E6, ?H2; try done.
  - intros i. rewrite Hs. apply I2.
  - intros c' k2. rewrite H3. destruct (decide (c' = c)) as [->|].
    + rewrite lookup_insert_eq. intros [= <-]. destruct (I6 c k Hk) as (? & ? & ?). by rewrite Hr.
    + rewrite lookup_insert_ne by done. apply I6.
  - intros t x c' Hx Hc. apply Hs. by eapply I7.
  - intros c' Hc. apply Hs. by apply I8.
  - intros r. rewrite H4, I9, H3, (msum_update _ _ _ k _ Hk). lia.
Qed.

Lemma no_one_attached q s c : sub_inv q s → su_ctx s !! c = None → msum (attached_to c) (su_x s) = 0.
Proof.
  intros Hi Hc. rewrite <- (msum_zero (su_x s)). apply msum_ext. intros t x Hx. unfold attached_to.
  rewrite bool_decide_eq_false_2; [done|]. intros Hxc. destruct (iv_attached _ _ Hi t x c Hx Hxc) as [k Hk]. congruence.
Qed.

Lemma new_ctx_inv l io vec p k s :
  sub_inv (MkCaller None l io vec p) s → sc_refcount k = 1 → sc_pages_nr k = 0 → sc_nents k = 0 → sc_table k = false →
  sc_pages_heap k = false →
  sub_inv (MkCaller (Some (su_fresh s)) l io vec p)
    (charge RContext 1 (set_ctx (su_fresh s) k (s <| su_fresh := S (su_fresh s) |>))).
Proof.
  intros Hi H1 H2 H3 H4 H5. pose proof Hi as [I1 I2 I3 I4 I5 Ip I6 I7 I8 I9 I10].
  assert (su_ctx s !! su_fresh s = None) as Hf.
  { destruct (su_ctx s !! su_fresh s) as [k'|] eqn:Hk; [|done]. assert (su_fresh s < su_fresh s)%nat; [|lia].
    apply I2. right. by eexists. }
  constructor; cbn; try done.
  - intros i [Hx|Hc]; [specialize (I2 i (or_introl Hx)); lia|]. destruct (decide (i = su_fresh s)) as [->|Hne]; [lia|].
    rewrite lookup_insert_ne in Hc by done. specialize (I2 i (or_intror Hc)). lia.
  - intros c k'. destruct (decide (c = su_fresh s)) as [->|Hne].
    + rewrite lookup_insert_eq. intros [= <-]. rewrite bool_decide_eq_true_2 by done. cbn.
      rewrite (no_one_attached _ _ _ Hi Hf). lia.
    + rewrite lookup_insert_ne by done. intros Hk. destruct (I6 c k' Hk) as (R1 & R2 & R3). cbn in R1.
      rewrite bool_decide_eq_false_2 in R1 by congruence. rewrite bool_decide_eq_false_2 by congruence. cbn in *. lia.
  - intros t x c Hx Hc. destruct (decide (c = su_fresh s)) as [->|]; [by rewrite lookup_insert_eq|].
    rewrite lookup_insert_ne by done. by eapply I7.
  - intros c [= <-]. by rewrite lookup_insert_eq.
  - intros r. rewrite msum_insert by done. specialize (I9 r). unfold sc_uses at 1. rewrite H2, H3, H4, H5.
    destruct r; cbn in *; try lia. case_bool_decide; lia.
Qed.

(** The caller gives its reference back. *)
Lemma put_inv c l io vec p s :
  sub_inv (MkCaller (Some c) l io vec p) s →
  sub_inv (MkCaller None l io vec p) (mx_sg_context_put c s) ∧ su_x (mx_sg_context_put c s) = su_x s ∧
  core (mx_sg_context_put c s) = core s.
Proof.
  intros [I1 I2 I3 I4 I5 Ip I6 I7 I8 I9 I10]. cbn in *. destruct (I8 c eq_refl) as [k Hk].
  destruct (I6 c k Hk) as (R1 & R2 & R3). rewrite bool_decide_eq_true_2 in R1 by done. cbn in R1.
  destruct (ctx_put_effect c k s Hk R3) as (H1 & H2 & H3 & H4). set (s' := mx_sg_context_put c s) in *. clearbody s'.
  split; [|done]. injection H1 as E1 E2 E3 E4 E5 E6.
  constructor; cbn; rewrite ?E1, ?E2, ?E3, ?E4, ?E5, ?E6, ?H2; try done.
  - intros i. rewrite H3. intros [Hx|Hc]; apply I2; [by left | right]. case_decide; [subst; by eexists | done].
  - intros c' k'. rewrite H3. case_decide as Hd.
    + subst. destruct (Z.eqb_spec (sc_refcount k) 1); [done|]. intros [= <-].
      rewrite bool_decide_eq_false_2 by done. cbn in *. lia.
    + intros Hk'. destruct (I6 c' k' Hk') as (Q1 & Q2 & Q3). rewrite bool_decide_eq_false_2 in Q1 by congruence.
      rewrite bool_decide_eq_false_2 by done. cbn in *. lia.
  - intros t x c' Hx Hc. rewrite H3. destruct (I7 t x c' Hx Hc) as [k' Hk']. case_decide as Hd; [|by eexists]. subst.
    destruct (Z.eqb_spec (sc_refcount k) 1); [exfalso | done].
    assert (attached_to c x ≤ msum (attached_to c) (su_x s)) as Ha
      by (apply (msum_lookup _ _ t); try done; intros; apply attached_nonneg).
    unfold attached_to in Ha at 1. rewrite bool_decide_eq_true_2 in Ha by done. cbn in Ha. lia.
  - intros r. specialize (H4 r). rewrite I9 in H4. lia.
Qed.

Lemma writes_memory_dir dir : dir ≠ DMA_NONE → writes_memory dir = negb (bool_decide (dir = DMA_TO_DEVICE)).
Proof. by destruct dir. Qed.

Lemma pin_pages_inv q e pages c k s :
  sub_inv q s → su_ctx s !! c = Some k → 1 ≤ pages ≤ INT_MAX / 8 → sc_pages_nr k = 0 → sc_pages_heap k = false →
  sc_dir k ≠ DMA_NONE →
  let '(ret, k', s') := pin_pages e pages c k s in
  sub_inv q s' ∧ core s' = core s ∧ su_x s' = su_x s ∧ su_ctx s' !! c = Some k' ∧ ret ≤ 0 ∧
  (ret = 0 → k' = k <| sc_pages_heap := negb (pages <=? MX_PAGES_INLINE_NR) |> <| sc_pages_nr := pages |>).
Proof.
  intros Hi Hk Hp H0 Hh Hd. unfold pin_pages. set (heap := negb _). set (pinned := Z.min _ _).
  destruct (heap && negb (ce_pages e)); [by split_and!; try (errno; lia)|].
  set (k1 := k <| sc_pages_heap := heap |>). set (k2 := if 0 <? pinned then _ else k1).
  set (s1 := if heap then _ else s). set (s2 := if 0 <? pinned then _ else s1). set (s3 := if _ && _ then _ else s2).
  assert (core s3 = core s ∧ su_x s3 = su_x s ∧ su_ctx s3 = su_ctx s) as (F1 & F2 & F3)
    by (unfold s3, s2, s1; by repeat case_match).
  assert (sc_pages_nr k2 = Z.max 0 pinned) as Hk2.
  { unfold k2. destruct (Z.ltb_spec 0 pinned); cbn; [|rewrite H0; lia]. unfold to_int. change (INT_MAX / 8) with 268435455 in Hp.
    rewrite u32_id by (unfold U32_MAX; lia). rewrite (proj2 (Z.ltb_ge _ _)) by (unfold INT_MAX; lia). lia. }
  assert (sub_inv q (set_ctx c k2 s3)) as Hi3.
  { apply (ctx_update_inv q c k k2 s _ Hi Hk); try done; [unfold k2; by case_match | lia | cbn; by rewrite F3 |].
    intros r. unfold sc_uses, set_ctx. cbn [su_usage upd]. rewrite Hk2, H0, Hh.
    replace (sc_dir k2) with (sc_dir k) by (unfold k2; by case_match).
    replace (sc_nents k2) with (sc_nents k) by (unfold k2; by case_match).
    replace (sc_table k2) with (sc_table k) by (unfold k2; by case_match).
    replace (sc_orig_nents k2) with (sc_orig_nents k) by (unfold k2; by case_match).
    replace (sc_pages_heap k2) with heap by (unfold k2; by case_match).
    unfold s3, s2, s1. replace (sc_dir k2) with (sc_dir k) by (unfold k2; by case_match).
    rewrite (writes_memory_dir _ Hd). clearbody heap k2. destruct (bool_decide _), heap, (Z.ltb_spec 0 pinned);
      destruct r; cbn; lia. }
  destruct (Z.eqb_spec pinned pages) as [E|E]; cbn [negb].
  - split_and!; try done; [cbn; by rewrite F3, lookup_insert_eq |]. intros _.
    unfold k2. rewrite E. rewrite (proj2 (Z.ltb_lt _ _)) by lia. unfold to_int. change (INT_MAX / 8) with 268435455 in Hp.
    rewrite u32_id by (unfold U32_MAX; lia). by rewrite (proj2 (Z.ltb_ge _ _)) by (unfold INT_MAX; lia).
  - split_and!; try done; [cbn; by rewrite F3, lookup_insert_eq | |];
      (case_match; breflect; errno; lia).
Qed.

Lemma map_pages_inv q e pages c k s :
  sub_inv q s → su_ctx s !! c = Some k → sc_table k = false → sc_nents k = 0 → ce_table e ≤ 0 →
  let '(ret, k', s') := map_pages e pages c k s in
  sub_inv q s' ∧ core s' = core s ∧ su_x s' = su_x s ∧ su_ctx s' !! c = Some k' ∧ ret ≤ 0 ∧
  (sc_dir k' = sc_dir k ∧ sc_pages_nr k' = sc_pages_nr k ∧ sc_user_addr k' = sc_user_addr k ∧
   sc_total_size k' = sc_total_size k).
Proof.
  intros Hi Hk Ht Hn He. unfold map_pages. set (inlined := pages <=? _).
  destruct (negb inlined && nz (ce_table e)); [by split_and!|].
  set (k1 := (if inlined then _ else _) <| sc_nents := _ |>). set (s1 := if inlined then s else _).
  assert (core s1 = core s ∧ su_x s1 = su_x s ∧ su_ctx s1 = su_ctx s) as (F1 & F2 & F3) by (unfold s1; by case_match).
  assert (sc_refcount k1 = sc_refcount k ∧ sc_pages_nr k1 = sc_pages_nr k ∧ sc_dir k1 = sc_dir k ∧
    sc_pages_heap k1 = sc_pages_heap k ∧ sc_user_addr k1 = sc_user_addr k ∧ sc_total_size k1 = sc_total_size k ∧
    sc_nents k1 = ce_map e ∧ sc_table k1 = negb inlined) as (K1 & K2 & K3 & K4 & K5 & K6 & K7 & K8)
    by (unfold k1; destruct inlined; by rewrite ?Ht).
  assert (0 ≤ sc_pages_nr k) as Hp by (by destruct (iv_refs _ _ Hi c k Hk) as (_ & _ & ?)).
  assert (∀ s', core s' = core s → su_x s' = su_x s → su_ctx s' = <[c := k1]> (su_ctx s) →
    (∀ r, su_usage s' r = su_usage s r + sc_uses k1 r - sc_uses k r) → sub_inv q s') as Hup.
  { intros s' G1 G2 G3 G4. apply (ctx_update_inv q c k k1 s s' Hi Hk); try done. lia. }
  clearbody k1. destruct (Z.eqb_spec (ce_map e) 0) as [Hm|Hm].
  - split_and!; try done; try exact F1; try exact F2; [apply Hup | cbn; by rewrite lookup_insert_eq];
      try done; [cbn; by rewrite F3 |].
    intros r. unfold sc_uses, s1, nz. rewrite K2, K3, K4, K7, K8, Ht, Hn, Hm. cbn [negb]. destruct inlined, r; cbn; lia.
  - split_and!; try done; try exact F1; try exact F2; [apply Hup | cbn; by rewrite lookup_insert_eq];
      try done; [cbn; by rewrite F3 |].
    intros r. unfold sc_uses, s1, nz. rewrite K2, K3, K4, K7, K8, Ht, Hn. rewrite (proj2 (Z.eqb_neq _ _) Hm).
    destruct inlined, r; cbn; lia.
Qed.

(** A failed creation leaves nothing; a successful one gives a context of the buffer,
    with a reference for the caller. *)
Lemma create_inv l io vec p e user size dir s :
  sub_inv (MkCaller None l io vec p) s → 0 ≤ user → 0 ≤ size → ce_table e ≤ 0 → dir ≠ DMA_NONE →
  let '(o, s') := mx_sg_context_create e user size dir s in
  su_x s' = su_x s ∧ su_zombies s' = su_zombies s ∧ su_work s' = su_work s ∧
  match o with
  | inl err => sub_inv (MkCaller None l io vec p) s' ∧ err < 0
  | inr c => sub_inv (MkCaller (Some c) l io vec p) s' ∧
    ∃ k pages, su_ctx s' !! c = Some k ∧ sg_context_pages PAGE_SHIFT user size = inr pages ∧ sc_pages_nr k = pages ∧
      sc_user_addr k = user ∧ sc_total_size k = size
  end.
Proof.
  intros Hi Hu Hsz He Hd. unfold mx_sg_context_create. destruct (sg_context_pages _ _ _) as [err|pages] eqn:Hp.
  { split_and!; try done. unfold sg_context_pages in Hp. case_match; simplify_eq. errno. lia. }
  destruct (context_pages_spec PAGE_SHIFT Hshift user size pages Hu Hsz Hp) as (_ & _ & Hb).
  destruct (ce_ctx e); cbn [negb]; [|done]. cbv zeta. set (k0 := MkSc _ _ _ _ _ _ _ _ _). set (s1 := charge RContext 1 _).
  assert (sub_inv (MkCaller (Some (su_fresh s)) l io vec p) s1) as Hi1 by by apply new_ctx_inv.
  assert (su_ctx s1 !! su_fresh s = Some k0) as Hk0 by (unfold s1; cbn; by rewrite lookup_insert_eq).
  pose proof (pin_pages_inv _ e pages _ k0 s1 Hi1 Hk0 Hb eq_refl eq_refl Hd) as H2.
  destruct (pin_pages _ _ _ _ _) as [[r2 k2] s2]. destruct H2 as (P1 & P2 & P3 & P4 & P5 & P6).
  injection P2 as _ _ E3 E4 _ _. unfold nz. destruct (Z.eqb_spec r2 0) as [Hr2|Hr2]; cbn [negb].
  2: { destruct (put_inv _ _ _ _ _ _ P1) as (Q1 & Q2 & Q3). injection Q3 as _ _ G3 G4 _ _.
    split_and!; [by rewrite Q2, P3 | by rewrite G4, E4 | by rewrite G3, E3 | done | lia]. }
  specialize (P6 Hr2). subst k2. set (k2 := k0 <| sc_pages_heap := _ |> <| sc_pages_nr := pages |>) in P4.
  pose proof (map_pages_inv _ e pages _ k2 s2 P1 P4 eq_refl eq_refl He) as H3. fold k2.
  destruct (map_pages _ _ _ _ _) as [[r3 k3] s3]. destruct H3 as (R1 & R2 & R3 & R4 & R5 & _ & R6 & R7 & R8).
  injection R2 as _ _ G3 G4 _ _. destruct (Z.eqb_spec r3 0) as [Hr3|Hr3]; cbn [negb].
  - split_and!; [by rewrite R3, P3 | by rewrite G4, E4 | by rewrite G3, E3 | done |]. by exists k3, pages.
  - destruct (put_inv _ _ _ _ _ _ R1) as (Q1 & Q2 & Q3). injection Q3 as _ _ G3' G4' _ _.
    split_and!; [by rewrite Q2, R3, P3 | by rewrite G4', G4, E4 | by rewrite G3', G3, E3 | done | lia].
Qed.

(** ** Allocating transfers *)

Definition new_x (size device_addr : Z) (dir : dma_data_direction) : mx_transfer :=
  MkSx None 0 size device_addr dir false false None 0 false.

Lemma alloc_x_inv c l io vec cache id size dev dir s :
  sub_inv (MkCaller c l io vec true) s →
  let '(o, s') := alloc_mx_transfer cache id size dev dir s in
  su_ctx s' = su_ctx s ∧ su_zombies s' = su_zombies s ∧ su_work s' = su_work s ∧ su_sq s' = su_sq s ∧
  match o with
  | None => sub_inv (MkCaller c l io vec true) s' ∧ su_x s' = su_x s
  | Some t => sub_inv (MkCaller c (t :: l) io vec true) s' ∧ su_x s !! t = None ∧ t ∉ su_sq s' ∧
              su_x s' = <[t := new_x size dev dir]> (su_x s)
  end.
Proof.
  intros Hi. unfold alloc_mx_transfer. destruct cache; cbn [negb]; [|done]. destruct id; cbn [negb].
  2: { split_and!; try done. apply (lists_inv _ _ s _ Hi); try done; [|by left|by apply (iv_sq _ _ Hi)].
    intros r. destruct r; cbn; lia. }
  cbv zeta. cbn [su_fresh charge upd]. set (t := su_fresh s).
  pose proof Hi as [I1 I2 I3 I4 I5 Ip I6 I7 I8 I9 I10]. cbn in *.
  assert (su_x s !! t = None) as Hf.
  { destruct (su_x s !! t) as [k'|] eqn:Hk; [|done]. assert (t < su_fresh s)%nat; [|unfold t in *; lia].
    apply I2. left. by eexists. }
  assert (t ∉ l ++ su_work s ++ su_zombies s) as Ht.
  { intros Hin. apply I3 in Hin as [??]. congruence. }
  assert (t ∉ su_sq s) as Hsq by (intros Hin; apply I5 in Hin; set_solver).
  split_and!; try done. constructor; cbn; try done.
  - intros i [Hx|Hc]; [|specialize (I2 i (or_intror Hc)); lia]. destruct (decide (i = t)) as [->|Hne]; [unfold t; lia|].
    rewrite lookup_insert_ne in Hx by done. specialize (I2 i (or_introl Hx)). lia.
  - intros u. destruct (decide (u = t)) as [->|Hu].
    + rewrite lookup_insert_eq. split; [set_solver | by eexists].
    + rewrite lookup_insert_ne by done. rewrite I3. set_solver.
  - by constructor.
  - intros u Hu. apply I5 in Hu. set_solver.
  - intros u y. destruct (decide (u = t)) as [->|Hu]; [rewrite lookup_insert_eq; by intros [= <-]|].
    rewrite lookup_insert_ne by done. intros Hy _. apply (Ip u y Hy). by left.
  - intros c' k Hk. rewrite msum_insert by done. apply I6 in Hk. unfold attached_to at 1. cbn.
    by rewrite bool_decide_eq_false_2.
  - intros u y c'. destruct (decide (u = t)) as [->|Hu]; [rewrite lookup_insert_eq; by intros [= <-]|].
    rewrite lookup_insert_ne by done. apply I7.
  - intros r. rewrite msum_insert by done. specialize (I9 r). unfold sx_uses at 1.
    destruct r; cbn in *; try lia. case_bool_decide; [done|]. cbn. lia.
Qed.

(** A transfer takes a reference on a context. *)
Lemma attach_inv q t x x' c k s :
  sub_inv q s → su_x s !! t = Some x → sx_ctx x = None → su_ctx s !! c = Some k →
  sx_ctx x' = Some c → sx_is_sg x' = sx_is_sg x → sx_desc x' = sx_desc x → (∀ r, sx_uses x' r = sx_uses x r) →
  sub_inv q (set_x t x' (mx_sg_context_get c s)).
Proof.
  intros [I1 I2 I3 I4 I5 Ip I6 I7 I8 I9 I10] Hx Hn Hk Hc Hsg Hds Huse. unfold mx_sg_context_get. rewrite Hk.
  set (k' := k <| sc_refcount := _ |>).
  assert (∀ u, is_Some (<[t:=x']> (su_x s) !! u) ↔ is_Some (su_x s !! u)) as Hs.
  { intros u. destruct (decide (u = t)) as [->|]; [rewrite lookup_insert_eq, Hx | by rewrite lookup_insert_ne]. split; by eexists. }
  assert (∀ u, is_Some (<[c:=k']> (su_ctx s) !! u) ↔ is_Some (su_ctx s !! u)) as Hsc.
  { intros u. destruct (decide (u = c)) as [->|]; [rewrite lookup_insert_eq, Hk | by rewrite lookup_insert_ne]. split; by eexists. }
  assert (∀ c', msum (attached_to c') (<[t:=x']> (su_x s)) = msum (attached_to c') (su_x s) + Z.b2z (bool_decide (c = c'))) as Ha.
  { intros c'. rewrite (msum_update _ _ _ x _ Hx). unfold attached_to. rewrite Hn, Hc.
    rewrite (bool_decide_eq_false_2 (None = _)) by done. rewrite (bool_decide_ext (Some c = Some c') (c = c')) by naive_solver.
    cbn. lia. }
  constructor; cbn; try done.
  - intros i. rewrite Hs, Hsc. apply I2.
  - intros u. rewrite Hs. apply I3.
  - intros u y. destruct (decide (u = t)) as [->|Hu].
    + rewrite lookup_insert_eq. intros [= <-]. rewrite Hsg, Hds. by apply Ip.
    + rewrite lookup_insert_ne by done. apply Ip.
  - intros c' k2. rewrite Ha. destruct (decide (c' = c)) as [->|Hne].
    + rewrite lookup_insert_eq. intros [= <-]. destruct (I6 c k Hk) as (R1 & R2 & R3).
      rewrite (bool_decide_eq_true_2 (c = c)) by done. cbn. lia.
    + rewrite lookup_insert_ne by done. intros Hk2. destruct (I6 c' k2 Hk2) as (R1 & R2 & R3).
      rewrite (bool_decide_eq_false_2 (c = c')) by done. cbn. lia.
  - intros u y c'. rewrite Hsc. destruct (decide (u = t)) as [->|Hu].
    + rewrite lookup_insert_eq. intros [= <-]. rewrite Hc. intros [= <-]. by eexists.
    + rewrite lookup_insert_ne by done. apply I7.
  - intros c' Hh. rewrite Hsc. by apply I8.
  - intros r. rewrite I9, (msum_update _ _ _ x _ Hx), (msum_update _ _ _ k _ Hk), Huse. unfold k'.
    change (sc_uses (upd _ k) r) with (sc_uses k r). lia.
Qed.

(** A transfer nothing was done with yet. *)
Definition raw (x : mx_transfer) : Prop :=
  sx_is_sg x = false ∧ sx_command x = None ∧ sx_desc x = 0 ∧ sx_lease x = false.
Definition raw_at (s : sub) (t : nat) (size : Z) : Prop :=
  t ∉ su_sq s ∧ ∃ x, su_x s !! t = Some x ∧ raw x ∧ sx_size x = size.

Lemma alloc_sg_inv c l io vec cache id off size dev s :
  sub_inv (MkCaller (Some c) l io vec true) s →
  let '(o, s') := alloc_mx_transfer_sg cache id c off size dev s in
  su_zombies s' = su_zombies s ∧ su_work s' = su_work s ∧ (∀ u z, u ∈ l → raw_at s u z → raw_at s' u z) ∧
  match o with
  | None => sub_inv (MkCaller (Some c) l io vec true) s'
  | Some t => sub_inv (MkCaller (Some c) (t :: l) io vec true) s' ∧ raw_at s' t size
  end.
Proof.
  intros Hi. unfold alloc_mx_transfer_sg. destruct (iv_held _ _ Hi c eq_refl) as [k Hk]. rewrite Hk.
  pose proof (alloc_x_inv _ _ _ _ cache id size dev (sc_dir k) s Hi) as Ha.
  destruct (alloc_mx_transfer _ _ _ _ _ _) as [[t|] s1]; destruct Ha as (A1 & A2 & A3 & A4' & A4).
  2: { destruct A4 as [B1 B2]. split_and!; try done. intros u z _ (Hsq & Hx). split; [by rewrite A4' | by rewrite B2]. }
  destruct A4 as (B1 & B2 & B3 & B4). rewrite B4, lookup_insert_eq. set (x' := (new_x _ _ _) <| sx_ctx := _ |> <| sx_byte_offset := _ |>).
  assert (su_ctx s1 !! c = Some k) as Hk1 by by rewrite A1.
  assert (su_x s1 !! t = Some (new_x size dev (sc_dir k))) as Hx1 by (by rewrite B4, lookup_insert_eq).
  assert (su_zombies (mx_sg_context_get c s1) = su_zombies s1 ∧ su_work (mx_sg_context_get c s1) = su_work s1 ∧
    su_x (mx_sg_context_get c s1) = su_x s1 ∧ su_sq (mx_sg_context_get c s1) = su_sq s1) as (C1 & C2 & C3 & C4)
    by (unfold mx_sg_context_get; by rewrite Hk1).
  split_and!; cbn; [congruence | congruence | | |].
  - intros u z Hu (Hsq & x & Hx & Hr).
    assert (u ≠ t). { intros ->. pose proof (iv_nodup _ _ B1) as Hn. cbn in Hn. inversion_clear Hn. set_solver. }
    split; [cbn; by rewrite C4, A4'|]. exists x. split; [|done]. cbn. rewrite C3, B4. by rewrite !lookup_insert_ne.
  - by apply (attach_inv _ t (new_x size dev (sc_dir k)) x' c k).
  - split; [cbn; congruence|]. exists x'. split; [cbn; by rewrite lookup_insert_eq | done].
Qed.

Lemma perm_inv c l l' io vec p s :
  sub_inv (MkCaller c l io vec p) s → l ≡ₚ l' → sub_inv (MkCaller c l' io vec p) s.
Proof.
  intros [I1 I2 I3 I4 I5 Ip I6 I7 I8 I9 I10] Hp. constructor; cbn in *; try done.
  - intros t. by rewrite I3, Hp.
  - by rewrite <- Hp.
  - intros t Ht. rewrite <- Hp. by apply I5.
  - intros t x Hx. rewrite <- Hp. by apply Ip.
Qed.

Lemma vec_inv c l io vec p n s :
  sub_inv (MkCaller c l io vec p) s → sub_inv (MkCaller c l io (vec + n) p) (charge RVector n s).
Proof.
  intros Hi. apply (lists_inv _ _ s _ Hi); try done; [|by right|by apply (iv_sq _ _ Hi)].
  intros r. destruct r; cbn; lia.
Qed.

Lemma release_all_inv c l io vec ts s :
  sub_inv (MkCaller c (ts ++ l) io vec true) s → (∀ t, t ∈ ts → ∃ z, raw_at s t z) →
  let s' := release_all ts s in
  sub_inv (MkCaller c l io vec true) s' ∧ su_work s' = su_work s ∧ su_zombies s' = su_zombies s.
Proof.
  revert s. induction ts as [|t ts IH]; intros s Hi Hr; [done|]. cbn [release_all fold_left].
  destruct (Hr t) as (z & Hsq & x & Hx & (_ & _ & Hd & _) & _); [set_solver|].
  destruct (release_x_inv c (ts ++ l) io vec true t x s Hi Hx Hsq Hd) as (H1 & H2 & H3).
  injection H2 as _ E2 E3 E4 _ _. destruct (IH _ H1) as (K1 & K2 & K3).
  - intros u Hu. destruct (Hr u) as (z' & Hsq' & y & Hy & Hr'); [set_solver|]. exists z'. split; [by rewrite E2|].
    exists y. split; [|done]. rewrite H3, lookup_delete_ne; [done|]. intros ->.
    pose proof (iv_nodup _ _ Hi) as Hn. cbn in Hn. inversion_clear Hn. set_solver.
  - split_and!; [done | by etrans | by etrans].
Qed.

Lemma destroy_all_inv c l io vec p ts s :
  sub_inv (MkCaller c (ts ++ l) io vec p) s → (∀ t, t ∈ ts → t ∉ su_sq s) →
  let s' := destroy_all ts s in
  sub_inv (MkCaller c l io vec p) s' ∧ su_work s' = su_work s ∧ su_zombies s' = su_zombies s.
Proof.
  revert s. induction ts as [|t ts IH]; intros s Hi Hr; [done|]. cbn [destroy_all fold_left].
  destruct (destroy_inv c (ts ++ l) io vec p t s Hi) as (H1 & H2 & H3); [apply Hr; set_solver|].
  injection H2 as _ E2 E3 E4 _ _. destruct (IH _ H1) as (K1 & K2 & K3); [intros u Hu; rewrite E2; apply Hr; set_solver|].
  split_and!; [done | by etrans | by etrans].
Qed.

Lemma raw_impl s s' l szs :
  Forall2 (raw_at s) l szs → (∀ u z, u ∈ l → raw_at s u z → raw_at s' u z) → Forall2 (raw_at s') l szs.
Proof.
  induction 1 as [|u z l szs Hu _ IH]; intros Hi; constructor; [apply Hi; [set_solver | done]|].
  apply IH. intros v y Hv. apply Hi. set_solver.
Qed.

(** Each split of the list allocated, or everything given back with the array. *)
Lemma alloc_loop_inv c cache id i l made szs io vec s :
  sub_inv (MkCaller (Some c) made io vec true) s → Forall2 (raw_at s) made szs →
  let '(o, s') := alloc_loop cache id c i l made s in
  su_zombies s' = su_zombies s ∧ su_work s' = su_work s ∧
  match o with
  | None => sub_inv (MkCaller (Some c) [] io (vec - 1) true) s'
  | Some ts => sub_inv (MkCaller (Some c) ts io vec true) s' ∧ Forall2 (raw_at s') ts (szs ++ (sl_size <$> l))
  end.
Proof.
  revert i made szs s. induction l as [|sl l IH]; intros i made szs s Hi Hr; cbn [alloc_loop].
  { split_and!; try done. by rewrite app_nil_r. }
  pose proof (alloc_sg_inv c made io vec (cache i) (id i) (sl_byte_offset sl) (sl_size sl) (sl_device_addr sl) s Hi) as Ha.
  destruct (alloc_mx_transfer_sg _ _ _ _ _ _ _) as [[t|] s1]; destruct Ha as (A1 & A2 & B3 & A3).
  - destruct A3 as (B1 & B2).
    assert (sub_inv (MkCaller (Some c) (made ++ [t]) io vec true) s1) as Hi1
      by (eapply perm_inv; [done | by rewrite Permutation_app_comm]).
    assert (Forall2 (raw_at s1) (made ++ [t]) (szs ++ [sl_size sl])) as Hr1.
    { apply Forall2_app; [by eapply raw_impl | by constructor]. }
    specialize (IH (S i) _ _ _ Hi1 Hr1). rewrite <- app_assoc in IH.
    destruct (alloc_loop _ _ _ _ _ _ _) as [o s2]. destruct IH as (K1 & K2 & K3). split_and!; [congruence | congruence | done].
  - destruct (release_all_inv (Some c) [] io vec made s1) as (K1 & K2 & K3); [by rewrite app_nil_r | |].
    + intros t Ht. apply list_elem_of_lookup in Ht as [j Hj]. destruct (Forall2_lookup_l _ _ _ _ _ Hr Hj) as (z & _ & Hz).
      exists z. apply B3; [|done]. by eapply list_elem_of_lookup_2.
    + cbn. split_and!; [by rewrite <- A1 | by rewrite <- A2 |]. by apply vec_inv.
Qed.

(** ** Initialising and queueing *)

Definition with_plain (q : caller) (p : bool) : caller := MkCaller (ca_ctx q) (ca_cur q) (ca_io q) (ca_vec q) p.

Lemma init_inv is_sg i q t x s :
  sub_inv q s → ca_plain q = true → t ∈ ca_cur q → init_ok i → su_x s !! t = Some x → raw x →
  let '(ret, s') := init_command is_sg i t s in
  core s' = core s ∧ ret ≤ 0 ∧ sub_inv (with_plain q ((ret =? 0) || negb is_sg)) s' ∧
  (∃ x', su_x s' = <[t := x']> (su_x s) ∧ sx_size x' = sx_size x ∧ (is_sg = false → sx_is_sg x' = false)).
Proof.
  intros Hi Hp Ht [Hl Hcmd] Hx (R1 & R2 & R3 & R4). unfold init_command. rewrite Hx. unfold nz.
  assert (∀ p' x' s', core s' = core s → su_x s' = <[t := x']> (su_x s) → su_ctx s' = su_ctx s → sx_ctx x' = sx_ctx x →
    (p' = true → sx_is_sg x' = false → sx_desc x' = 0) →
    (∀ r, su_usage s' r = su_usage s r + sx_uses x' r - sx_uses x r) → sub_inv (with_plain q p') s') as Hup.
  { intros p' x' s' G1 G2 G3 G4 G5 G6. eapply (update_inv q p' t x x' s s'); try done. intros E. by split; [|apply G5]. }
  destruct (Z.eqb_spec (ie_lease i) 0) as [El|El]; cbn [negb].
  2: { split_and!; try done; [|exists x; split_and!; try done; by rewrite insert_id].
    eapply (Hup _ x); try done; [by rewrite insert_id | intros r; lia]. }
  assert (∀ b : bool, bool_decide (Some b = Some true) = b) as Hb by by destruct b.
  destruct (ie_command i) as [err|heap].
  - assert ((if err =? 0 then - ENOMEM else err) < 0) as Hneg by (errno; destruct (Z.eqb_spec err 0); lia).
    set (e' := if err =? 0 then _ else err) in *. clearbody e'. rewrite (proj2 (Z.eqb_neq e' 0)) by lia.
    destruct is_sg; (split_and!; [done | lia | | by eexists]);
      (eapply Hup; [done | cbn; done | done | done | done |]);
      intros r; unfold sx_uses; cbn -[bool_decide]; rewrite R2, R4; destruct r; cbn; rewrite ?R3; lia.
  - cbn [Z.eqb orb]. destruct is_sg, heap; (split_and!; [done | lia | | by eexists]);
      (eapply Hup; [done | cbn; done | done | done | done |]);
      intros r; unfold sx_uses; cbn -[bool_decide]; rewrite R2, R4, Hb, bool_decide_eq_false_2 by done; destruct r; cbn; rewrite ?R3; lia.
Qed.

Lemma schedule_inv c l io vec t s :
  sub_inv (MkCaller c (t :: l) (io + 1) vec true) s →
  sub_inv (MkCaller c l io vec true) (mx_transfer_schedule_wait t s) ∧
  su_work (mx_transfer_schedule_wait t s) = su_work s ++ [t].
Proof.
  intros Hi. assert (t ∉ su_work s) as Hw.
  { intros Hw. apply (proj2 (disjoint_owned _ _ t Hi)) in Hw as [Hw _]. cbn in Hw. set_solver. }
  unfold mx_transfer_schedule_wait. rewrite bool_decide_eq_false_2 by done. split; [|done].
  apply (lists_inv _ _ s _ Hi); try done; [| by left | |].
  - cbn. rewrite length_app. cbn. lia.
  - cbn. rewrite <- !app_assoc. solve_Permutation.
  - intros u Hu. apply (iv_sq _ _ Hi) in Hu. cbn in *. set_solver.
Qed.

Lemma nowait_inv c l io vec t size s :
  sub_inv (MkCaller c (t :: l) io vec true) s →
  (nowait_one t size s).1 = size ∧ sub_inv (MkCaller c l io vec true) (nowait_one t size s).2 ∧
  su_work (nowait_one t size s).2 = su_work s ++ [t].
Proof.
  intros Hi. unfold nowait_one. cbn [fst snd]. split; [done|]. set (s1 := s <| su_io_ref := _ |>).
  destruct (schedule_inv c l io vec t s1) as [H1 H2]; [|done].
  apply (lists_inv _ _ s _ Hi); try done; [cbn; lia | by left | by apply (iv_sq _ _ Hi)].
Qed.

Lemma schedule_all_inv c l vec ts io s :
  sub_inv (MkCaller c (ts ++ l) (io + Z.of_nat (length ts)) vec true) s →
  sub_inv (MkCaller c l io vec true) (schedule_all ts s) ∧ su_work (schedule_all ts s) = su_work s ++ ts.
Proof.
  revert s. induction ts as [|t ts IH]; intros s Hi.
  { cbn in *. rewrite Z.add_0_r in Hi. by rewrite app_nil_r. }
  cbn [schedule_all fold_left]. destruct (schedule_inv c (ts ++ l) (io + Z.of_nat (length ts)) vec t s) as [H1 H2].
  { cbn [length] in Hi. by replace (io + Z.of_nat (length ts) + 1) with (io + Z.of_nat (S (length ts))) by lia. }
  destruct (IH _ H1) as [K1 K2]. split; [done|]. etrans; [done|]. rewrite H2, <- app_assoc. done.
Qed.

(** What a submission that waits or not leaves, and the value it returns. *)
Definition outcome (nowait : bool) (size ret : Z) (count : nat) (s s' : sub) : Prop :=
  ret < 0 ∧ (nowait = true → su_work s' = su_work s) ∨
  ret = size ∧
  if nowait then ∃ ts, length ts = count ∧ su_work s' = su_work s ++ ts
  else ∀ u, u ∈ su_zombies s' → u ∈ su_zombies s.

Lemma outcome_from nowait size ret count s0 s s' :
  su_work s = su_work s0 → su_zombies s = su_zombies s0 →
  outcome nowait size ret count s s' → outcome nowait size ret count s0 s'.
Proof. unfold outcome. by intros <- <-. Qed.

(** From the queueing of one initialised transfer on. *)
Lemma queued_inv c io vec t x w nowait s :
  sub_inv (MkCaller c [t] io vec true) s → su_x s !! t = Some x →
  let s1 := mx_transfer_queue t s in
  let '(ret, s') := if nowait : bool then nowait_one t (sx_size x) s1 else mx_transfer_wait w t s1 in
  sub_inv (MkCaller c [] io vec true) s' ∧ outcome nowait (sx_size x) ret 1 s s'.
Proof.
  intros Hi Hx s1. assert (sub_inv (MkCaller c [t] io vec true) s1) as Hi1.
  { apply (sq_append_inv _ [t] s Hi). set_solver. }
  destruct nowait.
  - destruct (nowait_inv c [] io vec t (sx_size x) s1 Hi1) as (H1 & H2 & H3).
    destruct (nowait_one _ _ _) as [r s']. split; [done|]. right. split; [done|]. by exists [t].
  - pose proof (wait_inv c [] io vec t x w s1 Hi1 Hx) as Hw. destruct (mx_transfer_wait w t s1) as [r s'].
    destruct Hw as (H1 & _ & H3). split; [done|]. destruct H3 as [?|[? ?]]; [by left | by right].
Qed.

(** Without a transfer of its own the caller has only plain ones. *)
Lemma plain_nil c io vec p s : sub_inv (MkCaller c [] io vec p) s → sub_inv (MkCaller c [] io vec true) s.
Proof.
  intros [I1 I2 I3 I4 I5 Ip I6 I7 I8 I9 I10]. constructor; try done.
  intros t x Hx _. apply (Ip t x Hx). right. set_solver.
Qed.

Lemma with_plain_id c l io vec : with_plain (MkCaller c l io vec true) true = MkCaller c l io vec true.
Proof. done. Qed.

Lemma submit_one_inv c io vec i w t size nowait s :
  sub_inv (MkCaller c [t] io vec true) s → raw_at s t size → init_ok i →
  let '(ret, s') := mx_transfer_submit_sg_one i w t nowait s in
  sub_inv (MkCaller c [] io vec true) s' ∧ outcome nowait size ret 1 s s'.
Proof.
  intros Hi (Hsq & x & Hx & Hr & <-) Hok. unfold mx_transfer_submit_sg_one, mx_transfer_init_sg. rewrite Hx.
  pose proof (init_inv true i _ t x s Hi eq_refl ltac:(cbn; set_solver) Hok Hx Hr) as Hn.
  destruct (init_command true i t s) as [ret s1]. destruct Hn as (H1 & H2 & H3 & x' & H4 & H5 & _).
  injection H1 as E1 E2 E3 E4 E5 E6. destruct (Z.ltb_spec ret 0).
  - destruct (destroy_inv c [] io vec ((ret =? 0) || false) t s1) as (D1 & D2 & _); [done | by rewrite E2 |].
    injection D2 as _ _ D2 _ _ _. split; [by eapply plain_nil | left; split; [done | congruence]].
  - replace ret with 0 in * by lia. assert (su_x s1 !! t = Some x') as Hx1 by (by rewrite H4, lookup_insert_eq).
    pose proof (queued_inv c io vec t x' w nowait s1 H3 Hx1) as Hq. cbv zeta in Hq. rewrite H5 in Hq.
    destruct nowait; [destruct (nowait_one _ _ _) as [r s'] | destruct (mx_transfer_wait _ _ _) as [r s']];
      (destruct Hq as [Q1 Q2]; split; [done|]; by apply (outcome_from _ _ _ _ _ s1)).
Qed.

Lemma submit_ctrl_inv c io vec i w t size nowait s :
  sub_inv (MkCaller c [t] io vec true) s → raw_at s t size → init_ok i →
  let '(ret, s') := mx_transfer_submit_ctrl i w t nowait s in
  sub_inv (MkCaller c [] io vec true) s' ∧ outcome nowait size ret 1 s s'.
Proof.
  intros Hi (Hsq & x & Hx & Hr & <-) Hok. unfold mx_transfer_submit_ctrl, mx_transfer_init_ctrl. rewrite Hx.
  pose proof (init_inv false i _ t x s Hi eq_refl ltac:(cbn; set_solver) Hok Hx Hr) as Hn.
  destruct (init_command false i t s) as [ret s1]. destruct Hn as (H1 & H2 & H3 & x' & H4 & H5 & H6).
  rewrite orb_true_r, with_plain_id in H3. injection H1 as E1 E2 E3 E4 E5 E6.
  assert (su_x s1 !! t = Some x') as Hx1 by (by rewrite H4, lookup_insert_eq). destruct (Z.ltb_spec ret 0).
  - destruct (release_plain_inv c [] io vec t s1) as (D1 & D2 & _); [done | by rewrite E2 | |].
    + rewrite Hx1. intros y [= <-]. by apply H6.
    + injection D2 as _ _ D2 _ _ _. split; [done | left; split; [done | congruence]].
  - pose proof (queued_inv c io vec t x' w nowait s1 H3 Hx1) as Hq. cbv zeta in Hq. rewrite H5 in Hq.
    destruct nowait; [destruct (nowait_one _ _ _) as [r s'] | destruct (mx_transfer_wait _ _ _) as [r s']];
      (destruct Hq as [Q1 Q2]; split; [done|]; by apply (outcome_from _ _ _ _ _ s1)).
Qed.

(** ** Parallel submission *)

Definition sizes (szs : list Z) : Z := foldr Z.add 0 szs.

Lemma init_all_inv ie q i ts szs total s :
  sub_inv q s → ca_plain q = true → (∀ t, t ∈ ts → t ∈ ca_cur q) → NoDup ts → Forall2 (raw_at s) ts szs → (∀ i, init_ok (ie i)) →
  let '(ret, total', s') := init_all ie i ts total s in
  core s' = core s ∧ ret ≤ 0 ∧ sub_inv (with_plain q (ret =? 0)) s' ∧
  (ret = 0 → total' = total + sizes szs ∧ Forall2 (fun t z => size_of s' t = z) ts szs ∧
    ∀ u, u ∉ ts → su_x s' !! u = su_x s !! u).
Proof.
  revert i szs total s. induction ts as [|t ts IH]; intros i szs total s Hi Hp Hin Hnd Hr Hok; inversion Hr as [|? z ? szs' Hz Hr' ]; subst.
  { cbn. split_and!; [done | done | | intros _; split_and!; [lia | constructor | done]]. by destruct q; cbn in *; subst. }
  apply list.NoDup_cons in Hnd as [Hnt Hnd]. destruct Hz as (Hsq & x & Hx & Hraw & Hsz). cbn [init_all]. unfold mx_transfer_init_sg.
  pose proof (init_inv true (ie i) q t x s Hi Hp (Hin t ltac:(set_solver)) (Hok i) Hx Hraw) as Hn.
  destruct (init_command true (ie i) t s) as [ret s1]. destruct Hn as (H1 & H2 & H3 & x' & H4 & H5 & _).
  rewrite orb_false_r in H3. destruct (Z.ltb_spec ret 0).
  { split_and!; [done | done | done | lia]. }
  replace ret with 0 in * by lia. assert (with_plain q (0 =? 0) = q) as Hq by (by destruct q; cbn in *; subst).
  rewrite Hq in H3.
  assert (Forall2 (raw_at s1) ts szs') as Hr1.
  { eapply raw_impl; [done|]. intros u y Hu (Hsu & v & Hv & Hrest). injection H1 as _ E2 _ _ _ _. split; [by rewrite E2|].
    exists v. split; [|done]. rewrite H4, lookup_insert_ne; [done|]. by intros ->. }
  specialize (IH (S i) szs' (total + size_of s1 t) s1 H3 Hp ltac:(intros u Hu; apply Hin; set_solver) Hnd Hr1 Hok).
  destruct (init_all _ _ _ _ _) as [[ret' total'] s2]. destruct IH as (K1 & K2 & K3 & K4).
  split_and!; [by rewrite K1 | done | done |]. intros H0. destruct (K4 H0) as (L1 & L2 & L3).
  assert (size_of s1 t = z) as Hs1 by (unfold size_of; by rewrite H4, lookup_insert_eq, H5).
  split_and!; [rewrite L1, Hs1; change (sizes (z :: szs')) with (z + sizes szs'); lia | |].
  - constructor; [|done]. unfold size_of in *. by rewrite L3.
  - intros u Hu. rewrite L3 by set_solver. rewrite H4. apply lookup_insert_ne. set_solver.
Qed.

Lemma wait_all_inv wr c io vec i ts szs tr err s :
  sub_inv (MkCaller c ts io vec true) s → Forall2 (fun t z => size_of s t = z) ts szs → err ≤ 0 →
  let '(tr', err', s') := wait_all wr i ts tr err s in
  sub_inv (MkCaller c [] io vec true) s' ∧
  (err' < 0 ∨ err' = err ∧ tr' = tr + sizes szs ∧ ∀ u, u ∈ su_zombies s' → u ∈ su_zombies s).
Proof.
  revert i szs tr err s. induction ts as [|t ts IH]; intros i szs tr err s Hi Hsz Herr; inversion Hsz as [|? z ? szs' Hz Hsz']; subst.
  { split; [done|]. right. split_and!; [done | cbn; lia | done]. }
  cbn [wait_all]. destruct (owned_x _ _ t Hi) as [x Hx]; [cbn; set_solver|].
  pose proof (wait_inv c ts io vec t x (wr i) s Hi Hx) as Hw. destruct (mx_transfer_wait (wr i) t s) as [r s1].
  destruct Hw as (H1 & H2 & H3).
  assert (Forall2 (fun t z => size_of s1 t = z) ts szs') as Hsz1.
  { clear -Hsz' H2. induction Hsz' as [|u z l zs Hu _ IH]; constructor; [|apply IH; intros; apply H2; set_solver].
    unfold size_of in *. by rewrite H2 by set_solver. }
  destruct (Z.ltb_spec r 0).
  - specialize (IH (S i) szs' tr r s1 H1 Hsz1 ltac:(lia)). destruct (wait_all _ _ _ _ _ _) as [[tr' err'] s2].
    destruct IH as [K1 K2]. split; [done|]. left. lia.
  - destruct H3 as [?|[Hr Hzo]]; [lia|].
    specialize (IH (S i) szs' (tr + r) err s1 H1 Hsz1 Herr). destruct (wait_all _ _ _ _ _ _) as [[tr' err'] s2].
    destruct IH as [K1 K2]. split; [done|]. destruct K2 as [?|(K2 & K3 & K4)]; [by left | right]. split_and!; [done | | by eauto].
    rewrite K3. unfold size_of in *. rewrite Hx in *. change (sizes (sx_size x :: szs')) with (sx_size x + sizes szs'). lia.
Qed.

Lemma submit_parallel_inv ie wr c io vec ts szs nowait s :
  sub_inv (MkCaller c ts io vec true) s → Forall2 (raw_at s) ts szs → (∀ i, init_ok (ie i)) →
  let '(ret, s') := mx_transfer_submit_sg_parallel ie wr ts nowait s in
  sub_inv (MkCaller c [] io (vec - 1) true) s' ∧ outcome nowait (sizes szs) ret (length ts) s s'.
Proof.
  intros Hi Hr Hok. unfold mx_transfer_submit_sg_parallel. pose proof (iv_nodup _ _ Hi) as Hnd. cbn in Hnd.
  apply list.NoDup_app in Hnd as [Hnd _].
  pose proof (init_all_inv ie _ 0 ts szs 0 s Hi eq_refl ltac:(done) Hnd Hr Hok) as Hn.
  destruct (init_all _ _ _ _ _) as [[ret total] s1]. destruct Hn as (H1 & H2 & H3 & H4). injection H1 as E1 E2 E3 E4 E5 E6.
  destruct (Z.ltb_spec ret 0).
  { destruct (destroy_all_inv c [] io vec (ret =? 0) ts s1) as (D1 & D2 & _); [by rewrite app_nil_r | |].
    - intros t Ht. rewrite E2. apply list_elem_of_lookup in Ht as [j Hj].
      by destruct (Forall2_lookup_l _ _ _ _ _ Hr Hj) as (z & _ & Hz & _).
    - split; [apply (vec_inv _ _ _ _ _ (-1)) in D1; by eapply plain_nil|]. left. split; [done|]. intros _. cbn. congruence. }
  replace ret with 0 in * by lia. destruct (H4 eq_refl) as (T1 & T2 & T3). cbn [Z.eqb] in H3. rewrite with_plain_id in H3.
  set (s2 := mx_transfer_queue_parallel ts s1).
  assert (sub_inv (MkCaller c ts io vec true) s2) as Hi2 by (by apply sq_append_inv).
  destruct nowait.
  - cbv zeta. set (s3 := s2 <| su_io_ref := _ |>).
    assert (sub_inv (MkCaller c (ts ++ []) (io + Z.of_nat (length ts)) vec true) s3) as Hi3.
    { rewrite app_nil_r. apply (lists_inv _ _ s2 _ Hi2); try done; [cbn; lia | by left | by apply (iv_sq _ _ Hi2)]. }
    destruct (schedule_all_inv _ _ _ _ _ _ Hi3) as [S1 S2]. split; [by apply vec_inv|]. right. split; [lia|].
    exists ts. split; [done|]. change (su_work (charge RVector (-1) (schedule_all ts s3))) with (su_work (schedule_all ts s3)).
    rewrite S2. unfold s3, s2. cbn. by rewrite E3.
  - pose proof (wait_all_inv wr c io vec 0 ts szs 0 0 s2 Hi2 T2 ltac:(lia)) as Hw.
    destruct (wait_all _ _ _ _ _ _) as [[tr err] s4]. destruct Hw as [W1 W2]. split; [by apply vec_inv|]. unfold nz, outcome.
    destruct W2 as [W2|(-> & W3 & W4)].
    + left. split; [|done]. by rewrite (proj2 (Z.eqb_neq err 0)) by lia.
    + right. cbn. split; [lia|]. intros u Hu. apply W4 in Hu. unfold s2 in Hu. cbn in Hu. by rewrite E4 in Hu.
Qed.

(** ** Whole calls *)

Lemma passthru_wait_inv c io vec w t nc s :
  sub_inv (MkCaller c [t] io vec true) s → (∀ x, su_x s !! t = Some x → sx_is_sg x = false) →
  let '(ret, s') := passthru_wait w t nc s in
  sub_inv (MkCaller c [] io vec true) s' ∧ outcome false 0 ret 1 s s'.
Proof.
  intros Hi Hsg. unfold passthru_wait. set (s1 := mx_transfer_queue t s).
  assert (sub_inv (MkCaller c [t] io vec true) s1) as Hi1 by (apply (sq_append_inv _ [t] s Hi); set_solver).
  pose proof (during_wait_inv c [t] io vec t w s1 Hi1) as Hw. destruct (during_wait w t s1) as [lt s2].
  destruct Hw as (H1 & H2 & H3 & H4).
  assert (∀ s3, sub_inv (MkCaller c [t] io vec true) s3 → t ∉ su_sq s3 → su_x s3 = su_x s2 → su_zombies s3 = su_zombies s2 →
    sub_inv (MkCaller c [] io vec true) (release_mx_transfer t s3) ∧
    ∀ u, u ∈ su_zombies (release_mx_transfer t s3) → u ∈ su_zombies s) as Hrel.
  { intros s3 Hi3 Hsq Hx3 Hz3. destruct (release_plain_inv c [] io vec t s3 Hi3 Hsq) as (D1 & D2 & _).
    - intros x. rewrite Hx3, H2 by set_solver. apply Hsg.
    - injection D2 as _ _ _ D2 _ _. split; [done|]. intros u. rewrite D2, Hz3. apply H4. }
  destruct (Z.ltb_spec 0 lt) as [Hl|Hl].
  { destruct (Hrel s2 H1 (H3 Hl) eq_refl eq_refl). split; [done|]. by right. }
  assert ((if lt =? 0 then - ETIMEDOUT else - EINTR) < 0) as Hneg by (errno; case_match; lia).
  unfold mx_transfer_remove_from_sq. case_bool_decide as Hsq.
  - rewrite orb_true_r. set (s3 := s2 <| su_sq := _ |>).
    destruct (Hrel s3 (sq_remove_inv _ t s2 H1)) as [? ?]; try done.
    + intros Hu. by apply elem_of_remove in Hu as [? _].
    + split; [done | by left].
  - rewrite orb_false_r. destruct nc; [destruct (Hrel s2 H1 Hsq eq_refl eq_refl); split; [done | by left]|].
    split; [|by left]. apply (lists_inv _ _ s2 _ H1); try done; [by left | cbn; solve_Permutation |].
    intros u Hu. pose proof (iv_sq _ _ H1 u Hu) as Hc. assert (u ≠ t) by (by intros ->). cbn in *. set_solver.
Qed.

Lemma passthru_inv io vec supported e dev size nc s :
  sub_inv (MkCaller None [] io vec true) s → env_ok e →
  let '(ret, s') := submit_passthru_command supported e dev size nc s in
  sub_inv (MkCaller None [] io vec true) s' ∧ outcome false 0 ret 1 s s'.
Proof.
  intros Hi [_ Hok]. unfold submit_passthru_command. destruct supported; cbn [negb]; [|by split; [|left]].
  pose proof (alloc_x_inv _ _ _ _ (en_cache e 0%nat) (en_id e 0%nat) size dev DMA_NONE s Hi) as Ha.
  destruct (alloc_mx_transfer _ _ _ _ _ _) as [[t|] s1]; destruct Ha as (A1 & A2 & A3 & A4 & A5); [|by split; [apply A5 | left]].
  destruct A5 as (B1 & B2 & B3 & B4). set (x := new_x _ _ _) in *.
  assert (su_x s1 !! t = Some x) as Hx by (by rewrite B4, lookup_insert_eq).
  pose proof (init_inv false (en_init e 0%nat) _ t x s1 B1 eq_refl ltac:(cbn; set_solver) (Hok 0%nat) Hx ltac:(done)) as Hn.
  destruct (init_command false _ t s1) as [ret s2]. destruct Hn as (H1 & H2 & H3 & x' & H4 & H5 & H6).
  rewrite orb_true_r, with_plain_id in H3. injection H1 as E1 E2 E3 E4 E5 E6.
  assert (su_x s2 !! t = Some x') as Hx2 by (by rewrite H4, lookup_insert_eq). unfold nz.
  destruct (Z.eqb_spec ret 0) as [->|Hr]; cbn [negb].
  - rewrite Hx2. set (s3 := set_x t _ s2).
    assert (sub_inv (MkCaller None [t] io vec true) s3) as Hi3.
    { apply (update_inv _ true t x' (x' <| sx_no_completion := nc |>) s2 s3 H3); try done; [cbn; set_solver | | intros r; destruct r; cbn; lia].
      intros _. split; [done|]. cbn. intros Hs. eapply (iv_plain _ _ H3 t x'); [done | by left | done]. }
    pose proof (passthru_wait_inv None io vec (en_wait e 0%nat) t nc s3 Hi3) as Hw.
    destruct (passthru_wait _ _ _ _) as [r s4]. destruct Hw as [W1 W2].
    + unfold s3. cbn. rewrite lookup_insert_eq. intros y [= <-]. by apply H6.
    + split; [done|]. apply (outcome_from _ _ _ _ _ s3); [cbn; congruence.. | done].
  - destruct (release_plain_inv None [] io vec t s2) as (D1 & D2 & _); [done | by rewrite E2 | |].
    + rewrite Hx2. intros y [= <-]. by apply H6.
    + split; [done|]. left. split; [|done]. case_match; errno; lia.
Qed.

Lemma ctrl_inv io vec e size fpos dir nowait s :
  sub_inv (MkCaller None [] io vec true) s → env_ok e →
  let '(ret, s') := ctrl_transfer e size fpos dir nowait s in
  sub_inv (MkCaller None [] io vec true) s' ∧ outcome nowait size ret 1 s s'.
Proof.
  intros Hi [_ Hok]. unfold ctrl_transfer.
  pose proof (alloc_x_inv _ _ _ _ (en_cache e 0%nat) (en_id e 0%nat) size fpos dir s Hi) as Ha.
  destruct (alloc_mx_transfer _ _ _ _ _ _) as [[t|] s1]; destruct Ha as (A1 & A2 & A3 & A4 & A5); [|by split; [apply A5 | left]].
  destruct A5 as (B1 & B2 & B3 & B4).
  pose proof (submit_ctrl_inv None io vec (en_init e 0%nat) (en_wait e 0%nat) t size nowait s1 B1) as Hs.
  destruct (mx_transfer_submit_ctrl _ _ _ _ _) as [ret s2]. destruct Hs as [S1 S2]; [|by apply Hok|].
  - split; [done|]. exists (new_x size fpos dir). split; [by rewrite B4, lookup_insert_eq | done].
  - split; [done|]. by apply (outcome_from _ _ _ _ _ s1).
Qed.

(** The bytes a split submission reports. *)
Definition split_bytes (user size dev pages : Z) (count : nat) : Z :=
  if bool_decide (count = 1%nat) then size
  else sizes (sl_size <$> split_loop PAGE_SHIFT count user user size dev (pages / Z.of_nat count) (pages mod Z.of_nat count)).

Lemma split_inv io vec e user size dev dir count nowait s :
  sub_inv (MkCaller None [] io vec true) s → env_ok e → 0 ≤ user → 0 ≤ size → dir ≠ DMA_NONE →
  let '(ret, s') := mx_transfer_submit_sg_split e user size dev dir count nowait s in
  sub_inv (MkCaller None [] io vec true) s' ∧
  (ret < 0 ∧ (nowait = true → su_work s' = su_work s) ∨
   ∃ pages, sg_context_pages PAGE_SHIFT user size = inr pages ∧
     outcome nowait (split_bytes user size dev pages count) ret count s s').
Proof.
  intros Hi [He Hok] Hu Hs Hd. unfold mx_transfer_submit_sg_split.
  pose proof (create_inv [] io vec true (en_ctx e) user size dir s Hi Hu Hs He Hd) as Hc.
  destruct (mx_sg_context_create _ _ _ _ _) as [[err|c] s1]; destruct Hc as (C1 & C2 & C3 & C4).
  { split; [by apply C4 | left]. by destruct C4. }
  destruct C4 as (C4 & k & pages & K1 & K2 & K3 & K4 & K5). case_bool_decide as Hcount.
  - pose proof (alloc_sg_inv c [] io vec (en_cache e 0%nat) (en_id e 0%nat) 0 size dev s1 C4) as Ha.
    destruct (alloc_mx_transfer_sg _ _ _ _ _ _ _) as [[t|] s2]; destruct Ha as (A1 & A2 & A3 & A4).
    + destruct A4 as [A4 A5]. destruct (put_inv _ _ _ _ _ _ A4) as (P1 & P2 & P3). injection P3 as _ P4 P5 P6 _ _.
      assert (raw_at (mx_sg_context_put c s2) t size) as Hraw.
      { destruct A5 as [Hq Hx]. split; [by rewrite P4 | by rewrite P2]. }
      pose proof (submit_one_inv None io vec (en_init e 0%nat) (en_wait e 0%nat) t size nowait _ P1 Hraw (Hok 0%nat)) as Ho.
      destruct (mx_transfer_submit_sg_one _ _ _ _ _) as [ret s3]. destruct Ho as [O1 O2]. split; [done|]. right.
      exists pages. split; [done|]. unfold split_bytes. rewrite bool_decide_eq_true_2 by done. subst count.
      eapply outcome_from; [.. | exact O2]; congruence.
    + destruct (put_inv _ _ _ _ _ _ A4) as (P1 & P2 & P3). injection P3 as _ P4 P5 P6 _ _.
      split; [done|]. left. split; [done|]. intros _. by rewrite P5, A2.
  - unfold alloc_mx_transfers. rewrite K1. destruct (en_array e); cbn [negb].
    2: { destruct (put_inv _ _ _ _ _ _ C4) as (P1 & P2 & P3). injection P3 as _ P4 P5 P6 _ _.
      split; [done|]. left. split; [done|]. intros _. by rewrite P5. }
    cbv zeta. rewrite K3, K4, K5. set (l := split_loop _ _ _ _ _ _ _ _).
    pose proof (alloc_loop_inv c (en_cache e) (en_id e) 0 l [] [] io (vec + 1) _ (vec_inv _ _ _ _ _ 1 _ C4) ltac:(constructor)) as Ha.
    destruct (alloc_loop _ _ _ _ _ _ _) as [[ts|] s2]; destruct Ha as (A1 & A2 & A3).
    + destruct A3 as [A3 A4]. destruct (put_inv _ _ _ _ _ _ A3) as (P1 & P2 & P3). injection P3 as _ P4 P5 P6 _ _.
      assert (Forall2 (raw_at (mx_sg_context_put c s2)) ts (sl_size <$> l)) as Hraw.
      { eapply raw_impl; [done|]. intros u z _ [Hq Hx]. split; [by rewrite P4 | by rewrite P2]. }
      pose proof (submit_parallel_inv (en_init e) (en_wait e) None io (vec + 1) ts _ nowait _ P1 Hraw Hok) as Ho.
      destruct (mx_transfer_submit_sg_parallel _ _ _ _ _) as [ret s3]. destruct Ho as [O1 O2].
      replace (vec + 1 - 1) with vec in O1 by lia. split; [done|]. right. exists pages. split; [done|].
      unfold split_bytes. rewrite bool_decide_eq_false_2 by done. apply Forall2_length in Hraw as Hlen.
      rewrite length_fmap in Hlen. unfold l in Hlen. rewrite split_loop_length in Hlen. rewrite Hlen in O2. fold l.
      cbn in A1, A2. eapply outcome_from; [.. | exact O2]; congruence.
    + destruct (put_inv _ _ _ _ _ _ A3) as (P1 & P2 & P3). injection P3 as _ P4 P5 P6 _ _.
      replace (vec + 1 - 1) with vec in P1 by lia. split; [done|]. left. split; [done|]. intros _. by rewrite P5, A2.
Qed.

Definition no_caller : caller := MkCaller None [] 0 0 true.

Definition call_bytes (c : sub_call) : Z :=
  match c with
  | CallReadData _ size _ | CallWriteData _ size _ _ | CallReadParallel _ _ size _ | CallWriteParallel _ _ size _ _
  | CallReadCtrl size _ | CallWriteCtrl size _ _ | CallProtocol _ size => size
  | CallPassthru _ _ _ _ => 0
  end.
Definition call_nowait (c : sub_call) : bool :=
  match c with
  | CallWriteData _ _ _ nowait | CallWriteParallel _ _ _ _ nowait | CallWriteCtrl _ _ nowait => nowait
  | _ => false
  end.
Definition call_count (c : sub_call) : nat :=
  match c with CallReadParallel p user size _ | CallWriteParallel p user size _ _ => split_count p user size | _ => 1 end.

(** The buffer of a parallel call does not reach the end of the address space. *)
Definition call_fits (c : sub_call) : Prop :=
  match c with
  | CallReadParallel _ user size fpos | CallWriteParallel _ user size fpos _ =>
    user + size + 2 * 2 ^ PAGE_SHIFT ≤ 2 ^ 64 ∧ 0 ≤ fpos ≤ ULLONG_MAX
  | _ => True
  end.

Lemma sizes_slices l : sizes (sl_size <$> l) = foldr (fun sl acc => sl_size sl + acc) 0 l.
Proof. induction l as [|sl l IH]; [done|]. cbn. f_equal. exact IH. Qed.

Lemma split_bytes_total p user size fpos pages :
  0 ≤ user → 0 ≤ size → user + size + 2 * 2 ^ PAGE_SHIFT ≤ 2 ^ 64 → 0 ≤ fpos ≤ ULLONG_MAX →
  sg_context_pages PAGE_SHIFT user size = inr pages →
  split_bytes user size fpos pages (split_count p user size) = size.
Proof.
  intros Hu Hs Hw Hf Hp. destruct (context_pages_spec PAGE_SHIFT Hshift user size pages Hu Hs Hp) as (Hpos & Ep & Hb).
  unfold split_bytes, split_count. pose proof (page_size_pos PAGE_SHIFT Hshift) as Hps. unfold PAGE_SIZE in Hps.
  destruct (parallel_count_spec PAGE_SHIFT Hshift (sp_page_size p) (sp_ratio p) (sp_count p) user size Hu Hpos ltac:(lia))
    as (C1 & C2 & _). rewrite <- Ep in C2. set (c := mx_parallel_count_for _ _ _ _ _ _) in *. case_bool_decide; [done|].
  rewrite sizes_slices. etrans; [|apply (slices_sum PAGE_SHIFT user size fpos 0)].
  - symmetry. apply Z.add_0_l.
  - apply (split_all_slices PAGE_SHIFT Hshift); try done; lia.
Qed.

Lemma split_outcome io vec e user size dev dir count nowait s :
  sub_inv (MkCaller None [] io vec true) s → env_ok e → 0 ≤ user → 0 ≤ size → dir ≠ DMA_NONE →
  let '(ret, s') := mx_transfer_submit_sg_split e user size dev dir count nowait s in
  sub_inv (MkCaller None [] io vec true) s' ∧
  ((∀ pages, sg_context_pages PAGE_SHIFT user size = inr pages → split_bytes user size dev pages count = size) →
   outcome nowait size ret count s s').
Proof.
  intros Hi He Hu Hs Hd. pose proof (split_inv io vec e user size dev dir count nowait s Hi He Hu Hs Hd) as Hx.
  destruct (mx_transfer_submit_sg_split _ _ _ _ _ _ _ _) as [ret s']. destruct Hx as [H1 H2]. split; [done|]. intros Hb.
  destruct H2 as [H2|(pages & Hp & H2)]; [by left|]. by rewrite (Hb pages Hp) in H2.
Qed.

Lemma run_call_inv e c s :
  sub_inv no_caller s → env_ok e → call_ok c →
  let '(ret, s') := run_call e c s in
  sub_inv no_caller s' ∧ (call_fits c → outcome (call_nowait c) (call_bytes c) ret (call_count c) s s').
Proof.
  intros Hi He Hc.
  assert (∀ user size dev dir nowait, 0 ≤ user ∧ 0 ≤ size → dir ≠ DMA_NONE →
    let '(ret, s') := mx_transfer_submit_sg_split e user size dev dir 1 nowait s in
    sub_inv no_caller s' ∧ (True → outcome nowait size ret 1 s s')) as H1.
  { intros user size dev dir nowait [Hu Hs] Hd. pose proof (split_outcome 0 0 e user size dev dir 1 nowait s Hi He Hu Hs Hd) as Hx.
    destruct (mx_transfer_submit_sg_split _ _ _ _ _ _ _ _) as [ret s']. destruct Hx as [? Hx]. split; [done|]. intros _. by apply Hx. }
  assert (∀ p user size fpos dir nowait, 0 ≤ user ∧ 0 ≤ size → dir ≠ DMA_NONE →
    let '(ret, s') := mx_transfer_submit_sg_split e user size fpos dir (split_count p user size) nowait s in
    sub_inv no_caller s' ∧ (user + size + 2 * 2 ^ PAGE_SHIFT ≤ 2 ^ 64 ∧ 0 ≤ fpos ≤ ULLONG_MAX →
      outcome nowait size ret (split_count p user size) s s')) as H2.
  { intros p user size fpos dir nowait [Hu Hs] Hd.
    pose proof (split_outcome 0 0 e user size fpos dir (split_count p user size) nowait s Hi He Hu Hs Hd) as Hx.
    destruct (mx_transfer_submit_sg_split _ _ _ _ _ _ _ _) as [ret s']. destruct Hx as [? Hx]. split; [done|].
    intros [Hw Hf]. apply Hx. intros pages. by apply split_bytes_total. }
  assert (∀ size fpos dir nowait, let '(ret, s') := ctrl_transfer e size fpos dir nowait s in
    sub_inv no_caller s' ∧ (True → outcome nowait size ret 1 s s')) as H3.
  { intros size fpos dir nowait. pose proof (ctrl_inv 0 0 e size fpos dir nowait s Hi He) as Hx.
    destruct (ctrl_transfer _ _ _ _ _ _) as [ret s']. by destruct Hx. }
  destruct c; cbn in Hc; cbn -[Z.pow]; [by apply H1 | by apply H1 | by apply H2 | by apply H2 | by apply H3 | by apply H3 | by apply H1 |].
  pose proof (passthru_inv 0 0 supported e device_addr size no_completion s Hi He) as Hx.
  destruct (submit_passthru_command _ _ _ _ _ _) as [ret s']. by destruct Hx.
Qed.

Lemma work_inv w t s : sub_inv no_caller s → t ∈ su_work s → sub_inv no_caller (mx_transfer_wait_work w t s).
Proof.
  intros Hi Ht. unfold mx_transfer_wait_work. set (s1 := s <| su_work := _ |>).
  pose proof (iv_nodup _ _ Hi) as Hn. cbn in Hn. apply list.NoDup_app in Hn as (Hn & _ & _).
  pose proof (list_remove_perm t (su_work s) Hn Ht) as Hp.
  assert (sub_inv (MkCaller None [t] 1 0 true) s1) as Hi1.
  { apply (lists_inv _ _ s _ Hi); try done; [|by left | |].
    - cbn. apply Permutation_length in Hp. cbn in Hp. lia.
    - cbn. by rewrite Hp at 2.
    - intros u Hu. apply (iv_sq _ _ Hi) in Hu. cbn in *. rewrite Hp in Hu. done. }
  destruct (owned_x _ _ t Hi1) as [x Hx]; [cbn; set_solver|].
  pose proof (wait_inv None [] 1 0 t x w s1 Hi1 Hx) as Hw. destruct (mx_transfer_wait w t s1) as [r s2].
  destruct Hw as (W1 & _ & _). apply (lists_inv _ _ s2 _ W1); try done; [cbn; lia | by left | by apply (iv_sq _ _ W1)].
Qed.

Lemma sub_step_inv s s' : sub_inv no_caller s → sub_step s s' → sub_inv no_caller s'.
Proof.
  intros Hi [e c ret s1 He Hc Hr|w t Ht|l|t].
  - pose proof (run_call_inv e c s Hi He Hc) as Hx. rewrite Hr in Hx. by destruct Hx.
  - by apply work_inv.
  - by destruct (drain_list_inv None [] 0 0 l s Hi).
  - by apply sq_remove_inv.
Qed.

Lemma sub0_inv : sub_inv no_caller sub0.
Proof.
  constructor; cbn; try done.
  - intros i [[? H]|[? H]]; by rewrite lookup_empty in H.
  - intros t. rewrite lookup_empty. split; [by intros [??] | set_solver].
  - constructor.
  - intros r. rewrite !msum_empty. by case_match.
Qed.

Lemma sub_reachable_inv s : rtc sub_step sub0 s → sub_inv no_caller s.
Proof.
  intros Hr. pose proof sub0_inv as Hi. induction Hr as [|s1 s2 s3 H12 _ IH]; [done|]. apply IH. by eapply sub_step_inv.
Qed.

Lemma call_reachable e c s :
  rtc sub_step sub0 s → env_ok e → call_ok c → rtc sub_step sub0 (run_call e c s).2.
Proof. intros Hr He Hc. eapply rtc_r; [done|]. eapply SsCall; [done | done | apply surjective_pairing]. Qed.

Lemma drain_reachable l s : rtc sub_step sub0 s → rtc sub_step sub0 (drain_zombie_list l s).
Proof. intros Hr. eapply rtc_r; [done | constructor]. Qed.

(** ** Properties *)

(** C23: submissions leak nothing.  After any sequence of calls (data, parallel, control,
    protocol and passthrough, waited for or not, whatever the kernel, the lease, the
    device and the cleaner answer at every point), runs of queued works and passes of the
    zombie cleaner: nothing freed was used and no transfer was freed on [sq_list]; every
    live transfer belongs to exactly one queued work or to the zombie list; an SG context
    lives exactly as long as transfers are attached to it and its reference count is
    their number; [io_ref] counts the queued works; everything taken from the kernel is
    accounted for by a live transfer or context; and so, once the works have run and the
    zombies are drained, everything was given back. *)
Theorem submission_leaks_nothing s :
  rtc sub_step sub0 s →
  su_fault s = false ∧
  NoDup (su_work s ++ su_zombies s) ∧ (∀ t, is_Some (su_x s !! t) ↔ t ∈ su_work s ∨ t ∈ su_zombies s) ∧
  (∀ c k, su_ctx s !! c = Some k → sc_refcount k = msum (attached_to c) (su_x s) ∧ 0 < sc_refcount k) ∧
  (∀ t x c, su_x s !! t = Some x → sx_ctx x = Some c → is_Some (su_ctx s !! c)) ∧
  su_io_ref s = Z.of_nat (length (su_work s)) ∧
  (∀ r, su_usage s r = msum (fun k => sc_uses k r) (su_ctx s) + msum (fun x => sx_uses x r) (su_x s)) ∧
  (su_work s = [] → su_zombies s = [] →
    su_x s = ∅ ∧ su_ctx s = ∅ ∧ su_io_ref s = 0 ∧ ∀ r, su_usage s r = 0).
Proof.
  intros Hr. destruct (sub_reachable_inv s Hr) as [I1 I2 I3 I4 I5 Ip I6 I7 I8 I9 I10]. cbn in *.
  assert (∀ r, su_usage s r = msum (fun k => sc_uses k r) (su_ctx s) + msum (fun x => sx_uses x r) (su_x s)) as Hu.
  { intros r. rewrite I9. case_match; lia. }
  assert (∀ c k, su_ctx s !! c = Some k → sc_refcount k = msum (attached_to c) (su_x s) ∧ 0 < sc_refcount k) as Hk.
  { intros c k Hk. destruct (I6 c k Hk) as (Hrc & ? & _).
    rewrite bool_decide_eq_false_2 in Hrc by done. cbn in Hrc. split; lia. }
  split_and!; try done; [intros t; rewrite I3; set_solver | lia |].
  intros Hw Hz. rewrite Hw, Hz in *.
  assert (su_x s = ∅) as Hx.
  { apply map_empty. intros t. apply eq_None_not_Some. rewrite I3. set_solver. }
  assert (su_ctx s = ∅) as Hc.
  { apply map_empty. intros c. destruct (su_ctx s !! c) as [k|] eqn:E; [|done]. destruct (Hk c k E) as [H1 H2].
    rewrite Hx, msum_empty in H1. lia. }
  split_and!; [done | done | cbn in I10; lia |]. intros r. by rewrite Hu, Hx, Hc, !msum_empty.
Qed.

(** C24: what a submission reports.  A call from any reachable state either fails, or
    reports the whole buffer (0 for a passthrough command).  If it waited, success means
    that every one of its transfers completed: none is left behind as a zombie.  If it did
    not wait, success means that one work per split is queued, and failure that none is. *)
Theorem submission_result s e c ret s' :
  rtc sub_step sub0 s → env_ok e → call_ok c → call_fits c → run_call e c s = (ret, s') →
  ret < 0 ∧ (call_nowait c = true → su_work s' = su_work s) ∨
  ret = call_bytes c ∧
  (call_nowait c = true → ∃ ts, length ts = call_count c ∧ su_work s' = su_work s ++ ts) ∧
  (call_nowait c = false → ∀ t, t ∈ su_zombies s' → t ∈ su_zombies s).
Proof.
  intros Hr He Hc Hf Hrun. pose proof (run_call_inv e c s (sub_reachable_inv s Hr) He Hc) as Hx. rewrite Hrun in Hx.
  destruct Hx as [_ Hx]. destruct (Hx Hf) as [?|[? Ho]]; [by left | right].
  split; [done|]. destruct (call_nowait c); by split.
Qed.
End submit.

(** A read of three pages in three splits, the second of which times out. *)
Definition demo_wait_of (i : nat) : wait_result :=
  MkWr [] true (if bool_decide (i = 1%nat) then 0 else 5) false false false 0.
Definition demo_env : sub_env :=
  MkEnv (MkCe true true 3 0 3 3) true (fun _ => true) (fun _ => true)
    (fun _ => MkIe 0 1 (inr false)) demo_wait_of.
Definition demo_call : sub_call := CallReadParallel (MkSp 4096 0 3) 40960 12288 0.
Notation demo_read := (run_call 12 demo_env demo_call sub0).
Notation demo_drained := (drain_zombie_list [2%nat] demo_read.2).

Example demo_read_fails : demo_read.1 = - ETIMEDOUT ∧ su_zombies demo_read.2 = [2%nat] ∧
  su_usage demo_read.2 RPinned = 3 ∧ su_usage demo_read.2 RDesc = 1.
Proof. by vm_compute. Qed.

Lemma demo_shift : 0 ≤ 12 ≤ 20.
Proof. lia. Qed.

Lemma demo_env_ok : env_ok demo_env.
Proof. by split. Qed.

Lemma demo_call_ok : call_ok demo_call.
Proof. by vm_compute. Qed.

Lemma demo_drained_reachable : rtc (sub_step 12) sub0 demo_drained.
Proof. apply drain_reachable, call_reachable; [apply rtc_refl | exact demo_env_ok | exact demo_call_ok]. Qed.

Lemma submission_leaks_nothing_witness : su_usage demo_drained RPinned = 0 ∧ su_usage demo_drained RDesc = 0.
Proof.
  assert (su_work demo_drained = [] ∧ su_zombies demo_drained = []) as [H1 H2] by (split; vm_compute; reflexivity).
  pose proof (submission_leaks_nothing 12 demo_shift demo_drained demo_drained_reachable) as H.
  revert H1 H2 H. generalize demo_drained; intros s H1 H2 (_ & _ & _ & _ & _ & _ & _ & H).
  split; exact (proj2 (proj2 (proj2 (H H1 H2))) _).
Defined.

(** The same buffer written without waiting. *)
Definition demo_write : sub_call := CallWriteParallel (MkSp 4096 0 3) 40960 12288 0 true.

Lemma demo_write_ok : call_ok demo_write ∧ call_fits 12 demo_write.
Proof. cbn -[Z.pow]. unfold ULLONG_MAX. lia. Qed.

Lemma submission_result_witness :
  ∃ ret s', run_call 12 demo_env demo_write sub0 = (ret, s') ∧ ret = 12288 ∧ ∃ ts, length ts = 3%nat ∧ su_work s' = [] ++ ts.
Proof.
  destruct (run_call 12 demo_env demo_write sub0) as [ret s'] eqn:Hrun. exists ret, s'. split; [reflexivity|].
  pose proof (submission_result 12 demo_shift sub0 demo_env demo_write ret s' (rtc_refl _ _) demo_env_ok
    (proj1 demo_write_ok) (proj2 demo_write_ok) Hrun) as H.
  assert (ret = 12288) as E.
  { apply (f_equal fst) in Hrun. cbn [fst] in Hrun. rewrite <- Hrun. vm_compute. reflexivity. }
  split; [exact E|]. destruct H as [[Hneg _]|(_ & H & _)]; [rewrite E in Hneg; discriminate Hneg|]. exact (H eq_refl).
Defined.
