(* ===== verification/Registry.v ===== *)
(** * The device registry and the module (src/init.c)

    Attaching and holding devices over the registry, the PCI bus notifier and the
    enumeration at load time, loading and unloading.  What the registry needs of a device
    is an interface, implemented by Lifecycle. *)

From S2P Require Import Prelude Threads LeaseTypes Lease BarMap PciConfig QueueV2 AdminV2 QueueOps Lifecycle.

(** ** What a device promises *)

(** [create_mx_pdev] may leave no object; a teardown that still waits is [None]. *)
Class DeviceOps (D CE UE : Type) := {
  dev_create : CE → Z * option D;
  dev_destroy : UE → bool → D → option (bool * D);
  dev_poisoned : D → bool;
}.

(** A failed teardown was not the real unbind and leaves a poisoned device. *)
Class DeviceLaws (D CE UE : Type) `{!DeviceOps D CE UE} := {
  dev_valid : D → Prop;
  law_create e ret d : dev_create e = (ret, Some d) → dev_valid d;
  law_destroy u actual d r d' : dev_valid d → dev_destroy u actual d = Some (r, d') →
    r = false → actual = false ∧ dev_valid d' ∧ dev_poisoned d' = true;
}.

Section lifecycle.
Context {Q E : Type} `{!QueueOps Q E} (q0 : Q).

(** [q0]: the queue fields of a zeroed device; the fuel and the tick of the teardown. *)
Definition device_ops : DeviceOps (mx_pci_dev (Q := Q)) (create_env (E := E) * bool) (unbind_env (E := E) * nat * nat) := {|
  dev_create e := create_mx_pdev e.1 e.2 q0;
  dev_destroy u actual d := option_map (fun x => (x.1.1, x.2)) (destroy_mx_pdev u.1.1 u.1.2 actual u.2 d);
  dev_poisoned d := protocol_poisoned (pd_q d);
|}.

Context `{!QueueLaws Q E} (Hq0 : fresh q0).

Definition device_valid (d : mx_pci_dev (Q := Q)) : Prop := live d ∧ (pd_teardown_started d = true → closed d).

Lemma device_create_valid ce rev ret d : create_mx_pdev ce rev q0 = (ret, Some d) → device_valid d.
Proof.
  unfold create_mx_pdev. destruct rev; cbn [negb]; [|done]. destruct (ce_kzalloc ce); cbn [negb]; [|done].
  destruct (nz _); [done|]. destruct (ce_bar_map ce); cbn [negb]; [|done]. destruct (create_stages _ _) as [r pd] eqn:Hc.
  intros [= <- <-]. apply create_stages_spec in Hc; [|done]. destruct Hc as [L T _ _ _]. split; [done|]. congruence.
Qed.

Definition device_laws : @DeviceLaws _ _ _ device_ops.
Proof.
  refine (@Build_DeviceLaws _ _ _ device_ops device_valid _ _).
  - intros [ce rev] ret d. apply device_create_valid.
  - intros [[u fuel] t] actual d r d' [L C]. cbn. destruct (destroy_mx_pdev _ _ _ _ _) as [[[r1 t1] d1]|] eqn:Hd; [|done].
    intros [= <- <-] ->. destruct (destroy_spec _ _ _ _ _ _ _ _ L C Hd) as (H1 & _ & H2).
    destruct (H2 eq_refl) as (-> & L' & _ & P). split; [done|]. split; [by split | exact P].
Defined.
End lifecycle.

(** ** State *)

Inductive mod_state := MUnloaded | MComing | MLive | MGoing.
#[export] Instance mod_state_eq_dec : EqDecision mod_state.
Proof. solve_decision. Defined.

Section registry.
Context {D CE UE : Type} `{!DeviceOps D CE UE}.

(** A registered object: its PCI device and the references taken for it. *)
Record attachment := MkAtt {
  at_pdev : Z;
  at_dev : D;
  at_module_ref_held : bool;
  at_pci_ref_held : bool;
}.

(** A call in progress between two sections of [mx_device_list_lock]: an attach that passed
    the check, with [module_coming] as it read it; one that has pinned the module and the
    PCI device; a detach that took its object. *)
Inductive reg_call := CallAttach (module_coming : bool) | CallPinned | CallDetach (a : attachment).

(** [rg_list]: [mx_device_list_head]; [rg_calls]: the calls in progress, at most one per
    PCI device, since each runs under the device lock.  [rg_stale]: some attach pinned the
    module unconditionally when it was no longer loading. *)
Record registry := MkReg {
  rg_accepting : bool;
  rg_coming : bool;
  rg_list : list attachment;
  rg_calls : gmap Z reg_call;
  rg_module : mod_state;
  rg_module_refs : Z;
  rg_pci_refs : Z;
  rg_notifier : bool;
  rg_class : bool;
  rg_cache : bool;
  rg_stale : bool;
}.
#[export] Instance eta_reg : Eta registry := fun r =>
  MkReg (rg_accepting r) (rg_coming r) (rg_list r) (rg_calls r) (rg_module r) (rg_module_refs r) (rg_pci_refs r)
    (rg_notifier r) (rg_class r) (rg_cache r) (rg_stale r).

Definition reg0 : registry := MkReg false false [] ∅ MUnloaded 0 0 false false false false.

(** ** Finding and dropping *)

Definition mxdma_find_device_locked (pdev : Z) (r : registry) : option attachment :=
  snd <$> list_find (fun a => at_pdev a = pdev) (rg_list r).

Definition module_put (r : registry) : registry := r <| rg_module_refs := rg_module_refs r - 1 |>.
Definition module_get (r : registry) : registry := r <| rg_module_refs := rg_module_refs r + 1 |>.
Definition pci_dev_put (r : registry) : registry := r <| rg_pci_refs := rg_pci_refs r - 1 |>.
Definition pci_dev_get (r : registry) : registry := r <| rg_pci_refs := rg_pci_refs r + 1 |>.
(** It fails once the module is going. *)
Definition try_module_get (r : registry) : bool * registry :=
  if bool_decide (rg_module r = MComing ∨ rg_module r = MLive) then (true, module_get r) else (false, r).

Definition mxdma_drop_attachment (a : attachment) (r : registry) : registry :=
  let r := if at_pci_ref_held a then pci_dev_put r else r in
  if at_module_ref_held a then module_put r else r.

Definition list_add_tail (a : attachment) (r : registry) : registry := r <| rg_list := rg_list r ++ [a] |>.

(** ** Attaching *)

(** The name of the CXL memory device found below the PCI device: the number in it. *)
Definition get_cxl_memdev_id (child : option (option Z)) : Z :=
  match child with
  | None => - ENODEV
  | Some name => match name with Some mem_id => if mem_id <? 0 then - ENODEV else mem_id | None => - ENODEV end
  end.

(** The section under the lock: a result, or [module_coming]. *)
Definition attach_check (pdev : Z) (r : registry) : Z + bool :=
  RETURN (inl (- ESHUTDOWN)) WHEN (negb (rg_accepting r)) ;;
  match mxdma_find_device_locked pdev r with
  | Some a => inl (if dev_poisoned (at_dev a) then - EUCLEAN else 0)
  | None => inr (rg_coming r)
  end.

(** [cxl]: not the standalone build.  The pin of the module. *)
Definition attach_pin (cxl module_coming : bool) (r : registry) : bool * registry :=
  RETURN (true, r) WHEN (negb cxl) ;;
  if module_coming then
    (true, module_get r <| rg_stale := rg_stale r || negb (bool_decide (rg_module r = MComing)) |>)
  else try_module_get r.

(** From the memory device id to the references; a result ends the call. *)
Definition attach_begin (cxl : bool) (cxl_memdev_id : Z) (module_coming : bool) (r : registry)
    : (Z * registry) + registry :=
  RETURN (inl (cxl_memdev_id, r)) WHEN (cxl_memdev_id <? 0) ;;
  let '(live, r) := attach_pin cxl module_coming r in
  RETURN (inl (- ENODEV, r)) WHEN (negb live) ;;
  inr (pci_dev_get r).

(** The rest; [None]: the teardown of a failed attach still waits. *)
Definition attach_build (cxl : bool) (e : CE) (u : UE) (pdev : Z) (r : registry) : option (Z * registry) :=
  let '(ret, mx_pdev) := dev_create e in
  match mx_pdev with
  | None => let r := pci_dev_put r in Some (ret, if cxl then module_put r else r)
  | Some d =>
    RETURN (Some (0, list_add_tail (MkAtt pdev d cxl true) r)) WHEN (ret =? 0) ;;
    match dev_destroy u false d with
    | None => None
    | Some (true, d) => Some (ret, mxdma_drop_attachment (MkAtt pdev d cxl true) r)
    | Some (false, d) => Some (if cxl then ret else 0, list_add_tail (MkAtt pdev d cxl true) r)
    end
  end.

(** ** Detaching *)

(** The section under the lock: the object is taken off the registry. *)
Definition detach_claim (pdev : Z) (r : registry) : option attachment * registry :=
  match mxdma_find_device_locked pdev r with
  | Some a => (Some a, r <| rg_list := filter (fun b => at_pdev b ≠ pdev) (rg_list r) |>)
  | None => (None, r)
  end.

Definition detach_finish (u : UE) (a : attachment) (r : registry) : option registry :=
  match dev_destroy u true (at_dev a) with
  | None => None
  | Some (freed, d) =>
    let a := MkAtt (at_pdev a) d (at_module_ref_held a) (at_pci_ref_held a) in
    Some (if freed : bool then mxdma_drop_attachment a r else list_add_tail a r)
  end.

(** ** Events *)

Inductive pci_event := BoundDriver | UnbindDriver | OtherEvent.
Inductive pci_op := OpAttach | OpDetach | OpNone.
Definition XCENA_PCI_VENDOR_ID : Z := 0x20a6.

(** [is_cxl_pci]: the driver bound to the device is cxl_pci. *)
Definition mxdma_pci_notify (vendor : Z) (action : pci_event) (is_cxl_pci : bool) : pci_op :=
  RETURN OpNone WHEN (negb (vendor =? XCENA_PCI_VENDOR_ID)) ;;
  match action with
  | BoundDriver => if is_cxl_pci then OpAttach else OpNone
  | UnbindDriver => if is_cxl_pci then OpDetach else OpNone
  | OtherEvent => OpNone
  end.

(** One device of [mxdma_enumerate_bound_devices]. *)
Definition enumerate_one (vendor : Z) (is_cxl_pci : bool) : pci_op :=
  RETURN OpNone WHEN (negb (vendor =? XCENA_PCI_VENDOR_ID)) ;;
  if is_cxl_pci then OpAttach else OpNone.

(** ** Loading and unloading *)

Record init_answers := MkIa { ia_dev_mode : Z; ia_gid_valid : bool; ia_class : Z; ia_cache : bool; ia_register : Z }.

(** Up to and with the registration of the notifier. *)
Definition mxdma_init (cxl : bool) (i : init_answers) (r : registry) : Z * registry :=
  RETURN (- EINVAL, r) WHEN ((ia_dev_mode i =? 0) || (511 <? ia_dev_mode i) || negb (ia_gid_valid i)) ;;
  RETURN (ia_class i, r) WHEN (nz (ia_class i)) ;;
  let r := r <| rg_class := true |> in
  RETURN (- ENOMEM, r <| rg_class := false |>) WHEN (negb (ia_cache i)) ;;
  let r := r <| rg_cache := true |> <| rg_accepting := true |> <| rg_coming := cxl |> in
  RETURN (ia_register i,
    r <| rg_accepting := false |> <| rg_coming := false |> <| rg_cache := false |> <| rg_class := false |>)
    WHEN (nz (ia_register i)) ;;
  (0, r <| rg_notifier := true |>).

(** After the enumeration. *)
Definition init_end (r : registry) : registry := r <| rg_coming := false |>.

Definition exit_begin (r : registry) : registry := r <| rg_accepting := false |> <| rg_coming := false |>.
Definition exit_unregister (r : registry) : registry := r <| rg_notifier := false |>.
Definition exit_end (r : registry) : registry := r <| rg_cache := false |> <| rg_class := false |>.

(** ** The module at work *)

(** One event of one device, or one section of loading or unloading.  An attach runs from a
    bus event or, while loading, from the enumeration, and takes three steps: the check,
    the references, and the rest, in which only its own device is touched.  [rmmod] starts
    when no reference is left, and unregistering the notifier waits for the running
    calls. *)
Inductive reg_step (r : registry) : registry → Prop :=
  | RsLoad i ret r' :
      rg_module r = MUnloaded → mxdma_init true i (r <| rg_module := MComing |>) = (ret, r') →
      reg_step r (if nz ret then r' <| rg_module := MUnloaded |> else r')
  | RsLoaded : rg_module r = MComing → reg_step r (init_end r <| rg_module := MLive |>)
  | RsAttach pdev vendor bound coming :
      rg_notifier r = true → rg_calls r !! pdev = None →
      mxdma_pci_notify vendor BoundDriver bound = OpAttach ∨
        rg_module r = MComing ∧ enumerate_one vendor bound = OpAttach →
      attach_check pdev r = inr coming →
      reg_step r (r <| rg_calls := <[pdev := CallAttach coming]> (rg_calls r) |>)
  | RsRefused pdev coming id ret r' :
      rg_calls r !! pdev = Some (CallAttach coming) → attach_begin true id coming r = inl (ret, r') →
      reg_step r (r' <| rg_calls := delete pdev (rg_calls r') |>)
  | RsPinned pdev coming id r' :
      rg_calls r !! pdev = Some (CallAttach coming) → attach_begin true id coming r = inr r' →
      reg_step r (r' <| rg_calls := <[pdev := CallPinned]> (rg_calls r') |>)
  | RsAttached pdev e u ret r' :
      rg_calls r !! pdev = Some CallPinned → attach_build true e u pdev r = Some (ret, r') →
      reg_step r (r' <| rg_calls := delete pdev (rg_calls r') |>)
  | RsDetach pdev vendor bound a r' :
      rg_notifier r = true → rg_calls r !! pdev = None → mxdma_pci_notify vendor UnbindDriver bound = OpDetach →
      detach_claim pdev r = (Some a, r') →
      reg_step r (r' <| rg_calls := <[pdev := CallDetach a]> (rg_calls r') |>)
  | RsDetached pdev a u r' :
      rg_calls r !! pdev = Some (CallDetach a) → detach_finish u a r = Some r' →
      reg_step r (r' <| rg_calls := delete pdev (rg_calls r') |>)
  | RsUnload : rg_module r = MLive → rg_module_refs r = 0 → reg_step r (exit_begin (r <| rg_module := MGoing |>))
  | RsUnregister : rg_module r = MGoing → rg_calls r = ∅ → reg_step r (exit_unregister r)
  | RsUnloaded : rg_module r = MGoing → rg_notifier r = false → reg_step r (exit_end r <| rg_module := MUnloaded |>).

(** ** The invariant *)

Context `{!DeviceLaws D CE UE}.

(** A call that holds a reference on the module and on its PCI device. *)
Definition holding (c : reg_call) : Z := match c with CallPinned | CallDetach _ => 1 | CallAttach _ => 0 end.
Definition held (r : registry) : Z := Z.of_nat (length (rg_list r)) + msum holding (rg_calls r).

Definition attachment_ok (a : attachment) : Prop :=
  dev_valid (at_dev a) ∧ at_module_ref_held a = true ∧ at_pci_ref_held a = true.
Definition call_ok (r : registry) (pdev : Z) (c : reg_call) : Prop :=
  pdev ∉ at_pdev <$> rg_list r ∧ match c with CallDetach a => at_pdev a = pdev ∧ attachment_ok a | _ => True end.

Record reg_inv (r : registry) : Prop := {
  ri_nodup : NoDup (at_pdev <$> rg_list r);
  ri_list : Forall attachment_ok (rg_list r);
  ri_calls : ∀ pdev c, rg_calls r !! pdev = Some c → call_ok r pdev c;
  ri_module : rg_module_refs r = held r;
  ri_pci : rg_pci_refs r = held r;
  ri_loaded : rg_class r = bool_decide (rg_module r ≠ MUnloaded) ∧ rg_cache r = bool_decide (rg_module r ≠ MUnloaded);
  ri_coming : rg_coming r = true → rg_module r = MComing;
  ri_up : rg_module r = MComing ∨ rg_module r = MLive → rg_notifier r = true;
  ri_down : rg_module r = MUnloaded → rg_notifier r = false ∧ rg_calls r = ∅;
  ri_quiet : rg_notifier r = false → rg_calls r = ∅;
  ri_refuse : rg_module r = MGoing ∨ rg_module r = MUnloaded → rg_accepting r = false;
  ri_clean : rg_stale r = false → rg_module r = MGoing ∨ rg_module r = MUnloaded → held r = 0;
}.

Lemma reg0_inv : reg_inv reg0.
Proof. constructor; cbn; try done; first [apply NoDup_nil_2 | by intros [?|?]]. Qed.

Lemma holding_nonneg (m : gmap Z reg_call) : 0 ≤ msum holding m.
Proof. apply msum_nonneg. intros i [| |] _; cbn; lia. Qed.

Lemma held_nonneg r : 0 ≤ held r.
Proof. unfold held. pose proof (holding_nonneg (rg_calls r)). lia. Qed.

Lemma find_spec pdev r a :
  mxdma_find_device_locked pdev r = Some a → a ∈ rg_list r ∧ at_pdev a = pdev.
Proof.
  unfold mxdma_find_device_locked. rewrite fmap_Some. intros ([i b] & (Hi & Hp & _)%list_find_Some & ->).
  split; [by eapply list_elem_of_lookup_2 | done].
Qed.

Lemma find_none pdev r : mxdma_find_device_locked pdev r = None → pdev ∉ at_pdev <$> rg_list r.
Proof.
  unfold mxdma_find_device_locked. rewrite fmap_None, list_find_None, list.Forall_forall.
  intros Hf (a & -> & Ha)%list_elem_of_fmap. exact (Hf a Ha eq_refl).
Qed.

Lemma filter_true {A} (P : A → Prop) `{∀ x, Decision (P x)} l : Forall P l → filter P l = l.
Proof. induction 1 as [|x l Hx _ IH]; [done|]. rewrite filter_cons, decide_True by done. by rewrite IH. Qed.

(** Taking the only object of a device off the list. *)
Lemma claim_length (l : list attachment) a :
  NoDup (at_pdev <$> l) → a ∈ l → length l = S (length (filter (fun b => at_pdev b ≠ at_pdev a) l)).
Proof.
  induction l as [|b l IH]; [set_solver|]. rewrite fmap_cons. intros [Hn Hnd]%list.NoDup_cons Ha. rewrite filter_cons.
  case_decide as Hb; cbn [length].
  - f_equal. apply IH; [done|]. apply elem_of_cons in Ha as [->|]; [by destruct Hb | done].
  - assert (at_pdev b = at_pdev a) as E by (by destruct (decide (at_pdev b = at_pdev a))). f_equal.
    f_equal. symmetry. apply filter_true, list.Forall_forall. intros x Hx Hxa. apply Hn.
    rewrite E, <- Hxa. by apply list_elem_of_fmap_2.
Qed.

(** Ending a call of a device. *)
Lemma held_delete r pdev c :
  rg_calls r !! pdev = Some c →
  held (r <| rg_calls := delete pdev (rg_calls r) |>) = held r - holding c.
Proof. intros Hc. unfold held. cbn. rewrite (msum_delete holding _ _ _ Hc). lia. Qed.

Lemma held_insert r pdev c :
  rg_calls r !! pdev = None → held (r <| rg_calls := <[pdev := c]> (rg_calls r) |>) = held r + holding c.
Proof. intros Hc. unfold held. cbn. rewrite msum_insert by done. lia. Qed.

(** What a finished call changes: the objects, the references, the flag of a stale pin. *)
Lemma finish_inv r r' pdev c :
  reg_inv r → rg_calls r !! pdev = Some c →
  (rg_list r' = rg_list r ∨ ∃ a, rg_list r' = rg_list r ++ [a] ∧ at_pdev a = pdev ∧ attachment_ok a) →
  rg_calls r' = rg_calls r → rg_module r' = rg_module r → rg_notifier r' = rg_notifier r →
  rg_class r' = rg_class r → rg_cache r' = rg_cache r → rg_coming r' = rg_coming r → rg_accepting r' = rg_accepting r →
  rg_module_refs r' = held r' - holding c → rg_pci_refs r' = held r' - holding c →
  (rg_stale r' = false → rg_stale r = false ∧ (rg_module r = MGoing → held r' - holding c = 0)) →
  reg_inv (r' <| rg_calls := delete pdev (rg_calls r') |>).
Proof.
  intros [N1 N2 N3 N4 N5 N6 N7 N8 N9 N10 N11 N12] Hc Hl E1 E2 E3 E4 E5 E6 E7 Hm Hp Hs.
  assert (rg_calls r' !! pdev = Some c) as Hc' by by rewrite E1. pose proof (held_delete r' pdev c Hc') as Hh.
  destruct (N3 _ _ Hc) as [Hn _].
  assert (NoDup (at_pdev <$> rg_list r') ∧ Forall attachment_ok (rg_list r') ∧
    ∀ p, p ≠ pdev → p ∉ at_pdev <$> rg_list r → p ∉ at_pdev <$> rg_list r') as (L1 & L2 & L3).
  { destruct Hl as [->|(a & -> & Ha & Hok)]; [done|]. rewrite fmap_app. split_and!.
    - apply list.NoDup_app. split_and!; [done | | apply NoDup_singleton]. cbn. rewrite Ha. set_solver.
    - by apply Forall_app_2; [|constructor].
    - cbn. rewrite Ha. set_solver. }
  assert (rg_module r ≠ MUnloaded) as Hmod.
  { intros Hu. destruct (N9 Hu) as [_ Hcs]. rewrite Hcs in Hc. by rewrite lookup_empty in Hc. }
  constructor; cbn; rewrite ?E1, ?E2, ?E3, ?E4, ?E5, ?E6, ?E7; try done.
  - intros p c'. intros [Hne Hp']%lookup_delete_Some. destruct (N3 _ _ Hp') as [Q1 Q2]. split; [by apply L3 | done].
  - rewrite E1 in Hh. by rewrite Hm, <- Hh.
  - rewrite E1 in Hh. by rewrite Hp, <- Hh.
  - intros Hq. rewrite (N10 Hq). apply delete_empty.
  - intros Hst [Hg|Hu]; [|done]. destruct (Hs Hst) as [_ Hs']. rewrite E1 in Hh. rewrite Hh. by apply Hs'.
Qed.

(** What taking the references changes. *)
Lemma attach_pin_spec coming r live r1 :
  attach_pin true coming r = (live, r1) →
  r1 = (if live then module_get r else r) <| rg_stale := rg_stale r1 |> ∧
  (rg_stale r1 = false → rg_stale r = false ∧ (rg_module r = MGoing → live = false)).
Proof.
  unfold attach_pin, try_module_get. cbn [negb]. destruct coming.
  - intros [= <- <-]. split; [by destruct r|]. cbn. intros [? Hb]%orb_false_iff. split; [done|]. intros Hg.
    by rewrite Hg in Hb.
  - case_bool_decide as Hst; intros [= <- <-]; (split; [by destruct r|]); cbn; intros Hs; (split; [done|]); [|done].
    intros Hg. rewrite Hg in Hst. by destruct Hst.
Qed.

Lemma refused_inv r pdev coming id ret r' :
  reg_inv r → rg_calls r !! pdev = Some (CallAttach coming) → attach_begin true id coming r = inl (ret, r') →
  reg_inv (r' <| rg_calls := delete pdev (rg_calls r') |>).
Proof.
  intros Hi Hc Hb. pose proof (ri_module _ Hi) as Hm. pose proof (ri_pci _ Hi) as Hpr.
  assert (∃ b, r' = r <| rg_stale := b |> ∧ (b = false → rg_stale r = false)) as (b & -> & Hst).
  { revert Hb. unfold attach_begin. destruct (id <? 0); [intros [= <- <-]; exists (rg_stale r); by destruct r|].
    destruct (attach_pin true coming r) as [[] r1] eqn:Hp; [done|]. apply attach_pin_spec in Hp as [Hr1 Hs].
    intros [= <- <-]. exists (rg_stale r1). split; [done|]. by apply Hs. }
  apply (finish_inv r _ pdev (CallAttach coming)); try done; cbn in *; [by left | unfold held in *; cbn; lia.. |].
  intros Hs. split; [by apply Hst|]. intros Hg. pose proof (ri_clean _ Hi (Hst Hs) (or_introl Hg)) as H0.
  unfold held in *. cbn. lia.
Qed.

Lemma pinned_inv r pdev coming id r' :
  reg_inv r → rg_calls r !! pdev = Some (CallAttach coming) → attach_begin true id coming r = inr r' →
  reg_inv (r' <| rg_calls := <[pdev := CallPinned]> (rg_calls r') |>).
Proof.
  intros Hi Hc. unfold attach_begin. destruct (id <? 0); [done|].
  destruct (attach_pin true coming r) as [[] r1] eqn:Hp; [|done]. apply attach_pin_spec in Hp as [-> Hs]. cbn in Hs.
  set (b := rg_stale r1) in *. intros [= <-]. destruct Hi as [N1 N2 N3 N4 N5 N6 N7 N8 N9 N10 N11 N12].
  assert (msum holding (<[pdev := CallPinned]> (rg_calls r)) = msum holding (rg_calls r) + 1) as Hh
    by (rewrite (msum_update _ _ _ _ _ Hc); cbn; lia).
  assert (rg_module r ≠ MUnloaded) as Hmod.
  { intros Hu. destruct (N9 Hu) as [_ Hcs]. rewrite Hcs in Hc. by rewrite lookup_empty in Hc. }
  constructor; cbn; unfold held in *; cbn; try done.
  - intros p c. destruct (decide (p = pdev)) as [->|Hne]; [|rewrite lookup_insert_ne by done; apply N3].
    rewrite lookup_insert_eq. intros [= <-]. split; [by apply (N3 _ _ Hc) | done].
  - rewrite Hh, N4. lia.
  - rewrite Hh, N5. lia.
  - intros Hn. rewrite (N10 Hn) in Hc. by rewrite lookup_empty in Hc.
  - intros Hst [Hg|Hu]; [|done]. by destruct (Hs Hst) as [_ F]; specialize (F Hg).
Qed.

Lemma attached_inv r pdev e u ret r' :
  reg_inv r → rg_calls r !! pdev = Some CallPinned → attach_build true e u pdev r = Some (ret, r') →
  reg_inv (r' <| rg_calls := delete pdev (rg_calls r') |>).
Proof.
  intros Hi Hc. pose proof (ri_module _ Hi) as Hm. pose proof (ri_pci _ Hi) as Hpr.
  assert (rg_stale r = false → rg_module r = MGoing → False) as Hgo.
  { intros Hs Hg. pose proof (ri_clean _ Hi Hs (or_introl Hg)) as H0. unfold held in H0.
    assert (holding CallPinned ≤ msum holding (rg_calls r)) as Hle by (eapply msum_lookup; [|done]; intros ? [| |] _; cbn; lia).
    cbn in Hle. lia. }
  assert (∀ d', dev_valid d' → reg_inv (list_add_tail (MkAtt pdev d' true true) r <| rg_calls := delete pdev (rg_calls r) |>)) as Hadd.
  { intros d' Hv. apply (finish_inv r (list_add_tail (MkAtt pdev d' true true) r) pdev CallPinned); try done; cbn.
    - right. eexists. split; [done|]. split; [done|]. by split.
    - unfold held in *. cbn. rewrite length_app. cbn. lia.
    - unfold held in *. cbn. rewrite length_app. cbn. lia.
    - intros Hs. split; [done|]. intros Hg. by destruct (Hgo Hs Hg). }
  assert (reg_inv (module_put (pci_dev_put r) <| rg_calls := delete pdev (rg_calls r) |>)) as Hdrop.
  { apply (finish_inv r (module_put (pci_dev_put r)) pdev CallPinned); try done; cbn; [by left|..].
    - unfold held in *. cbn. lia.
    - unfold held in *. cbn. lia.
    - intros Hs. split; [done|]. intros Hg. by destruct (Hgo Hs Hg). }
  unfold attach_build. destruct (dev_create e) as [ret1 [d|]] eqn:Hcr; [|by intros [= <- <-]].
  apply law_create in Hcr. destruct (ret1 =? 0); [intros [= <- <-]; by apply Hadd|].
  destruct (dev_destroy u false d) as [[[|] d']|] eqn:Hd; [by intros [= <- <-]| |done].
  intros [= <- <-]. apply Hadd. by destruct (law_destroy _ _ _ _ _ Hcr Hd eq_refl) as (_ & ? & _).
Qed.

Lemma detach_inv r pdev a r' :
  reg_inv r → rg_calls r !! pdev = None → rg_notifier r = true → detach_claim pdev r = (Some a, r') →
  reg_inv (r' <| rg_calls := <[pdev := CallDetach a]> (rg_calls r') |>).
Proof.
  intros [N1 N2 N3 N4 N5 N6 N7 N8 N9 N10 N11 N12] Hc Hnt. unfold detach_claim.
  destruct (mxdma_find_device_locked pdev r) as [b|] eqn:Hf; [|done]. intros [= -> <-].
  apply find_spec in Hf as [Hin Ha]. pose proof (claim_length _ _ N1 Hin) as Hlen. rewrite Ha in Hlen.
  pose proof (proj1 (list.Forall_forall _ _) N2 a Hin) as Hok.
  set (l := filter _ _) in *.
  assert (∀ b, b ∈ l → b ∈ rg_list r ∧ at_pdev b ≠ pdev) as Hl by (intros b Hb; by apply list_elem_of_filter in Hb as [??]).
  assert (∀ p, p ∈ at_pdev <$> l → p ≠ pdev ∧ p ∈ at_pdev <$> rg_list r) as Hlp.
  { intros p (b & -> & Hb)%list_elem_of_fmap. apply Hl in Hb as [? ?]. split; [done | by apply list_elem_of_fmap_2]. }
  assert (∀ s, rg_list s = l → rg_calls s = <[pdev := CallDetach a]> (rg_calls r) → held s = held r) as Hh.
  { intros s E1 E2. unfold held. rewrite E1, E2, msum_insert by done. cbn. lia. }
  constructor; cbn; try done.
  - clear -N1. unfold l. induction (rg_list r) as [|b l' IH]; [apply NoDup_nil_2|]. rewrite filter_cons.
    rewrite fmap_cons in N1. apply list.NoDup_cons in N1 as [Hn Hnd]. case_decide; [|by apply IH].
    rewrite fmap_cons. apply list.NoDup_cons. split; [|by apply IH]. intros (x & Hx & Hin)%list_elem_of_fmap. apply Hn. rewrite Hx.
    apply list_elem_of_filter in Hin as [_ Hin]. by apply list_elem_of_fmap_2.
  - apply list.Forall_forall. intros b Hb. apply Hl in Hb as [Hb _]. by apply (proj1 (list.Forall_forall _ _) N2).
  - intros p c. destruct (decide (p = pdev)) as [->|Hne].
    + rewrite lookup_insert_eq. intros [= <-]. split; [|by split]. cbn. intros Hp. by apply Hlp in Hp as [? _].
    + rewrite lookup_insert_ne by done. intros Hp. destruct (N3 _ _ Hp) as [Q1 Q2]. split; [|done].
      intros Hin'. by apply Hlp in Hin' as [_ ?].
  - rewrite N4. symmetry. by apply Hh.
  - rewrite N5. symmetry. by apply Hh.
  - intros Hu. by destruct (N9 Hu) as [? _]; congruence.
  - intros Hn. congruence.
  - intros Hs Hg. rewrite <- (N12 Hs Hg). by apply Hh.
Qed.

Lemma detached_inv r pdev a u r' :
  reg_inv r → rg_calls r !! pdev = Some (CallDetach a) → detach_finish u a r = Some r' →
  reg_inv (r' <| rg_calls := delete pdev (rg_calls r') |>).
Proof.
  intros Hi Hc. destruct (ri_calls _ Hi _ _ Hc) as [Hn (Hp & Hv & Hm & Hr)].
  pose proof (ri_module _ Hi) as Hmr. pose proof (ri_pci _ Hi) as Hpr. unfold detach_finish.
  destruct (dev_destroy u true (at_dev a)) as [[freed d]|] eqn:Hd; [|done].
  destruct freed; [|by destruct (law_destroy _ _ _ _ _ Hv Hd eq_refl)].
  intros [= <-]. unfold mxdma_drop_attachment. cbn. rewrite Hm, Hr.
  apply (finish_inv r _ pdev (CallDetach a)); try done; cbn; [by left | unfold held in *; cbn; lia | unfold held in *; cbn; lia |].
  intros Hs. split; [done|]. intros Hg. exfalso. pose proof (ri_clean _ Hi Hs (or_introl Hg)) as H0.
  unfold held in H0. assert (holding (CallDetach a) ≤ msum holding (rg_calls r)) as Hle.
  { eapply msum_lookup; [|done]. intros ? [| |] _; cbn; lia. }
  cbn in Hle. lia.
Qed.

(** A failed load leaves the module as it was; a successful one brings it up. *)
Lemma load_inv r i ret r' :
  reg_inv r → rg_module r = MUnloaded → mxdma_init true i (r <| rg_module := MComing |>) = (ret, r') →
  reg_inv (if nz ret then r' <| rg_module := MUnloaded |> else r').
Proof.
  intros Hi Hu. pose proof Hi as [N1 N2 N3 N4 N5 [N6 N6'] N7 N8 N9 N10 N11 N12]. destruct (N9 Hu) as [U1 U2].
  assert (rg_coming r = false) as U3 by (destruct (rg_coming r); [by specialize (N7 eq_refl); congruence | done]).
  specialize (N11 (or_intror Hu)). rewrite Hu in N6, N6'. cbn in N6, N6'.
  destruct r as [acc com lst calls md mr pr nt cl ca st]. cbn in *. subst acc com cl ca md nt.
  unfold mxdma_init. case_match; [by intros [= <- <-]|]. destruct (nz (ia_class i)) eqn:Ec; [by intros [= <- <-]; rewrite Ec|].
  destruct (ia_cache i); cbn [negb]; [|by intros [= <- <-]].
  destruct (nz (ia_register i)) eqn:Er; [by intros [= <- <-]; rewrite Er|]. intros [= <- <-]. cbn.
  constructor; cbn; try done; first [by intros [?|?] | by intros ? [?|?]].
Qed.

Lemma reg_step_inv r r' : reg_inv r → reg_step r r' → reg_inv r'.
Proof.
  intros Hi Hs. destruct Hs.
  - by eapply load_inv.
  - destruct Hi as [N1 N2 N3 N4 N5 [N6 N6'] N7 N8 N9 N10 N11 N12]. rewrite H in *. constructor; cbn; try done.
    + intros _. by apply N8; left.
    + by intros [?|?].
    + by intros ? [?|?].
  - destruct Hi as [N1 N2 N3 N4 N5 [N6 N6'] N7 N8 N9 N10 N11 N12].
    assert (held (r <| rg_calls := <[pdev:=CallAttach coming]> (rg_calls r) |>) = held r) as Hh
      by (rewrite held_insert by done; cbn; lia).
    constructor; cbn; try done.
    + intros p c. destruct (decide (p = pdev)) as [->|Hne]; [|rewrite lookup_insert_ne by done; apply N3].
      rewrite lookup_insert_eq. intros [= <-]. split; [|done]. cbn. apply find_none. unfold attach_check in *. by repeat case_match.
    + by rewrite Hh.
    + by rewrite Hh.
    + intros Hu. destruct (N9 Hu). congruence.
    + congruence.
    + intros ? ?. rewrite Hh. by apply N12.
  - by eapply refused_inv.
  - by eapply pinned_inv.
  - by eapply attached_inv.
  - by eapply detach_inv.
  - by eapply detached_inv.
  - destruct Hi as [N1 N2 N3 N4 N5 [N6 N6'] N7 N8 N9 N10 N11 N12]. rewrite H in *. constructor; cbn; try done.
    + by intros [?|?].
    + intros _ _. change (held r = 0). by rewrite <- N4.
  - destruct Hi as [N1 N2 N3 N4 N5 [N6 N6'] N7 N8 N9 N10 N11 N12]. rewrite H in *. constructor; cbn; rewrite ?H; try done.
    by intros [?|?].
  - destruct Hi as [N1 N2 N3 N4 N5 [N6 N6'] N7 N8 N9 N10 N11 N12]. rewrite H in *. constructor; cbn; try done.
    + intros Hc. by specialize (N7 Hc).
    + by intros [?|?].
    + intros _. split; [done | by apply N10].
    + intros _. by apply N11; left.
    + intros Hst _. by apply N12; [|left].
Qed.

Lemma reg_reachable r : rtc reg_step reg0 r → reg_inv r.
Proof.
  intros Hr. pose proof reg0_inv as Hi. induction Hr as [|r1 r2 r3 H12 _ IH]; [done|]. apply IH. by eapply reg_step_inv.
Qed.

(** ** Properties *)

(** C32: the registry is exact.  In every interleaving of bus events, the enumeration,
    loading and unloading: a PCI device has at most one registered object, none while one
    of its calls is in progress, and two detaches never hold the same object; every
    registered object is valid and holds its reference on the module and on the PCI
    device, and these counts are exactly the objects registered or being detached and the
    attaches past their pin; the
    class and the transfer cache exist exactly while the module is loaded.  A finished
    detach always drops its object and both references.  And unless an attach pinned the
    module on a stale reading of [mxdma_module_coming], unloading starts and ends with no
    object left. *)
Theorem registry_exact r :
  rtc reg_step reg0 r →
  NoDup (at_pdev <$> rg_list r) ∧
  (∀ pdev c, rg_calls r !! pdev = Some c →
    pdev ∉ at_pdev <$> rg_list r ∧ ∀ a, c = CallDetach a → at_pdev a = pdev) ∧
  (∀ a, a ∈ rg_list r → dev_valid (at_dev a) ∧ at_module_ref_held a = true ∧ at_pci_ref_held a = true) ∧
  rg_module_refs r = held r ∧ rg_pci_refs r = held r ∧
  rg_class r = bool_decide (rg_module r ≠ MUnloaded) ∧ rg_cache r = bool_decide (rg_module r ≠ MUnloaded) ∧
  (∀ pdev a u r', rg_calls r !! pdev = Some (CallDetach a) → detach_finish u a r = Some r' →
    rg_list r' = rg_list r ∧ rg_module_refs r' = rg_module_refs r - 1 ∧ rg_pci_refs r' = rg_pci_refs r - 1) ∧
  (rg_stale r = false → rg_module r = MGoing ∨ rg_module r = MUnloaded →
    rg_list r = [] ∧ rg_module_refs r = 0 ∧ rg_pci_refs r = 0).
Proof.
  intros Hr. pose proof (reg_reachable r Hr) as [N1 N2 N3 N4 N5 [N6 N6'] N7 N8 N9 N10 N11 N12].
  split_and!; try done.
  - intros pdev c Hc. destruct (N3 _ _ Hc) as [Q1 Q2]. split; [done|]. by intros a ->; destruct Q2.
  - intros a Ha. exact (proj1 (list.Forall_forall _ _) N2 a Ha).
  - intros pdev a u r' Hc. destruct (N3 _ _ Hc) as [_ (_ & Hv & Hm & Hp)]. unfold detach_finish.
    destruct (dev_destroy u true (at_dev a)) as [[[|] d]|] eqn:Hd; [| |done].
    + intros [= <-]. unfold mxdma_drop_attachment. cbn. by rewrite Hm, Hp.
    + by destruct (law_destroy _ _ _ _ _ Hv Hd eq_refl).
  - intros Hs Hm. specialize (N12 Hs Hm). rewrite N4, N5. split; [|done]. unfold held in N12.
    pose proof (holding_nonneg (rg_calls r)). apply length_zero_iff_nil. lia.
Qed.

Definition demo_answers : init_answers := MkIa 438 true 0 true 0.
Notation demo_loaded := (MkReg true true [] ∅ MComing 0 0 true true true false : registry).

Lemma demo_loaded_reachable : rtc reg_step reg0 demo_loaded.
Proof. apply rtc_once. exact (RsLoad reg0 demo_answers 0 demo_loaded eq_refl eq_refl). Qed.

Lemma demo_attaching (r := demo_loaded) : reg_step r (r <| rg_calls := <[7 := CallAttach true]> ∅ |>).
Proof. by apply (RsAttach demo_loaded 7 XCENA_PCI_VENDOR_ID true true); try left. Qed.

Notation demo_pinned := (MkReg true true [] {[7 := CallPinned]} MComing 1 1 true true true false).

Lemma demo_pinning : reg_step (demo_loaded <| rg_calls := <[7 := CallAttach true]> ∅ |>) demo_pinned.
Proof.
  pose (r := MkReg true true [] (<[7 := CallAttach true]> ∅) MComing 1 1 true true true false).
  assert (demo_pinned = r <| rg_calls := <[7 := CallPinned]> (rg_calls r) |>) as ->
    by (unfold r; cbn; by rewrite insert_insert_eq).
  by apply (RsPinned _ 7 true 0 r).
Qed.

(** An attach that read [mxdma_module_coming] while the module was loading, and pins the
    module only after [rmmod] found no reference: the object stays registered when the
    module, its class and its cache are gone. *)
Lemma stale_pin_outlives_module e d (u : UE) :
  dev_create e = (0, Some d) →
  ∃ r, rtc reg_step reg0 r ∧ rg_module r = MUnloaded ∧ rg_class r = false ∧ at_dev <$> rg_list r = [d].
Proof.
  intros He. eexists. split; [|split_and!].
  - eapply rtc_l; [exact (RsLoad reg0 demo_answers 0 demo_loaded eq_refl eq_refl)|].
    eapply rtc_l; [apply demo_attaching|].
    eapply rtc_l; [by apply RsLoaded|].
    eapply rtc_l; [by apply RsUnload|].
    eapply rtc_l; [eapply (RsPinned _ 7 true 0); [by cbn; rewrite lookup_insert_eq | reflexivity]|].
    eapply rtc_l; [eapply (RsAttached _ 7 e u); [by cbn; rewrite lookup_insert_eq|]|].
    { unfold attach_build. rewrite He. cbn. reflexivity. }
    eapply rtc_l; [apply RsUnregister; [done|]|].
    { cbn. by rewrite insert_insert_eq, delete_insert_eq, delete_empty. }
    apply rtc_once. by apply RsUnloaded.
  - done.
  - done.
  - done.
Qed.
End registry.

(** A version 2 device attached while the module loads. *)
Definition demo_good : create_env (E := v2_env) :=
  MkCreate true 0 true 7 0 true (ce_core (demo_create demo_init)) demo_cfg
    (MkV2Env (MkInitEnv 0 0 4096 8192 65536 (answer 1 5) (answer 2 5) silent silent 0 0)
       silent silent silent (fun _ => false) 3) true 0 true (fun _ => (0, 0)).

Notation demo_ops := (device_ops (Q := admin_st) (E := v2_env) st_none).
Notation demo_laws := (device_laws (Q := admin_st) (E := v2_env) st_none fresh_none).
Notation demo_attach := (attach_build (DeviceOps0 := demo_ops) true (demo_good, true) (demo_unbind, 5%nat, 0%nat) 7
  (MkReg true true [] {[7 := CallPinned]} MComing 1 1 true true true false)).

Lemma demo_attach_ok : option_map (fun x => (x.1, length (rg_list x.2))) demo_attach = Some (0, 1%nat).
Proof. vm_compute. reflexivity. Qed.

Lemma registry_exact_witness :
  ∃ r : registry (D := mx_pci_dev (Q := admin_st)), length (rg_list r) = 1%nat ∧ rg_module_refs r = held r ∧ rg_pci_refs r = held r ∧ rg_class r = true.
Proof.
  pose proof demo_attach_ok as Hok. destruct demo_attach as [[ret r']|] eqn:Hb; [|discriminate Hok].
  injection Hok as Hret Hlen. set (r := r' <| rg_calls := delete 7 (rg_calls r') |>).
  assert (rtc (reg_step (DeviceOps0 := demo_ops)) reg0 r) as Hr.
  { eapply rtc_r; [eapply rtc_r; [eapply rtc_r|]|].
    - exact (demo_loaded_reachable (DeviceOps0 := demo_ops)).
    - apply demo_attaching.
    - apply demo_pinning.
    - apply (RsAttached (DeviceOps0 := demo_ops) _ 7 (demo_good, true) (demo_unbind, 5%nat, 0%nat) ret r');
        [reflexivity | exact Hb]. }
  pose proof (registry_exact (DeviceLaws0 := demo_laws) r Hr) as (_ & _ & _ & H1 & H2 & H3 & _).
  exists r. split; [exact Hlen|]. split; [exact H1|]. split; [exact H2|]. rewrite H3.
  assert (rg_module r = MComing) as ->; [|reflexivity].
  change (rg_module r) with (rg_module r'). apply (f_equal (option_map (fun x => rg_module x.2))) in Hb. revert Hb.
  vm_compute. intros [= <-]. reflexivity.
Defined.
