(* ===== verification/Handlers.v ===== *)
(** * The handler threads (src/core_common.c, with the adapters of src/core_v1.c and
      src/core_v2.c)

    [mx_submit_handler] and [mx_complete_handler] over the operations a queue version
    registers, the transfers of Transfer and the liveness fields of Liveness: one
    iteration of each inner loop, and one pass of each thread. *)

From S2P Require Import Prelude Bits Mbox Transfer Liveness MboxFifo QueueV1 QueueV2.

(** ** [struct mx_queue_ops] *)

(** [Q]: the queue, [C]: its commands, [R]: what the device shows when a test or a pop
    reads it.  [ops_common]: the queue with [wait_count] and [lv_inflight] of the embedded
    [struct mx_queue], which the handlers write. *)
Class mx_queue_ops (Q C R : Type) := {
  ops_common : Z → bool → Q → Q;
  ops_is_pushable : R → Q → bool * Q;
  ops_push_command : C → Q → Q;
  ops_post_submit : Q → Q;
  ops_is_popable : R → Q → bool * Q;
  ops_pop_completion : R → Q → (Z * Z * Z) * Q;
  ops_post_complete : Q → Q;
  ops_ping_command : C;
}.

(** Version 2: everything is in host memory. *)
Definition v2_queue_ops : mx_queue_ops mx_queue_v2 QueueV2.mx_command unit := {|
  ops_common w f q := q <| q2_wait_count := w |> <| q2_lv_inflight := f |>;
  ops_is_pushable _ q := (QueueV2.is_pushable q, q);
  ops_push_command := QueueV2.push_mx_command;
  ops_post_submit := ring_sq_doorbell;
  ops_is_popable _ q := (QueueV2.is_popable q, q);
  ops_pop_completion _ := v2_pop_completion;
  ops_post_complete := ring_cq_doorbell;
  ops_ping_command := build_ping_command_v2;
|}.
#[export] Existing Instance v2_queue_ops.

(** Version 1: the mailboxes are in device memory.  The log has the accesses, each with
    the words stored before the context word. *)
Record v1_device := MkV1Dev { vd_queue : mx_queue_v1; vd_log : list (mbox_access * list Z) }.
Record v1_read := MkV1Read { rd_ctx : Z; rd_mem : Z → Z }.

#[export] Instance eta_v1_device : Eta v1_device := fun r => MkV1Dev (vd_queue r) (vd_log r).

Definition v1_push_command (c : QueueV1.mx_command) (v : v1_device) : v1_device :=
  let '(acc, q) := QueueV1.push_mx_command (vd_queue v) in MkV1Dev q (vd_log v ++ [(acc, cmd_words c)]).

Definition v1_queue_ops : mx_queue_ops v1_device QueueV1.mx_command v1_read := {|
  ops_common w f v := v <| vd_queue := (vd_queue v) <| q1_wait_count := w |> <| q1_lv_inflight := f |> |>;
  ops_is_pushable rd v :=
    let '(ok, q) := QueueV1.is_pushable (rd_ctx rd) (vd_queue v) in (ok, v <| vd_queue := q |>);
  ops_push_command := v1_push_command;
  ops_post_submit v := v;
  ops_is_popable rd v :=
    let '(ok, q) := QueueV1.is_popable (rd_ctx rd) (vd_queue v) in (ok, v <| vd_queue := q |>);
  ops_pop_completion rd v :=
    let '(info, acc, q) := v1_pop_completion (rd_mem rd) (vd_queue v) in
    (info, MkV1Dev q (vd_log v ++ [(acc, [])]));
  ops_post_complete v := v;
  ops_ping_command := build_ping_command_v1;
|}.
#[export] Existing Instance v1_queue_ops.

(** ** The threads *)

Section handlers.
Context {Q C R : Type} `{!mx_queue_ops Q C R}.

(** [hs_lv]: the liveness fields; its two counters are those of [hs_ts]. *)
Record hstate := MkHs { hs_q : Q; hs_ts : tsys; hs_lv : lv_queue }.

#[export] Instance eta_hs : Eta hstate := fun r => MkHs (hs_q r) (hs_ts r) (hs_lv r).

(** The part of a new queue the handlers use; the other fields are those of [kzalloc]. *)
Definition mx_queue_common_init (now : Z) (q : Q) : hstate := MkHs q ts0 (MkLv MX_LIVENESS_ALIVE 0 0 now 0 0 0).

Definition common_q (h : hstate) : Q := ops_common (ts_wait_count (hs_ts h)) (nz (lv_inflight (hs_lv h))) (hs_q h).
Definition common_lv (h : hstate) : lv_queue :=
  (hs_lv h) <| lv_wait_count := ts_wait_count (hs_ts h) |>
            <| lv_zombie_wait_count := ts_zombie_wait_count (hs_ts h) |>.

(** One iteration over [sq_list]; the boolean: the loop goes on. *)
Definition submit_iter (command : nat → C) (lv_on : bool) (rd : R) (now : Z) (h : hstate) : bool * hstate :=
  match ts_sq_list (hs_ts h) with
  | [] => (false, h)
  | t :: _ =>
    RETURN (false, h) WHEN (lv_on && nz (lv_inflight (hs_lv h))) ;;
    let '(ok, q) := ops_is_pushable rd (common_q h) in
    let h := h <| hs_q := q |> in
    RETURN (false, h) WHEN (negb ok) ;;
    match ts_x (hs_ts h) !! t with
    | None => (false, h)
    | Some x =>
      let ts := submit_one t x (hs_ts h) in
      let lv := if negb (tf_no_completion x) && (ts_wait_count ts - ts_zombie_wait_count ts <=? 1)
                then (hs_lv h) <| lv_progress_jiffies := now |> else hs_lv h in
      (true, MkHs (ops_push_command (command t) q) ts lv)
    end
  end.

(** How many are pushed; [fuel]: the length of the list is enough, a pushed transfer
    leaves it. *)
Fixpoint submit_loop (command : nat → C) (lv_on : bool) (rd : nat → R) (now : nat → Z) (fuel i : nat) (h : hstate)
    : nat * hstate :=
  match fuel with
  | O => (i, h)
  | S fuel =>
    let '(more, h) := submit_iter command lv_on (rd i) (now i) h in
    if (more : bool) then submit_loop command lv_on rd now fuel (S i) h else (i, h)
  end.

(** The watchdog and the ping it may push. *)
Definition watchdog_tick (p : lv_params) (e : wd_env) (h : hstate) : hstate :=
  let '(lv, pinged) := mx_liveness_watchdog p e (common_lv h) in
  let h := h <| hs_lv := lv |> in
  if (pinged : bool) then h <| hs_q := ops_push_command ops_ping_command (hs_q h) |> else h.

(** One pass of the submit thread; the new [idle_count]. *)
Definition mx_submit_handler (command : nat → C) (p : lv_params) (e : wd_env) (rd : nat → R) (now : nat → Z)
    (idle_count : Z) (h : hstate) : Z * hstate :=
  let '(pushed_count, h) := submit_loop command (liveness_enable p) rd now (length (ts_sq_list (hs_ts h))) 0 h in
  let h := if liveness_enable p then watchdog_tick p e h else h in
  let h := h <| hs_q := ops_post_submit (hs_q h) |> in
  (if (0 <? Z.of_nat pushed_count) then 0 else (poll_backoff idle_count).1, h).

(** One iteration of the complete loop; the completion taken.  [ts_cq] is the list of
    Transfer, which the entry leaves. *)
Definition complete_iter (rd : R) (now ns : Z) (h : hstate) : option (Z * Z * Z) * hstate :=
  let '(ok, q) := ops_is_popable rd (common_q h) in
  let h := h <| hs_q := q |> in
  RETURN (None, h) WHEN (negb ok) ;;
  let '(info, q) := ops_pop_completion rd q in
  let id := info.1.1 in
  let ping := id =? MX_PING_ID in
  let ts := if ping then hs_ts h else (hs_ts h) <| ts_cq := tail (ts_cq (hs_ts h)) |> in
  let claimed := bool_decide (is_Some (transfer_id_claim_completion id ts)) in
  let lv := lv_run (lv_completion ping claimed now ns) (hs_lv h) in
  (Some info, MkHs q (if ping then ts else complete_one id ts) lv).

(** The while loop; [None]: more entries than [fuel]. *)
Fixpoint complete_loop (rd : nat → R) (now ns : nat → Z) (fuel i : nat) (h : hstate) : option (nat * hstate) :=
  match complete_iter (rd i) (now i) (ns i) h with
  | (None, h) => Some (i, h)
  | (Some _, h) =>
    match fuel with
    | O => None
    | S fuel => complete_loop rd now ns fuel (S i) h
    end
  end.

(** One pass of the complete thread. *)
Definition mx_complete_handler (rd : nat → R) (now ns : nat → Z) (fuel : nat) (idle_count : Z) (h : hstate)
    : option (Z * hstate) :=
  '(popped, h) ← complete_loop rd now ns fuel 0 h;
  let h := h <| hs_q := ops_post_complete (hs_q h) |> in
  Some (if (0 <? Z.of_nat popped) then 0 else (poll_backoff idle_count).1, h).

(** What the complete thread waits for, and how long at most; the code passes the two
    constants as a number of jiffies. *)
Definition POLLING_INTERVAL_MSEC : Z := 4.
Definition ZOMBIE_POLL_INTERVAL_MSEC : Z := 1000.
Definition zombie_only (s : tsys) : bool :=
  (0 <? ts_wait_count s) && (ts_zombie_wait_count s =? ts_wait_count s).
Definition complete_interval (s : tsys) : Z :=
  if zombie_only s then ZOMBIE_POLL_INTERVAL_MSEC else POLLING_INTERVAL_MSEC.
Definition complete_wakes (s : tsys) : bool := 0 <? ts_wait_count s - ts_zombie_wait_count s.
End handlers.
Arguments hstate : clear implicits.
