(* ===== verification/Pipeline.v ===== *)
(** * The version 2 pipeline: handlers, rings, device

    The two handler threads over the rings of version 2, against a device that takes
    commands from the submission ring and posts completions in any order, and against
    waiters and the zombie cleaner.  Transfer describes what the device owns as a set of
    transfers and what waits in the completion ring as a list of them; here both are only
    auxiliary, and the theorems say that the rings implement them. *)

From S2P Require Import Prelude Transfer Liveness QueueV2 Handlers.

Section pipeline.
(** [command]: what was built for a transfer; [answers]: the commands the device posts a
    completion for (all but the passthrough commands flagged [no_completion]). *)
Context (command : nat → mx_command) (answers : mx_command → bool).

(** ** The world *)

(** [w_sent]: the commands pushed; [w_rung]: how many the doorbell has shown; [w_taken]: how
    many the device has read; [w_busy]: the ids it owes a completion for.  [w_posted]: the
    completions posted, [w_heads] the number of commands taken at that time; [w_popped]: how
    many were popped, [w_acked] as the doorbell shows; [w_seen]: the number of commands the
    driver knows to be taken. *)
Record world := MkW {
  w_h : hstate mx_queue_v2;
  w_sent : list mx_command; w_rung : nat; w_taken : nat;
  w_busy : list Z;
  w_posted : list mx_completion; w_heads : list nat; w_popped : nat; w_acked : nat; w_seen : nat;
}.

#[export] Instance eta_world : Eta world := fun r =>
  MkW (w_h r) (w_sent r) (w_rung r) (w_taken r) (w_busy r) (w_posted r) (w_heads r) (w_popped r) (w_acked r) (w_seen r).

Definition w_ts (w : world) : tsys := hs_ts (w_h w).
Definition w_q (w : world) : mx_queue_v2 := hs_q (w_h w).
Definition w_depth (w : world) : Z := q2_depth (w_q w).

(** The command of a live transfer carries its id, and is answered unless the transfer
    expects no completion. *)
Definition commands_ok (s : tsys) : Prop :=
  ∀ t x, ts_x s !! t = Some x → c2_command_id (command t) = tf_id x ∧ answers (command t) = negb (tf_no_completion x).

(** A step of a waiter or of the cleaner: not one of the handlers, the device or the final
    queue deletion. *)
Definition waiter_step (s s' : tsys) : Prop :=
  tstep s s' ∧ ts_hw s' = ts_hw s ∧ ts_cq s' = ts_cq s ∧ ts_dma_reclaim_safe s' = ts_dma_reclaim_safe s ∧
  (∀ t x', ts_x s' !! t = Some x' → tf_pushed x' = true → ∃ x, ts_x s !! t = Some x ∧ tf_pushed x = true).

(** The transfer behind an id moves from the device to the completion ring. *)
Definition device_completes (id : Z) (s : tsys) : tsys :=
  match ts_ids s !! id with
  | Some t => if id =? MX_PING_ID then s else s <| ts_hw := ts_hw s ∖ {[t]} |> <| ts_cq := ts_cq s ++ [t] |>
  | None => s
  end.

Definition w0 (qid depth now : Z) : world :=
  MkW (mx_queue_common_init now (configure_queue qid (queue_zero depth))) [] 0 0 [] [] [] 0 0 0.

(** The doorbells: the count a value stands for changes when it is written. *)
Definition after_post_submit (w : world) : world :=
  w <| w_h := (w_h w) <| hs_q := ops_post_submit (w_q w) |> |>
    <| w_rung := if q2_last_sq_tail (w_q w) =? q2_sq_tail (w_q w) then w_rung w else length (w_sent w) |>.
Definition after_post_complete (w : world) : world :=
  w <| w_h := (w_h w) <| hs_q := ops_post_complete (w_q w) |> |>
    <| w_acked := if q2_last_cq_head (w_q w) =? q2_cq_head (w_q w) then w_acked w else w_popped w |>.

(** The device reads the submission ring up to the doorbell, posts while the ring of
    [depth - 1] usable entries has room by the doorbell, with the phase of its lap and its
    submission head; a command it does not answer it never answers.  [PsHold], [PsIdle]: the test that ends a
    loop. *)
Inductive pstep (w : world) : world → Prop :=
  | PsWaiter s' : waiter_step (w_ts w) s' → commands_ok s' → pstep w (w <| w_h := (w_h w) <| hs_ts := s' |> |>)
  | PsSubmit t l lv_on now h' :
      ts_dma_reclaim_safe (w_ts w) = false → ts_sq_list (w_ts w) = t :: l →
      submit_iter command lv_on tt now (w_h w) = (true, h') →
      pstep w (w <| w_h := h' |> <| w_sent := w_sent w ++ [command t] |>)
  | PsHold lv_on now h' : submit_iter command lv_on tt now (w_h w) = (false, h') → pstep w (w <| w_h := h' |>)
  | PsWatchdog p e :
      ts_dma_reclaim_safe (w_ts w) = false → wg_pushable e = is_pushable (w_q w) →
      pstep w (w <| w_h := watchdog_tick p e (w_h w) |>
                 <| w_sent := if (mx_liveness_watchdog p e (common_lv (w_h w))).2
                              then w_sent w ++ [build_ping_command_v2] else w_sent w |>)
  | PsPostSubmit :
      ts_dma_reclaim_safe (w_ts w) = false →
      pstep w (after_post_submit w)
  | PsTake c :
      ts_dma_reclaim_safe (w_ts w) = false → (w_taken w < w_rung w)%nat →
      q2_sqes (w_q w) (Z.of_nat (w_taken w) mod w_depth w) = c →
      pstep w (w <| w_taken := S (w_taken w) |>
                 <| w_busy := if answers c then w_busy w ++ [c2_command_id c] else w_busy w |>)
  | PsPost l1 id l2 c :
      ts_dma_reclaim_safe (w_ts w) = false → w_busy w = l1 ++ id :: l2 →
      Z.of_nat (length (w_posted w)) - Z.of_nat (w_acked w) < w_depth w - 1 →
      ce_command_id c = id → Z.land (ce_status c) 1 = lap_phase (w_depth w) (Z.of_nat (length (w_posted w))) →
      ce_sq_head c = Z.of_nat (w_taken w) mod w_depth w →
      pstep w (w <| w_h := (w_h w) <| hs_q := device_post c (w_posted w) (w_q w) |>
                                   <| hs_ts := device_completes id (w_ts w) |> |>
                 <| w_busy := l1 ++ l2 |> <| w_posted := w_posted w ++ [c] |> <| w_heads := w_heads w ++ [w_taken w] |>)
  | PsComplete now ns info h' :
      ts_dma_reclaim_safe (w_ts w) = false → complete_iter tt now ns (w_h w) = (Some info, h') →
      pstep w (w <| w_h := h' |> <| w_popped := S (w_popped w) |>
                 <| w_seen := default (w_seen w) (w_heads w !! w_popped w) |>)
  | PsIdle now ns h' : complete_iter tt now ns (w_h w) = (None, h') → pstep w (w <| w_h := h' |>)
  | PsPostComplete :
      ts_dma_reclaim_safe (w_ts w) = false →
      pstep w (after_post_complete w)
  | PsReclaim s' :
      s' = (w_ts w) <| ts_hw := ∅ |> <| ts_cq := [] |> <| ts_dma_reclaim_safe := true |> →
      pstep w (w <| w_h := (w_h w) <| hs_ts := s' |> |>).

(** ** Idle *)

(** [mxdma_io_queue_idle] for a device that has a queue. *)
Definition queue_idle (s : tsys) : bool :=
  bool_decide (ts_sq_list s = []) && (ts_wait_count s =? 0) && (ts_zombie_wait_count s =? 0).

(** ** What the rings hold *)

(** The ids the device owes a completion for: taken, or still in the submission ring. *)
Definition due (w : world) : list Z :=
  w_busy w ++ (c2_command_id <$> filter (fun c => answers c = true) (drop (w_taken w) (w_sent w))).

(** The completions not popped, without the pongs. *)
Definition live_ids (l : list mx_completion) : list Z := filter (fun id => id ≠ MX_PING_ID) (ce_command_id <$> l).
Definition waiting_ids (w : world) : list Z := live_ids (drop (w_popped w) (w_posted w)).

Definition id_of (s : tsys) (t : nat) : Z := default 0 (tf_id <$> ts_x s !! t).

(** The submission side.  The doorbell value is the count it stands for, modulo the depth. *)
Record sq_side (w : world) : Prop := {
  ss_ring : sq_ring2 (w_q w) (w_sent w) (Z.of_nat (w_seen w));
  ss_order : (w_seen w ≤ w_taken w ≤ w_rung w)%nat ∧ (w_rung w ≤ length (w_sent w))%nat;
  ss_last : q2_last_sq_tail (w_q w) = Z.of_nat (w_rung w) mod w_depth w;
  ss_db : q2_sq_db (w_q w) = Z.of_nat (w_rung w) mod w_depth w;
}.

(** The completion side. *)
Record cq_side (w : world) : Prop := {
  cs_ring : cq_ring (w_q w) (w_posted w) (Z.of_nat (w_popped w));
  cs_order : (w_acked w ≤ w_popped w ≤ length (w_posted w))%nat;
  cs_room : Z.of_nat (length (w_posted w)) - Z.of_nat (w_acked w) ≤ w_depth w - 1;
  cs_last : q2_last_cq_head (w_q w) = Z.of_nat (w_acked w) mod w_depth w;
  cs_db : q2_cq_db (w_q w) = Z.of_nat (w_acked w) mod w_depth w;
  cs_heads : length (w_heads w) = length (w_posted w);
  cs_head i c k : w_posted w !! i = Some c → w_heads w !! i = Some k → ce_sq_head c = Z.of_nat k mod w_depth w;
  cs_seen i k : (w_popped w ≤ i)%nat → w_heads w !! i = Some k → (w_seen w ≤ k)%nat;
  cs_taken i k : w_heads w !! i = Some k → (k ≤ w_taken w)%nat;
  cs_mono i j k m : (i ≤ j)%nat → w_heads w !! i = Some k → w_heads w !! j = Some m → (k ≤ m)%nat;
}.

(** The transfers behind both. *)
Record ids_ok (w : world) : Prop := {
  io_ok : commands_ok (w_ts w);
  io_due id : id ∈ due w → id ≠ MX_PING_ID →
    ∃ t x, ts_x (w_ts w) !! t = Some x ∧ t ∈ ts_hw (w_ts w) ∧ tf_id x = id;
  io_hw t x : t ∈ ts_hw (w_ts w) → ts_x (w_ts w) !! t = Some x → tf_id x ∈ due w;
  io_nodup : NoDup (filter (fun id => id ≠ MX_PING_ID) (due w));
  io_cq : waiting_ids w = id_of (w_ts w) <$> ts_cq (w_ts w);
}.

Record pipe_inv (w : world) : Prop := {
  pi_reach : ts_reachable (w_ts w);
  pi_live : ts_dma_reclaim_safe (w_ts w) = false → sq_side w ∧ cq_side w ∧ ids_ok w;
}.

(** ** Frame *)

Lemma sq_ring2_frame q q' sent h :
  q2_sqes q' = q2_sqes q → q2_depth q' = q2_depth q → q2_sq_tail q' = q2_sq_tail q → q2_sq_head q' = q2_sq_head q →
  sq_ring2 q sent h → sq_ring2 q' sent h.
Proof. intros E1 E2 E3 E4 []. constructor; rewrite ?E1, ?E2, ?E3, ?E4; done. Qed.

Lemma cq_ring_frame q q' posted n :
  q2_cqes q' = q2_cqes q → q2_depth q' = q2_depth q → q2_cq_head q' = q2_cq_head q → q2_cq_phase q' = q2_cq_phase q →
  cq_ring q posted n → cq_ring q' posted n.
Proof. intros E1 E2 E3 E4 []. constructor; rewrite ?E1, ?E2, ?E3, ?E4; done. Qed.

Lemma sq_side_frame w w' :
  sq_side w →
  q2_sqes (w_q w') = q2_sqes (w_q w) → q2_depth (w_q w') = q2_depth (w_q w) →
  q2_sq_tail (w_q w') = q2_sq_tail (w_q w) → q2_sq_head (w_q w') = q2_sq_head (w_q w) →
  q2_last_sq_tail (w_q w') = q2_last_sq_tail (w_q w) → q2_sq_db (w_q w') = q2_sq_db (w_q w) →
  w_sent w' = w_sent w → w_rung w' = w_rung w → w_seen w' = w_seen w →
  (w_taken w ≤ w_taken w' ≤ w_rung w)%nat → sq_side w'.
Proof.
  intros [] E1 E2 E3 E4 E5 E6 E7 E8 E9 Ht. unfold w_depth in *.
  constructor; unfold w_depth; rewrite ?E2, ?E5, ?E6, ?E7, ?E8, ?E9; try done; [|lia].
  by eapply sq_ring2_frame.
Qed.

Lemma cq_side_frame w w' :
  cq_side w →
  q2_cqes (w_q w') = q2_cqes (w_q w) → q2_depth (w_q w') = q2_depth (w_q w) →
  q2_cq_head (w_q w') = q2_cq_head (w_q w) → q2_cq_phase (w_q w') = q2_cq_phase (w_q w) →
  q2_last_cq_head (w_q w') = q2_last_cq_head (w_q w) → q2_cq_db (w_q w') = q2_cq_db (w_q w) →
  w_posted w' = w_posted w → w_heads w' = w_heads w → w_popped w' = w_popped w → w_acked w' = w_acked w →
  w_seen w' = w_seen w → (w_taken w ≤ w_taken w')%nat → cq_side w'.
Proof.
  intros [] E1 E2 E3 E4 E5 E6 E7 E8 E9 E10 E11 Ht. unfold w_depth in *.
  constructor; unfold w_depth; rewrite ?E2, ?E5, ?E6, ?E7, ?E8, ?E9, ?E10, ?E11; try done.
  - by eapply (cq_ring_frame (w_q w)).
  - intros i k Hk. specialize (cs_taken0 i k Hk). lia.
Qed.

(** A step of Transfer never changes the id of a transfer. *)
Lemma tstep_keeps s s' t x :
  tstep s s' → ts_x s !! t = Some x →
  ∃ x', ts_x s' !! t = Some x' ∧ tf_id x' = tf_id x ∧ tf_no_completion x' = tf_no_completion x.
Proof.
  assert (∀ (m : gmap nat mx_transfer) u y y', m !! t = Some x → m !! u = Some y →
    tf_id y' = tf_id y → tf_no_completion y' = tf_no_completion y →
    ∃ x', <[u := y']> m !! t = Some x' ∧ tf_id x' = tf_id x ∧ tf_no_completion x' = tf_no_completion x) as Hins.
  { intros m u y y' Ht Hu E1 E2. destruct (decide (u = t)) as [->|Hne].
    - rewrite lookup_insert_eq. simplify_eq. eauto.
    - rewrite lookup_insert_ne by done. eauto. }
  assert (∀ s1 u y z, ts_x s1 !! t = Some x → ts_x s1 !! u = Some y → tf_id z = tf_id y →
    tf_no_completion z = tf_no_completion y →
    ∃ x', ts_x (release_mx_transfer u z s1) !! t = Some x' ∧ tf_id x' = tf_id x ∧ tf_no_completion x' = tf_no_completion x)
    as Hrel.
  { intros s1 u y z Ht Hu E1 E2. unfold release_mx_transfer. cbn.
    destruct (id_free_same u z s1) as (-> & _). by eapply (Hins _ u y). }
  intros Hst Hx. destruct Hst as [u id nc Hu| | | | | | |u y s'' ? ? Hrm| | | | | | |]; cbn; try (by eapply Hins); try (by eapply Hrel); try (by eauto).
  - rewrite lookup_insert_ne; [eauto|]. congruence.
  - unfold submit_one. case_match; cbn; by eapply Hins.
  - unfold complete_one, transfer_id_claim_completion. cbn. repeat case_match; simplify_eq; try (by eauto); cbn.
    + by eapply Hins.
    + rewrite insert_insert_eq. by eapply Hins.
  - unfold mx_transfer_remove_from_sq in Hrm. case_bool_decide; simplify_eq. by eapply Hrel.
  - match goal with |- context [transfer_id_free ?u (tf_id ?y) ?s1] => destruct (id_free_same u y s1) as (-> & _) end.
    destruct (tf_wait_claimed _); cbn; by eapply Hins.
Qed.

Lemma commands_ok_step s s' :
  tstep s s' → (∀ u, is_Some (ts_x s' !! u) → is_Some (ts_x s !! u)) → commands_ok s → commands_ok s'.
Proof.
  intros Hst Hd Hc t x' Hx'. destruct (Hd t) as [x Hx]; [by eexists|].
  destruct (tstep_keeps _ _ _ _ Hst Hx) as (x2 & Hx2 & E1 & E2). simplify_eq. rewrite E1, E2. by apply Hc.
Qed.

Lemma submit_dom t x s u : ts_x s !! t = Some x → is_Some (ts_x (submit_one t x s) !! u) → is_Some (ts_x s !! u).
Proof. intros Hx. unfold submit_one. case_match; cbn; rewrite lookup_insert_is_Some'; intros [<-|?]; by eauto. Qed.

Lemma complete_dom id s u : is_Some (ts_x (complete_one id s) !! u) → is_Some (ts_x s !! u).
Proof.
  unfold complete_one, transfer_id_claim_completion. repeat case_match; simplify_eq; try done; cbn;
    rewrite ?insert_insert_eq, lookup_insert_is_Some'; intros [<-|?]; by eauto.
Qed.

Lemma id_of_some s t x : ts_x s !! t = Some x → id_of s t = tf_id x.
Proof. unfold id_of. by intros ->. Qed.

Lemma id_of_step s s' t : tstep s s' → is_Some (ts_x s !! t) → id_of s' t = id_of s t.
Proof.
  intros Hst [x Hx]. destruct (tstep_keeps _ _ _ _ Hst Hx) as (x' & Hx' & E & _).
  by rewrite (id_of_some _ _ _ Hx), (id_of_some _ _ _ Hx').
Qed.

Lemma map_id_of_step s s' (l : list nat) :
  tstep s s' → (∀ t, t ∈ l → is_Some (ts_x s !! t)) → id_of s' <$> l = id_of s <$> l.
Proof. intros Hst Hl. apply list_fmap_ext. intros i t Ht. apply id_of_step; [done|]. by eapply Hl, list_elem_of_lookup_2. Qed.

Lemma hw_known s t : ts_inv s → t ∈ ts_hw s → is_Some (ts_x s !! t).
Proof. intros Hi Ht. apply (ti_known s Hi). tauto. Qed.

Lemma cq_known s t : ts_inv s → t ∈ ts_cq s → is_Some (ts_x s !! t).
Proof. intros Hi Ht. apply (ti_known s Hi). tauto. Qed.

(** Two transfers of the device never share an id. *)
Lemma hw_id s t x : ts_inv s → ts_x s !! t = Some x → t ∈ ts_hw s ∨ t ∈ ts_cq s → ts_ids s !! tf_id x = Some t.
Proof.
  intros Hi Hx Ht. pose proof (ti_x s Hi t x Hx) as Hok.
  assert (tf_wait_claimed x = false ∧ in_flight (tf_owner x) = true) as [Hc Hf].
  { destruct Ht as [H|H]; [apply (xo_hw _ _ _ Hok) in H | apply (xo_cq _ _ _ Hok) in H]; tauto. }
  apply (xo_ids _ _ _ Hok Hc). intros E. by rewrite E in Hf.
Qed.

(** ** Waiters *)

(** A step of Transfer that leaves the device and the rings alone. *)
Lemma ids_keep w w' :
  ts_inv (w_ts w) → ids_ok w → tstep (w_ts w) (w_ts w') → commands_ok (w_ts w') →
  ts_hw (w_ts w') = ts_hw (w_ts w) → ts_cq (w_ts w') = ts_cq (w_ts w) →
  due w' = due w → waiting_ids w' = waiting_ids w → ids_ok w'.
Proof.
  intros Hi [A B C D E] Hst Hok Eh Ec Ed Ew. constructor; rewrite ?Eh, ?Ec, ?Ed, ?Ew; try done.
  - intros id Hid Hp. destruct (B id Hid Hp) as (t & x & Hx & Ht & Hxi).
    destruct (tstep_keeps _ _ _ _ Hst Hx) as (x' & Hx' & E' & _). exists t, x'. split_and!; [done | done | congruence].
  - intros t x' Ht Hx'. destruct (hw_known _ _ Hi Ht) as [x Hx].
    destruct (tstep_keeps _ _ _ _ Hst Hx) as (x2 & Hx2 & E' & _). simplify_eq. rewrite E'. by apply (C t).
  - rewrite E. symmetry. apply map_id_of_step; [done|]. intros t. by apply cq_known.
Qed.

Lemma pipe_waiter w s' :
  pipe_inv w → waiter_step (w_ts w) s' → commands_ok s' → pipe_inv (w <| w_h := (w_h w) <| hs_ts := s' |> |>).
Proof.
  intros [R L] (Hst & Eh & Ec & Es & _) Hok. pose proof (ts_reachable_inv _ R) as Hi.
  constructor; [by eapply reach_step|]. change (w_ts _) with s'. rewrite Es. intros Hs.
  destruct (L Hs) as (S1 & S2 & S3). split_and!.
  - eapply (sq_side_frame w); try done. pose proof (ss_order _ S1). cbn. lia.
  - by eapply (cq_side_frame w).
  - by apply (ids_keep w).
Qed.

(** ** Pushing *)

(** The same rings, other counters of [struct mx_queue]. *)
Record same_rings (q q' : mx_queue_v2) : Prop := {
  sr_sqes : q2_sqes q' = q2_sqes q; sr_cqes : q2_cqes q' = q2_cqes q; sr_depth : q2_depth q' = q2_depth q;
  sr_sq_tail : q2_sq_tail q' = q2_sq_tail q; sr_sq_head : q2_sq_head q' = q2_sq_head q;
  sr_cq_head : q2_cq_head q' = q2_cq_head q; sr_cq_phase : q2_cq_phase q' = q2_cq_phase q;
  sr_last_sq : q2_last_sq_tail q' = q2_last_sq_tail q; sr_last_cq : q2_last_cq_head q' = q2_last_cq_head q;
  sr_sq_db : q2_sq_db q' = q2_sq_db q; sr_cq_db : q2_cq_db q' = q2_cq_db q;
}.

Lemma common_rings h : same_rings (hs_q h) (common_q h).
Proof. by constructor. Qed.

Lemma push_fields c q :
  let q' := push_mx_command c q in
  q2_cqes q' = q2_cqes q ∧ q2_depth q' = q2_depth q ∧ q2_sq_head q' = q2_sq_head q ∧ q2_cq_head q' = q2_cq_head q ∧
  q2_cq_phase q' = q2_cq_phase q ∧ q2_last_sq_tail q' = q2_last_sq_tail q ∧ q2_last_cq_head q' = q2_last_cq_head q ∧
  q2_sq_db q' = q2_sq_db q ∧ q2_cq_db q' = q2_cq_db q.
Proof. done. Qed.

(** Everything about a push but the transfers. *)
Lemma push_sides w h' q0 c (w' := w <| w_h := h' |> <| w_sent := w_sent w ++ [c] |>) :
  sq_side w → cq_side w → is_pushable (w_q w) = true → same_rings (w_q w) q0 → hs_q h' = push_mx_command c q0 →
  sq_side w' ∧ cq_side w' ∧ due w' = due w ++ (if answers c then [c2_command_id c] else []) ∧
  waiting_ids w' = waiting_ids w.
Proof.
  intros [] Hcq Hp [] Eq. destruct (push_fields c q0) as (F1 & F2 & F3 & F4 & F5 & F6 & F7 & F8 & F9).
  assert (sq_ring2 q0 (w_sent w) (Z.of_nat (w_seen w))) as Hr by (by eapply sq_ring2_frame).
  rewrite (pushable_iff _ _ _ ss_ring0) in Hp. apply bool_decide_eq_true in Hp.
  unfold w', w_depth, w_q in *. split_and!.
  - constructor; unfold w_depth, w_q; cbn -[Z.modulo]; rewrite ?length_app, ?Eq; try done.
    + apply push_ring2; [done|]. by rewrite sr_depth0.
    + cbn. lia.
    + by rewrite F2, F6, sr_depth0, sr_last_sq0.
    + by rewrite F2, F8, sr_depth0, sr_sq_db0.
  - eapply (cq_side_frame w); unfold w_q; cbn; try done; rewrite ?Eq; congruence.
  - unfold due. cbn. rewrite drop_app_le by lia. rewrite list.filter_app, fmap_app, app_assoc. f_equal.
    destruct (decide (answers c = true)) as [E|E].
    + rewrite filter_cons_True by done. by rewrite E.
    + rewrite filter_cons_False by done. by destruct (answers c).
  - done.
Qed.

Lemma submit_iter_spec t l lv_on now h h' :
  ts_sq_list (hs_ts h) = t :: l → submit_iter command lv_on tt now h = (true, h') →
  ∃ x, ts_x (hs_ts h) !! t = Some x ∧ is_pushable (hs_q h) = true ∧ hs_ts h' = submit_one t x (hs_ts h) ∧
    hs_q h' = push_mx_command (command t) (common_q h).
Proof.
  intros E. unfold submit_iter. rewrite E. destruct (_ && _); [done|]. cbn.
  destruct (is_pushable _) eqn:Hp; [|done]. cbn. destruct (ts_x _ !! t) as [x|]; [|done].
  intros [= <-]. exists x. by split_and!.
Qed.

(** A pushed transfer: its id is new to the device. *)
Lemma ids_submit w w' t x l :
  ts_inv (w_ts w) → ids_ok w → ts_sq_list (w_ts w) = t :: l → ts_x (w_ts w) !! t = Some x →
  ts_dma_reclaim_safe (w_ts w) = false → w_ts w' = submit_one t x (w_ts w) →
  due w' = due w ++ (if answers (command t) then [c2_command_id (command t)] else []) →
  waiting_ids w' = waiting_ids w → ids_ok w'.
Proof.
  intros Hi Hids Hsq Hx Hs Et Ed Ew. pose proof (TsSubmit _ _ _ _ Hsq Hx Hs) as Hst. rewrite <- Et in Hst.
  assert (commands_ok (w_ts w')) as Hok'.
  { eapply commands_ok_step; [done | rewrite Et; intros u; by apply submit_dom | apply Hids]. }
  destruct (io_ok _ Hids t x Hx) as [Eid Ean]. rewrite Eid, Ean in Ed.
  destruct (tf_no_completion x) eqn:Hnc; cbn in Ed.
  { rewrite app_nil_r in Ed. apply (ids_keep w); try done; rewrite Et; unfold submit_one; cbn; by rewrite Hnc. }
  assert (ts_hw (w_ts w') = {[t]} ∪ ts_hw (w_ts w)) as Eh by (rewrite Et; unfold submit_one; cbn; by rewrite Hnc).
  assert (ts_cq (w_ts w') = ts_cq (w_ts w)) as Ec by (rewrite Et; unfold submit_one; cbn; by rewrite Hnc).
  destruct (tstep_keeps _ _ _ _ Hst Hx) as (x' & Hx' & Ex' & _).
  pose proof (ti_x _ Hi t x Hx) as Hxo. pose proof (xo_id _ _ _ Hxo) as Hrange.
  assert (t ∈ ts_sq_list (w_ts w)) as Hin by (rewrite Hsq; set_solver).
  destruct (xo_sq _ _ _ Hxo Hin) as [Ho Hpu]. destruct (xo_fresh _ _ _ Hxo Hpu) as [Hcl _].
  assert (ts_ids (w_ts w) !! tf_id x = Some t) as Hself by (apply (xo_ids _ _ _ Hxo Hcl); congruence).
  destruct Hids as [A B C D E].
  assert (tf_id x ∉ due w) as Hnew.
  { intros Hd. destruct (B _ Hd) as (u & y & Hy & Hu & Ey); [unfold MX_PING_ID in *; lia|].
    pose proof (hw_id _ _ _ Hi Hy (or_introl Hu)) as H1. rewrite Ey, Hself in H1. injection H1 as <-.
    apply (xo_hw _ _ _ Hxo) in Hu. destruct Hu. congruence. }
  constructor; rewrite ?Eh, ?Ec, ?Ed, ?Ew; try done.
  - intros id [Hid|Hid]%elem_of_app Hp.
    + destruct (B id Hid Hp) as (u & y & Hy & Hu & Hyi). destruct (tstep_keeps _ _ _ _ Hst Hy) as (y' & Hy' & E' & _).
      exists u, y'. split_and!; [done | set_solver | congruence].
    + apply list_elem_of_singleton in Hid as ->. exists t, x'. split_and!; [done | set_solver | done].
  - intros u y' Hu Hy'. destruct (decide (u = t)) as [->|Hne]; [simplify_eq; rewrite Ex'; set_solver|].
    assert (u ∈ ts_hw (w_ts w)) as Hu' by set_solver. destruct (hw_known _ _ Hi Hu') as [y Hy].
    destruct (tstep_keeps _ _ _ _ Hst Hy) as (y2 & Hy2 & E' & _). simplify_eq. rewrite E'.
    apply elem_of_app. left. by apply (C u).
  - rewrite list.filter_app. apply list.NoDup_app. split; [done|]. split.
    + intros i [_ Hi1]%list_elem_of_filter Hi2. apply list_elem_of_filter in Hi2 as [_ Hi2].
      apply list_elem_of_singleton in Hi2 as ->. done.
    + apply list.NoDup_filter, NoDup_singleton.
  - rewrite E. symmetry. apply map_id_of_step; [done|]. intros u. by apply cq_known.
Qed.

Lemma pipe_submit w t l lv_on now h' :
  pipe_inv w → ts_dma_reclaim_safe (w_ts w) = false → ts_sq_list (w_ts w) = t :: l →
  submit_iter command lv_on tt now (w_h w) = (true, h') →
  pipe_inv (w <| w_h := h' |> <| w_sent := w_sent w ++ [command t] |>).
Proof.
  intros [R L] Hs Hsq Hit. destruct (L Hs) as (S1 & S2 & S3). pose proof (ts_reachable_inv _ R) as Hi.
  destruct (submit_iter_spec _ _ _ _ _ _ Hsq Hit) as (x & Hx & Hp & Et & Eq).
  destruct (push_sides w h' _ (command t) S1 S2 Hp (common_rings _) Eq) as (P1 & P2 & P3 & P4).
  constructor.
  - eapply reach_step; [exact R|]. match goal with |- tstep _ ?s => change s with (hs_ts h') end. rewrite Et. by apply (TsSubmit _ _ _ l).
  - intros _. split_and!; [done | done |]. by apply (ids_submit w _ t x l).
Qed.

(** The watchdog pushes only into a ring with room. *)
Lemma pinged_pushable p e q : (mx_liveness_watchdog p e q).2 = true → wg_pushable e = true.
Proof.
  unfold mx_liveness_watchdog, watchdog_idle. cbv zeta. destruct (wg_pushable e); [done|].
  repeat (case_match; try done). all: rewrite orb_true_r in *; done.
Qed.

Lemma watchdog_spec p e h :
  hs_ts (watchdog_tick p e h) = hs_ts h ∧
  hs_q (watchdog_tick p e h) =
    if (mx_liveness_watchdog p e (common_lv h)).2 then push_mx_command build_ping_command_v2 (hs_q h) else hs_q h.
Proof. unfold watchdog_tick. destruct (mx_liveness_watchdog _ _ _) as [lv [|]]; done. Qed.

Lemma pipe_watchdog w p e :
  pipe_inv w → wg_pushable e = is_pushable (w_q w) →
  pipe_inv (w <| w_h := watchdog_tick p e (w_h w) |>
              <| w_sent := if (mx_liveness_watchdog p e (common_lv (w_h w))).2
                           then w_sent w ++ [build_ping_command_v2] else w_sent w |>).
Proof.
  intros [R L] He. destruct (watchdog_spec p e (w_h w)) as [Et Eq].
  constructor; [by change (w_ts _) with (hs_ts (watchdog_tick p e (w_h w))); rewrite Et|].
  change (w_ts _) with (hs_ts (watchdog_tick p e (w_h w))). rewrite Et. intros Hs. destruct (L Hs) as (S1 & S2 & S3).
  pose proof (pinged_pushable p e (common_lv (w_h w))) as Hping.
  destruct ((mx_liveness_watchdog p e (common_lv (w_h w))).2).
  - rewrite He in Hping.
    destruct (push_sides w _ (w_q w) build_ping_command_v2 S1 S2 (Hping eq_refl) ltac:(by constructor) Eq) as (P1 & P2 & P3 & P4).
    split_and!; [done | done |]. destruct S3 as [A B C D E].
    assert (∀ id, id ∈ due w ++ (if answers build_ping_command_v2 then [MX_PING_ID] else []) → id ≠ MX_PING_ID → id ∈ due w)
      as Hd by (intros id; rewrite elem_of_app; destruct (answers _); set_solver).
    change (c2_command_id build_ping_command_v2) with MX_PING_ID in P3.
    constructor; rewrite ?P3, ?P4; unfold w_ts; cbn; rewrite ?Et; try done.
    + intros id Hid Hp. apply B; [by apply Hd | done].
    + intros t x Ht Hx. apply elem_of_app. left. by apply (C t).
    + rewrite list.filter_app. destruct (answers _); [rewrite filter_cons_False by tauto|]; by rewrite app_nil_r.
  - split_and!.
    + eapply (sq_side_frame w); try done; unfold w_q; cbn; rewrite ?Eq; try done. pose proof (ss_order _ S1). lia.
    + eapply (cq_side_frame w); try done; unfold w_q; cbn; by rewrite ?Eq.
    + destruct S3. constructor; unfold w_ts; cbn; rewrite ?Et; done.
Qed.

(** ** Doorbells *)

Lemma mod_near d a b : 0 < d → 0 ≤ b - a < d → a mod d = b mod d → a = b.
Proof.
  intros Hd Hab E. pose proof (Z.div_mod a d). pose proof (Z.div_mod b d).
  assert (b - a = d * (b / d - a / d)) by lia. assert (b / d - a / d = 0) by nia. lia.
Qed.

(** Fewer than [depth] commands are pushed between two rings of the doorbell, so equal
    tails mean nothing was pushed. *)
Lemma doorbell_exact w : sq_side w → q2_last_sq_tail (w_q w) = q2_sq_tail (w_q w) → w_rung w = length (w_sent w).
Proof.
  intros [[] ? ? ?] E. unfold w_depth in *. apply Nat2Z.inj, (mod_near (q2_depth (w_q w))); [lia | lia | congruence].
Qed.

Lemma cq_doorbell_exact w : cq_side w → q2_last_cq_head (w_q w) = q2_cq_head (w_q w) → w_acked w = w_popped w.
Proof.
  intros [[] ? ? ? ? ? ? ? ? ?] E. unfold w_depth in *. apply Nat2Z.inj, (mod_near (q2_depth (w_q w))); [lia | lia | congruence].
Qed.

Lemma post_submit_rung w :
  sq_side w → (if q2_last_sq_tail (w_q w) =? q2_sq_tail (w_q w) then w_rung w else length (w_sent w)) = length (w_sent w).
Proof. intros S. destruct (Z.eqb_spec (q2_last_sq_tail (w_q w)) (q2_sq_tail (w_q w))); [by apply doorbell_exact | done]. Qed.

Lemma post_complete_acked w :
  cq_side w → (if q2_last_cq_head (w_q w) =? q2_cq_head (w_q w) then w_acked w else w_popped w) = w_popped w.
Proof. intros S. destruct (Z.eqb_spec (q2_last_cq_head (w_q w)) (q2_cq_head (w_q w))); [by apply cq_doorbell_exact | done]. Qed.

Lemma ids_same w w' :
  w_ts w' = w_ts w → due w' = due w → waiting_ids w' = waiting_ids w → ids_ok w → ids_ok w'.
Proof. intros E1 E2 E3 []. constructor; rewrite ?E1, ?E2, ?E3; done. Qed.

Lemma pipe_post_submit w :
  pipe_inv w → ts_dma_reclaim_safe (w_ts w) = false →
  pipe_inv (after_post_submit w).
Proof.
  intros [R L] Hs. destruct (L Hs) as (S1 & S2 & S3). constructor; [done|]. intros _.
  unfold after_post_submit. rewrite (post_submit_rung w S1). pose proof S1 as [Q1 Q2 Q3 Q4]. cbn [ops_post_submit v2_queue_ops].
  split_and!; [| |by apply (ids_same w)].
  - unfold ring_sq_doorbell. destruct (Z.eqb_spec (q2_last_sq_tail (w_q w)) (q2_sq_tail (w_q w))) as [E|E].
    + pose proof (doorbell_exact w S1 E) as Er. constructor; unfold w_q, w_depth; cbn -[Z.modulo]; rewrite <- ?Er; try done. lia.
    + constructor; unfold w_q, w_depth; cbn -[Z.modulo]; try done; try lia; [by eapply (sq_ring2_frame (w_q w)) | apply Q1..].
  - eapply (cq_side_frame w); try done; unfold w_q, ring_sq_doorbell; cbn; by case_match.
Qed.

Lemma pipe_post_complete w :
  pipe_inv w → ts_dma_reclaim_safe (w_ts w) = false →
  pipe_inv (after_post_complete w).
Proof.
  intros [R L] Hs. destruct (L Hs) as (S1 & S2 & S3). constructor; [done|]. intros _.
  unfold after_post_complete. rewrite (post_complete_acked w S2). cbn [ops_post_complete v2_queue_ops].
  split_and!; [| |by apply (ids_same w)].
  - eapply (sq_side_frame w); try done; unfold w_q, ring_cq_doorbell; cbn; try by case_match. pose proof (ss_order _ S1). lia.
  - unfold ring_cq_doorbell. pose proof S2 as [Q1 Q2 Q3 Q4 Q5 Q6 Q7 Q8 Q9 Q10].
    destruct (Z.eqb_spec (q2_last_cq_head (w_q w)) (q2_cq_head (w_q w))) as [E|E].
    + pose proof (cq_doorbell_exact w S2 E) as Er. rewrite Er in Q2, Q3, Q4, Q5. constructor; unfold w_q, w_depth; cbn -[Z.modulo]; try done; lia.
    + unfold w_depth, w_q in *. constructor; unfold w_depth, w_q; cbn -[Z.modulo]; try done; try lia;
        [by eapply (cq_ring_frame (hs_q (w_h w))) | apply Q1..].
Qed.

(** ** The device *)

(** The next command the device reads is the next one pushed. *)
Lemma untaken_slot w i c :
  sq_side w → (w_seen w ≤ i)%nat → w_sent w !! i = Some c → q2_sqes (w_q w) (Z.of_nat i mod w_depth w) = c.
Proof. intros [R _ _ _] Hi Hc. apply (s2_entries _ _ _ R); [lia | by rewrite Nat2Z.id]. Qed.

Lemma pipe_take w c :
  pipe_inv w → ts_dma_reclaim_safe (w_ts w) = false → (w_taken w < w_rung w)%nat →
  q2_sqes (w_q w) (Z.of_nat (w_taken w) mod w_depth w) = c →
  pipe_inv (w <| w_taken := S (w_taken w) |> <| w_busy := if answers c then w_busy w ++ [c2_command_id c] else w_busy w |>).
Proof.
  intros [R L] Hs Hlt Hc. destruct (L Hs) as (S1 & S2 & S3). pose proof (ss_order _ S1) as Ho.
  destruct (lookup_lt_is_Some_2 (w_sent w) (w_taken w)) as [c' Hc']; [lia|].
  rewrite (untaken_slot w _ c') in Hc by (done || lia). subst c'.
  constructor; [done|]. intros _. split_and!.
  - eapply (sq_side_frame w); try done. cbn. lia.
  - eapply (cq_side_frame w); try done. cbn. lia.
  - apply (ids_same w); try done. unfold due. cbn. rewrite (drop_S _ _ _ Hc').
    destruct (decide (answers c = true)) as [E|E].
    + rewrite filter_cons_True by done. rewrite E. cbn. by rewrite <- app_assoc.
    + rewrite filter_cons_False by done. by destruct (answers c).
Qed.

Lemma due_split w l1 id l2 :
  w_busy w = l1 ++ id :: l2 →
  ∃ r, due w = l1 ++ id :: r ∧ ∀ w', w_busy w' = l1 ++ l2 → w_taken w' = w_taken w → w_sent w' = w_sent w → due w' = l1 ++ r.
Proof.
  intros E. eexists. split; [unfold due; rewrite E, <- app_assoc; reflexivity|].
  intros w' E1 E2 E3. unfold due. by rewrite E1, E2, E3, <- app_assoc.
Qed.

Lemma waiting_snoc w w' c :
  (w_popped w ≤ length (w_posted w))%nat → w_popped w' = w_popped w → w_posted w' = w_posted w ++ [c] →
  waiting_ids w' = waiting_ids w ++ (if decide (ce_command_id c = MX_PING_ID) then [] else [ce_command_id c]).
Proof.
  intros Hl E1 E2. unfold waiting_ids, live_ids. rewrite E1, E2, drop_app_le, fmap_app, list.filter_app by done.
  f_equal. cbn [fmap list_fmap]. destruct (decide _); [by rewrite filter_cons_False by tauto | by rewrite filter_cons_True].
Qed.

(** The transfers when the device posts the completion with [id]. *)
Lemma ids_post w w' l1 id l2 c :
  ts_inv (w_ts w) → ids_ok w → (w_popped w ≤ length (w_posted w))%nat →
  w_busy w = l1 ++ id :: l2 → ce_command_id c = id →
  w_ts w' = device_completes id (w_ts w) → w_busy w' = l1 ++ l2 → w_taken w' = w_taken w → w_sent w' = w_sent w →
  w_popped w' = w_popped w → w_posted w' = w_posted w ++ [c] →
  rtc tstep (w_ts w) (w_ts w') ∧ ts_dma_reclaim_safe (w_ts w') = ts_dma_reclaim_safe (w_ts w) ∧ ids_ok w'.
Proof.
  intros Hi [A B C D E] Hl Eb Eid Ets Eb' Et Es Ep Eps.
  destruct (due_split w l1 id l2 Eb) as (r & Ed & Hd). specialize (Hd w' Eb' Et Es).
  pose proof (waiting_snoc w w' c Hl Ep Eps) as Ew. rewrite Eid in Ew.
  assert (∀ i, i ∈ due w' → i ∈ due w) as Hsub by (intros i; rewrite Ed, Hd; set_solver).
  rewrite Ed, list.filter_app in D. destruct (decide (id = MX_PING_ID)) as [Hp|Hp].
  - rewrite filter_cons_False in D by tauto.
    assert (w_ts w' = w_ts w) as Es' by (rewrite Ets; unfold device_completes; case_match; [by rewrite Hp | done]).
    rewrite Es'. split_and!; [done | done |]. constructor; rewrite ?Es'; try done.
    + intros i Hin. by apply B, Hsub.
    + intros t x Ht Hx. pose proof (C t x Ht Hx) as Hin. rewrite Ed in Hin. rewrite Hd.
      pose proof (xo_id _ _ _ (ti_x _ Hi t x Hx)) as Hr. assert (tf_id x ≠ id) by (rewrite Hp; unfold MX_PING_ID in *; lia).
      set_solver.
    + by rewrite Hd, list.filter_app.
    + by rewrite Ew, app_nil_r.
  - rewrite filter_cons_True in D by done.
    destruct (B id) as (t & x & Hx & Ht & Ex); [rewrite Ed; set_solver | done |].
    pose proof (hw_id _ _ _ Hi Hx (or_introl Ht)) as Hid. rewrite Ex in Hid.
    assert (w_ts w' = (w_ts w) <| ts_hw := ts_hw (w_ts w) ∖ {[t]} |> <| ts_cq := ts_cq (w_ts w) ++ [t] |>) as Es'.
    { rewrite Ets. unfold device_completes. rewrite Hid. by rewrite (proj2 (Z.eqb_neq _ _)). }
    assert (id ∉ l1 ++ r) as Hno.
    { apply list.NoDup_app in D as (_ & D1 & D2). apply list.NoDup_cons in D2 as [D2 _]. intros [Hin|Hin]%elem_of_app.
      - apply (D1 id); [by apply list_elem_of_filter | apply elem_of_cons; by left].
      - by apply D2, list_elem_of_filter. }
    rewrite Es'. split_and!; [by apply rtc_once, TsDevice | done |]. constructor; rewrite ?Es'; cbn; try done.
    + intros i Hin Hip. destruct (B i (Hsub i Hin) Hip) as (u & y & Hy & Hu & Ey). exists u, y. split_and!; [done | | done].
      apply elem_of_difference. split; [done|]. intros Hut%elem_of_singleton.
      apply Hno. rewrite <- Hd. assert (id = i) as ->; [congruence | done].
    + intros u y [Hu Hne]%elem_of_difference Hy. pose proof (C u y Hu Hy) as Hin. rewrite Ed in Hin. rewrite Hd.
      assert (tf_id y ≠ id) as Hne'.
      { intros Ey. pose proof (hw_id _ _ _ Hi Hy (or_introl Hu)) as H1. rewrite Ey in H1. set_solver. }
      set_solver.
    + rewrite Hd, list.filter_app. apply list.NoDup_app in D as (D1 & D2 & D3). apply list.NoDup_cons in D3 as [_ D3].
      apply list.NoDup_app. split_and!; [done | | done]. set_solver.
    + rewrite Ew, E, fmap_app. f_equal. cbn. unfold id_of. cbn. by rewrite Hx, <- Ex.
Qed.

Lemma pipe_post w l1 id l2 c :
  pipe_inv w → ts_dma_reclaim_safe (w_ts w) = false → w_busy w = l1 ++ id :: l2 →
  Z.of_nat (length (w_posted w)) - Z.of_nat (w_acked w) < w_depth w - 1 →
  ce_command_id c = id → Z.land (ce_status c) 1 = lap_phase (w_depth w) (Z.of_nat (length (w_posted w))) →
  ce_sq_head c = Z.of_nat (w_taken w) mod w_depth w →
  pipe_inv (w <| w_h := (w_h w) <| hs_q := device_post c (w_posted w) (w_q w) |>
                                <| hs_ts := device_completes id (w_ts w) |> |>
              <| w_busy := l1 ++ l2 |> <| w_posted := w_posted w ++ [c] |> <| w_heads := w_heads w ++ [w_taken w] |>).
Proof.
  intros [R L] Hs Eb Hroom Eid Eph Ehd. destruct (L Hs) as (S1 & S2 & S3). pose proof (ts_reachable_inv _ R) as Hi.
  pose proof S2 as [Q1 Q2 Q3 Q4 Q5 Q6 Q7 Q8 Q9 Q10].
  match goal with |- pipe_inv ?w' => set (w1 := w') end.
  destruct (ids_post w w1 l1 id l2 c Hi S3) as (H1 & H2 & H3); try done; [lia|].
  constructor; [unfold ts_reachable in *; etrans; [exact R | exact H1]|]. intros _. split_and!; [| |done].
  - eapply (sq_side_frame w); try done. pose proof (ss_order _ S1). cbn. lia.
  - pose proof (ss_order _ S1) as Ho. unfold w_depth in *. constructor; unfold w_depth, w_q, w1; cbn -[Z.modulo]; try done.
    + apply post_ring; [done | lia | done].
    + rewrite length_app. cbn. lia.
    + rewrite length_app. cbn. unfold w_q in *. lia.
    + rewrite !length_app. cbn. by rewrite Q6.
    + intros i c' k Hc Hk. apply lookup_app_Some in Hc, Hk. rewrite Q6 in Hk.
      destruct Hc as [Hc|[Hge Hc]], Hk as [Hk|[Hge' Hk]]; [by eapply Q7 | | |].
      * apply lookup_lt_Some in Hc. lia.
      * apply lookup_lt_Some in Hk. lia.
      * destruct (i - length (w_posted w))%nat; [cbn in Hc, Hk; by simplify_eq | done].
    + intros i k Hi' Hk. apply lookup_app_Some in Hk as [Hk|[_ Hk]]; [by apply (Q8 i)|].
      destruct (i - _)%nat; [cbn in Hk; simplify_eq; lia | done].
    + intros i k Hk. apply lookup_app_Some in Hk as [Hk|[_ Hk]]; [by apply (Q9 i)|].
      destruct (i - _)%nat; [by cbn in Hk; simplify_eq | done].
    + intros i j k m Hij Hk Hm. apply lookup_app_Some in Hk, Hm. destruct Hk as [Hk|[Hge Hk]], Hm as [Hm|[Hge' Hm]].
      * by apply (Q10 i j).
      * destruct (j - _)%nat; [cbn in Hm; simplify_eq; by apply (Q9 i) | done].
      * apply lookup_lt_Some in Hm. lia.
      * destruct (i - _)%nat, (j - _)%nat; cbn in Hk, Hm; simplify_eq; done.
Qed.

(** ** Popping *)

Lemma pop_fields q :
  let q' := (pop_mx_completion q).2 in
  q2_sqes q' = q2_sqes q ∧ q2_sq_tail q' = q2_sq_tail q ∧ q2_depth q' = q2_depth q ∧
  q2_last_sq_tail q' = q2_last_sq_tail q ∧ q2_sq_db q' = q2_sq_db q ∧
  q2_last_cq_head q' = q2_last_cq_head q ∧ q2_cq_db q' = q2_cq_db q.
Proof. unfold pop_mx_completion, update_cq_doorbell. cbn. by case_match. Qed.

(** The completion taken is the next one posted. *)
Lemma complete_iter_spec w now ns info h' :
  cq_side w → complete_iter tt now ns (w_h w) = (Some info, h') →
  ∃ c q', w_posted w !! w_popped w = Some c ∧ info = (ce_command_id c, ce_result c, 0) ∧ hs_q h' = q' ∧
    pop_mx_completion (common_q (w_h w)) = (c, q') ∧
    cq_ring q' (w_posted w) (Z.of_nat (S (w_popped w))) ∧ q2_sq_head q' = ce_sq_head c ∧
    hs_ts h' = if ce_command_id c =? MX_PING_ID then w_ts w
               else complete_one (ce_command_id c) ((w_ts w) <| ts_cq := tail (ts_cq (w_ts w)) |>).
Proof.
  intros S2. unfold complete_iter. cbn [ops_is_popable ops_pop_completion v2_queue_ops].
  assert (cq_ring (common_q (w_h w)) (w_posted w) (Z.of_nat (w_popped w))) as Hr.
  { eapply (cq_ring_frame (w_q w)); try done. apply S2. }
  destruct (QueueV2.is_popable _) eqn:Hp; [|done]. apply (popable_posted _ _ _ Hr) in Hp.
  destruct (lookup_lt_is_Some_2 (w_posted w) (w_popped w)) as [c Hc]; [lia|].
  destruct (pop_ring _ _ _ Hr c) as (q' & E1 & E2 & E3); [by rewrite Nat2Z.id|].
  cbn [negb]. unfold v2_pop_completion. cbn [hs_q]. change (hs_q (_ <| hs_q := ?q |>)) with q. rewrite E1.
  intros [= <- <-]. exists c, q'. split_and!; try done.
  - by replace (Z.of_nat (S (w_popped w))) with (Z.of_nat (w_popped w) + 1) by lia.
  - cbn. by case_match.
Qed.

Lemma waiting_head w w' c :
  w_posted w !! w_popped w = Some c → w_popped w' = S (w_popped w) → w_posted w' = w_posted w →
  waiting_ids w = (if decide (ce_command_id c = MX_PING_ID) then [] else [ce_command_id c]) ++ waiting_ids w'.
Proof.
  intros Hc E1 E2. unfold waiting_ids, live_ids. rewrite E1, E2, (drop_S _ _ _ Hc). cbn [fmap list_fmap].
  destruct (decide _); [by rewrite filter_cons_False by tauto | by rewrite filter_cons_True].
Qed.

Lemma complete_keeps id s :
  ts_hw (complete_one id s) = ts_hw s ∧ ts_cq (complete_one id s) = ts_cq s ∧
  ts_dma_reclaim_safe (complete_one id s) = ts_dma_reclaim_safe s.
Proof. unfold complete_one, transfer_id_claim_completion. by repeat (case_match; simplify_eq). Qed.

(** The transfers when the entry [c] is popped: it is a pong, or it claims the transfer at
    the head of the list. *)
Lemma ids_complete w w' c :
  ts_inv (w_ts w) → ids_ok w → w_posted w !! w_popped w = Some c →
  w_ts w' = (if ce_command_id c =? MX_PING_ID then w_ts w
             else complete_one (ce_command_id c) ((w_ts w) <| ts_cq := tail (ts_cq (w_ts w)) |>)) →
  w_popped w' = S (w_popped w) → w_posted w' = w_posted w → due w' = due w →
  rtc tstep (w_ts w) (w_ts w') ∧ ts_dma_reclaim_safe (w_ts w') = ts_dma_reclaim_safe (w_ts w) ∧ ids_ok w'.
Proof.
  intros Hi [A B C D E] Hc Ets E1 E2 Ed. pose proof (waiting_head w w' c Hc E1 E2) as Ew. rewrite E in Ew.
  destruct (Z.eqb_spec (ce_command_id c) MX_PING_ID) as [Hp|Hp].
  - rewrite decide_True in Ew by done. rewrite Ets. split_and!; [done | done |]. by constructor; rewrite ?Ets, ?Ed, <- ?Ew.
  - rewrite decide_False in Ew by done. destruct (ts_cq (w_ts w)) as [|t l] eqn:Ecq; [done|]. cbn in Ew.
    injection Ew as Eid Ew. destruct (cq_known _ t Hi) as [x Hx]; [rewrite Ecq; set_solver|].
    rewrite (id_of_some _ _ _ Hx) in Eid. cbn [tail] in Ets. rewrite <- Eid in Ets.
    assert (tstep (w_ts w) (w_ts w')) as Hst by (rewrite Ets; by apply (TsComplete _ t x l)).
    destruct (complete_keeps (tf_id x) ((w_ts w) <| ts_cq := l |>)) as (K1 & K2 & K3). rewrite <- Ets in K1, K2, K3.
    cbn in K1, K2, K3. split_and!; [by apply rtc_once | done |]. constructor; rewrite ?K1, ?K2, ?Ed; try done.
    + eapply commands_ok_step; [exact Hst | rewrite Ets; intros u; by apply complete_dom | done].
    + intros id Hid Hip. destruct (B id Hid Hip) as (u & y & Hy & Hu & Ey).
      destruct (tstep_keeps _ _ _ _ Hst Hy) as (y' & Hy' & E' & _). exists u, y'. split_and!; [done | done | congruence].
    + intros u y' Hu Hy'. destruct (hw_known _ _ Hi Hu) as [y Hy].
      destruct (tstep_keeps _ _ _ _ Hst Hy) as (y2 & Hy2 & E' & _). simplify_eq. rewrite E'. by apply (C u).
    + rewrite <- Ew. symmetry. apply map_id_of_step; [done|]. intros u Hu. apply (cq_known _ u Hi). rewrite Ecq. set_solver.
Qed.

Lemma pipe_complete w now ns info h' :
  pipe_inv w → ts_dma_reclaim_safe (w_ts w) = false → complete_iter tt now ns (w_h w) = (Some info, h') →
  pipe_inv (w <| w_h := h' |> <| w_popped := S (w_popped w) |> <| w_seen := default (w_seen w) (w_heads w !! w_popped w) |>).
Proof.
  intros [R L] Hs Hit. destruct (L Hs) as (S1 & S2 & S3). pose proof (ts_reachable_inv _ R) as Hi.
  destruct (complete_iter_spec _ _ _ _ _ S2 Hit) as (c & q' & Hc & _ & Eq & Epop & Hring & Ehd & Ets).
  pose proof S2 as [Q1 Q2 Q3 Q4 Q5 Q6 Q7 Q8 Q9 Q10]. pose proof S1 as [T1 T2 T3 T4].
  destruct (lookup_lt_is_Some_2 (w_heads w) (w_popped w)) as [k Hk]; [rewrite Q6; by eapply lookup_lt_Some|].
  rewrite Hk. cbn [default]. pose proof (Q8 _ _ (Nat.le_refl _) Hk) as K1. pose proof (Q9 _ _ Hk) as K2.
  pose proof (pop_fields (common_q (w_h w))) as F. rewrite Epop in F. destruct F as (F1 & F2 & F3 & F4 & F5 & F6 & F7).
  match goal with |- pipe_inv ?w' => set (w1 := w') end.
  destruct (ids_complete w w1 c Hi S3 Hc) as (H1 & H2 & H3); try done.
  constructor; [unfold ts_reachable in *; etrans; [exact R | exact H1]|]. intros _.
  pose proof (lookup_lt_Some _ _ _ Hc). unfold w_depth, w_q in *. cbn -[Z.modulo] in F1, F2, F3, F4, F5, F6, F7.
  split_and!; [| |done].
  - destruct T1. constructor; unfold w_depth, w_q, w1; cbn -[Z.modulo]; rewrite ?Eq, ?F3, ?F4, ?F5; try done; [|lia].
    constructor; rewrite ?F1, ?F2, ?F3; try done; [|lia|lia|].
    + rewrite Ehd. by eapply Q7.
    + intros i c' Hi'. apply s2_entries. lia.
  - constructor; unfold w_depth, w_q, w1; cbn -[Z.modulo]; rewrite ?Eq, ?F3, ?F6, ?F7; try done; [lia|].
    intros i m Him Hm. by apply (Q10 (w_popped w) i); [lia|..].
Qed.

(** ** The tests that end a loop *)

Lemma complete_iter_none now ns h h' :
  complete_iter tt now ns h = (None, h') → is_popable (common_q h) = false ∧ h' = h <| hs_q := common_q h |>.
Proof.
  unfold complete_iter. cbn [ops_is_popable v2_queue_ops]. destruct (QueueV2.is_popable _) eqn:E; cbn [negb].
  - intros H. repeat case_match; simplify_eq.
  - by intros [= <-].
Qed.

Lemma submit_iter_false lv_on now h h' :
  submit_iter command lv_on tt now h = (false, h') → h' = h ∨ h' = h <| hs_q := common_q h |>.
Proof. unfold submit_iter. cbn [ops_is_pushable v2_queue_ops]. intros H. repeat case_match; simplify_eq; auto. Qed.

Lemma pipe_same_rings w h' :
  pipe_inv w → hs_ts h' = w_ts w → same_rings (w_q w) (hs_q h') → pipe_inv (w <| w_h := h' |>).
Proof.
  intros [R L] Et Hq. constructor; [unfold w_ts in *; cbn; by rewrite Et|].
  intros Hs. change (ts_dma_reclaim_safe (hs_ts h') = false) in Hs. rewrite Et in Hs.
  destruct (L Hs) as (S1 & S2 & S3). destruct Hq. split_and!; [| |by apply (ids_same w)].
  - eapply (sq_side_frame w); try done. pose proof (ss_order _ S1). cbn. lia.
  - by eapply (cq_side_frame w).
Qed.

Lemma pipe_common w : pipe_inv w → pipe_inv (w <| w_h := (w_h w) <| hs_q := common_q (w_h w) |> |>).
Proof. intros Hp. apply pipe_same_rings; [done..|]. apply common_rings. Qed.

Lemma pipe_hold w lv_on now h' :
  pipe_inv w → submit_iter command lv_on tt now (w_h w) = (false, h') → pipe_inv (w <| w_h := h' |>).
Proof.
  intros Hp [->| ->]%submit_iter_false; [by apply pipe_same_rings | by apply pipe_common].
Qed.

Lemma pipe_idle w now ns h' :
  pipe_inv w → complete_iter tt now ns (w_h w) = (None, h') → pipe_inv (w <| w_h := h' |>).
Proof. intros Hp [_ ->]%complete_iter_none. by apply pipe_common. Qed.

(** ** Reachable worlds *)

Lemma w0_inv qid depth now : 2 ≤ depth ≤ 65535 → pipe_inv (w0 qid depth now).
Proof.
  intros Hd. constructor; [apply rtc_refl|]. intros _. split_and!.
  - constructor; unfold w_depth, w_q; cbn -[Z.modulo]; try lia; try (by rewrite Z.mod_0_l by lia).
    constructor; cbn -[Z.modulo]; try done; try lia; by rewrite Z.mod_0_l by lia.
  - constructor; unfold w_depth, w_q; cbn -[Z.modulo]; try done; try lia; try (by rewrite Z.mod_0_l by lia).
    by apply configured_ring.
  - constructor; cbn; try done; try set_solver. constructor.
Qed.

Lemma pstep_inv w w' : pipe_inv w → pstep w w' → pipe_inv w'.
Proof.
  intros Hi Hst. destruct Hst; eauto using pipe_waiter, pipe_submit, pipe_hold, pipe_watchdog, pipe_post_submit, pipe_take, pipe_post,
    pipe_complete, pipe_idle, pipe_post_complete.
  subst s'. destruct Hi as [R L]. constructor; [eapply reach_step; [exact R | apply TsReclaimSafe] | done].
Qed.

Lemma pipe_run w w' : pipe_inv w → rtc pstep w w' → pipe_inv w'.
Proof. intros Hp Hr. induction Hr as [|w1 w2 w3 H12 _ IH]; [done|]. apply IH. by eapply pstep_inv. Qed.

Lemma pipe_reachable qid depth now w : 2 ≤ depth ≤ 65535 → rtc pstep (w0 qid depth now) w → pipe_inv w.
Proof.
  intros Hd. by apply pipe_run, w0_inv.
Qed.

(** ** Passes of the threads *)

Lemma unclaimed_bound s t x : ts_inv s → ts_x s !! t = Some x → unclaimed x ≤ ts_wait_count s.
Proof.
  intros Hi Hx. rewrite (ti_wait _ Hi). apply (msum_lookup unclaimed _ t); [|done].
  intros u y _. unfold unclaimed. destruct (_ && _); cbn; lia.
Qed.

Lemma parked_bound s t x : ts_inv s → ts_x s !! t = Some x → 0 ≤ parked x ≤ ts_zombie_wait_count s.
Proof.
  intros Hi Hx. rewrite (ti_zombies _ Hi). split; [by unfold parked; case_match|].
  apply (msum_lookup parked _ t); [|done]. intros u y _. by unfold parked; case_match.
Qed.

(** A live completion in the ring keeps [wait_count] above zero, so the test sees it. *)
Lemma live_popable w :
  pipe_inv w → ts_dma_reclaim_safe (w_ts w) = false → waiting_ids w ≠ [] → is_popable (common_q (w_h w)) = true.
Proof.
  intros [R L] Hs Hw. destruct (L Hs) as (S1 & S2 & S3). pose proof (ts_reachable_inv _ R) as Hi.
  assert (cq_ring (common_q (w_h w)) (w_posted w) (Z.of_nat (w_popped w))) as Hr.
  { eapply (cq_ring_frame (w_q w)); try done. apply S2. }
  rewrite (popable_iff _ _ _ Hr).
  - apply bool_decide_eq_true. destruct (decide (w_popped w < length (w_posted w))%nat) as [?|Hge]; [lia|].
    destruct Hw. unfold waiting_ids. by rewrite drop_ge by lia.
  - left. rewrite (io_cq _ S3) in Hw. destruct (ts_cq (w_ts w)) as [|t l] eqn:Ecq; [done|].
    destruct (cq_known _ t Hi) as [x Hx]; [rewrite Ecq; set_solver|].
    destruct (xo_cq _ _ _ (ti_x _ Hi t x Hx)) as (P1 & P2 & P3 & _); [rewrite Ecq; set_solver|].
    change (q2_wait_count (common_q (w_h w))) with (ts_wait_count (w_ts w)). pose proof (unclaimed_bound _ _ _ Hi Hx) as H.
    unfold unclaimed in H. rewrite P1, P2, P3 in H. cbn in H. lia.
Qed.

Lemma idle_spec w now ns h' :
  pipe_inv w → ts_dma_reclaim_safe (w_ts w) = false → complete_iter tt now ns (w_h w) = (None, h') →
  waiting_ids (w <| w_h := h' |>) = [] ∧ ts_dma_reclaim_safe (w_ts (w <| w_h := h' |>)) = false.
Proof.
  intros Hp Hs [Hno ->]%complete_iter_none. split; [|done]. change (waiting_ids w = []).
  destruct (waiting_ids w) eqn:E; [done|]. by rewrite live_popable in Hno; [..|rewrite E].
Qed.

(** The loop leaves an entry in the ring only when it has stopped looking: nothing is
    outstanding and no probe is out. *)
Definition unseen_only (w : world) : Prop :=
  (w_popped w < length (w_posted w))%nat → ts_wait_count (w_ts w) = 0 ∧ lv_inflight (hs_lv (w_h w)) = 0.

Lemma idle_unseen w now ns h' :
  pipe_inv w → ts_dma_reclaim_safe (w_ts w) = false → complete_iter tt now ns (w_h w) = (None, h') →
  unseen_only (w <| w_h := h' |>).
Proof.
  intros [R L] Hs [Hno ->]%complete_iter_none. destruct (L Hs) as (_ & S2 & _). unfold unseen_only. cbn. intros Hlt.
  assert (cq_ring (common_q (w_h w)) (w_posted w) (Z.of_nat (w_popped w))) as Hr.
  { eapply (cq_ring_frame (w_q w)); try done. apply S2. }
  assert (0 ≤ ts_wait_count (w_ts w)) as Hpos.
  { rewrite (ti_wait _ (ts_reachable_inv _ R)). apply msum_nonneg. intros t x _. unfold unclaimed. by destruct (_ && _). }
  change (hs_ts (w_h w)) with (w_ts w).
  destruct (decide (0 < ts_wait_count (w_ts w) ∨ nz (lv_inflight (hs_lv (w_h w))) = true)) as [Hw|Hw].
  - rewrite (popable_iff _ _ _ Hr Hw) in Hno. apply bool_decide_eq_false in Hno. lia.
  - apply Decidable.not_or in Hw as [H1 H2%not_true_is_false]. breflect. split; [lia | done].
Qed.

(** The loop of one pass, the device posting nothing meanwhile. *)
Lemma complete_loop_drains rd now ns fuel i w :
  pipe_inv w → ts_dma_reclaim_safe (w_ts w) = false → (length (w_posted w) - w_popped w ≤ fuel)%nat →
  ∃ n h' w', complete_loop rd now ns fuel i (w_h w) = Some ((i + n)%nat, h') ∧ rtc pstep w w' ∧ w_h w' = h' ∧
    waiting_ids w' = [] ∧ ts_dma_reclaim_safe (w_ts w') = false ∧
    w_posted w' = w_posted w ∧ w_popped w' = (w_popped w + n)%nat ∧ unseen_only w'.
Proof.
  revert i w. induction fuel as [|fuel IH]; intros i w Hp Hs Hf.
  all: destruct (complete_iter tt (now i) (ns i) (w_h w)) as [[info|] h1] eqn:Hit.
  all: cbn [complete_loop]; destruct (rd i); rewrite Hit.
  2, 4: exists O, h1, (w <| w_h := h1 |>); rewrite Nat.add_0_r; split; [done|];
    split; [by apply rtc_once, (PsIdle w (now i) (ns i))|]; split; [done|];
    destruct (idle_spec _ _ _ _ Hp Hs Hit); pose proof (idle_unseen _ _ _ _ Hp Hs Hit);
    split_and!; cbn; try done; lia.
  all: destruct (proj2 (pi_live _ Hp Hs)) as [S2 _];
    destruct (complete_iter_spec _ _ _ _ _ S2 Hit) as (c & _ & Hc & _ & _ & _ & _ & _ & Ets); apply lookup_lt_Some in Hc.
  1: lia.
  pose proof (pipe_complete w _ _ _ _ Hp Hs Hit) as Hp1. match type of Hp1 with pipe_inv ?w' => set (w1 := w') in * end.
  assert (ts_dma_reclaim_safe (w_ts w1) = false) as Hs1.
  { change (w_ts w1) with (hs_ts h1). rewrite Ets. case_match; [done|]. by rewrite (proj2 (proj2 (complete_keeps _ _))). }
  destruct (IH (S i) w1 Hp1 Hs1) as (n & h' & w' & E1 & E2 & E3 & E4 & E5 & E6 & E7 & E8); [cbn; lia|].
  exists (S n), h', w'. split_and!; try done.
  - change (w_h w1) with h1 in E1. rewrite E1. do 2 f_equal. lia.
  - eapply rtc_l; [|exact E2]. by apply (PsComplete w (now i) (ns i) info h1).
  - rewrite E7. cbn. lia.
Qed.

(** ** The submit pass *)

Lemma submit_pops t x l s :
  ts_sq_list s = t :: l → NoDup (ts_sq_list s) → ts_sq_list (submit_one t x s) = l.
Proof.
  intros E Hnd. assert (list_remove t (ts_sq_list s) = l) as Hl.
  { rewrite E in *. apply list.NoDup_cons in Hnd as [Hn _]. unfold list_remove. rewrite filter_cons_False by tauto.
    clear E. induction l as [|u l IH]; [done|]. rewrite filter_cons_True by set_solver. f_equal. apply IH. set_solver. }
  unfold submit_one. by case_match.
Qed.

Lemma submit_iter_stops lv_on now h h' :
  (∀ t, t ∈ ts_sq_list (hs_ts h) → is_Some (ts_x (hs_ts h) !! t)) →
  submit_iter command lv_on tt now h = (false, h') →
  ts_sq_list (hs_ts h) = [] ∨ (lv_on = true ∧ lv_inflight (hs_lv h) ≠ 0) ∨ is_pushable (hs_q h) = false.
Proof.
  intros Hk H. unfold submit_iter in H. destruct (ts_sq_list (hs_ts h)) as [|t l]; [by left|]. right.
  destruct (lv_on && nz (lv_inflight (hs_lv h))) eqn:E1; [left; by breflect|].
  cbn [ops_is_pushable v2_queue_ops] in H. change (is_pushable (common_q h)) with (is_pushable (hs_q h)) in H.
  destruct (is_pushable (hs_q h)); [|by right]. cbn in H. destruct (Hk t) as [x Hx]; [set_solver|]. by rewrite Hx in H.
Qed.

(** The loop of one pass, the waiters and the device doing nothing meanwhile. *)
Lemma submit_loop_pushes lv_on rd now fuel i w :
  pipe_inv w → ts_dma_reclaim_safe (w_ts w) = false → (length (ts_sq_list (w_ts w)) ≤ fuel)%nat →
  ∃ k w', submit_loop command lv_on rd now fuel i (w_h w) = ((i + k)%nat, w_h w') ∧ rtc pstep w w' ∧
    w_sent w' = w_sent w ++ (command <$> take k (ts_sq_list (w_ts w))) ∧
    ts_sq_list (w_ts w') = drop k (ts_sq_list (w_ts w)) ∧ ts_dma_reclaim_safe (w_ts w') = false ∧
    lv_inflight (hs_lv (w_h w')) = lv_inflight (hs_lv (w_h w)) ∧ w_seen w' = w_seen w ∧
    (ts_sq_list (w_ts w') = [] ∨ (lv_on = true ∧ lv_inflight (hs_lv (w_h w)) ≠ 0) ∨ is_pushable (w_q w') = false).
Proof.
  revert i w. induction fuel as [|fuel IH]; intros i w Hp Hs Hf; pose proof (ts_reachable_inv _ (pi_reach _ Hp)) as Hi.
  { destruct (ts_sq_list (w_ts w)) eqn:E; [|cbn in Hf; lia]. exists O, w. cbn. rewrite Nat.add_0_r, app_nil_r.
    split_and!; try done. by left. }
  cbn [submit_loop]. destruct (rd i). destruct (submit_iter command lv_on tt (now i) (w_h w)) as [[|] h1] eqn:Hit.
  - destruct (ts_sq_list (w_ts w)) as [|t l] eqn:E.
    { unfold submit_iter in Hit. change (hs_ts (w_h w)) with (w_ts w) in Hit. by rewrite E in Hit. }
    destruct (submit_iter_spec _ _ _ _ _ _ E Hit) as (x & Hx & _ & Ets & _).
    pose proof (ts_sq_nodup _ (pi_reach _ Hp)) as Hnd. pose proof (submit_pops t x l _ E Hnd) as Hl.
    pose proof (pipe_submit w t l lv_on (now i) h1 Hp Hs E Hit) as Hp1.
    set (w1 := w <| w_h := h1 |> <| w_sent := w_sent w ++ [command t] |>) in *.
    assert (w_ts w1 = submit_one t x (w_ts w)) as Ets1 by done.
    assert (ts_dma_reclaim_safe (w_ts w1) = false) as Hs1 by (rewrite Ets1; unfold submit_one; by case_match).
    assert (ts_sq_list (w_ts w1) = l) as El by by rewrite Ets1.
    assert (lv_inflight (hs_lv h1) = lv_inflight (hs_lv (w_h w))) as Elv.
    { clear -Hit. unfold submit_iter in Hit. by repeat (case_match; simplify_eq/=). }
    destruct (IH (S i) w1 Hp1 Hs1) as (k & w' & F1 & F2 & F3 & F4 & F5 & F6 & F7 & F8); [rewrite El; cbn in Hf; lia|].
    rewrite El in F3, F4. exists (S k), w'. change (hs_lv (w_h w1)) with (hs_lv h1) in F6, F8. rewrite Elv in F6, F8.
    split_and!; try done.
    + rewrite Nat.add_succ_r. exact F1.
    + eapply rtc_l; [|exact F2]. by apply (PsSubmit w t l lv_on (now i)).
    + rewrite F3. cbn. by rewrite <- app_assoc.
  - exists O, (w <| w_h := h1 |>). rewrite Nat.add_0_r, app_nil_r. cbn [take drop].
    pose proof (submit_iter_false _ _ _ _ Hit) as Hh. split_and!; try done.
    + by apply rtc_once, (PsHold w lv_on (now i)).
    + by destruct Hh as [->| ->].
    + by destruct Hh as [->| ->].
    + by destruct Hh as [->| ->].
    + apply submit_iter_stops in Hit; [|intros t Ht; apply (ti_known _ Hi); by left].
      change (w_ts (w <| w_h := h1 |>)) with (hs_ts h1). change (w_q (w <| w_h := h1 |>)) with (hs_q h1).
      by destruct Hh as [->| ->].
Qed.

Lemma watchdog_tail p e w :
  pipe_inv w → ts_dma_reclaim_safe (w_ts w) = false → wg_pushable e = is_pushable (w_q w) →
  ∃ ping w', w_h w' = (if liveness_enable p then watchdog_tick p e (w_h w) else w_h w) ∧ rtc pstep w w' ∧ pipe_inv w' ∧
    w_sent w' = w_sent w ++ (if ping : bool then [build_ping_command_v2] else []) ∧ w_ts w' = w_ts w.
Proof.
  intros Hp Hs He. destruct (liveness_enable p); [|exists false, w; by rewrite app_nil_r].
  exists ((mx_liveness_watchdog p e (common_lv (w_h w))).2). eexists. split_and!.
  2: by apply rtc_once, (PsWatchdog w p e).
  - done.
  - by apply pipe_watchdog.
  - cbn. destruct (_.2); [done | by rewrite app_nil_r].
  - exact (proj1 (watchdog_spec p e (w_h w))).
Qed.

Lemma depth_step w w' : pstep w w' → w_depth w' = w_depth w.
Proof.
  intros Hst. destruct Hst as [|t l lv_on now h' _ Hsq Hit|lv_on now h' Hit|p e _ _| | |l1 id l2 c|now ns info h' _ Hit|now ns h' Hit| |];
    unfold w_depth, w_q; cbn -[watchdog_tick]; try done.
  - destruct (submit_iter_spec _ _ _ _ _ _ Hsq Hit) as (x & _ & _ & _ & ->). done.
  - by destruct (submit_iter_false _ _ _ _ Hit) as [->| ->].
  - rewrite (proj2 (watchdog_spec p e (w_h w))). by case_match.
  - unfold ring_sq_doorbell. by case_match.
  - unfold complete_iter in Hit. cbn [ops_is_popable ops_pop_completion v2_queue_ops] in Hit.
    destruct (QueueV2.is_popable _); [|done]. cbn [negb] in Hit. unfold v2_pop_completion in Hit.
    pose proof (pop_fields (common_q (w_h w))) as F. destruct (pop_mx_completion _) as [c q'] eqn:E.
    injection Hit as _ <-. exact (proj1 (proj2 (proj2 F))).
  - by apply complete_iter_none in Hit as [_ ->].
  - unfold ring_cq_doorbell. by case_match.
Qed.

Lemma depth_run w w' : rtc pstep w w' → w_depth w' = w_depth w.
Proof. induction 1 as [|w1 w2 w3 H12 _ IH]; [done|]. rewrite IH. by apply depth_step. Qed.

Lemma depth_const {qid depth now} w w' : rtc pstep (w0 qid depth now) w → rtc pstep w w' → q2_depth (w_q w') = depth.
Proof. intros H1 H2. change (w_depth w' = depth). by rewrite (depth_run _ _ H2), (depth_run _ _ H1). Qed.

Lemma claimed_by_completion t x l s :
  ts_inv s → ts_x s !! t = Some x → ts_cq s = t :: l →
  ∃ x', ts_x (complete_one (tf_id x) (s <| ts_cq := tail (ts_cq s) |>)) !! t = Some x' ∧ tf_wait_claimed x' = true.
Proof.
  intros Hi Hx Hcq. pose proof (claim_own s t x Hi Hx) as Hcl. rewrite Hcq in Hcl. specialize (Hcl ltac:(set_solver)).
  unfold complete_one, transfer_id_claim_completion in *. cbn. destruct (ts_ids s !! tf_id x) as [u|]; [|done].
  destruct (ts_x s !! u) as [y|]; [|done]. destruct (tf_wait_claimed y); [done|]. simplify_eq. cbn.
  destruct (tf_is_zombie _); cbn; rewrite ?insert_insert_eq, lookup_insert_eq; by eexists.
Qed.

(** ** Theorems *)

Context (qid depth now0 : Z) (Hdepth : 2 ≤ depth ≤ 65535).
Implicit Types w : world.

(** C3: the rings implement the set and the list of Transfer.  Whatever the waiters, the
    cleaner, both handler threads and a device that answers in any order do: the transfers
    take only steps of Transfer; as long as the queue exists, the ids the device owes a
    completion for (taken, or still in the submission ring) are, pings aside, exactly the
    ids of the transfers it owns, each once; and the live completions in the ring are, in
    order, the ids of the transfers waiting for the complete thread. *)
Theorem v2_pipeline_refines w :
  rtc pstep (w0 qid depth now0) w →
  ts_reachable (w_ts w) ∧
  (ts_dma_reclaim_safe (w_ts w) = false →
   (∀ id, id ≠ MX_PING_ID →
      id ∈ due w ↔ ∃ t x, t ∈ ts_hw (w_ts w) ∧ ts_x (w_ts w) !! t = Some x ∧ tf_id x = id) ∧
   NoDup (filter (fun id => id ≠ MX_PING_ID) (due w)) ∧
   waiting_ids w = id_of (w_ts w) <$> ts_cq (w_ts w)).
Proof using Hdepth.
  intros Hr. destruct (pipe_reachable _ _ _ _ Hdepth Hr) as [R L]. split; [done|].
  intros (_ & _ & [A B C D E])%L. split_and!; try done. intros id Hid. split.
  - intros Hin. destruct (B id Hin Hid) as (t & x & Hx & Ht & Ex). by exists t, x.
  - intros (t & x & Ht & Hx & <-). by apply (C t).
Qed.

(** C4: nothing is lost or mistaken on the way.  The slots the device has not read hold the
    commands pushed, in order, and after the doorbell was rung the device knows of all of
    them although the ring wraps; a live completion in the ring is always seen by the test
    of the complete loop; and a completion it takes, unless a pong, is the next one posted
    and claims a transfer with its id that nobody had claimed: the warning about an unknown
    transfer is never reached. *)
Theorem v2_pipeline_exact w :
  rtc pstep (w0 qid depth now0) w → ts_dma_reclaim_safe (w_ts w) = false →
  (∀ i c, (w_taken w ≤ i)%nat → w_sent w !! i = Some c → q2_sqes (w_q w) (Z.of_nat i mod w_depth w) = c) ∧
  w_rung (after_post_submit w) = length (w_sent w) ∧ w_acked (after_post_complete w) = w_popped w ∧
  (∀ now ns, waiting_ids w ≠ [] → ∃ info h', complete_iter tt now ns (w_h w) = (Some info, h')) ∧
  (∀ now ns info h', complete_iter tt now ns (w_h w) = (Some info, h') →
     (∃ c, w_posted w !! w_popped w = Some c ∧ info = (ce_command_id c, ce_result c, 0)) ∧
     (info.1.1 ≠ MX_PING_ID →
      ∃ t x x', ts_x (w_ts w) !! t = Some x ∧ tf_id x = info.1.1 ∧ tf_wait_claimed x = false ∧
        ts_x (hs_ts h') !! t = Some x' ∧ tf_wait_claimed x' = true)).
Proof using Hdepth.
  intros Hr Hs. pose proof (pipe_reachable _ _ _ _ Hdepth Hr) as Hp. pose proof (ts_reachable_inv _ (pi_reach _ Hp)) as Hi.
  destruct (pi_live _ Hp Hs) as (S1 & S2 & S3). split_and!.
  - intros i c Hge. apply untaken_slot; [done|]. pose proof (ss_order _ S1). lia.
  - by apply post_submit_rung.
  - by apply post_complete_acked.
  - intros now ns Hw. destruct (complete_iter tt now ns (w_h w)) as [[info|] h'] eqn:Hit; [by eauto|].
    destruct Hw. by apply (idle_spec w now ns h').
  - intros now ns info h' Hit. destruct (complete_iter_spec _ _ _ _ _ S2 Hit) as (c & q' & Hc & -> & _ & _ & _ & _ & Ets).
    split; [by eauto|]. cbn. intros Hid. rewrite (proj2 (Z.eqb_neq _ _) Hid) in Ets.
    set (w1 := w <| w_h := h' |> <| w_popped := S (w_popped w) |>).
    pose proof (waiting_head w w1 c Hc eq_refl eq_refl) as Ew. rewrite decide_False, (io_cq _ S3) in Ew by done.
    destruct (ts_cq (w_ts w)) as [|t l] eqn:Ecq; [done|]. injection Ew as Eid _.
    destruct (cq_known _ t Hi) as [x Hx]; [rewrite Ecq; set_solver|]. rewrite (id_of_some _ _ _ Hx) in Eid.
    destruct (xo_cq _ _ _ (ti_x _ Hi t x Hx)) as (_ & Hcl & _ & _); [rewrite Ecq; set_solver|].
    destruct (claimed_by_completion t x l (w_ts w) Hi Hx Ecq) as (x' & Hx' & Hcl').
    rewrite Ecq in Hx'. rewrite <- Eid in Ets. exists t, x, x'. rewrite Ets. by split_and!.
Qed.

(** C14: a pass of the complete thread ends and leaves no live completion behind.  With as
    much fuel as entries are posted the pass ends; it is made of the steps above; it pops a
    run of the entries not popped yet, from the first on, and resets the idle count exactly
    when it popped any; afterwards no live completion is in the ring, every transfer whose
    completion was posted has been claimed, and the doorbell shows the device all that was
    popped.  It may leave entries: these are pongs, and they stay only when nothing is
    outstanding and no probe is out, so that [is_popable] no longer looks at the ring. *)
Theorem v2_complete_pass w rd now ns fuel idle_count :
  rtc pstep (w0 qid depth now0) w → ts_dma_reclaim_safe (w_ts w) = false →
  (length (w_posted w) - w_popped w ≤ fuel)%nat →
  ∃ idle w', mx_complete_handler rd now ns fuel idle_count (w_h w) = Some (idle, w_h w') ∧ rtc pstep w w' ∧
    waiting_ids w' = [] ∧ w_acked w' = w_popped w' ∧ q2_cq_db (w_q w') = q2_cq_head (w_q w') ∧
    w_posted w' = w_posted w ∧ (w_popped w ≤ w_popped w' ≤ length (w_posted w))%nat ∧
    idle = (if (w_popped w <? w_popped w')%nat then 0 else (poll_backoff idle_count).1) ∧
    ts_cq (w_ts w') = [] ∧
    (∀ c, c ∈ drop (w_popped w') (w_posted w') → ce_command_id c = MX_PING_ID) ∧
    ((w_popped w' < length (w_posted w'))%nat →
     ts_wait_count (w_ts w') = 0 ∧ lv_inflight (hs_lv (w_h w')) = 0).
Proof using Hdepth.
  intros Hr Hs Hf. pose proof (pipe_reachable _ _ _ _ Hdepth Hr) as Hp.
  destruct (complete_loop_drains rd now ns fuel 0 w Hp Hs Hf) as (n & h1 & w1 & E1 & E2 & <- & E4 & E5 & E6 & E7 & E8).
  assert (pipe_inv w1) as Hp1 by (eapply pipe_run; done). destruct (pi_live _ Hp1 E5) as (_ & S2 & S3).
  unfold mx_complete_handler. rewrite E1. cbn [mbind option_bind]. eexists _, (after_post_complete w1). split_and!.
  - reflexivity.
  - eapply rtc_r; [exact E2 | by apply PsPostComplete].
  - done.
  - exact (post_complete_acked w1 S2).
  - assert (pipe_inv (after_post_complete w1)) as Hp2 by by apply pipe_post_complete.
    destruct (pi_live _ Hp2 E5) as (_ & T2 & _). rewrite (cs_db _ T2), (cr_head _ _ _ (cs_ring _ T2)).
    change (w_popped (after_post_complete w1)) with (w_popped w1). by rewrite <- (post_complete_acked w1 S2).
  - done.
  - cbn. lia.
  - pose proof (cs_order _ S2). cbn. rewrite <- E6. lia.
  - change (w_popped (after_post_complete w1)) with (w_popped w1). rewrite E7.
    destruct (Nat.ltb_spec (w_popped w) (w_popped w + n)), (Z.ltb_spec 0 (Z.of_nat (0 + n))); done || lia.
  - change (ts_cq (w_ts w1) = []). pose proof (io_cq _ S3) as Ec. rewrite E4 in Ec. by destruct (ts_cq (w_ts w1)).
  - change (∀ c, c ∈ drop (w_popped w1) (w_posted w1) → ce_command_id c = MX_PING_ID). intros c Hc.
    destruct (decide (ce_command_id c = MX_PING_ID)) as [|Hne]; [done|]. exfalso.
    assert (ce_command_id c ∈ waiting_ids w1) as Hin.
    { unfold waiting_ids, live_ids. apply list_elem_of_filter. split; [done|]. by apply list_elem_of_fmap_2. }
    rewrite E4 in Hin. set_solver.
  - exact E8.
Qed.

(** C15: a pass of the submit thread pushes the queued transfers in order: the commands sent
    are those of the first [k] transfers of the list, followed by at most one ping, the
    others stay queued; it stops early only while a probe is out or because the ring is
    full; and the device has been shown everything sent. *)
Theorem v2_submit_pass w p e rd now idle_count :
  rtc pstep (w0 qid depth now0) w → ts_dma_reclaim_safe (w_ts w) = false →
  wg_pushable e = is_pushable (hs_q
    (submit_loop command (liveness_enable p) rd now (length (ts_sq_list (w_ts w))) 0 (w_h w)).2) →
  ∃ k ping idle w', mx_submit_handler command p e rd now idle_count (w_h w) = (idle, w_h w') ∧ rtc pstep w w' ∧
    w_sent w' = w_sent w ++ (command <$> take k (ts_sq_list (w_ts w))) ++
                (if ping : bool then [build_ping_command_v2] else []) ∧
    ts_sq_list (w_ts w') = drop k (ts_sq_list (w_ts w)) ∧
    w_rung w' = length (w_sent w') ∧
    (ts_sq_list (w_ts w') = [] ∨ (liveness_enable p = true ∧ lv_inflight (hs_lv (w_h w)) ≠ 0) ∨
     Z.of_nat (length (w_sent w) + length (take k (ts_sq_list (w_ts w)))) - Z.of_nat (w_seen w) = depth - 1).
Proof using Hdepth.
  intros Hr Hs. pose proof (pipe_reachable _ _ _ _ Hdepth Hr) as Hp.
  destruct (submit_loop_pushes (liveness_enable p) rd now _ 0 w Hp Hs (Nat.le_refl _)) as
    (k & w1 & E1 & E2 & E3 & E4 & E5 & E6 & E7 & E8). rewrite E1. cbn [snd]. intros He.
  assert (pipe_inv w1) as Hp1 by (eapply pipe_run; done).
  destruct (watchdog_tail p e w1 Hp1 E5 He) as (ping & w2 & F1 & F2 & F3 & F4 & F5).
  assert (ts_dma_reclaim_safe (w_ts w2) = false) as Hs2 by by rewrite F5.
  destruct (pi_live _ F3 Hs2) as (S2 & _). destruct (pi_live _ Hp1 E5) as (S1 & _).
  exists k, ping. eexists _, (after_post_submit w2). unfold mx_submit_handler.
  change (hs_ts (w_h w)) with (w_ts w). rewrite E1, <- F1. split_and!.
  - reflexivity.
  - eapply rtc_r; [etrans; [exact E2 | exact F2] | by apply PsPostSubmit].
  - cbn. by rewrite F4, E3, app_assoc.
  - change (w_ts (after_post_submit w2)) with (w_ts w2). by rewrite F5.
  - exact (post_submit_rung w2 S2).
  - change (w_ts (after_post_submit w2)) with (w_ts w2). rewrite F5. destruct E8 as [E8|[E8|E8]]; [by left | by right; left|].
    right; right. rewrite (pushable_iff _ _ _ (ss_ring _ S1)) in E8. apply bool_decide_eq_false in E8.
    pose proof (s2_room _ _ _ (ss_ring _ S1)) as Hroom. rewrite E3, length_app, length_fmap, E7 in E8, Hroom.
    rewrite (depth_const _ _ Hr E2) in E8, Hroom. lia.
Qed.

(** C21: what the drain of the teardown waits for is enough.  When the queue is idle (nothing
    queued, both counters zero, as [mxdma_io_queue_idle] of src/init.c reads them), the
    device owes completions for pings only, no live completion is in the ring, every command
    pushed has reached a terminal state, and no transfer is parked with the cleaner. *)
Theorem idle_queue_quiet w :
  rtc pstep (w0 qid depth now0) w → ts_dma_reclaim_safe (w_ts w) = false → queue_idle (w_ts w) = true →
  ts_hw (w_ts w) = ∅ ∧ (∀ id, id ∈ due w → id = MX_PING_ID) ∧ waiting_ids w = [] ∧
  (∀ t x, ts_x (w_ts w) !! t = Some x →
    (tf_pushed x = true → tf_wait_claimed x = true ∨ tf_no_completion x = true) ∧ parked x = 0).
Proof using Hdepth.
  intros Hr Hs Hidle. pose proof (pipe_reachable _ _ _ _ Hdepth Hr) as Hp. pose proof (ts_reachable_inv _ (pi_reach _ Hp)) as Hi.
  destruct (pi_live _ Hp Hs) as (_ & _ & S3). unfold queue_idle in Hidle. breflect.
  assert (∀ t x, ts_x (w_ts w) !! t = Some x →
    (tf_pushed x = true → tf_wait_claimed x = true ∨ tf_no_completion x = true) ∧ parked x = 0) as Hx.
  { intros t x Hx. pose proof (unclaimed_bound _ _ _ Hi Hx). pose proof (parked_bound _ _ _ Hi Hx).
    unfold unclaimed in *. split; [|lia]. intros Hpu. rewrite Hpu in *.
    destruct (tf_wait_claimed x), (tf_no_completion x); cbn in *; auto. lia. }
  assert (ts_hw (w_ts w) = ∅) as Eh.
  { apply set_eq. intros t. split; [|set_solver]. intros Ht. destruct (hw_known _ _ Hi Ht) as [x Hxt].
    destruct (xo_hw _ _ _ (ti_x _ Hi t x Hxt) Ht) as (P1 & P2 & P3 & _). destruct (proj1 (Hx t x Hxt) P1); congruence. }
  split_and!; [done | | | done].
  - intros id Hid. destruct (decide (id = MX_PING_ID)) as [->|Hne]; [done|].
    destruct (io_due _ S3 id Hid Hne) as (t & x & _ & Ht & _). rewrite Eh in Ht. set_solver.
  - rewrite (io_cq _ S3). destruct (ts_cq (w_ts w)) as [|t l] eqn:Ecq; [done|]. exfalso.
    destruct (cq_known _ t Hi) as [x Hxt]; [rewrite Ecq; set_solver|].
    destruct (xo_cq _ _ _ (ti_x _ Hi t x Hxt)) as (P1 & P2 & P3 & _); [rewrite Ecq; set_solver|].
    destruct (proj1 (Hx t x Hxt) P1); congruence.
Qed.
End pipeline.

(** ** Examples *)

(** Transfer 0 with id 5 on a queue of four entries. *)
Definition demo_command (_ : nat) : mx_command := cmd2_zero <| c2_command_id := 5 |>.
Definition demo_answers (_ : mx_command) : bool := true.
Notation demo_pstep := (pstep demo_command demo_answers).

Definition demo_queued_ts : tsys :=
  mx_transfer_queue 0 (MkXfer 5 false false false false false OAlloc) (alloc_mx_transfer 0 5 false ts0).
Definition demo_with (s : tsys) : world :=
  MkW ((mx_queue_common_init 0 (configure_queue 1 (queue_zero 4))) <| hs_ts := s |>) [] 0 0 [] [] [] 0 0 0.

Lemma demo_commands_ok s x : ts_x s = {[0%nat := x]} → tf_id x = 5 → tf_no_completion x = false →
  commands_ok demo_command demo_answers s.
Proof. intros E E1 E2 t y Hy. rewrite E in Hy. apply lookup_singleton_Some in Hy as [<- <-]. by rewrite E1, E2. Qed.

Lemma demo_waiter s s' x :
  tstep s s' → ts_hw s' = ts_hw s → ts_cq s' = ts_cq s → ts_dma_reclaim_safe s' = ts_dma_reclaim_safe s →
  ts_x s' = {[0%nat := x]} → tf_id x = 5 → tf_no_completion x = false → tf_pushed x = false →
  demo_pstep (demo_with s) (demo_with s').
Proof.
  intros H1 H2 H3 H4 H5 H6 H7 H8. apply (PsWaiter _ _ (demo_with s) s'); [split_and!; try done | by eapply demo_commands_ok].
  intros t y Hy Hp. rewrite H5 in Hy. apply lookup_singleton_Some in Hy as [<- <-]. congruence.
Qed.

Lemma demo_queued_reachable : rtc demo_pstep (w0 1 4 0) (demo_with demo_queued_ts).
Proof.
  eapply rtc_l; [|apply rtc_once].
  - eapply (demo_waiter ts0); [apply (TsAlloc _ 0 5 false); [done | done | by vm_compute] | done..].
  - eapply demo_waiter; [by apply (TsQueue _ 0 (MkXfer 5 false false false false false OAlloc)) | done..].
Qed.

(** Pushed, shown to the device, taken, completed. *)
Definition demo_cqe : mx_completion := MkCqe 0 1 0 5 1.

Lemma pair_true {A} (r : bool * A) : r.1 = true → r = (true, r.2).
Proof. by destruct r as [[|] a]. Qed.

Lemma demo_completed : ∃ w, rtc demo_pstep (w0 1 4 0) w ∧ ts_dma_reclaim_safe (w_ts w) = false ∧ waiting_ids w = [5].
Proof.
  eexists. split; [etrans; [exact demo_queued_reachable|]|].
  - eapply rtc_l; [apply (PsSubmit _ _ _ 0%nat [] false 0); [reflexivity | reflexivity | apply pair_true; vm_compute; reflexivity]|].
    eapply rtc_l; [apply PsPostSubmit; vm_compute; reflexivity|].
    eapply rtc_l; [apply (PsTake _ _ _ (demo_command 0)); [| apply Nat.ltb_lt |]; vm_compute; reflexivity|].
    eapply rtc_l; [apply (PsPost _ _ _ [] 5 [] demo_cqe); vm_compute; reflexivity|]. apply rtc_refl.
  - by vm_compute.
Qed.

Lemma v2_pipeline_refines_witness :
  ∃ w, waiting_ids w = [5] ∧ ts_reachable (w_ts w) ∧ id_of (w_ts w) <$> ts_cq (w_ts w) = [5].
Proof.
  destruct demo_completed as (w & Hr & Hs & Hw).
  destruct (v2_pipeline_refines demo_command demo_answers 1 4 0 ltac:(lia) w Hr) as [H1 H2].
  destruct (H2 Hs) as (_ & _ & H3). exists w. rewrite <- H3. by split_and!.
Defined.

Lemma v2_pipeline_exact_witness :
  ∃ (h h' : hstate mx_queue_v2) info, complete_iter tt 0 0 h = (Some info, h').
Proof.
  destruct demo_completed as (w & Hr & Hs & Hw).
  destruct (v2_pipeline_exact demo_command demo_answers 1 4 0 ltac:(lia) w Hr Hs) as (_ & _ & _ & H & _).
  destruct (H 0 0) as (info & h' & Hit); [by rewrite Hw|]. by exists (w_h w), h', info.
Defined.

Lemma v2_complete_pass_witness :
  ∃ w idle w', waiting_ids w = [5] ∧ 
    mx_complete_handler (fun _ => tt) (fun _ => 0) (fun _ => 0) (length (w_posted w)) 7 (w_h w) = Some (idle, w_h w') ∧
    waiting_ids w' = [].
Proof.
  destruct demo_completed as (w & Hr & Hs & Hw).
  destruct (v2_complete_pass demo_command demo_answers 1 4 0 ltac:(lia) w (fun _ => tt) (fun _ => 0) (fun _ => 0)
    (length (w_posted w)) 7 Hr Hs ltac:(lia)) as (idle & w' & H1 & _ & H2 & _).
  exists w, idle, w'. by split_and!.
Defined.

Lemma v2_submit_pass_witness :
  ∃ k ping idle w',
    mx_submit_handler demo_command (MkParams true 10 100 1) (MkWd 1000 (fun _ => 0) (fun _ => 0) true (fun _ => []))
      (fun _ => tt) (fun _ => 0) 7 (w_h (demo_with demo_queued_ts)) = (idle, w_h w') ∧
    w_sent w' = [] ++ (demo_command <$> take k [0%nat]) ++ (if ping : bool then [build_ping_command_v2] else []) ∧
    w_rung w' = length (w_sent w').
Proof.
  destruct (v2_submit_pass demo_command demo_answers 1 4 0 ltac:(lia) _ (MkParams true 10 100 1)
    (MkWd 1000 (fun _ => 0) (fun _ => 0) true (fun _ => [])) (fun _ => tt) (fun _ => 0) 7
    demo_queued_reachable eq_refl eq_refl) as (k & ping & idle & w' & H1 & _ & H2 & _ & H3 & _).
  exists k, ping, idle, w'. by split_and!.
Defined.

Lemma pair_some {A B} (r : option A * B) a : r.1 = Some a → r = (Some a, r.2).
Proof. by destruct r as [o b]; cbn; intros ->. Qed.

(** The completion taken: nothing is left. *)
Lemma demo_taken : ∃ w, rtc demo_pstep (w0 1 4 0) w ∧ ts_dma_reclaim_safe (w_ts w) = false ∧
  queue_idle (w_ts w) = true ∧ w_popped w = 1%nat.
Proof.
  eexists. split; [etrans; [exact demo_queued_reachable|]|].
  - eapply rtc_l; [apply (PsSubmit _ _ _ 0%nat [] false 0); [reflexivity | reflexivity | apply pair_true; vm_compute; reflexivity]|].
    eapply rtc_l; [apply PsPostSubmit; vm_compute; reflexivity|].
    eapply rtc_l; [apply (PsTake _ _ _ (demo_command 0)); [| apply Nat.ltb_lt |]; vm_compute; reflexivity|].
    eapply rtc_l; [apply (PsPost _ _ _ [] 5 [] demo_cqe); vm_compute; reflexivity|].
    eapply rtc_l; [apply (PsComplete _ _ _ 0 0 (5, 0, 0)); [| apply pair_some]; vm_compute; reflexivity|]. apply rtc_refl.
  - by vm_compute.
Qed.

Lemma idle_queue_quiet_witness :
  ∃ w : world, w_popped w = 1%nat ∧ ts_hw (w_ts w) = ∅ ∧ waiting_ids w = [].
Proof.
  destruct demo_taken as (w & Hr & Hs & Hi & Hp).
  destruct (idle_queue_quiet demo_command demo_answers 1 4 0 ltac:(lia) w Hr Hs Hi) as (H1 & _ & H2 & _).
  exists w. by split_and!.
Defined.

(** The transfer is pushed and, as the device is slow, a probe too; the device posts the
    completion and then the pong.  The completion ends the probe, so a pass takes the
    completion and leaves the pong in the ring: [is_popable] (src/core_v1.c, src/core_v2.c)
    keeps polling for the pong of a probe only while [lv_inflight] is set, and any
    completion clears it. *)
Definition demo_watch : lv_params := MkParams true 1000 100000 1.
Definition demo_tick : wd_env := MkWd 1000 (fun _ => 6000000000) (fun _ => 6000) true (fun _ => []).
Definition demo_pong : mx_completion := MkCqe 0 2 0 MX_PING_ID 1.

(** Both posted; the first one clears the probe. *)
Lemma demo_both_posted : ∃ w, rtc demo_pstep (w0 1 4 0) w ∧
  (ts_dma_reclaim_safe (w_ts w), w_popped w, w_posted w) = (false, O, [MkCqe 0 2 0 5 1; demo_pong]) ∧
  let '(info, h) := complete_iter tt 0 0 (w_h w) in
  (info, ts_wait_count (hs_ts h), lv_inflight (hs_lv h), ts_dma_reclaim_safe (hs_ts h)) = (Some (5, 0, 0), 0, 0, false).
Proof.
  eexists. split; [etrans; [exact demo_queued_reachable|]|].
  - eapply rtc_l; [apply (PsSubmit _ _ _ 0%nat [] false 0); [reflexivity | reflexivity | apply pair_true; vm_compute; reflexivity]|].
    eapply rtc_l; [apply (PsWatchdog _ _ _ demo_watch demo_tick); vm_compute; reflexivity|].
    eapply rtc_l; [apply PsPostSubmit; vm_compute; reflexivity|].
    eapply rtc_l; [apply (PsTake _ _ _ (demo_command 0)); [| apply Nat.ltb_lt |]; vm_compute; reflexivity|].
    eapply rtc_l; [eapply PsTake; [| apply Nat.ltb_lt | reflexivity]; vm_compute; reflexivity|].
    eapply rtc_l; [apply (PsPost _ _ _ [] 5 [MX_PING_ID] (MkCqe 0 2 0 5 1)); vm_compute; reflexivity|].
    eapply rtc_l; [apply (PsPost _ _ _ [] MX_PING_ID [] demo_pong); vm_compute; reflexivity|]. apply rtc_refl.
  - vm_compute. by split_and!.
Qed.

Lemma demo_pong_left : ∃ w, rtc demo_pstep (w0 1 4 0) w ∧ ts_dma_reclaim_safe (w_ts w) = false ∧
  drop (w_popped w) (w_posted w) = [demo_pong] ∧
  (∀ rd now ns fuel, fst <$> complete_loop rd now ns fuel 0 (w_h w) = Some 0%nat).
Proof.
  destruct demo_both_posted as (w & Hr & Hw & Hit). injection Hw as Hs Hp Hl.
  destruct (complete_iter tt 0 0 (w_h w)) as [info h] eqn:E. injection Hit as -> Hwait Hlv Hs'.
  eexists. split; [eapply rtc_r; [exact Hr | by apply (PsComplete _ _ w 0 0 (5, 0, 0) h)]|].
  split_and!; [done | cbn; by rewrite Hp, Hl |]. intros rd now ns fuel.
  assert (∀ x y, complete_iter tt x y h = (None, h <| hs_q := common_q h |>)) as Hnone.
  { intros x y. unfold complete_iter. cbn [ops_is_popable v2_queue_ops].
    assert (QueueV2.is_popable (common_q h) = false) as ->; [|done]. unfold QueueV2.is_popable. cbn.
    by rewrite Hwait, Hlv. }
  destruct fuel; cbn [complete_loop]; destruct (rd 0%nat); by rewrite Hnone.
Qed.
